(* ===== verification/_CoqProject ===== *)
-Q . S2P
Prelude.v
FaultMonad.v
PaWire.v
OhosSink.v
PaServer.v
PaServerFacts.v
PaServerLoop.v
PaServerProps.v
Gralloc.v
DispWorld.v
HdiLayer.v
HdiDisplay.v
Composition.v
Drm.v
DrmComposition.v
DrmDisplay.v
DrmDisplayProps.v
Vsync.v
Session.v
RilBridge.v
RilDomains.v
RilFacts.v
RilProps.v
RilRadio.v
RilConnect.v
RilCodecs.v
SensorVdi.v
SysfsVdi.v
OutSurface.v
WdSession.v
Compositor.v
CompositorFacts.v
CompositorProps.v
CompositorBuffers.v
