(* ===== verification/Prelude.v ===== *)
(** * Verification of the Oniro SoC adaptation layers

    The repository adapts OpenHarmony to two targets: [hybris_generic] (devices that
    run Android vendor code, with a Waydroid container for Android applications) and
    [x86_general] (the emulator).  This development models five subsystems and
    three small HALs, from the C++ sources under src/, and proves what makes them correct.

    ** The container's audio daemon (src/hybris_generic/waydroid/audio)

    Android inside the container plays sound through a PulseAudio client; the daemon
    speaks that protocol on a socket and plays to OpenHarmony's audio renderer.
    - PaWire.v: pa_wire.h.  Protocol constants, [SampleSpec] arithmetic, [TagWriter]
      and [TagReader] on byte lists, one definition per method.
    - OhosSink.v: ohos_sink.{h,cpp}.  The ring buffer, the public methods, and the
      render thread as a step machine whose steps are its critical sections; the
      renderer's answers are arguments of the steps.
    - PaServer.v: waydroid_audio_main.cpp.  Connections, streams and every command
      handler, [PumpSinks], framing ([ReadFrom], [FlushOut]) and the event loop
      ([run_turn], [Run]); system calls are inputs of a turn, [None] is undefined
      behaviour.  PaServerFacts.v, PaServerLoop.v: lemmas on handlers and on the loop;
      PaServerProps.v: its theorems.
    Theorems: tagstructs round-trip, the reader never leaves its packet and failure is
    sticky; the sink refines a bounded FIFO queue under every interleaving, conserves
    credit and makes progress; the server is safe for any input and schedule, mirrors
    its clients' credit exactly, never stalls a client, answers each command once,
    does nothing for a client that has not authenticated.

    ** The emulator's display (src/x86_general/hardware/display/src)

    A composer service drives the display device through a VDI; buffers come from an
    allocator on DRM dumb buffers.
    - Gralloc.v: display_gralloc/.  Sizes and strides, [AllocMem]/[FreeMem], mapping,
      cache maintenance, the reference-counted [AllocatorManager].
    - DispWorld.v: the state shared by the display's objects (layer objects by address,
      id pools, descriptors, the DRM driver with an oracle for its answers, DRM
      objects), the monad [D] of computations that may fault, and its program logic:
      total ([wp]) and partial ([wlp]) preconditions, and preserved relations
      ([keeps]).
    - HdiLayer.v: core/hdi_layer, hdi_fd, drm/hdi_drm_layer.  Layers, their buffers,
      fences and framebuffers, and an ownership discipline for descriptors.
    - HdiDisplay.v: core/hdi_display, composer/hdi_composer.  The interface
      [HdiComposition] with its laws, the composer and the display.  The display's
      theorems are proved against the interface; Composition.v (GFX and video),
      DrmComposition.v (DRM) and DrmDisplay.v (the two a DRM display owns) discharge
      it.
    - Drm.v: drm_crtc, drm_plane, drm_encoder, drm_connector and the discovery half of
      drm_device.  What the driver lists is data; the iteration order of unordered
      maps is a parameter.
    - DrmComposition.v: hdi_drm_composition.  One atomic request per frame.
    - DrmDisplay.v, DrmDisplayProps.v: drm_display and DiscoveryDisplay; initialisation,
      modes, power, the black frame, backlight; their theorems.
    - Vsync.v: drm_vsync_worker and sorft_vsync, as one machine of critical sections and
      of the accesses to [mCallBack] outside them ([v_race] marks two that overlap).
    - Session.v: hdi_session, hdi_device_interface, DrmDevice::Create and Init, and the
      entry points of display_composer_vdi_impl.
    Theorems: for every sequence of client calls layers stay sorted and accounted for,
    no framebuffer or blob is lost, no descriptor but exactly the fences a log statement
    pops ([dropped]), and nothing dangles but in the cases proved separately; ids of
    layers are fresh; sizes equal a reference; a frame makes exactly the request it
    should; nothing is shown while the power is off; fences are drained; vsyncs arrive,
    stop, and the thread ends, short of a race on the callback.  Several theorems prove defects
    of the code; they are listed as findings.

    ** The container's session service (src/hybris_generic/waydroid/src/waydroid_session.cpp)

    The IPC face of the container's compositor to the shell application.
    - WdSession.v: the request gate and dispatcher, every method of the stub, the
      visibility lease with the cgroup freezer and the touch grab, the control plane
      into Android and its two workers, the task events.  The compositor is the class
      [WlServer] (what the session needs of it); what the kernel, the clock, the parameters and the binder library
      answer to one call is a record [Env]; critical sections are the actions of a
      machine.
    Theorems: published visibility, freezer and touch grab agree under every
    interleaving (but for SET_FOREGROUND, proved to break it); only allowed callers
    reach the container, only while it runs, with valid names; icons come from the icon
    directory, whole; each generation is announced once.

    ** The container's compositor (src/hybris_generic/waydroid/src/wl_server.cpp and others)

    The Wayland server Android's hardware composer draws to; its frames go to windows
    of the OpenHarmony shell through the render service.
    - FaultMonad.v: the state monad of computations that may fault, with loops, a total
      and a partial program logic and preserved relations, shared by the next files.
    - OutSurface.v: wl_output_surface (one output: its node on the display, its buffer
      queue, the release callback) and wlegl_import (the OpenHarmony handle built from
      the container's native handle), with hybris_layer's BuildNativeBuffer, which
      undoes it.
    - Compositor.v: wl_server.cpp.  The record [Server] with the fields of the class and
      libwayland's table of resources ([sv_objs]: an object is alive iff its address is
      there); surfaces, frame callbacks, buffers and their destroy listeners, xdg roles,
      toplevels and what they were told, windows, touch and keyboard, work posted from
      other threads.  One [Act] per protocol request, section of a caller's thread and
      wake-up of the loop; [run] executes a sequence of them.  A caller's
      [ReleaseInFlightOf(0)] is several: it takes the buffers under the lock ([LTake])
      and sends each release later ([LSend]); between the steps of a commit the render
      service's thread and callers' threads act too ([meanwhile]).  What goes to clients is logged in
      [sv_events], what is asked of the render service in [sv_rs].  Using an object that
      is gone is a fault ([None]).
    - CompositorFacts.v: the invariant [wf] of the server (every pointer kept is to a
      live object of the right kind, indices agree) and that each request keeps it;
      CompositorProps.v: the theorems on faults, activation, HOME and input;
      CompositorBuffers.v: the accounting of buffers.
    Theorems: no use after free in disciplined runs ([polite], [disciplined]: one role
    per surface, roles destroyed in order, buffers outlive the commit and the release a
    caller's thread has on the way, their stride in bytes is an int, counters do not
    wrap) and the ways a client, or a client and a caller, break it; a buffer its client
    owns at each commit, and that nobody takes or hands back during it, is released
    exactly once or still owed; the activation pass tells each toplevel what it should
    be, and only between the two halves of a pulse none may be active; HOME is never
    shown; touches go to the client shown, in order, once; a native handle survives its
    import without leaking a descriptor.

    ** The radio bridge (src/hybris_generic/hardware/ril)

    OpenHarmony's telephony (hril) drives the phone's modem through Android's IRadio
    services in the vendor container.  hril hands the vendor library a request that must
    be reported against exactly once; the bridge forwards it under a serial of its own.
    - RilBridge.v: hybris_ril_bridge.{h,cpp}.  hril's and IRadio's types, the record [Ril]
      with the fields of the class and the globals of the domains, serials and the tables
      of pending requests, reports and notifications, the connect thread with its polls.
      hril's requests live in a table by address: a report frees the entry, reading one
      that is not there is a fault.  What the bridge says is logged in [rl_log].
    - RilDomains.v: hybris_ril_modem, _sim, _network, _sms, _data, _call.cpp, a Module
      each: conversions, responses, indications, operations; the tables that dispatch
      them; the machine [act] (a request of hril, an answer or an indication of a service,
      a step of the connect thread, the death of rild) and its runs [ril_run].
    - RilFacts.v: the invariant [wf] and that every action of an orderly run keeps it
      ([orderly]: hril does not reuse the address of a request in use, indications come
      from the two slots, serials stay below INT32_MAX, signal levels do not overflow; the
      answers' serials and errors are free), what each does to the requests, and a Section
      of what most handlers keep.  RilProps.v, RilConnect.v, RilCodecs.v: the theorems.
    - RilRadio.v: the handlers that store and notify the radio state as the steps they
      consist of, interleaved with one another and with the rest; run alone they are the
      handlers of the files above.
    Theorems: each request is reported at most once, never used afterwards, and else waits
    under exactly one serial; every operation is answered in its own domain with its
    error mapped; the modem knows each data profile before it is brought up; no change of
    the radio state is swallowed, and when changes and notifications do not overlap the
    state told is the state kept; the connect thread ends ([connect_first]'s fuel is the
    number of 302-second tries until the services are there, proved to be enough); message
    bytes survive their encoding; signal levels are converted exactly.  Three theorems prove
    defects: requests to a dead rild are stranded, the start-up OFF can stick, an absent
    second slot delays the start by 75 minutes.

    ** Sensors, vibrator, lights (src/hybris_generic/hardware/{sensor,vibrator,light})

    Three HALs that talk to the kernel directly.
    - SensorVdi.v: hybris_sensor_vdi.cpp.  The sensor list and how it settles, enabling
      and rates, callbacks, the dispatch of samples.  The device answers through an [Env]
      per call; what it was told is kept beside the object's state.
    - SysfsVdi.v: hybris_vibrator_vdi.cpp and hybris_light_vdi.cpp over a map of files.
    Theorems: the list holds each sensor once, with the gain its samples are divided by;
    the list the service fetches is complete once the hub is stable (the settle loop's
    fifty polls are the ten seconds of the code); the hub runs what is enabled at the rate
    asked for; samples go up whole, once per callback; the motor is never started without
    its duration; an RGB light shows the colour asked for.

    ** Conventions

    Integers are [Z], with a cast to a width written out where the code has one
    ([u32], [s32], ...).  Maps are [gmap].  A null or dangling dereference is [None].
    Fuel: [idle_loop] gets one more turn than there are ids in use, and is proved to
    find an id; [drain] one more than there are fences, proved to end; the audio
    packet loop and the write loop are bounded by the bytes they consume, and proved
    to consume them.  Answers of the kernel, the driver, the dynamic loader and the
    renderer are inputs; hypotheses on them are named ([releases_granted],
    [driver_grants], [grants_others], [freezer_works]) and shown satisfiable by the witnesses.
    The order in which an unordered_map is walked is a parameter ([hash_order], with the
    hypothesis that it is a permutation); what other threads do between two critical
    sections of the compositor is the oracle [sv_meanwhile].

    ** Not modelled

    Pixel and sample contents of mapped memory, log output, the debug dumps, the
    capability record ([GetDisplayCap]); the netlink monitor, which nothing starts; the
    unused static functions of hdi_session.cpp; sockets' set-up.  Of wl_server.cpp: the
    socket and the event loop ([Init] beyond the fields it sets, [Run], [CreateGlobals]),
    requests that only log, the touch and display probes of waydroid_compositor_main.cpp.
    Of the radio bridge: the loader of bionic's libbinder, the callbacks registered for
    IRadioIms, binder itself (a call to a dead process is lost), and the fields of AIDL
    records that the bridge does not read.  Of the sensor HAL: the polling of the reader
    thread and the destructor.
    The rest of the repository is left out: the hybris HALs for audio, bluetooth, camera,
    codec, display, GNSS and WLAN are adapters whose state lies
    mostly behind vendor libraries that are not in the repository; the container's
    launcher is C that forks, mounts and talks to binder; the NAPI module, the emulator's
    sensor and input drivers are glue; the registration of the session with the system and
    its client proxy are IPC boilerplate; generated (aidl_gen, but for the types the
    bridge uses) and vendored (android_binder_ndk, gpu/third_party) code is not this
    program's.

    This file holds what the others share: machine integers, list and option lemmas,
    tactics. *)

From stdpp Require Export ssreflect base numbers list gmap strings sorting.
From Stdlib Require Export ZArith Lia Ascii.

#[global] Open Scope Z_scope.
Set Warnings "-rewrite-rw".

(** ** Machine integers

    An integer of the C++ code is a [Z]; a cast to a width is written out with
    one of the functions below.  [uN] is the conversion to [uintN_t] and [sN]
    the conversion to [intN_t] (two's complement, as C++20 fixes it and every
    earlier compiler of the tree behaves). *)

Definition u8 (z : Z) : Z := z mod 2 ^ 8.
Definition u32 (z : Z) : Z := z mod 2 ^ 32.
Definition u64 (z : Z) : Z := z mod 2 ^ 64.
Definition s32 (z : Z) : Z := (z + 2 ^ 31) mod 2 ^ 32 - 2 ^ 31.
Definition s64 (z : Z) : Z := (z + 2 ^ 63) mod 2 ^ 64 - 2 ^ 63.

Definition is_u8 (z : Z) : Prop := 0 <= z < 2 ^ 8.
Definition is_u32 (z : Z) : Prop := 0 <= z < 2 ^ 32.
Definition is_u64 (z : Z) : Prop := 0 <= z < 2 ^ 64.
Definition is_s32 (z : Z) : Prop := - 2 ^ 31 <= z < 2 ^ 31.
Definition is_s64 (z : Z) : Prop := - 2 ^ 63 <= z < 2 ^ 63.

#[export] Instance is_u8_dec z : Decision (is_u8 z).
Proof. unfold is_u8. apply _. Defined.
#[export] Instance is_u32_dec z : Decision (is_u32 z).
Proof. unfold is_u32. apply _. Defined.
#[export] Instance is_u64_dec z : Decision (is_u64 z).
Proof. unfold is_u64. apply _. Defined.

(** [width_lia]: linear arithmetic over the width predicates and casts. *)
Ltac unfold_widths :=
  unfold u8, u32, u64, s32, s64, is_u8, is_u32, is_u64, is_s32, is_s64 in *.
Ltac width_lia := unfold_widths; Z.to_euclidean_division_equations; lia.

(** Case analysis on the scrutinee of every [if] and [match] of the goal or of
    a hypothesis, keeping the equations. *)
Ltac break_match_goal :=
  repeat match goal with
  | |- context [match ?x with _ => _ end] => destruct x eqn:?; simplify_eq/=
  end.
Ltac break_match_hyp :=
  repeat match goal with
  | H : context [match ?x with _ => _ end] |- _ => destruct x eqn:?; simplify_eq/=
  end.

(** Turn boolean comparisons of hypotheses and goal into propositions. *)
Ltac bool_props :=
  repeat match goal with
  | H : (_ <? _) = true |- _ => apply Z.ltb_lt in H
  | H : (_ <? _) = false |- _ => apply Z.ltb_ge in H
  | H : (_ <=? _) = true |- _ => apply Z.leb_le in H
  | H : (_ <=? _) = false |- _ => apply Z.leb_gt in H
  | H : (_ =? _) = true |- _ => apply Z.eqb_eq in H
  | H : (_ =? _) = false |- _ => apply Z.eqb_neq in H
  | H : negb _ = true |- _ => apply negb_true_iff in H
  | H : negb _ = false |- _ => apply negb_false_iff in H
  | H : andb _ _ = true |- _ => apply andb_true_iff in H; destruct H
  | H : andb _ _ = false |- _ => apply andb_false_iff in H
  | H : orb _ _ = true |- _ => apply orb_true_iff in H
  | H : orb _ _ = false |- _ => apply orb_false_iff in H; destruct H
  | H : Nat.ltb _ _ = true |- _ => apply Nat.ltb_lt in H
  | H : Nat.ltb _ _ = false |- _ => apply Nat.ltb_ge in H
  | H : Nat.leb _ _ = true |- _ => apply Nat.leb_le in H
  | H : Nat.leb _ _ = false |- _ => apply Nat.leb_gt in H
  end.

Lemma mbind_Some {A B} (f : A → option B) (x : A) : Some x ≫= f = f x.
Proof. done. Qed.

Create HintDb widths discriminated.
Create Rewrite HintDb widths.

Lemma u8_is_u8 z : is_u8 (u8 z).
Proof. unfold is_u8, u8. apply Z.mod_pos_bound. lia. Qed.
Lemma u32_is_u32 z : is_u32 (u32 z).
Proof. unfold is_u32, u32. apply Z.mod_pos_bound. lia. Qed.
Lemma u64_is_u64 z : is_u64 (u64 z).
Proof. unfold is_u64, u64. apply Z.mod_pos_bound. lia. Qed.
Lemma u8_id z : is_u8 z → u8 z = z.
Proof. intros H. by apply Z.mod_small. Qed.
Lemma u32_id z : is_u32 z → u32 z = z.
Proof. intros H. by apply Z.mod_small. Qed.
Lemma u64_id z : is_u64 z → u64 z = z.
Proof. intros H. by apply Z.mod_small. Qed.
Lemma s64_u64 z : is_s64 z → s64 (u64 z) = z.
Proof. intros H. width_lia. Qed.
Lemma is_u8_u32 z : is_u8 z → is_u32 z.
Proof. unfold is_u8, is_u32. lia. Qed.
#[export] Hint Resolve u8_is_u8 u32_is_u32 u64_is_u64 is_u8_u32 : widths.
#[export] Hint Rewrite u8_id u32_id u64_id using (eauto with widths) : widths.

(** ** Bytes

    Memory, sockets and [std::string] hold bytes: a [list Z] whose elements
    satisfy [is_u8]. *)

Abbreviation bytes := (list Z).
Definition bytes_ok (l : bytes) : Prop := Forall is_u8 l.

Definition bytes_of_string (s : string) : bytes :=
  (λ a, Z.of_N (Ascii.N_of_ascii a)) <$> String.list_ascii_of_string s.

(** What [strlen] sees of a character buffer: everything before the first NUL. *)
Fixpoint cstr (l : bytes) : bytes :=
  match l with
  | [] => []
  | b :: l => if b =? 0 then [] else b :: cstr l
  end.

Definition no_nul (l : bytes) : Prop := Forall (λ b, b ≠ 0) l.

Lemma cstr_no_nul l : no_nul (cstr l).
Proof.
  induction l as [|b l IH]; simpl; [constructor|].
  destruct (b =? 0) eqn:E; [constructor|]. bool_props. by constructor.
Qed.
Lemma cstr_id l : no_nul l → cstr l = l.
Proof.
  induction 1 as [|b l Hb _ IH]; [done|]. simpl.
  apply Z.eqb_neq in Hb. by rewrite Hb IH.
Qed.

(** ** Big-endian words *)

Definition be32_bytes (v : Z) : bytes :=
  [u8 (Z.shiftr v 24); u8 (Z.shiftr v 16); u8 (Z.shiftr v 8); u8 v].

Definition be32 (b0 b1 b2 b3 : Z) : Z :=
  Z.lor (Z.lor (Z.lor (Z.shiftl b0 24) (Z.shiftl b1 16)) (Z.shiftl b2 8)) b3.

Lemma land_shiftl_low a n x :
  0 <= n → 0 <= x < 2 ^ n → Z.land (Z.shiftl a n) x = 0.
Proof.
  intros Hn Hx. apply Z.bits_inj'. intros k Hk. rewrite Z.land_spec Z.bits_0.
  destruct (decide (k < n)).
  - by rewrite Z.shiftl_spec_low.
  - rewrite -(Z.mod_small x (2 ^ n)) // Z.mod_pow2_bits_high; [|lia].
    by rewrite andb_false_r.
Qed.

Lemma lor_shiftl_add a n x :
  0 <= n → 0 <= x < 2 ^ n → Z.lor (Z.shiftl a n) x = a * 2 ^ n + x.
Proof.
  intros Hn Hx. rewrite -Z.shiftl_mul_pow2 // -Z.lxor_lor ?land_shiftl_low //.
  by rewrite Z.add_nocarry_lxor ?land_shiftl_low.
Qed.

Lemma be32_sum b0 b1 b2 b3 :
  is_u8 b0 → is_u8 b1 → is_u8 b2 → is_u8 b3 →
  be32 b0 b1 b2 b3 = b0 * 2 ^ 24 + b1 * 2 ^ 16 + b2 * 2 ^ 8 + b3.
Proof.
  unfold is_u8, be32. intros.
  rewrite -!Z.lor_assoc (lor_shiftl_add b2 8); [|lia..].
  rewrite (lor_shiftl_add b1 16); [|lia..].
  rewrite (lor_shiftl_add b0 24); lia.
Qed.

Lemma be32_is_u32 b0 b1 b2 b3 :
  is_u8 b0 → is_u8 b1 → is_u8 b2 → is_u8 b3 → is_u32 (be32 b0 b1 b2 b3).
Proof. intros. rewrite be32_sum //. width_lia. Qed.

Lemma be32_roundtrip v :
  is_u32 v →
  be32 (u8 (Z.shiftr v 24)) (u8 (Z.shiftr v 16)) (u8 (Z.shiftr v 8)) (u8 v) = v.
Proof.
  intros Hv. rewrite be32_sum; auto with widths.
  rewrite !Z.shiftr_div_pow2; [|lia..]. width_lia.
Qed.

Lemma be32_bytes_ok v : bytes_ok (be32_bytes v).
Proof. unfold be32_bytes, bytes_ok. repeat constructor; apply u8_is_u8. Qed.
