(* ===== verification/FaultMonad.v ===== *)
(** * Stateful computations that may fault

    The monad of the files that model object graphs linked by pointers: a computation
    takes a state and gives a result and a new state, or [None] for undefined behaviour
    (a null, dangling or wrongly typed pointer).  Its program logic is a total weakest
    precondition ([safe]): the computation does not fault and ends as the postcondition
    says. *)

From S2P Require Import Prelude.
Set Warnings "-rewrite-rw,-clear-no-such-hyp".

Declare Scope fault_scope.
Delimit Scope fault_scope with fault.

Section monad.
Context {S : Type}.
Definition F (A : Type) := S → option (A * S).
Definition fret {A} (a : A) : F A := λ s, Some (a, s).
Definition fbind {A B} (m : F A) (k : A → F B) : F B := λ s,
  match m s with Some (a, s) => k a s | None => None end.
Definition fault {A} : F A := λ _, None.
Definition fget {A} (f : S → A) : F A := λ s, Some (f s, s).
Definition fmod (f : S → S) : F unit := λ s, Some (tt, f s).
(** A lookup that faults when there is nothing to be found. *)
Definition fsome {A} (o : option A) : F A := λ s,
  match o with Some a => Some (a, s) | None => None end.
Definition fwhen (b : bool) (m : F unit) : F unit := if b then m else fret tt.
(** A statement for what may be null. *)
Definition fopt {A} (o : option A) (f : A → F unit) : F unit :=
  match o with Some a => f a | None => fret tt end.
Fixpoint ffor {A} (l : list A) (f : A → F unit) : F unit :=
  match l with [] => fret tt | a :: l => fbind (f a) (λ _, ffor l f) end.

(** ** Program logic *)

Definition safe {A} (m : F A) (Q : A → S → Prop) (s : S) : Prop :=
  match m s with Some (a, s') => Q a s' | None => False end.

Lemma safe_ret {A} (a : A) (Q : A → S → Prop) s : Q a s → safe (fret a) Q s.
Proof. done. Qed.
Lemma safe_bind {A B} (m : F A) (k : A → F B) (Q : B → S → Prop) s :
  safe m (λ a s', safe (k a) Q s') s → safe (fbind m k) Q s.
Proof. unfold safe, fbind. by destruct (m s) as [[a s']|]. Qed.
Lemma safe_mono {A} (m : F A) (P Q : A → S → Prop) s :
  safe m P s → (∀ a s', P a s' → Q a s') → safe m Q s.
Proof. unfold safe. destruct (m s) as [[a s']|]; auto. Qed.
Lemma safe_seq {A B} (m : F A) (k : A → F B) (P : A → S → Prop) (Q : B → S → Prop) s :
  safe m P s → (∀ a s', P a s' → safe (k a) Q s') → safe (fbind m k) Q s.
Proof. intros Hm Hk. apply safe_bind. by eapply safe_mono. Qed.
Lemma safe_get {A} (f : S → A) (Q : A → S → Prop) s : Q (f s) s → safe (fget f) Q s.
Proof. done. Qed.
Lemma safe_mod f (Q : unit → S → Prop) s : Q tt (f s) → safe (fmod f) Q s.
Proof. done. Qed.
Lemma safe_some {A} (o : option A) a (Q : A → S → Prop) s :
  o = Some a → Q a s → safe (fsome o) Q s.
Proof. by intros ->. Qed.
Lemma safe_when b m (Q : unit → S → Prop) s :
  (b = true → safe m Q s) → (b = false → Q tt s) → safe (fwhen b m) Q s.
Proof. unfold fwhen. destruct b; intros H1 H2; [by apply H1|by apply safe_ret, H2]. Qed.
Lemma safe_opt {A} (o : option A) f (Q : unit → S → Prop) s :
  (∀ a, o = Some a → safe (f a) Q s) → (o = None → Q tt s) → safe (fopt o f) Q s.
Proof. unfold fopt. destruct o; intros H1 H2; [by apply H1|by apply safe_ret, H2]. Qed.
Lemma safe_if {A} (b : bool) (m1 m2 : F A) Q s :
  (b = true → safe m1 Q s) → (b = false → safe m2 Q s) → safe (if b then m1 else m2) Q s.
Proof. destruct b; auto. Qed.
(** A loop with an invariant over what is left. *)
Lemma safe_for {A} (I : list A → S → Prop) (l : list A) f (Q : unit → S → Prop) s :
  I l s → (∀ a l s, I (a :: l) s → safe (f a) (λ _ s', I l s') s) →
  (∀ s, I [] s → Q tt s) → safe (ffor l f) Q s.
Proof.
  intros H0 Hf HQ. revert s H0. induction l as [|a l IH]; intros s H0; simpl.
  - apply safe_ret. auto.
  - eapply safe_seq; [by apply Hf|]. intros a' s' H. by apply IH.
Qed.
Lemma safe_for_each {A} (I : S → Prop) (l : list A) f s :
  I s → (∀ a s, a ∈ l → I s → safe (f a) (λ _ s', I s') s) → safe (ffor l f) (λ _ s', I s') s.
Proof.
  intros H0 Hf.
  apply (safe_for (λ l' s, I s ∧ ∀ a, a ∈ l' → a ∈ l)); [by auto| |by intros ? []].
  intros a l' s' [H Hl]. eapply safe_mono; [apply Hf; [apply Hl; left|done]|].
  intros a' s'' H'. split; [done|]. intros b Hb. apply Hl. by right.
Qed.
Lemma safe_conj {A} (m : F A) (P Q : A → S → Prop) s :
  safe m P s → safe m Q s → safe m (λ a s', P a s' ∧ Q a s') s.
Proof. unfold safe. by destruct (m s) as [[a s']|]. Qed.
Lemma safe_run {A} (m : F A) Q s : safe m Q s → ∃ a s', m s = Some (a, s') ∧ Q a s'.
Proof. unfold safe. destruct (m s) as [[a s']|]; [eauto|done]. Qed.
Lemma safe_eq {A} (m : F A) Q s a s' : safe m Q s → m s = Some (a, s') → Q a s'.
Proof. unfold safe. intros H E. by rewrite E in H. Qed.
Lemma safe_of {A} (m : F A) (Q : A → S → Prop) s a s' : m s = Some (a, s') → Q a s' → safe m Q s.
Proof. unfold safe. intros E. by rewrite E. Qed.

(** ** Partial correctness: what holds if the computation does not fault *)

Definition runs {A} (m : F A) (Q : A → S → Prop) (s : S) : Prop := ∀ a s', m s = Some (a, s') → Q a s'.
Lemma runs_bind {A B} (m : F A) (k : A → F B) (Q : B → S → Prop) s :
  runs m (λ a s', runs (k a) Q s') s → runs (fbind m k) Q s.
Proof. unfold runs, fbind. intros H b s'. destruct (m s) as [[a s1]|]; [|done]. by apply H. Qed.
Lemma runs_mono {A} (m : F A) (P Q : A → S → Prop) s :
  runs m P s → (∀ a s', P a s' → Q a s') → runs m Q s.
Proof. unfold runs. eauto. Qed.
Lemma runs_seq {A B} (m : F A) (k : A → F B) (P : A → S → Prop) (Q : B → S → Prop) s :
  runs m P s → (∀ a s', P a s' → runs (k a) Q s') → runs (fbind m k) Q s.
Proof. intros Hm Hk. apply runs_bind. by eapply runs_mono. Qed.
Lemma runs_ret {A} (a : A) (Q : A → S → Prop) s : Q a s → runs (fret a) Q s.
Proof. by intros H b s' [= <- <-]. Qed.
Lemma runs_get {A} (f : S → A) (Q : A → S → Prop) s : Q (f s) s → runs (fget f) Q s.
Proof. by intros H b s' [= <- <-]. Qed.
Lemma runs_mod f (Q : unit → S → Prop) s : Q tt (f s) → runs (fmod f) Q s.
Proof. by intros H b s' [= <- <-]. Qed.
Lemma runs_for {A} (I : list A → S → Prop) (l : list A) f (Q : unit → S → Prop) s :
  I l s → (∀ a l s, I (a :: l) s → runs (f a) (λ _ s', I l s') s) →
  (∀ s, I [] s → Q tt s) → runs (ffor l f) Q s.
Proof.
  intros H0 Hf HQ. revert s H0. induction l as [|a l IH]; intros s H0; simpl.
  - by apply runs_ret, HQ.
  - eapply runs_seq; [by apply Hf|]. intros ? s'. apply IH.
Qed.
Lemma runs_conj {A} (m : F A) (P Q : A → S → Prop) s :
  runs m P s → runs m Q s → runs m (λ a s', P a s' ∧ Q a s') s.
Proof. unfold runs. eauto. Qed.

(** ** Relations that every step keeps *)

Definition fkeeps (R : S → S → Prop) {A} (m : F A) : Prop := ∀ s a s', m s = Some (a, s') → R s s'.

Section keeps.
Context (R : S → S → Prop) `{!PreOrder R}.
Lemma fkeeps_ret {A} (a : A) : fkeeps R (fret a).
Proof. intros s b s' [= _ <-]. reflexivity. Qed.
Lemma fkeeps_get {A} (f : S → A) : fkeeps R (fget f).
Proof. intros s b s' [= _ <-]. reflexivity. Qed.
Lemma fkeeps_fault {A} : fkeeps R (@fault A).
Proof. by intros s b s'. Qed.
Lemma fkeeps_some {A} (o : option A) : fkeeps R (fsome o).
Proof. intros s b s'. unfold fsome. destruct o; [|done]. intros [= _ <-]. reflexivity. Qed.
Lemma fkeeps_bind {A B} (m : F A) (k : A → F B) :
  fkeeps R m → (∀ a, fkeeps R (k a)) → fkeeps R (fbind m k).
Proof.
  intros Hm Hk s b s'. unfold fbind. destruct (m s) as [[a s1]|] eqn:E; [|done]. intros Hb.
  etrans; [by eapply Hm|by eapply Hk].
Qed.
Lemma fkeeps_when b (m : F unit) : fkeeps R m → fkeeps R (fwhen b m).
Proof. unfold fwhen. destruct b; auto using fkeeps_ret. Qed.
Lemma fkeeps_opt {A} (o : option A) (f : A → F unit) : (∀ a, fkeeps R (f a)) → fkeeps R (fopt o f).
Proof. unfold fopt. destruct o; auto using fkeeps_ret. Qed.
Lemma fkeeps_for {A} (l : list A) (f : A → F unit) : (∀ a, fkeeps R (f a)) → fkeeps R (ffor l f).
Proof. intros Hf. induction l; simpl; auto using fkeeps_ret, fkeeps_bind. Qed.
End keeps.
Lemma fkeeps_mod (R : S → S → Prop) f : (∀ s, R s (f s)) → fkeeps R (fmod f).
Proof. intros H s a s' [= _ <-]. auto. Qed.
Lemma fkeeps_weaken (R R' : S → S → Prop) {A} (m : F A) :
  (∀ s s', R s s' → R' s s') → fkeeps R m → fkeeps R' m.
Proof. intros HR Hm s a s' E. by eapply HR, Hm. Qed.
Lemma runs_keeps {A} (R : S → S → Prop) (m : F A) s : fkeeps R m → runs m (λ _ s', R s s') s.
Proof. intros H a s'. apply H. Qed.
Lemma safe_runs {A} (m : F A) (Q : A → S → Prop) s : safe m Q s → runs m Q s.
Proof. intros H a s' E. by eapply safe_eq. Qed.
Lemma safe_keeps {A} (R : S → S → Prop) (m : F A) (Q : A → S → Prop) s :
  fkeeps R m → safe m Q s → safe m (λ a s', Q a s' ∧ R s s') s.
Proof. unfold safe. intros Hk. destruct (m s) as [[a s']|] eqn:E; [|done]. intros HQ. split; eauto. Qed.
End monad.
Arguments F : clear implicits.

Notation "'let!' x ':=' m 'in' k" := (fbind m (λ x, k))
  (at level 10, x pattern, m at level 100, k at level 200) : fault_scope.
Notation "'do!' m 'in' k" := (fbind m (λ _, k))
  (at level 10, m at level 100, k at level 200) : fault_scope.

(** One step of symbolic execution. *)
Ltac safe_step :=
  match goal with
  | |- safe (fbind _ _) _ _ => apply safe_bind
  | |- safe (fret _) _ _ => apply safe_ret
  | |- safe (fget _) _ _ => apply safe_get
  | |- safe (fmod _) _ _ => apply safe_mod
  | |- safe (fwhen _ _) _ _ => apply safe_when; intros
  | |- safe (fopt _ _) _ _ => apply safe_opt; intros
  end.
Ltac safe_steps := repeat (safe_step; cbn beta).

(** Decompose a computation that keeps a relation; a database may hold the known ones. *)
Create HintDb fkeeps.
Ltac fkeeps_step :=
  first
  [ solve [eauto with fkeeps]
  | apply fkeeps_bind; [typeclasses eauto| |intros ?]
  | apply fkeeps_ret; typeclasses eauto
  | apply fkeeps_get; typeclasses eauto
  | apply fkeeps_some; typeclasses eauto
  | apply fkeeps_fault
  | apply fkeeps_when; [typeclasses eauto|]
  | apply fkeeps_opt; [typeclasses eauto|intros ?]
  | apply fkeeps_for; [typeclasses eauto|intros ?]
  | match goal with |- fkeeps _ (match ?x with _ => _ end) => destruct x end ].
Ltac fkeeps_tac := repeat fkeeps_step.
