(* ===== verification/PaWire.v ===== *)
(** * The PulseAudio wire format (hybris_generic/waydroid/audio/pa_wire.h)

    The enumerations, the sample-spec arithmetic, the [TagWriter] that builds a
    tagstruct and the [TagReader] that parses one.  The reader is modelled with
    three outcomes: a getter returned true, returned false, or touched memory
    outside the packet (undefined behaviour); the theorems rule the last one
    out, show the failure flag is exact and sticky, and show that everything
    the writer emits is read back. *)

From S2P Require Import Prelude.
Set Warnings "-rewrite-rw,-clear-no-such-hyp".

Declare Scope wire_scope.
Delimit Scope wire_scope with wire.
(** [t .> f]: the writer [t] after the call [t.f]. *)
Notation "t .> f" := (f t) (at level 51, left associativity, only parsing) : wire_scope.
#[global] Open Scope wire_scope.

(** ** Constants and enumerations *)

Definition PROTOCOL_VERSION : Z := 13.
Definition VERSION_MASK : Z := 0xFFFF.
Definition INVALID_INDEX : Z := 0xFFFFFFFF.
Definition VOLUME_NORM : Z := 0x10000.
Definition DESCRIPTOR_SIZE : nat := 20.
Definition CHANNEL_COMMAND : Z := 0xFFFFFFFF.
Definition FLAG_SHMDATA : Z := 0x80000000.
Definition SEEK_MASK : Z := 0xFF.
Definition SEEK_RELATIVE : Z := 0.

Inductive Command :=
| COMMAND_ERROR | COMMAND_TIMEOUT | COMMAND_REPLY
| COMMAND_CREATE_PLAYBACK_STREAM | COMMAND_DELETE_PLAYBACK_STREAM
| COMMAND_CREATE_RECORD_STREAM | COMMAND_DELETE_RECORD_STREAM
| COMMAND_EXIT | COMMAND_AUTH | COMMAND_SET_CLIENT_NAME
| COMMAND_LOOKUP_SINK | COMMAND_LOOKUP_SOURCE | COMMAND_DRAIN_PLAYBACK_STREAM
| COMMAND_STAT | COMMAND_GET_PLAYBACK_LATENCY | COMMAND_GET_SERVER_INFO
| COMMAND_GET_SINK_INFO | COMMAND_GET_SINK_INFO_LIST
| COMMAND_GET_SOURCE_INFO | COMMAND_GET_SOURCE_INFO_LIST
| COMMAND_SUBSCRIBE | COMMAND_SET_SINK_VOLUME | COMMAND_SET_SINK_INPUT_VOLUME
| COMMAND_SET_SINK_MUTE | COMMAND_CORK_PLAYBACK_STREAM
| COMMAND_FLUSH_PLAYBACK_STREAM | COMMAND_TRIGGER_PLAYBACK_STREAM
| COMMAND_SET_PLAYBACK_STREAM_NAME | COMMAND_SET_RECORD_STREAM_NAME
| COMMAND_GET_RECORD_LATENCY | COMMAND_CORK_RECORD_STREAM
| COMMAND_FLUSH_RECORD_STREAM | COMMAND_PREBUF_PLAYBACK_STREAM
| COMMAND_REQUEST | COMMAND_OVERFLOW | COMMAND_UNDERFLOW
| COMMAND_PLAYBACK_STREAM_KILLED | COMMAND_RECORD_STREAM_KILLED
| COMMAND_SUBSCRIBE_EVENT | COMMAND_SET_PLAYBACK_STREAM_BUFFER_ATTR
| COMMAND_SET_RECORD_STREAM_BUFFER_ATTR
| COMMAND_UPDATE_PLAYBACK_STREAM_SAMPLE_RATE
| COMMAND_UPDATE_RECORD_STREAM_SAMPLE_RATE | COMMAND_STARTED.

(** The underlying [uint32_t] of each enumerator. *)
Definition Command_code (c : Command) : Z :=
  match c with
  | COMMAND_ERROR => 0 | COMMAND_TIMEOUT => 1 | COMMAND_REPLY => 2
  | COMMAND_CREATE_PLAYBACK_STREAM => 3 | COMMAND_DELETE_PLAYBACK_STREAM => 4
  | COMMAND_CREATE_RECORD_STREAM => 5 | COMMAND_DELETE_RECORD_STREAM => 6
  | COMMAND_EXIT => 7 | COMMAND_AUTH => 8 | COMMAND_SET_CLIENT_NAME => 9
  | COMMAND_LOOKUP_SINK => 10 | COMMAND_LOOKUP_SOURCE => 11
  | COMMAND_DRAIN_PLAYBACK_STREAM => 12 | COMMAND_STAT => 13
  | COMMAND_GET_PLAYBACK_LATENCY => 14 | COMMAND_GET_SERVER_INFO => 20
  | COMMAND_GET_SINK_INFO => 21 | COMMAND_GET_SINK_INFO_LIST => 22
  | COMMAND_GET_SOURCE_INFO => 23 | COMMAND_GET_SOURCE_INFO_LIST => 24
  | COMMAND_SUBSCRIBE => 35 | COMMAND_SET_SINK_VOLUME => 36
  | COMMAND_SET_SINK_INPUT_VOLUME => 37 | COMMAND_SET_SINK_MUTE => 39
  | COMMAND_CORK_PLAYBACK_STREAM => 41 | COMMAND_FLUSH_PLAYBACK_STREAM => 42
  | COMMAND_TRIGGER_PLAYBACK_STREAM => 43
  | COMMAND_SET_PLAYBACK_STREAM_NAME => 46
  | COMMAND_SET_RECORD_STREAM_NAME => 47 | COMMAND_GET_RECORD_LATENCY => 57
  | COMMAND_CORK_RECORD_STREAM => 58 | COMMAND_FLUSH_RECORD_STREAM => 59
  | COMMAND_PREBUF_PLAYBACK_STREAM => 60 | COMMAND_REQUEST => 61
  | COMMAND_OVERFLOW => 62 | COMMAND_UNDERFLOW => 63
  | COMMAND_PLAYBACK_STREAM_KILLED => 64 | COMMAND_RECORD_STREAM_KILLED => 65
  | COMMAND_SUBSCRIBE_EVENT => 66
  | COMMAND_SET_PLAYBACK_STREAM_BUFFER_ATTR => 72
  | COMMAND_SET_RECORD_STREAM_BUFFER_ATTR => 73
  | COMMAND_UPDATE_PLAYBACK_STREAM_SAMPLE_RATE => 74
  | COMMAND_UPDATE_RECORD_STREAM_SAMPLE_RATE => 75 | COMMAND_STARTED => 86
  end.

#[export] Instance Command_eq_dec : EqDecision Command.
Proof. solve_decision. Defined.

(** The commands [Server::HandleCommand] has a case for, in its order; any
    other [uint32_t] goes to [default]. *)
Definition handled_commands : list Command :=
  [ COMMAND_AUTH; COMMAND_SET_CLIENT_NAME; COMMAND_CREATE_PLAYBACK_STREAM;
    COMMAND_DELETE_PLAYBACK_STREAM; COMMAND_CORK_PLAYBACK_STREAM;
    COMMAND_FLUSH_PLAYBACK_STREAM; COMMAND_TRIGGER_PLAYBACK_STREAM;
    COMMAND_PREBUF_PLAYBACK_STREAM; COMMAND_DRAIN_PLAYBACK_STREAM;
    COMMAND_GET_PLAYBACK_LATENCY; COMMAND_SET_PLAYBACK_STREAM_NAME;
    COMMAND_SET_PLAYBACK_STREAM_BUFFER_ATTR; COMMAND_GET_SERVER_INFO;
    COMMAND_CREATE_RECORD_STREAM; COMMAND_EXIT ].

Definition case_of (command : Z) : option Command :=
  find (λ c, Command_code c =? command) handled_commands.

Inductive Error :=
| ERR_OK | ERR_ACCESS | ERR_COMMAND | ERR_INVALID | ERR_EXIST | ERR_NOENTITY
| ERR_VERSION | ERR_NOTSUPPORTED.

Definition Error_code (e : Error) : Z :=
  match e with
  | ERR_OK => 0 | ERR_ACCESS => 1 | ERR_COMMAND => 2 | ERR_INVALID => 3
  | ERR_EXIST => 4 | ERR_NOENTITY => 5 | ERR_VERSION => 17
  | ERR_NOTSUPPORTED => 19
  end.

(** Sample formats arrive as a raw byte; the enumerators are its values. *)
Module fmt.
Definition SAMPLE_U8 : Z := 0.
Definition SAMPLE_ALAW : Z := 1.
Definition SAMPLE_ULAW : Z := 2.
Definition SAMPLE_S16LE : Z := 3.
Definition SAMPLE_S16BE : Z := 4.
Definition SAMPLE_FLOAT32LE : Z := 5.
Definition SAMPLE_S32LE : Z := 7.
Definition SAMPLE_S24LE : Z := 9.
Definition SAMPLE_S24BE : Z := 10.
Definition SAMPLE_S24_32BE : Z := 12.
End fmt.

Inductive Tag :=
| TAG_STRING | TAG_STRING_NULL | TAG_U32 | TAG_U8 | TAG_U64 | TAG_S64
| TAG_SAMPLE_SPEC | TAG_ARBITRARY | TAG_BOOLEAN_TRUE | TAG_BOOLEAN_FALSE
| TAG_TIMEVAL | TAG_USEC | TAG_CHANNEL_MAP | TAG_CVOLUME | TAG_PROPLIST
| TAG_VOLUME | TAG_FORMAT_INFO.

Definition chr (a : Ascii.ascii) : Z := Z.of_N (Ascii.N_of_ascii a).

Definition Tag_code (t : Tag) : Z :=
  match t with
  | TAG_STRING => chr "t" | TAG_STRING_NULL => chr "N" | TAG_U32 => chr "L"
  | TAG_U8 => chr "B" | TAG_U64 => chr "R" | TAG_S64 => chr "r"
  | TAG_SAMPLE_SPEC => chr "a" | TAG_ARBITRARY => chr "x"
  | TAG_BOOLEAN_TRUE => chr "1" | TAG_BOOLEAN_FALSE => chr "0"
  | TAG_TIMEVAL => chr "T" | TAG_USEC => chr "U" | TAG_CHANNEL_MAP => chr "m"
  | TAG_CVOLUME => chr "v" | TAG_PROPLIST => chr "P" | TAG_VOLUME => chr "V"
  | TAG_FORMAT_INFO => chr "f"
  end%char.

#[global] Arguments Tag_code : simpl never.
#[global] Arguments Command_code : simpl never.
#[global] Arguments Error_code : simpl never.

(** ** Sample specs, channel maps, buffer attributes *)

Record SampleSpec := mkSampleSpec
  { ss_format : Z; ss_channels : Z; ss_rate : Z }.

Definition SampleSpec_default : SampleSpec := mkSampleSpec fmt.SAMPLE_S16LE 2 48000.

Definition sample_width (format : Z) : Z :=
  if (format =? fmt.SAMPLE_U8) || (format =? fmt.SAMPLE_ALAW)
     || (format =? fmt.SAMPLE_ULAW) then 1
  else if (format =? fmt.SAMPLE_S16LE) || (format =? fmt.SAMPLE_S16BE) then 2
  else if (format =? fmt.SAMPLE_S24LE) || (format =? fmt.SAMPLE_S24BE) then 3
  else 4.

Definition FrameSize (ss : SampleSpec) : Z :=
  sample_width (ss_format ss) * ss_channels ss.

Definition Valid (ss : SampleSpec) : bool :=
  (0 <? ss_channels ss) && (ss_channels ss <=? 32) && (0 <? ss_rate ss)
  && (ss_rate ss <=? 384000) && (ss_format ss <=? fmt.SAMPLE_S24_32BE).

Definition BytesToUsec (ss : SampleSpec) (n : Z) : Z :=
  let fs := FrameSize ss in
  if (fs =? 0) || (ss_rate ss =? 0) then 0
  else u64 ((n / fs) * 1000000) / ss_rate ss.

Definition UsecToBytes (ss : SampleSpec) (usec : Z) : Z :=
  u64 ((u64 (usec * ss_rate ss) / 1000000) * FrameSize ss).

Record ChannelMap := mkChannelMap { cm_channels : Z; cm_map : bytes }.

Definition CHANNEL_MAP_SIZE : nat := 32.
Definition ChannelMap_default : ChannelMap :=
  mkChannelMap 2 ([1; 2] ++ replicate 30 0).

Record BufferAttr := mkBufferAttr
  { maxlength : Z; tlength : Z; prebuf : Z; minreq : Z; fragsize : Z }.

Definition BufferAttr_default : BufferAttr :=
  mkBufferAttr INVALID_INDEX INVALID_INDEX INVALID_INDEX INVALID_INDEX INVALID_INDEX.

(** ** TagWriter *)

Abbreviation TagWriter := (list Z).

Definition Raw8 (v : Z) (t : TagWriter) : TagWriter := t ++ [u8 v].
Definition Raw32 (v : Z) (t : TagWriter) : TagWriter := t ++ be32_bytes v.
Definition Raw64 (v : Z) (t : TagWriter) : TagWriter :=
  t .> Raw32 (u32 (Z.shiftr v 32)) .> Raw32 (u32 v).
Definition RawTag (tag : Tag) (t : TagWriter) : TagWriter := Raw8 (Tag_code tag) t.

Definition PutU8 (v : Z) (t : TagWriter) := t .> RawTag TAG_U8 .> Raw8 v.
Definition PutU32 (v : Z) (t : TagWriter) := t .> RawTag TAG_U32 .> Raw32 v.
Definition PutU64 (v : Z) (t : TagWriter) := t .> RawTag TAG_U64 .> Raw64 v.
Definition PutS64 (v : Z) (t : TagWriter) := t .> RawTag TAG_S64 .> Raw64 (u64 v).
Definition PutUsec (v : Z) (t : TagWriter) := t .> RawTag TAG_USEC .> Raw64 v.
Definition PutVolume (v : Z) (t : TagWriter) := t .> RawTag TAG_VOLUME .> Raw32 v.
Definition PutBool (v : bool) (t : TagWriter) :=
  t .> RawTag (if v then TAG_BOOLEAN_TRUE else TAG_BOOLEAN_FALSE).

(** [None] is [nullptr]; [strlen] stops at the first NUL of the buffer. *)
Definition PutString (s : option bytes) (t : TagWriter) : TagWriter :=
  match s with
  | None => t .> RawTag TAG_STRING_NULL
  | Some s => (t .> RawTag TAG_STRING) ++ cstr s ++ [0]
  end.

Definition PutSampleSpec (ss : SampleSpec) (t : TagWriter) : TagWriter :=
  t .> RawTag TAG_SAMPLE_SPEC .> Raw8 (ss_format ss) .> Raw8 (ss_channels ss)
    .> Raw32 (ss_rate ss).

(** The loop [for (i = 0; i < channels; i++) Raw8(cm.map[i])]; [None] is a read
    outside the array. *)
Fixpoint put_channels (n i : nat) (map : bytes) (t : TagWriter) : option TagWriter :=
  match n with
  | O => Some t
  | S n => b ← map !! i; put_channels n (S i) map (t .> Raw8 b)
  end.

Definition PutChannelMap (cm : ChannelMap) (t : TagWriter) : option TagWriter :=
  put_channels (Z.to_nat (cm_channels cm)) 0 (cm_map cm)
    (t .> RawTag TAG_CHANNEL_MAP .> Raw8 (cm_channels cm)).

Definition PutCVolume (channels value : Z) (t : TagWriter) : TagWriter :=
  Nat.iter (Z.to_nat channels) (Raw32 value)
    (t .> RawTag TAG_CVOLUME .> Raw8 channels).

Definition PutTimeval (sec usec : Z) (t : TagWriter) : TagWriter :=
  t .> RawTag TAG_TIMEVAL .> Raw32 sec .> Raw32 usec.

Definition PutEmptyProplist (t : TagWriter) : TagWriter :=
  t .> RawTag TAG_PROPLIST .> RawTag TAG_STRING_NULL.

(** [std::map<std::string, std::string>]: the entries in key order. *)
Abbreviation proplist := (list (bytes * bytes)).

Definition put_prop (t : TagWriter) (kv : bytes * bytes) : TagWriter :=
  let n := u32 (Z.of_nat (length (snd kv)) + 1) in
  (t .> PutString (Some (fst kv)) .> PutU32 n .> RawTag TAG_ARBITRARY .> Raw32 n)
    ++ snd kv ++ [0].

Definition PutProplist (props : proplist) (t : TagWriter) : TagWriter :=
  foldl put_prop (t .> RawTag TAG_PROPLIST) props .> RawTag TAG_STRING_NULL.

(** ** TagReader *)

Record TagReader := mkReader { rd_data : bytes; rd_off : nat; rd_failed : bool }.

Definition rd_len (r : TagReader) : nat := length (rd_data r).
Definition TagReader_new (data : bytes) : TagReader := mkReader data 0 false.

Inductive rres (A : Type) :=
| ROk (a : A) (r : TagReader)
| RFail (r : TagReader)
| RUB.
Arguments ROk {A}.
Arguments RFail {A}.
Arguments RUB {A}.

Definition Reader (A : Type) := TagReader → rres A.

Definition rret {A} (a : A) : Reader A := ROk a.
Definition rbind {A B} (m : Reader A) (k : A → Reader B) : Reader B := λ r,
  match m r with
  | ROk a r => k a r
  | RFail r => RFail r
  | RUB => RUB
  end.
Notation "'let*' x ':=' m 'in' k" := (rbind m (λ x, k))
  (at level 10, x name, m at level 100, k at level 200) : wire_scope.
Notation "'do*' m 'in' k" := (rbind m (λ _, k))
  (at level 10, m at level 100, k at level 200) : wire_scope.

Definition with_off (r : TagReader) (off : nat) : TagReader :=
  mkReader (rd_data r) off (rd_failed r).

(** [Fail()]: latch the flag and return false. *)
Definition Fail {A} : Reader A := λ r, RFail (mkReader (rd_data r) (rd_off r) true).

Definition Take8 : Reader Z := λ r,
  if rd_failed r || Nat.ltb (rd_len r) (rd_off r + 1) then Fail r
  else match rd_data r !! rd_off r with
       | Some b => ROk b (with_off r (rd_off r + 1))
       | None => RUB
       end.

Definition Take32 : Reader Z := λ r,
  if rd_failed r || Nat.ltb (rd_len r) (rd_off r + 4) then Fail r
  else match rd_data r !! rd_off r, rd_data r !! (rd_off r + 1)%nat,
             rd_data r !! (rd_off r + 2)%nat, rd_data r !! (rd_off r + 3)%nat with
       | Some b0, Some b1, Some b2, Some b3 =>
           ROk (be32 b0 b1 b2 b3) (with_off r (rd_off r + 4))
       | _, _, _, _ => RUB
       end.

Definition Take64 : Reader Z :=
  let* hi := Take32 in
  let* lo := Take32 in
  rret (Z.lor (Z.shiftl hi 32) lo).

Definition Expect (want : Tag) : Reader unit :=
  let* tag := Take8 in
  if tag =? Tag_code want then rret tt else Fail.

Definition GetU8 : Reader Z := do* Expect TAG_U8 in Take8.
Definition GetU32 : Reader Z := do* Expect TAG_U32 in Take32.
Definition GetU64 : Reader Z := do* Expect TAG_U64 in Take64.
Definition GetS64 : Reader Z :=
  do* Expect TAG_S64 in
  let* v := Take64 in
  rret (s64 v).
Definition GetUsec : Reader Z := do* Expect TAG_USEC in Take64.

Definition GetBool : Reader bool :=
  let* tag := Take8 in
  if tag =? Tag_code TAG_BOOLEAN_TRUE then rret true
  else if tag =? Tag_code TAG_BOOLEAN_FALSE then rret false
  else Fail.

(** The loop [while (off_ < len_ && data_[off_] != 0) off_++].  [len_ - off_]
    iterations are enough; [None] is a read outside the packet. *)
Fixpoint scan_nul (fuel : nat) (d : bytes) (off : nat) : option nat :=
  if Nat.ltb off (length d) then
    b ← d !! off;
    if b =? 0 then Some off
    else match fuel with
         | O => None
         | S fuel => scan_nul fuel d (S off)
         end
  else Some off.

(** The bytes up to the NUL, after a [TAG_STRING]. *)
Definition string_tail : Reader (bytes * bool) := λ r,
  match scan_nul (rd_len r - rd_off r) (rd_data r) (rd_off r) with
  | None => RUB
  | Some off =>
      if Nat.leb (rd_len r) off then Fail (with_off r off)
      else ROk (take (off - rd_off r) (drop (rd_off r) (rd_data r)), false)
               (with_off r (off + 1))
  end.

(** The string and [*isNull]. *)
Definition GetString : Reader (bytes * bool) :=
  let* tag := Take8 in
  if tag =? Tag_code TAG_STRING_NULL then rret ([], true)
  else if negb (tag =? Tag_code TAG_STRING) then Fail
  else string_tail.

Definition GetSampleSpec : Reader SampleSpec :=
  do* Expect TAG_SAMPLE_SPEC in
  let* format := Take8 in
  let* channels := Take8 in
  let* rate := Take32 in
  rret (mkSampleSpec format channels rate).

(** The loop that fills [cm.map[i]]; a store past the array is undefined. *)
Fixpoint take_channels (n i : nat) (map : bytes) : Reader bytes :=
  match n with
  | O => rret map
  | S n =>
      let* b := Take8 in
      if Nat.ltb i (length map) then take_channels n (S i) (<[i := b]> map)
      else λ _, RUB
  end.

(** [cm] is the object passed by reference: entries beyond [channels] keep
    their old value. *)
Definition GetChannelMap (cm : ChannelMap) : Reader ChannelMap :=
  do* Expect TAG_CHANNEL_MAP in
  let* channels := Take8 in
  if Z.of_nat CHANNEL_MAP_SIZE <? channels then Fail
  else let* map := take_channels (Z.to_nat channels) 0 (cm_map cm) in
       rret (mkChannelMap channels map).

Fixpoint take_volumes (n i : nat) (first : Z) : Reader Z :=
  match n with
  | O => rret first
  | S n => let* v := Take32 in
           take_volumes n (S i) (match i with O => v | S _ => first end)
  end.

Definition GetCVolume : Reader (Z * Z) :=
  do* Expect TAG_CVOLUME in
  let* channels := Take8 in
  let* first := take_volumes (Z.to_nat channels) 0 VOLUME_NORM in
  rret (channels, first).

Definition GetTimeval : Reader (Z * Z) :=
  do* Expect TAG_TIMEVAL in
  let* sec := Take32 in
  let* usec := Take32 in
  rret (sec, usec).

Definition arbitrary_tail (len : Z) : Reader bytes := λ r,
  if Z.of_nat (rd_len r - rd_off r) <? len then Fail r
  else ROk (take (Z.to_nat len) (drop (rd_off r) (rd_data r)))
           (with_off r (rd_off r + Z.to_nat len)).

Definition GetArbitrary : Reader bytes :=
  do* Expect TAG_ARBITRARY in
  let* len := Take32 in
  arbitrary_tail len.

(** [std::string]'s order: lexicographic on unsigned bytes. *)
Fixpoint bytes_cmp (a b : bytes) : comparison :=
  match a, b with
  | [], [] => Eq
  | [], _ :: _ => Lt
  | _ :: _, [] => Gt
  | x :: a, y :: b =>
      match x ?= y with Eq => bytes_cmp a b | c => c end
  end.

(** [props[key] = value]. *)
Fixpoint map_assign (k v : bytes) (m : proplist) : proplist :=
  match m with
  | [] => [(k, v)]
  | (k', v') :: m' =>
      match bytes_cmp k k' with
      | Lt => (k, v) :: m
      | Eq => (k', v) :: m'
      | Gt => (k', v') :: map_assign k v m'
      end
  end.

(** [if (!value.empty() && value.back() == '\0') value.pop_back();] *)
Definition drop_nul (value : bytes) : bytes :=
  match last value with
  | Some b => if b =? 0 then take (length value - 1) value else value
  | None => value
  end.

(** One key and value of a property list. *)
Definition get_prop : Reader (bytes * bytes) :=
  let* key := GetString in
  do* GetU32 in
  let* value := GetArbitrary in
  rret (fst key, drop_nul value).

(** The [for (;;)] of [GetProplist]: every round consumes at least one byte, so
    [len_ - off_] rounds are enough. *)
Fixpoint proplist_loop (fuel : nat) (props : proplist) : Reader proplist := λ r,
  if Nat.leb (rd_len r) (rd_off r) then Fail r
  else match rd_data r !! rd_off r with
  | None => RUB
  | Some b =>
      if b =? Tag_code TAG_STRING_NULL then ROk props (with_off r (rd_off r + 1))
      else match fuel with
      | O => RUB
      | S fuel =>
          (let* kv := get_prop in
           proplist_loop fuel (map_assign (fst kv) (snd kv) props)) r
      end
  end.

Definition GetProplist (props : proplist) : Reader proplist :=
  do* Expect TAG_PROPLIST in
  λ r, proplist_loop (rd_len r - rd_off r) props r.

Definition Eof (r : TagReader) : bool :=
  negb (rd_failed r) && Nat.eqb (rd_off r) (rd_len r).
Definition Failed (r : TagReader) : bool := rd_failed r.
Definition Remaining (r : TagReader) : nat := rd_len r - rd_off r.

(** ** Memory safety of the reader

    [rspec n P g]: on a reader whose cursor is inside the packet, [g] never
    reads outside it; when it returns true the value satisfies [P], the cursor
    moved at least [n] bytes and is still inside; when it returns false the
    failure flag is set. *)

Definition reader_ok (r : TagReader) : Prop := (rd_off r ≤ rd_len r)%nat.

Definition rspec {A} (n : nat) (P : A → Prop) (g : Reader A) : Prop := ∀ r,
  reader_ok r → bytes_ok (rd_data r) →
  match g r with
  | ROk a r' => P a ∧ reader_ok r' ∧ rd_data r' = rd_data r ∧
                rd_failed r' = rd_failed r ∧ (rd_off r + n ≤ rd_off r')%nat
  | RFail r' => reader_ok r' ∧ rd_data r' = rd_data r ∧ rd_failed r' = true
  | RUB => False
  end.

(** A reader that has failed never succeeds again. *)
Definition rstrict {A} (g : Reader A) : Prop := ∀ r,
  rd_failed r = true → g r = RFail r.

Create HintDb reader discriminated.

Lemma rspec_weaken {A} n m (P Q : A → Prop) g :
  rspec n P g → (m ≤ n)%nat → (∀ a, P a → Q a) → rspec m Q g.
Proof.
  intros Hg Hle HPQ r Hr Hb. specialize (Hg r Hr Hb).
  destruct (g r); naive_solver lia.
Qed.

Lemma rspec_ret {A} (P : A → Prop) a : P a → rspec 0 P (rret a).
Proof. intros HP r Hr Hb. simpl. naive_solver lia. Qed.

Lemma rspec_bind {A B} n m l (P : A → Prop) (Q : B → Prop) g k :
  rspec n P g → (∀ a, P a → rspec m Q (k a)) → (l ≤ n + m)%nat →
  rspec l Q (rbind g k).
Proof.
  intros Hg Hk Hl r Hr Hb. unfold rbind. specialize (Hg r Hr Hb).
  destruct (g r) as [a r1|r1|]; [|naive_solver..].
  destruct Hg as (Ha & Hr1 & Hd & Hf & Hoff).
  assert (bytes_ok (rd_data r1)) as Hb1 by by rewrite Hd.
  specialize (Hk a Ha r1 Hr1 Hb1).
  destruct (k a r1); naive_solver (congruence || lia).
Qed.

Lemma rspec_Fail {A} n (P : A → Prop) : rspec n P Fail.
Proof. intros r Hr Hb. simpl. naive_solver. Qed.

Lemma rstrict_bind {A B} (g : Reader A) (k : A → Reader B) :
  rstrict g → rstrict (rbind g k).
Proof. intros Hg r Hf. unfold rbind. by rewrite Hg. Qed.

Lemma bytes_ok_lookup l i b : bytes_ok l → l !! i = Some b → is_u8 b.
Proof. intros Hl Hi. by eapply Forall_lookup_1. Qed.

Lemma rstrict_Take8 : rstrict Take8.
Proof. intros [d o f] Hf. simpl in *. by subst. Qed.
Lemma rstrict_Take32 : rstrict Take32.
Proof. intros [d o f] Hf. simpl in *. by subst. Qed.

Lemma rspec_Take8 : rspec 1 is_u8 Take8.
Proof.
  intros r Hr Hb. unfold Take8. destruct (_ || _) eqn:E; [by apply (rspec_Fail 1 is_u8)|].
  bool_props. destruct (lookup_lt_is_Some_2 (rd_data r) (rd_off r)) as [b Hlk];
    [unfold rd_len in *; lia|].
  rewrite Hlk. unfold reader_ok, rd_len in *. simpl.
  naive_solver (eauto using bytes_ok_lookup || lia).
Qed.

Lemma rspec_Take32 : rspec 4 is_u32 Take32.
Proof.
  intros r Hr Hb. unfold Take32. destruct (_ || _) eqn:E; [by apply (rspec_Fail 4 is_u32)|].
  bool_props. unfold rd_len in *.
  destruct (lookup_lt_is_Some_2 (rd_data r) (rd_off r)) as [b0 Hb0]; [lia|].
  destruct (lookup_lt_is_Some_2 (rd_data r) (rd_off r + 1)) as [b1 Hb1]; [lia|].
  destruct (lookup_lt_is_Some_2 (rd_data r) (rd_off r + 2)) as [b2 Hb2]; [lia|].
  destruct (lookup_lt_is_Some_2 (rd_data r) (rd_off r + 3)) as [b3 Hb3]; [lia|].
  rewrite Hb0 Hb1 Hb2 Hb3. unfold reader_ok, rd_len in *. simpl.
  repeat split; eauto; [| |lia..].
  all: eapply be32_is_u32; eauto using bytes_ok_lookup.
Qed.
#[export] Hint Resolve rspec_Take8 rspec_Take32 rspec_Fail rspec_ret : reader.

Lemma scan_nul_spec fuel d off :
  (length d - off ≤ fuel)%nat →
  ∃ off', scan_nul fuel d off = Some off' ∧ (off ≤ off')%nat ∧
    ((off ≤ length d)%nat → (off' ≤ length d)%nat) ∧
    (∀ i b, (off ≤ i < off')%nat → d !! i = Some b → b ≠ 0).
Proof.
  revert off. induction fuel as [|fuel IH]; intros off Hf; simpl;
    destruct (Nat.ltb_spec off (length d)) as [Hlt|Hge].
  - lia.
  - exists off. naive_solver lia.
  - destruct (lookup_lt_is_Some_2 d off Hlt) as [b Hb]. rewrite Hb /=.
    destruct (Z.eqb_spec b 0) as [->|Hne]; [exists off; naive_solver lia|].
    destruct (IH (S off)) as (off' & Hs & Hle & Hlen & Hnz); [lia|].
    exists off'. repeat split; [done|lia|lia|].
    intros i c Hi Hc. destruct (decide (i = off)) as [->|]; [congruence|].
    eapply Hnz; [|done]. lia.
  - exists off. naive_solver lia.
Qed.

Lemma bytes_ok_take_drop n m l : bytes_ok l → bytes_ok (take n (drop m l)).
Proof. intros H. by apply Forall_take, Forall_drop. Qed.

Lemma rspec_string_tail :
  rspec 1 (λ p, bytes_ok (fst p) ∧ no_nul (fst p)) string_tail.
Proof.
  intros r Hr Hb. unfold string_tail.
  destruct (scan_nul_spec (rd_len r - rd_off r) (rd_data r) (rd_off r))
    as (off & -> & Hle & Hlen & Hnz); [done|].
  specialize (Hlen Hr). unfold reader_ok, rd_len in *.
  destruct (Nat.leb_spec (length (rd_data r)) off); simpl; [done|].
  repeat split; [by apply bytes_ok_take_drop| |lia..].
  apply Forall_lookup_2. intros i b Hi.
  apply lookup_take_Some in Hi as [Hi Hlt]. rewrite lookup_drop in Hi.
  eapply Hnz; [|done]. lia.
Qed.

Lemma rspec_arbitrary_tail len : is_u32 len → rspec 0 bytes_ok (arbitrary_tail len).
Proof.
  intros Hlen r Hr Hb. unfold arbitrary_tail, reader_ok, rd_len, is_u32 in *.
  destruct (Z.ltb_spec (Z.of_nat (length (rd_data r) - rd_off r)) len); simpl; [done|].
  repeat split; [by apply bytes_ok_take_drop|lia..].
Qed.

Lemma rspec_Expect t : rspec 1 (λ _, True) (Expect t).
Proof.
  eapply (rspec_bind 1 0); [apply rspec_Take8| |lia].
  intros a _. case_match; [by apply rspec_ret|apply rspec_Fail].
Qed.
#[export] Hint Resolve rspec_Expect rspec_string_tail rspec_arbitrary_tail : reader.

Lemma rspec_Take64 : rspec 8 is_u64 Take64.
Proof.
  eapply (rspec_bind 4 4); [apply rspec_Take32| |lia]. intros hi Hhi.
  eapply (rspec_bind 4 0); [apply rspec_Take32| |lia]. intros lo Hlo.
  apply rspec_ret. rewrite lor_shiftl_add; [width_lia|lia|apply Hlo].
Qed.
#[export] Hint Resolve rspec_Take64 : reader.

Lemma rspec_tagged {A} n (P : A → Prop) t g :
  rspec n P g → rspec (S n) P (do* Expect t in g).
Proof. intros Hg. eapply (rspec_bind 1 n); [apply rspec_Expect|done|lia]. Qed.

Lemma s64_is_s64 z : is_s64 (s64 z).
Proof. width_lia. Qed.

Lemma rspec_GetU8 : rspec 2 is_u8 GetU8.
Proof. apply rspec_tagged, rspec_Take8. Qed.
Lemma rspec_GetU32 : rspec 5 is_u32 GetU32.
Proof. apply rspec_tagged, rspec_Take32. Qed.
Lemma rspec_GetU64 : rspec 9 is_u64 GetU64.
Proof. apply rspec_tagged, rspec_Take64. Qed.
Lemma rspec_GetUsec : rspec 9 is_u64 GetUsec.
Proof. apply rspec_tagged, rspec_Take64. Qed.
Lemma rspec_GetS64 : rspec 9 is_s64 GetS64.
Proof.
  apply rspec_tagged. eapply (rspec_bind 8 0); [apply rspec_Take64| |lia].
  intros a _. apply rspec_ret, s64_is_s64.
Qed.
Lemma rspec_GetBool : rspec 1 (λ _, True) GetBool.
Proof.
  eapply (rspec_bind 1 0); [apply rspec_Take8| |lia]. intros a _.
  repeat case_match; auto using rspec_ret, rspec_Fail.
Qed.
Lemma rspec_GetString : rspec 1 (λ p, bytes_ok (fst p) ∧ no_nul (fst p)) GetString.
Proof.
  eapply (rspec_bind 1 0); [apply rspec_Take8| |lia]. intros a _.
  case_match; [by apply rspec_ret; split; constructor|].
  case_match; [apply rspec_Fail|].
  eapply rspec_weaken; [apply rspec_string_tail|lia|done].
Qed.
Lemma rspec_GetArbitrary : rspec 5 bytes_ok GetArbitrary.
Proof.
  apply rspec_tagged. eapply (rspec_bind 4 0); [apply rspec_Take32| |lia].
  intros a Ha. by apply rspec_arbitrary_tail.
Qed.
Lemma rspec_GetTimeval : rspec 9 (λ p, is_u32 (fst p) ∧ is_u32 (snd p)) GetTimeval.
Proof.
  apply rspec_tagged. eapply (rspec_bind 4 4); [apply rspec_Take32| |lia].
  intros a Ha. eapply (rspec_bind 4 0); [apply rspec_Take32| |lia].
  intros b Hb. by apply rspec_ret.
Qed.

Definition SampleSpec_ok (ss : SampleSpec) : Prop :=
  is_u8 (ss_format ss) ∧ is_u8 (ss_channels ss) ∧ is_u32 (ss_rate ss).
Lemma rspec_GetSampleSpec : rspec 7 SampleSpec_ok GetSampleSpec.
Proof.
  apply rspec_tagged. eapply (rspec_bind 1 5); [apply rspec_Take8| |lia].
  intros f Hf. eapply (rspec_bind 1 4); [apply rspec_Take8| |lia].
  intros c Hc. eapply (rspec_bind 4 0); [apply rspec_Take32| |lia].
  intros r Hr. by apply rspec_ret.
Qed.

Definition ChannelMap_ok (cm : ChannelMap) : Prop :=
  0 <= cm_channels cm <= 32 ∧ length (cm_map cm) = CHANNEL_MAP_SIZE ∧
  bytes_ok (cm_map cm).

Lemma rspec_take_channels n i map :
  (i + n ≤ length map)%nat → bytes_ok map →
  rspec n (λ m, length m = length map ∧ bytes_ok m) (take_channels n i map).
Proof.
  revert i map. induction n as [|n IH]; intros i map Hle Hb; simpl.
  { by apply rspec_ret. }
  eapply (rspec_bind 1 n); [apply rspec_Take8| |lia]. intros b Hb8.
  destruct (Nat.ltb_spec i (length map)); [|lia].
  eapply rspec_weaken; [apply IH|done|]; rewrite ?length_insert; [lia| |done].
  by apply Forall_insert.
Qed.

Lemma rspec_GetChannelMap cm :
  ChannelMap_ok cm → rspec 2 ChannelMap_ok (GetChannelMap cm).
Proof.
  intros (Hc & Hl & Hb). apply rspec_tagged.
  eapply (rspec_bind 1 0); [apply rspec_Take8| |lia]. intros c Hc8.
  unfold is_u8, CHANNEL_MAP_SIZE in *.
  destruct (Z.ltb_spec (Z.of_nat 32) c); [apply rspec_Fail|].
  eapply (rspec_bind (Z.to_nat c) 0); [apply rspec_take_channels; [lia|done]| |lia].
  intros m [Hm Hm8]. apply rspec_ret. unfold ChannelMap_ok, CHANNEL_MAP_SIZE. simpl.
  rewrite Hm Hl. naive_solver lia.
Qed.

Lemma rspec_take_volumes n i first :
  is_u32 first → rspec (4 * n) is_u32 (take_volumes n i first).
Proof.
  revert i first. induction n as [|n IH]; intros i first Hf; [by apply rspec_ret|].
  simpl take_volumes. eapply (rspec_bind 4 (4 * n)); [apply rspec_Take32| |lia].
  intros v Hv. apply IH. by destruct i.
Qed.

Lemma rspec_GetCVolume : rspec 2 (λ p, is_u8 (fst p) ∧ is_u32 (snd p)) GetCVolume.
Proof.
  apply rspec_tagged. eapply (rspec_bind 1 0); [apply rspec_Take8| |lia]. intros c Hc.
  eapply (rspec_bind _ 0); [apply rspec_take_volumes; by vm_compute| |lia].
  intros v Hv. by apply rspec_ret.
Qed.

Lemma rspec_get_prop : rspec 1 (λ _, True) get_prop.
Proof.
  eapply (rspec_bind 1 0); [apply rspec_GetString| |lia]. intros k _.
  eapply (rspec_bind 5 0); [apply rspec_GetU32| |lia]. intros d _.
  eapply (rspec_bind 5 0); [apply rspec_GetArbitrary| |lia]. intros v _.
  by apply rspec_ret.
Qed.

Lemma rspec_proplist_loop fuel props : ∀ r,
  (rd_len r - rd_off r ≤ fuel)%nat → reader_ok r → bytes_ok (rd_data r) →
  match proplist_loop fuel props r with
  | ROk a r' => True ∧ reader_ok r' ∧ rd_data r' = rd_data r ∧
                rd_failed r' = rd_failed r ∧ (rd_off r + 1 ≤ rd_off r')%nat
  | RFail r' => reader_ok r' ∧ rd_data r' = rd_data r ∧ rd_failed r' = true
  | RUB => False
  end.
Proof.
  revert props. induction fuel as [|fuel IH]; intros props r Hfuel Hr Hb; cbn [proplist_loop];
    unfold reader_ok, rd_len in *;
    destruct (Nat.leb_spec (length (rd_data r)) (rd_off r)); try done.
  { lia. }
  destruct (lookup_lt_is_Some_2 (rd_data r) (rd_off r)) as [b ->]; [done|].
  destruct (b =? _); [simpl; naive_solver lia|].
  pose proof (rspec_get_prop r Hr Hb) as Hentry. unfold rbind.
  destruct (get_prop r) as [kv r3|r3|]; try done.
  destruct Hentry as (_ & Hr3 & Hd3 & Hf3 & Ho3).
  unfold reader_ok, rd_len in *. specialize (IH (map_assign (fst kv) (snd kv) props) r3).
  rewrite Hd3 in IH Hr3. specialize (IH ltac:(lia) Hr3 Hb).
  destruct (proplist_loop _ _ r3); naive_solver (congruence || lia).
Qed.

Lemma rspec_GetProplist props : rspec 2 (λ _, True) (GetProplist props).
Proof.
  apply rspec_tagged. intros r Hr Hb. by apply rspec_proplist_loop.
Qed.

(** ** Writer and reader are inverse

    [wire_reads g e a]: wherever the bytes [e] stand at the cursor of a reader
    that has not failed, [g] returns [a] and moves past exactly [e]. *)

Definition advance (n : nat) (r : TagReader) : TagReader := with_off r (rd_off r + n).

Definition wire_reads {A} (g : Reader A) (e : bytes) (a : A) : Prop := ∀ r rest,
  rd_failed r = false → drop (rd_off r) (rd_data r) = e ++ rest →
  g r = ROk a (advance (length e) r).

Lemma wr_ret {A} (a : A) : wire_reads (rret a) [] a.
Proof. intros [d o f] rest Hf Hd. unfold advance, with_off. simpl. by rewrite Nat.add_0_r. Qed.

Lemma wr_bind {A B} (g : Reader A) (k : A → Reader B) e1 e2 a b :
  wire_reads g e1 a → wire_reads (k a) e2 b → wire_reads (rbind g k) (e1 ++ e2) b.
Proof.
  intros Hg Hk r rest Hf Hd. rewrite -app_assoc in Hd. unfold rbind.
  rewrite (Hg r _ Hf Hd).
  rewrite (Hk (advance (length e1) r) rest); [|done|].
  - unfold advance, with_off. simpl. by rewrite length_app Nat.add_assoc.
  - simpl. by rewrite -drop_drop Hd drop_app_length.
Qed.

Lemma drop_eq_app_length {A} n (l e rest : list A) :
  drop n l = e ++ rest → e ≠ [] → (n + length e ≤ length l)%nat.
Proof.
  intros Hd He. apply (f_equal length) in Hd. rewrite length_drop length_app in Hd.
  destruct e; [done|]. simpl in *. lia.
Qed.

Lemma drop_eq_app_lookup {A} n (l e rest : list A) i x :
  drop n l = e ++ rest → e !! i = Some x → l !! (n + i)%nat = Some x.
Proof.
  intros Hd Hi. rewrite -lookup_drop Hd. rewrite lookup_app_l; [done|].
  by eapply lookup_lt_Some.
Qed.

Lemma wr_Take8 b : wire_reads Take8 [b] b.
Proof.
  intros r rest Hf Hd. unfold Take8, rd_len. rewrite Hf.
  pose proof (drop_eq_app_length _ _ [b] _ Hd ltac:(done)) as Hlen. simpl in Hlen.
  destruct (Nat.ltb_spec (length (rd_data r)) (rd_off r + 1)); [lia|]. simpl.
  pose proof (drop_eq_app_lookup _ _ [b] _ 0 b Hd eq_refl) as Hlk.
  by rewrite Nat.add_0_r in Hlk; rewrite Hlk.
Qed.

Lemma wr_Take32 v : is_u32 v → wire_reads Take32 (be32_bytes v) v.
Proof.
  intros Hv r rest Hf Hd. unfold Take32, rd_len. rewrite Hf.
  pose proof (drop_eq_app_length _ _ (be32_bytes v) _ Hd ltac:(done)) as Hlen.
  simpl in Hlen.
  destruct (Nat.ltb_spec (length (rd_data r)) (rd_off r + 4)); [lia|]. simpl.
  pose proof (λ i x, drop_eq_app_lookup _ _ (be32_bytes v) _ i x Hd) as Hlk.
  rewrite -{1}(Nat.add_0_r (rd_off r)).
  rewrite (Hlk 0%nat _ eq_refl) (Hlk 1%nat _ eq_refl) (Hlk 2%nat _ eq_refl)
    (Hlk 3%nat _ eq_refl).
  by rewrite be32_roundtrip.
Qed.

Lemma wr_bind_l {A B} (g : Reader A) (k : A → Reader B) e a b :
  wire_reads g e a → wire_reads (k a) [] b → wire_reads (rbind g k) e b.
Proof. intros. rewrite -(app_nil_r e). by eapply wr_bind. Qed.

Lemma wr_Take64 v :
  is_u64 v →
  wire_reads Take64 (be32_bytes (u32 (Z.shiftr v 32)) ++ be32_bytes (u32 v)) v.
Proof.
  intros Hv. unfold Take64. eapply wr_bind; [apply wr_Take32, u32_is_u32|].
  eapply wr_bind_l; [apply wr_Take32, u32_is_u32|].
  rewrite lor_shiftl_add; [|lia|apply u32_is_u32].
  rewrite Z.shiftr_div_pow2; [|lia].
  replace (_ + _) with v by width_lia. apply wr_ret.
Qed.

Lemma wr_Expect t : wire_reads (Expect t) [Tag_code t] tt.
Proof.
  unfold Expect. eapply wr_bind_l; [apply wr_Take8|]. rewrite Z.eqb_refl. apply wr_ret.
Qed.

Lemma wr_tagged {A} t (g : Reader A) e a :
  wire_reads g e a → wire_reads (do* Expect t in g) (Tag_code t :: e) a.
Proof. intros Hg. eapply (wr_bind _ _ [Tag_code t]); [apply wr_Expect|done]. Qed.

Lemma scan_nul_app pre s rest :
  no_nul s → ∀ fuel, (length s ≤ fuel)%nat →
  scan_nul fuel (pre ++ s ++ 0 :: rest) (length pre) = Some (length pre + length s)%nat.
Proof.
  intros Hs. revert pre. induction Hs as [|b s Hb Hs IH]; intros pre fuel Hfuel.
  - rewrite Nat.add_0_r.
    destruct fuel; simpl; rewrite !length_app /=;
      (destruct (Nat.ltb_spec (length pre) (length pre + S (length rest))); [|lia]);
      by rewrite list_lookup_middle.
  - destruct fuel as [|fuel]; [simpl in Hfuel; lia|]. cbn [scan_nul].
    destruct (Nat.ltb_spec (length pre) (length (pre ++ (b :: s) ++ 0 :: rest)));
      [|rewrite !length_app /= in H; lia].
    simpl app. rewrite list_lookup_middle //=. apply Z.eqb_neq in Hb. rewrite Hb.
    specialize (IH (pre ++ [b]) fuel ltac:(simpl in Hfuel; lia)).
    rewrite -app_assoc length_app /= Nat.add_1_r in IH. rewrite IH. f_equal. lia.
Qed.

Lemma drop_eq_app_split {A} n (l e rest : list A) :
  drop n l = e ++ rest → e ≠ [] → ∃ pre, l = pre ++ e ++ rest ∧ n = length pre.
Proof.
  intros Hd He. pose proof (drop_eq_app_length _ _ _ _ Hd He).
  exists (take n l). rewrite -Hd take_drop length_take_le //. lia.
Qed.

Lemma wr_string_tail s : no_nul s → wire_reads string_tail (s ++ [0]) (s, false).
Proof.
  intros Hs [d o f] rest Hf Hd. simpl in *. subst f.
  apply drop_eq_app_split in Hd as (pre & -> & ->); [|by destruct s].
  rewrite -app_assoc /=. unfold string_tail, rd_len. simpl.
  rewrite scan_nul_app //; [|rewrite !length_app /=; lia].
  rewrite !length_app /=.
  destruct (Nat.leb_spec (length pre + (length s + S (length rest))) (length pre + length s));
    [lia|].
  replace (length pre + length s - length pre)%nat with (length s) by lia.
  rewrite drop_app_length take_app_length.
  unfold advance, with_off. cbn [rd_off rd_data rd_failed].
  f_equal. f_equal. lia.
Qed.

Lemma wr_arbitrary_tail v :
  wire_reads (arbitrary_tail (Z.of_nat (length v))) v v.
Proof.
  intros [d o f] rest Hf Hd. simpl in *. subst f. unfold arbitrary_tail, rd_len. simpl.
  pose proof (f_equal length Hd) as Hl. rewrite length_drop length_app in Hl.
  destruct (Z.ltb_spec (Z.of_nat (length d - o)) (Z.of_nat (length v))); [lia|].
  by rewrite Nat2Z.id Hd take_app_length.
Qed.

Lemma wr_take_channels bs i map :
  (i + length bs ≤ length map)%nat →
  wire_reads (take_channels (length bs) i map) bs
    (take i map ++ bs ++ drop (i + length bs) map).
Proof.
  revert i map. induction bs as [|b bs IH]; intros i map Hle; simpl.
  { rewrite Nat.add_0_r take_drop. apply wr_ret. }
  eapply (wr_bind _ _ [b]); [apply wr_Take8|].
  destruct (Nat.ltb_spec i (length map)); [|simpl in *; lia].
  specialize (IH (S i) (<[i:=b]> map)). rewrite length_insert in IH.
  simpl in Hle. specialize (IH ltac:(lia)).
  rewrite (take_S_r _ _ b) in IH; [|by rewrite list_lookup_insert_eq].
  rewrite take_insert_ge in IH; [|lia]. rewrite drop_insert_lt in IH; [|lia].
  rewrite -app_assoc /= in IH.
  by replace (i + S (length bs))%nat with (S (i + length bs)) by lia.
Qed.

Lemma wr_take_volumes v n i first :
  is_u32 v →
  wire_reads (take_volumes n i first) (Nat.iter n (app (be32_bytes v)) [])
    (if (0 <? n)%nat && (i =? 0)%nat then v else first).
Proof.
  intros Hv. revert i first. induction n as [|n IH]; intros i first; [apply wr_ret|].
  simpl take_volumes. cbn [Nat.iter]. eapply wr_bind; [by apply wr_Take32|].
  specialize (IH (S i) (match i with O => v | S _ => first end)).
  rewrite andb_false_r in IH. destruct i; apply IH.
Qed.

(** *** Property lists *)

Lemma bytes_cmp_opp a b : bytes_cmp a b = CompOpp (bytes_cmp b a).
Proof.
  revert b. induction a as [|x a IH]; intros [|y b]; simpl; try done.
  rewrite Z.compare_antisym. destruct (y ?= x); simpl; auto.
Qed.

(** The entries of a [std::map]: strictly increasing keys. *)
Definition key_lt (a b : bytes * bytes) : Prop := bytes_cmp (fst a) (fst b) = Lt.
Definition proplist_sorted (m : proplist) : Prop := StronglySorted key_lt m.

Lemma map_assign_snoc k v m :
  Forall (λ kv, bytes_cmp (fst kv) k = Lt) m → map_assign k v m = m ++ [(k, v)].
Proof.
  induction 1 as [|[k' v'] m Hk Hm IH]; simpl in *; [done|].
  rewrite bytes_cmp_opp Hk /=. by rewrite IH.
Qed.

Lemma foldl_map_assign acc m :
  proplist_sorted (acc ++ m) →
  foldl (λ a kv, map_assign (fst kv) (snd kv) a) acc m = acc ++ m.
Proof.
  revert acc. induction m as [|[k v] m IH]; intros acc Hs; simpl; [by rewrite app_nil_r|].
  rewrite map_assign_snoc.
  - rewrite IH -?app_assoc //.
  - apply Forall_forall. intros kv Hin.
    apply StronglySorted_app_1_elem_of with (x1 := kv) (x2 := (k, v)) in Hs; [done|done|].
    by left.
Qed.

Lemma drop_nul_snoc v : drop_nul (v ++ [0]) = v.
Proof.
  unfold drop_nul. rewrite last_snoc /= length_app /=.
  by replace (length v + 1 - 1)%nat with (length v) by lia; rewrite take_app_length.
Qed.

Definition prop_ok (kv : bytes * bytes) : Prop :=
  no_nul (fst kv) ∧ Z.of_nat (length (snd kv)) + 1 < 2 ^ 32.

Definition prop_bytes (kv : bytes * bytes) : bytes :=
  let n := Z.of_nat (length (snd kv)) + 1 in
  (Tag_code TAG_STRING :: fst kv ++ [0]) ++ (Tag_code TAG_U32 :: be32_bytes n)
    ++ (Tag_code TAG_ARBITRARY :: be32_bytes n ++ snd kv ++ [0]).

Lemma wr_GetU32 v : is_u32 v → wire_reads GetU32 (Tag_code TAG_U32 :: be32_bytes v) v.
Proof. intros. by apply wr_tagged, wr_Take32. Qed.

Lemma wr_GetArbitrary v :
  is_u32 (Z.of_nat (length v)) →
  wire_reads GetArbitrary
    (Tag_code TAG_ARBITRARY :: be32_bytes (Z.of_nat (length v)) ++ v) v.
Proof.
  intros. apply wr_tagged. eapply wr_bind; [by apply wr_Take32|apply wr_arbitrary_tail].
Qed.

Lemma wr_GetString s :
  no_nul s → wire_reads GetString (Tag_code TAG_STRING :: s ++ [0]) (s, false).
Proof.
  intros. eapply (wr_bind _ _ [_]); [apply wr_Take8|]. by apply wr_string_tail.
Qed.

Lemma wr_get_prop kv : prop_ok kv → wire_reads get_prop (prop_bytes kv) kv.
Proof.
  destruct kv as [k v]. intros [Hk Hv]. simpl in Hk, Hv. unfold prop_bytes.
  eapply wr_bind; [by apply wr_GetString|].
  eapply wr_bind; [apply wr_GetU32; unfold is_u32; simpl; lia|].
  eapply wr_bind_l.
  - replace (Z.of_nat (length (snd (k, v))) + 1) with (Z.of_nat (length (v ++ [0])))
      by (rewrite length_app /=; lia).
    apply wr_GetArbitrary. rewrite length_app /=. unfold is_u32. lia.
  - rewrite drop_nul_snoc. apply wr_ret.
Qed.

Lemma wr_proplist_loop m acc fuel :
  Forall prop_ok m → (length m ≤ fuel)%nat →
  wire_reads (proplist_loop fuel acc) (concat (prop_bytes <$> m) ++ [Tag_code TAG_STRING_NULL])
    (foldl (λ a kv, map_assign (fst kv) (snd kv) a) acc m).
Proof.
  intros Hm. revert acc fuel. induction Hm as [|kv m Hkv Hm IH];
    intros acc fuel Hfuel r rest Hf Hd.
  - pose proof (drop_eq_app_length _ _ [_] _ Hd ltac:(done)) as Hlen.
    pose proof (drop_eq_app_lookup _ _ [_] _ 0 _ Hd eq_refl) as Hlk.
    rewrite Nat.add_0_r in Hlk. simpl in Hlen.
    destruct fuel; simpl; unfold rd_len; rewrite Hlk;
      destruct (Nat.leb_spec (length (rd_data r)) (rd_off r)); try lia; done.
  - destruct fuel as [|fuel]; [simpl in Hfuel; lia|]. cbn [proplist_loop].
    change (concat (prop_bytes <$> kv :: m))
      with (prop_bytes kv ++ concat (prop_bytes <$> m)) in Hd |- *.
    rewrite -app_assoc. rewrite -!app_assoc in Hd.
    pose proof (drop_eq_app_length _ _ (_ :: _) _ Hd ltac:(done)) as Hlen.
    pose proof (drop_eq_app_lookup _ _ (_ :: _) _ 0 _ Hd eq_refl) as Hlk.
    rewrite Nat.add_0_r in Hlk. cbn [length] in Hlen. unfold rd_len. rewrite Hlk.
    destruct (Nat.leb_spec (length (rd_data r)) (rd_off r)); [lia|].
    change (Tag_code TAG_STRING =? Tag_code TAG_STRING_NULL) with false.
    eapply wr_bind; [by apply wr_get_prop| |done|by rewrite -!app_assoc].
    apply IH. simpl in Hfuel. lia.
Qed.

Lemma foldl_put_prop t m :
  Forall prop_ok m → foldl put_prop t m = t ++ concat (prop_bytes <$> m).
Proof.
  intros Hm. revert t. induction Hm as [|[k v] m [Hk Hv] Hm IH]; intros t; simpl;
    [by rewrite app_nil_r|].
  rewrite IH. unfold put_prop, prop_bytes, PutU32, PutString, RawTag, Raw8, Raw32.
  simpl in Hk, Hv |- *. rewrite cstr_id // u32_id; [|unfold is_u32; lia].
  rewrite -!app_assoc /=. by rewrite -!app_assoc.
Qed.

(** *** All kinds of value at once *)

Inductive TagVal :=
| VU8 (v : Z) | VU32 (v : Z) | VU64 (v : Z) | VS64 (v : Z) | VUsec (v : Z)
| VBool (b : bool) | VString (s : option bytes) | VSampleSpec (ss : SampleSpec)
| VChannelMap (cm : ChannelMap) | VCVolume (channels value : Z)
| VTimeval (sec usec : Z) | VProplist (props : proplist).

Inductive TagKind :=
| KU8 | KU32 | KU64 | KS64 | KUsec | KBool | KString | KSampleSpec | KChannelMap
| KCVolume | KTimeval | KProplist.

Definition kind_of (v : TagVal) : TagKind :=
  match v with
  | VU8 _ => KU8 | VU32 _ => KU32 | VU64 _ => KU64 | VS64 _ => KS64
  | VUsec _ => KUsec | VBool _ => KBool | VString _ => KString
  | VSampleSpec _ => KSampleSpec | VChannelMap _ => KChannelMap
  | VCVolume _ _ => KCVolume | VTimeval _ _ => KTimeval | VProplist _ => KProplist
  end.

Definition put_val (v : TagVal) (t : TagWriter) : option TagWriter :=
  match v with
  | VU8 v => Some (PutU8 v t) | VU32 v => Some (PutU32 v t)
  | VU64 v => Some (PutU64 v t) | VS64 v => Some (PutS64 v t)
  | VUsec v => Some (PutUsec v t) | VBool b => Some (PutBool b t)
  | VString s => Some (PutString s t) | VSampleSpec ss => Some (PutSampleSpec ss t)
  | VChannelMap cm => PutChannelMap cm t
  | VCVolume c v => Some (PutCVolume c v t)
  | VTimeval s u => Some (PutTimeval s u t)
  | VProplist m => Some (PutProplist m t)
  end.

Definition get_val (k : TagKind) : Reader TagVal :=
  match k with
  | KU8 => let* v := GetU8 in rret (VU8 v)
  | KU32 => let* v := GetU32 in rret (VU32 v)
  | KU64 => let* v := GetU64 in rret (VU64 v)
  | KS64 => let* v := GetS64 in rret (VS64 v)
  | KUsec => let* v := GetUsec in rret (VUsec v)
  | KBool => let* v := GetBool in rret (VBool v)
  | KString => let* v := GetString in
               rret (VString (if snd v then None else Some (fst v)))
  | KSampleSpec => let* v := GetSampleSpec in rret (VSampleSpec v)
  | KChannelMap => let* v := GetChannelMap ChannelMap_default in rret (VChannelMap v)
  | KCVolume => let* v := GetCVolume in rret (VCVolume (fst v) (snd v))
  | KTimeval => let* v := GetTimeval in rret (VTimeval (fst v) (snd v))
  | KProplist => let* v := GetProplist [] in rret (VProplist v)
  end.

(** What a value of the C++ types can be; a channel map is compared on the
    entries its [channels] count covers. *)
Definition val_ok (v : TagVal) : Prop :=
  match v with
  | VU8 v => is_u8 v
  | VU32 v => is_u32 v
  | VU64 v | VUsec v => is_u64 v
  | VS64 v => is_s64 v
  | VBool _ => True
  | VString s => match s with Some s => no_nul s | None => True end
  | VSampleSpec ss => SampleSpec_ok ss
  | VChannelMap cm =>
      ChannelMap_ok cm ∧
      drop (Z.to_nat (cm_channels cm)) (cm_map cm)
      = drop (Z.to_nat (cm_channels cm)) (cm_map ChannelMap_default)
  | VCVolume c v => is_u8 c ∧ is_u32 v ∧ (c = 0 → v = VOLUME_NORM)
  | VTimeval s u => is_u32 s ∧ is_u32 u
  | VProplist m => proplist_sorted m ∧ Forall prop_ok m
  end.

(** [v] is written as the same bytes [e] at the end of any buffer, and reading
    [e] with the getter of its kind gives [v] back. *)
Definition val_codec (v : TagVal) : Prop :=
  ∃ e, (∀ t, put_val v t = Some (t ++ e)) ∧ wire_reads (get_val (kind_of v)) e v.

Lemma put_channels_take n i map t :
  (i + n ≤ length map)%nat → bytes_ok map →
  put_channels n i map t = Some (t ++ take n (drop i map)).
Proof.
  revert i t. induction n as [|n IH]; intros i t Hle Hb; simpl; [by rewrite app_nil_r|].
  destruct (lookup_lt_is_Some_2 map i) as [b Hi]; [lia|]. rewrite Hi /=.
  rewrite IH //; [|lia]. unfold Raw8. rewrite u8_id; [|by eapply bytes_ok_lookup].
  by rewrite (drop_S _ _ _ Hi) /= -app_assoc.
Qed.

Lemma val_codec_channel_map cm : val_ok (VChannelMap cm) → val_codec (VChannelMap cm).
Proof.
  intros [(Hc & Hl & Hb) Hd]. set (n := Z.to_nat (cm_channels cm)) in *.
  unfold CHANNEL_MAP_SIZE in *.
  exists (Tag_code TAG_CHANNEL_MAP :: cm_channels cm :: take n (cm_map cm)). split.
  - intros t. simpl. unfold PutChannelMap. rewrite put_channels_take //; [|lia].
    unfold RawTag, Raw8. rewrite u8_id //.
    rewrite u8_id; [|unfold is_u8; lia]. by rewrite -!app_assoc.
  - simpl. eapply wr_bind_l.
    + apply wr_tagged. eapply (wr_bind _ _ [_]); [apply wr_Take8|].
      destruct (Z.ltb_spec (Z.of_nat CHANNEL_MAP_SIZE) (cm_channels cm));
        [unfold CHANNEL_MAP_SIZE in *; lia|].
      eapply wr_bind_l; [|apply wr_ret]. fold n.
      replace n with (length (take n (cm_map cm))) at 1 by (rewrite length_take; lia).
      apply wr_take_channels. rewrite length_take /=. lia.
    + rewrite take_0 length_take Nat.min_l; [|lia]. simpl. rewrite -Hd take_drop.
      destruct cm. apply wr_ret.
Qed.

Lemma PutCVolume_app c v t :
  is_u8 c →
  PutCVolume c v t = t ++ Tag_code TAG_CVOLUME :: c :: Nat.iter (Z.to_nat c) (app (be32_bytes v)) [].
Proof.
  intros Hc. unfold PutCVolume, RawTag, Raw8. rewrite (u8_id c) //.
  rewrite (u8_id (Tag_code _)) //. rewrite -app_assoc /=.
  generalize (Z.to_nat c). intros n.
  replace (t ++ _ :: c :: Nat.iter n (app (be32_bytes v)) [])
    with ((t ++ [Tag_code TAG_CVOLUME; c]) ++ Nat.iter n (app (be32_bytes v)) [])
    by by rewrite -app_assoc.
  generalize (t ++ [Tag_code TAG_CVOLUME; c]). intros t0. unfold Raw32.
  generalize (be32_bytes v). intros b.
  assert (∀ n, Nat.iter n (app b) [] ++ b = b ++ Nat.iter n (app b) []) as Hcomm.
  { intros k. induction k as [|k IH]; simpl; [by rewrite app_nil_r|].
    by rewrite -app_assoc IH. }
  induction n as [|n IH]; simpl; [by rewrite app_nil_r|].
  by rewrite IH -app_assoc Hcomm.
Qed.

Lemma prop_bytes_length m : (length m ≤ length (concat (prop_bytes <$> m)))%nat.
Proof.
  induction m as [|kv m IH]; [done|]. rewrite fmap_cons /= !length_app /=. lia.
Qed.

Lemma val_codec_proplist m : val_ok (VProplist m) → val_codec (VProplist m).
Proof.
  intros [Hs Hm].
  exists (Tag_code TAG_PROPLIST :: concat (prop_bytes <$> m) ++ [Tag_code TAG_STRING_NULL]).
  split.
  - intros t. simpl. unfold PutProplist. rewrite foldl_put_prop //.
    unfold RawTag, Raw8. rewrite !u8_id //. by rewrite -!app_assoc.
  - simpl. eapply wr_bind_l; [|apply wr_ret]. apply wr_tagged.
    intros r rest Hf Hd.
    assert (length m ≤ rd_len r - rd_off r)%nat as Hfuel.
    { apply (f_equal length) in Hd. rewrite length_drop !length_app in Hd.
      pose proof (prop_bytes_length m). unfold rd_len. lia. }
    pose proof (wr_proplist_loop m [] _ Hm Hfuel r rest Hf Hd) as Hl.
    by rewrite (foldl_map_assign []) in Hl.
Qed.

Lemma Raw64_app v t :
  Raw64 v t = t ++ be32_bytes (u32 (Z.shiftr v 32)) ++ be32_bytes (u32 v).
Proof. unfold Raw64, Raw32. by rewrite -app_assoc. Qed.

Lemma RawTag_app tag t : RawTag tag t = t ++ [Tag_code tag].
Proof. unfold RawTag, Raw8. rewrite u8_id //. by destruct tag. Qed.

(** A value written as one tag and a payload. *)
Lemma val_codec_tagged {A} v tag (g : Reader A) (f : A → TagVal) a e :
  (∀ t, put_val v t = Some (RawTag tag t ++ e)) →
  get_val (kind_of v) = (let* x := (do* Expect tag in g) in rret (f x)) →
  wire_reads g e a → f a = v → val_codec v.
Proof.
  intros Hput Hget Hg <-. exists (Tag_code tag :: e). split.
  - intros t. rewrite Hput RawTag_app. by rewrite -app_assoc.
  - rewrite Hget. eapply wr_bind_l; [by apply wr_tagged|apply wr_ret].
Qed.

Lemma wr_GetS64_payload v :
  is_s64 v →
  wire_reads (let* x := Take64 in rret (s64 x))
    (be32_bytes (u32 (Z.shiftr (u64 v) 32)) ++ be32_bytes (u32 (u64 v))) v.
Proof.
  intros Hv. eapply wr_bind_l; [apply wr_Take64, u64_is_u64|].
  rewrite s64_u64 //. apply wr_ret.
Qed.

Lemma val_codec_bool b : val_codec (VBool b).
Proof.
  exists [Tag_code (if b then TAG_BOOLEAN_TRUE else TAG_BOOLEAN_FALSE)]. split.
  - intros t. simpl. unfold PutBool. by rewrite RawTag_app.
  - simpl. eapply wr_bind_l; [|apply wr_ret]. eapply wr_bind_l; [apply wr_Take8|].
    destruct b; apply wr_ret.
Qed.

Lemma val_codec_string s : val_ok (VString s) → val_codec (VString s).
Proof.
  destruct s as [s|]; intros Hs; simpl in Hs.
  - exists (Tag_code TAG_STRING :: s ++ [0]). split.
    + intros t. simpl. rewrite cstr_id // RawTag_app. by rewrite -app_assoc.
    + simpl. eapply wr_bind_l; [by apply wr_GetString|]. apply wr_ret.
  - exists [Tag_code TAG_STRING_NULL]. split.
    + intros t. simpl. by rewrite RawTag_app.
    + simpl. eapply (wr_bind_l _ _ _ ([], true)); [|apply wr_ret].
      eapply wr_bind_l; [apply wr_Take8|]. apply wr_ret.
Qed.

Lemma val_codec_sample_spec ss : val_ok (VSampleSpec ss) → val_codec (VSampleSpec ss).
Proof.
  destruct ss as [f c r]. intros (Hf & Hc & Hr). simpl in *.
  eapply (val_codec_tagged _ TAG_SAMPLE_SPEC _ VSampleSpec _ ([f] ++ [c] ++ be32_bytes r)).
  - intros t. simpl. unfold PutSampleSpec, Raw8, Raw32. rewrite !u8_id //=.
    by rewrite -!app_assoc.
  - reflexivity.
  - eapply wr_bind; [apply wr_Take8|]. eapply wr_bind; [apply wr_Take8|].
    eapply wr_bind_l; [by apply wr_Take32|apply wr_ret].
  - done.
Qed.

Lemma val_codec_cvolume c v : val_ok (VCVolume c v) → val_codec (VCVolume c v).
Proof.
  intros (Hc & Hv & H0).
  exists (Tag_code TAG_CVOLUME :: c :: Nat.iter (Z.to_nat c) (app (be32_bytes v)) []). split.
  - intros t. simpl. by rewrite PutCVolume_app.
  - simpl. eapply wr_bind_l.
    + apply wr_tagged. eapply (wr_bind _ _ [c]); [apply wr_Take8|].
      eapply wr_bind_l; [by apply wr_take_volumes|apply wr_ret].
    + cbn [fst snd]. destruct (Nat.ltb_spec 0 (Z.to_nat c)); simpl; [apply wr_ret|].
      rewrite H0; [apply wr_ret|]. unfold is_u8 in Hc. lia.
Qed.

Lemma val_codec_all v : val_ok v → val_codec v.
Proof.
  destruct v as [v|v|v|v|v|b|s|ss|cm|c v|s u|m]; intros Hv.
  - eapply (val_codec_tagged _ TAG_U8 _ VU8 v [v]); [|reflexivity|apply wr_Take8|done].
    intros t. simpl. unfold PutU8, Raw8. by rewrite u8_id.
  - eapply (val_codec_tagged _ TAG_U32 _ VU32 v); [|reflexivity|by apply wr_Take32|done].
    done.
  - eapply (val_codec_tagged _ TAG_U64 _ VU64 v); [|reflexivity|by apply wr_Take64|done].
    intros t. simpl. unfold PutU64. by rewrite Raw64_app.
  - eapply (val_codec_tagged _ TAG_S64 _ VS64 v); [|reflexivity|by apply wr_GetS64_payload|done].
    intros t. simpl. unfold PutS64. by rewrite Raw64_app.
  - eapply (val_codec_tagged _ TAG_USEC _ VUsec v); [|reflexivity|by apply wr_Take64|done].
    intros t. simpl. unfold PutUsec. by rewrite Raw64_app.
  - apply val_codec_bool.
  - by apply val_codec_string.
  - by apply val_codec_sample_spec.
  - by apply val_codec_channel_map.
  - by apply val_codec_cvolume.
  - destruct Hv as [Hs Hu].
    eapply (val_codec_tagged _ TAG_TIMEVAL _ (λ p, VTimeval (fst p) (snd p)) (s, u)
              (be32_bytes s ++ be32_bytes u)); [|reflexivity| |done].
    + intros t. simpl. unfold PutTimeval, Raw32. by rewrite -app_assoc.
    + eapply wr_bind; [by apply wr_Take32|].
      eapply wr_bind_l; [by apply wr_Take32|apply wr_ret].
  - by apply val_codec_proplist.
Qed.

(** A whole tagstruct: the values written one after the other, and the getters
    called in the order of their kinds. *)
Fixpoint put_vals (vs : list TagVal) (t : TagWriter) : option TagWriter :=
  match vs with
  | [] => Some t
  | v :: vs => t ← put_val v t; put_vals vs t
  end.

Fixpoint get_vals (ks : list TagKind) : Reader (list TagVal) :=
  match ks with
  | [] => rret []
  | k :: ks => let* v := get_val k in let* vs := get_vals ks in rret (v :: vs)
  end.

Lemma vals_codec vs :
  Forall val_ok vs →
  ∃ e, (∀ t, put_vals vs t = Some (t ++ e)) ∧ wire_reads (get_vals (kind_of <$> vs)) e vs.
Proof.
  induction 1 as [|v vs Hv _ (e2 & Hput2 & Hget2)].
  - exists []. split; [|apply wr_ret]. intros t. simpl. by rewrite app_nil_r.
  - destruct (val_codec_all v Hv) as (e1 & Hput1 & Hget1). exists (e1 ++ e2). split.
    + intros t. simpl. by rewrite Hput1 /= Hput2 -app_assoc.
    + simpl. eapply wr_bind; [done|]. eapply wr_bind_l; [done|apply wr_ret].
Qed.

(** ** Sample-spec arithmetic *)

Lemma sample_width_bounds f : 1 <= sample_width f <= 4.
Proof. unfold sample_width. repeat case_match; lia. Qed.

Lemma Valid_props ss :
  Valid ss = true →
  1 <= ss_channels ss <= 32 ∧ 1 <= ss_rate ss <= 384000 ∧ 1 <= FrameSize ss <= 128.
Proof.
  unfold Valid, FrameSize. intros H. bool_props.
  pose proof (sample_width_bounds (ss_format ss)). nia.
Qed.

Lemma UsecToBytes_exact ss usec :
  Valid ss = true → 0 <= usec <= 2000000 →
  UsecToBytes ss usec = (usec * ss_rate ss / 1000000) * FrameSize ss ∧
  0 <= UsecToBytes ss usec < 2 ^ 27.
Proof.
  intros (Hc & Hr & Hf)%Valid_props Hu. unfold UsecToBytes.
  assert (0 <= usec * ss_rate ss <= 768000000000) as Hm by nia.
  rewrite (u64_id (usec * _)); [|unfold is_u64; lia].
  set (q := usec * ss_rate ss / 1000000).
  assert (0 <= q <= 768000) as Hq
    by (unfold q; split; [apply Z.div_pos|apply Z.div_le_upper_bound]; lia).
  rewrite u64_id; [|unfold is_u64; nia]. split; [done|nia].
Qed.

Lemma BytesToUsec_UsecToBytes ss usec :
  Valid ss = true → 0 <= usec <= 2000000 →
  usec - 1000000 / ss_rate ss - 1 <= BytesToUsec ss (UsecToBytes ss usec) <= usec.
Proof.
  intros HV Hu. destruct (UsecToBytes_exact ss usec HV Hu) as [-> _].
  destruct (Valid_props _ HV) as (Hc & Hr & Hf). unfold BytesToUsec.
  destruct (Z.eqb_spec (FrameSize ss) 0); [lia|].
  destruct (Z.eqb_spec (ss_rate ss) 0); [lia|]. simpl.
  rewrite Z.div_mul //. rewrite u64_id.
  - Z.to_euclidean_division_equations. nia.
  - unfold is_u64. Z.to_euclidean_division_equations. nia.
Qed.

(** ** The properties of the wire format *)

Lemma ChannelMap_default_ok : ChannelMap_ok ChannelMap_default.
Proof.
  repeat split; try done. apply Forall_app. split; [by repeat constructor|].
  by apply Forall_replicate.
Qed.

Lemma rspec_get_val k : rspec 1 (λ _, True) (get_val k).
Proof.
  destruct k; simpl; (eapply rspec_bind; [|intros; by apply rspec_ret|idtac]);
    first [ apply rspec_GetU8 | apply rspec_GetU32 | apply rspec_GetU64
          | apply rspec_GetS64 | apply rspec_GetUsec | apply rspec_GetBool
          | apply rspec_GetString | apply rspec_GetSampleSpec
          | apply rspec_GetChannelMap, ChannelMap_default_ok | apply rspec_GetCVolume
          | apply rspec_GetTimeval | apply rspec_GetProplist | lia ].
Qed.

Lemma rspec_get_vals ks : rspec (length ks) (λ _, True) (get_vals ks).
Proof.
  induction ks as [|k ks IH]; [by apply rspec_ret|].
  eapply (rspec_bind 1 (length ks)); [apply rspec_get_val|intros v _|simpl; lia].
  eapply (rspec_bind _ 0); [apply IH|intros vs _|lia]. by apply rspec_ret.
Qed.

(** [rspec] at the start of a packet. *)
Lemma rspec_new {A} n (P : A → Prop) (g : Reader A) data :
  rspec n P g → bytes_ok data →
  match g (TagReader_new data) with
  | ROk a r => P a ∧ Failed r = false ∧ (n ≤ rd_off r ≤ length data)%nat
  | RFail r => Failed r = true ∧ (rd_off r ≤ length data)%nat
  | RUB => False
  end.
Proof.
  intros Hg Hb. specialize (Hg (TagReader_new data)).
  unfold reader_ok, rd_len, Failed in *. specialize (Hg ltac:(simpl; lia) Hb). simpl in Hg.
  destruct (g _) as [a r|r|]; [| |done].
  - destruct Hg as (Ha & Hr & Hd & Hf & Ho). rewrite Hd in Hr. naive_solver lia.
  - destruct Hg as (Hr & Hd & Hf). by rewrite Hd in Hr.
Qed.

Lemma rstrict_Expect t : rstrict (Expect t).
Proof. apply rstrict_bind, rstrict_Take8. Qed.

Lemma rstrict_get_val k : rstrict (get_val k).
Proof.
  destruct k; apply rstrict_bind;
    first [apply rstrict_bind, rstrict_Expect | apply rstrict_bind, rstrict_Take8].
Qed.

(** C10: Round trip of the tagstruct encoding.  Whatever sequence of values the
    [TagWriter] serialises (integers of every width, booleans, strings and the
    null string, sample specs, channel maps, volumes, timevals, property
    lists), the [TagReader] getters of the same kinds, called in the same
    order on the resulting buffer, all return true with exactly those values,
    and leave the reader at [Eof()]. *)
Theorem tagstruct_roundtrip vs :
  Forall val_ok vs →
  ∃ buf r, put_vals vs [] = Some buf ∧
    get_vals (kind_of <$> vs) (TagReader_new buf) = ROk vs r ∧ Eof r = true.
Proof.
  intros (e & Hput & Hget)%vals_codec. exists e, (advance (length e) (TagReader_new e)).
  split; [apply Hput|]. split.
  - apply (Hget _ []); [done|]. simpl. by rewrite app_nil_r.
  - unfold Eof. simpl. by rewrite Nat.eqb_refl.
Qed.

Definition sample_props : proplist :=
  [(bytes_of_string "application.name", bytes_of_string "alsa");
   (bytes_of_string "media.name", [1; 0; 2])].

Lemma tagstruct_roundtrip_witness :
  Forall val_ok
    [VU32 3; VS64 (-5); VString (Some (bytes_of_string "default")); VString None;
     VSampleSpec SampleSpec_default; VChannelMap ChannelMap_default;
     VCVolume 2 65536; VProplist sample_props] ∧
  ∃ buf r,
    put_vals
      [VU32 3; VS64 (-5); VString (Some (bytes_of_string "default")); VString None;
       VSampleSpec SampleSpec_default; VChannelMap ChannelMap_default;
       VCVolume 2 65536; VProplist sample_props] [] = Some buf ∧
    get_vals [KU32; KS64; KString; KString; KSampleSpec; KChannelMap; KCVolume; KProplist]
      (TagReader_new buf)
    = ROk [VU32 3; VS64 (-5); VString (Some (bytes_of_string "default")); VString None;
           VSampleSpec SampleSpec_default; VChannelMap ChannelMap_default;
           VCVolume 2 65536; VProplist sample_props] r ∧
    Eof r = true.
Proof.
  assert (Forall val_ok
    [VU32 3; VS64 (-5); VString (Some (bytes_of_string "default")); VString None;
     VSampleSpec SampleSpec_default; VChannelMap ChannelMap_default;
     VCVolume 2 65536; VProplist sample_props]) as Hok.
  { by repeat constructor. }
  split; [exact Hok|exact (tagstruct_roundtrip _ Hok)].
Defined.

(** C34: Memory safety of the parser.  On any packet, any sequence of getter
    calls stays inside the packet (no read past [len_], no store past
    [cm.map]) and terminates; if one returns false the reader has recorded the
    failure, and if all return true the cursor advanced by at least one byte
    per getter and is still within the packet.  [GetArbitrary], whose length
    comes from the wire, is covered too. *)
Theorem reader_memory_safe (ks : list TagKind) (data : bytes) :
  bytes_ok data →
  match get_vals ks (TagReader_new data) with
  | ROk vs r => True ∧ Failed r = false ∧ (length ks ≤ rd_off r ≤ length data)%nat
  | RFail r => Failed r = true ∧ (rd_off r ≤ length data)%nat
  | RUB => False
  end ∧
  match GetArbitrary (TagReader_new data) with
  | ROk v r => bytes_ok v ∧ Failed r = false ∧ (5 ≤ rd_off r ≤ length data)%nat
  | RFail r => Failed r = true ∧ (rd_off r ≤ length data)%nat
  | RUB => False
  end.
Proof.
  intros Hb. split; [exact (rspec_new _ _ _ _ (rspec_get_vals ks) Hb)|].
  exact (rspec_new _ _ _ _ rspec_GetArbitrary Hb).
Qed.

Lemma reader_memory_safe_witness :
  bytes_ok (Tag_code TAG_U32 :: be32_bytes 7) ∧
  match get_vals [KU32; KU32] (TagReader_new (Tag_code TAG_U32 :: be32_bytes 7)) with
  | ROk vs r => True ∧ Failed r = false ∧ (2 ≤ rd_off r ≤ 5)%nat
  | RFail r => Failed r = true ∧ (rd_off r ≤ 5)%nat
  | RUB => False
  end.
Proof.
  assert (bytes_ok (Tag_code TAG_U32 :: be32_bytes 7)) as H by (by repeat constructor).
  split; [exact H|]. exact (proj1 (reader_memory_safe [KU32; KU32] _ H)).
Defined.

(** Failure is sticky.  Once [failed_] is set, every getter returns false
    and changes nothing, so a caller that tests only the last of a chain of
    getters still notices a failure of an earlier one. *)
Theorem reader_failure_sticky (k : TagKind) (ks : list TagKind) (r : TagReader) :
  Failed r = true →
  get_val k r = RFail r ∧ (ks ≠ [] → get_vals ks r = RFail r) ∧ GetArbitrary r = RFail r.
Proof.
  intros Hf. split; [by apply rstrict_get_val|]. split.
  - intros Hne. destruct ks as [|k' ks]; [done|]. simpl.
    unfold rbind. by rewrite rstrict_get_val.
  - by apply rstrict_bind; [apply rstrict_Expect|].
Qed.

Lemma reader_failure_sticky_witness :
  Failed (mkReader [1; 2] 1 true) = true ∧
  get_val KBool (mkReader [1; 2] 1 true) = RFail (mkReader [1; 2] 1 true).
Proof.
  split; [reflexivity|].
  exact (proj1 (reader_failure_sticky KBool [] (mkReader [1; 2] 1 true) eq_refl)).
Defined.

(** Sample-spec arithmetic does not overflow.  For a spec that [Valid()]
    accepts and durations up to the server's largest default (two seconds),
    [UsecToBytes] is the exact product, a whole number of frames below 2^27
    (so its casts to [uint32_t] are lossless), and converting it back with
    [BytesToUsec] loses at most one frame's worth of time. *)
Theorem usec_bytes_exact (ss : SampleSpec) (usec : Z) :
  Valid ss = true → 0 <= usec <= 2000000 →
  UsecToBytes ss usec = (usec * ss_rate ss / 1000000) * FrameSize ss ∧
  UsecToBytes ss usec mod FrameSize ss = 0 ∧
  u32 (UsecToBytes ss usec) = UsecToBytes ss usec ∧
  0 <= UsecToBytes ss usec < 2 ^ 27 ∧
  usec - 1000000 / ss_rate ss - 1 <= BytesToUsec ss (UsecToBytes ss usec) <= usec.
Proof.
  intros HV Hu. destruct (UsecToBytes_exact ss usec HV Hu) as [He Hb].
  repeat split; try done; try apply Hb; try by apply BytesToUsec_UsecToBytes.
  - rewrite He. apply Z.mod_mul. destruct (Valid_props _ HV) as (_ & _ & ?). lia.
  - apply u32_id. unfold is_u32. lia.
Qed.

Lemma usec_bytes_exact_witness :
  Valid SampleSpec_default = true ∧ UsecToBytes SampleSpec_default 20000 = 3840 ∧
  UsecToBytes SampleSpec_default 20000 mod FrameSize SampleSpec_default = 0.
Proof.
  split; [reflexivity|]. split; [reflexivity|].
  assert (0 <= 20000 <= 2000000) as Hr by lia.
  exact (proj1 (proj2 (usec_bytes_exact SampleSpec_default 20000 eq_refl Hr))).
Defined.
