(* ===== verification/OhosSink.v ===== *)
(** * The playback sink (hybris_generic/waydroid/audio/ohos_sink.{h,cpp})

    One [OhosSink] per playback stream: a byte ring filled by the protocol loop
    and drained by a render thread into an [AudioRenderer].  The ring is an
    instance of the class [ByteBuffer]; the sink's operations and the render
    thread are written against that class, so that the same code runs over the
    ring of the source ([Ring]) and over a plain queue ([Queue]), and the
    refinement theorem relates the two.

    The render thread is a state machine: one step is one critical section (the
    code between taking and releasing [mutex_]) or one call to the renderer, so
    every interleaving with the protocol loop is a sequence of steps.  The
    answers of [AudioRenderer] (third-party) are arguments of the step. *)

From S2P Require Import Prelude PaWire.
Set Warnings "-rewrite-rw,-clear-no-such-hyp".

(** ** Byte buffers: the interface between the sink and its storage *)

Class ByteBuffer (B : Type) := {
  bb_new : nat → B;                          (* empty, of a capacity *)
  bb_size : B → nat;
  bb_fill : B → nat;
  bb_push : bytes → B → option (nat * B);    (* accepted; [None] is UB *)
  bb_pop : nat → B → option (bytes * B);     (* [None] is UB *)
  bb_clear : B → B;
}.

(** *** The ring of the source *)

Record Ring := mkRing { r_ring : bytes; r_head : nat; r_fill : nat }.

(** [std::copy] to and from an iterator range; [None] outside the vector. *)
Definition copy_to (i : nat) (src dst : bytes) : option bytes :=
  if (i + length src <=? length dst)%nat
  then Some (take i dst ++ src ++ drop (i + length src) dst) else None.
Definition copy_from (i n : nat) (src : bytes) : option bytes :=
  if (i + n <=? length src)%nat then Some (take n (drop i src)) else None.

(** The ring part of [OhosSink::Push] (the ring is not empty there). *)
Definition ring_push (data : bytes) (r : Ring) : option (nat * Ring) :=
  let size := length (r_ring r) in
  if (size =? 0)%nat then None else
  let accepted := Nat.min (length data) (size - r_fill r) in
  let tail := ((r_head r + r_fill r) mod size)%nat in
  let first := Nat.min accepted (size - tail) in
  buf ← copy_to tail (take first data) (r_ring r);
  buf ← (if (first <? accepted)%nat
         then copy_to 0 (take (accepted - first) (drop first data)) buf
         else Some buf);
  Some (accepted, mkRing buf (r_head r) (r_fill r + accepted)).

(** [OhosSink::PopLocked]; the remainder by a size of 0 is undefined. *)
Definition PopLocked (want : nat) (r : Ring) : option (bytes * Ring) :=
  let size := length (r_ring r) in
  let got := Nat.min want (r_fill r) in
  let first := Nat.min got (size - r_head r) in
  dst ← copy_from (r_head r) first (r_ring r);
  dst ← (if (first <? got)%nat
         then rest ← copy_from 0 (got - first) (r_ring r); Some (dst ++ rest)
         else Some dst);
  if (size =? 0)%nat then None
  else Some (dst, mkRing (r_ring r) ((r_head r + got) mod size) (r_fill r - got)).

#[export] Instance Ring_buffer : ByteBuffer Ring := {
  bb_new n := mkRing (replicate n 0) 0 0;
  bb_size r := length (r_ring r);
  bb_fill := r_fill;
  bb_push := ring_push;
  bb_pop := PopLocked;
  bb_clear r := mkRing (r_ring r) 0 0;
}.

(** *** The specification: a bounded FIFO queue *)

Record Queue := mkQueue { q_cap : nat; q_bytes : bytes }.

Definition queue_push (data : bytes) (q : Queue) : option (nat * Queue) :=
  if (q_cap q =? 0)%nat then None else
  let accepted := Nat.min (length data) (q_cap q - length (q_bytes q)) in
  Some (accepted, mkQueue (q_cap q) (q_bytes q ++ take accepted data)).

Definition queue_pop (want : nat) (q : Queue) : option (bytes * Queue) :=
  if (q_cap q =? 0)%nat then None
  else Some (take want (q_bytes q), mkQueue (q_cap q) (drop want (q_bytes q))).

#[export] Instance Queue_buffer : ByteBuffer Queue := {
  bb_new n := mkQueue n [];
  bb_size := q_cap;
  bb_fill q := length (q_bytes q);
  bb_push := queue_push;
  bb_pop := queue_pop;
  bb_clear q := mkQueue (q_cap q) [];
}.

(** ** The sink *)

(** [OhosSink::Events]. *)
Record Events := mkEvents
  { credit : Z; underflow : bool; started : bool; drained : bool }.
Definition Events_none : Events := mkEvents 0 false false false.

(** Where the render thread stands in [RenderLoop]. *)
Inductive RenderPc :=
| PcNone                                 (* not started *)
| PcWait                                 (* at the top of the loop *)
| PcPause                                (* unlocked, before [Pause()] *)
| PcNotify                               (* before [notify_()] and [continue] *)
| PcDrain                                (* [finishDrain], before [Drain()] *)
| PcDrained                              (* before setting [pending_.drained] *)
| PcStart (scratch : bytes)              (* a chunk was popped *)
| PcWrite (scratch : bytes) (written : nat)
| PcAccount (got : nat)                  (* before the last critical section *)
| PcExit.

Record Sink (B : Type) := mkSink {
  sk_buf : B;
  sk_spec : SampleSpec;
  sk_corked : bool;
  sk_quit : bool;
  sk_drainRequested : bool;
  sk_playing : bool;
  sk_pending : Events;
  sk_readIndex : Z;
  sk_renderer : bool;                       (* [renderer_ != nullptr] *)
  sk_rendererRunning : bool;
  sk_writeFailed : bool;
  sk_startFailed : bool;
  sk_notified : nat;                        (* how often [notify_()] was called *)
  sk_pc : RenderPc;
}.
Arguments mkSink {B}.
Arguments sk_buf {B}.
Arguments sk_spec {B}.
Arguments sk_corked {B}.
Arguments sk_quit {B}.
Arguments sk_drainRequested {B}.
Arguments sk_playing {B}.
Arguments sk_pending {B}.
Arguments sk_readIndex {B}.
Arguments sk_renderer {B}.
Arguments sk_rendererRunning {B}.
Arguments sk_writeFailed {B}.
Arguments sk_startFailed {B}.
Arguments sk_notified {B}.
Arguments sk_pc {B}.

Section Setters.
Context {B : Type}.

Definition set_buf (x : B) (s : Sink B) : Sink B :=
  mkSink x (sk_spec s) (sk_corked s) (sk_quit s) (sk_drainRequested s) (sk_playing s)
    (sk_pending s) (sk_readIndex s) (sk_renderer s) (sk_rendererRunning s)
    (sk_writeFailed s) (sk_startFailed s) (sk_notified s) (sk_pc s).
Definition set_corked (x : bool) (s : Sink B) : Sink B :=
  mkSink (sk_buf s) (sk_spec s) x (sk_quit s) (sk_drainRequested s) (sk_playing s)
    (sk_pending s) (sk_readIndex s) (sk_renderer s) (sk_rendererRunning s)
    (sk_writeFailed s) (sk_startFailed s) (sk_notified s) (sk_pc s).
Definition set_quit (x : bool) (s : Sink B) : Sink B :=
  mkSink (sk_buf s) (sk_spec s) (sk_corked s) x (sk_drainRequested s) (sk_playing s)
    (sk_pending s) (sk_readIndex s) (sk_renderer s) (sk_rendererRunning s)
    (sk_writeFailed s) (sk_startFailed s) (sk_notified s) (sk_pc s).
Definition set_drainRequested (x : bool) (s : Sink B) : Sink B :=
  mkSink (sk_buf s) (sk_spec s) (sk_corked s) (sk_quit s) x (sk_playing s) (sk_pending
    s) (sk_readIndex s) (sk_renderer s) (sk_rendererRunning s) (sk_writeFailed s)
    (sk_startFailed s) (sk_notified s) (sk_pc s).
Definition set_playing (x : bool) (s : Sink B) : Sink B :=
  mkSink (sk_buf s) (sk_spec s) (sk_corked s) (sk_quit s) (sk_drainRequested s) x
    (sk_pending s) (sk_readIndex s) (sk_renderer s) (sk_rendererRunning s)
    (sk_writeFailed s) (sk_startFailed s) (sk_notified s) (sk_pc s).
Definition set_pending (x : Events) (s : Sink B) : Sink B :=
  mkSink (sk_buf s) (sk_spec s) (sk_corked s) (sk_quit s) (sk_drainRequested s)
    (sk_playing s) x (sk_readIndex s) (sk_renderer s) (sk_rendererRunning s)
    (sk_writeFailed s) (sk_startFailed s) (sk_notified s) (sk_pc s).
Definition set_readIndex (x : Z) (s : Sink B) : Sink B :=
  mkSink (sk_buf s) (sk_spec s) (sk_corked s) (sk_quit s) (sk_drainRequested s)
    (sk_playing s) (sk_pending s) x (sk_renderer s) (sk_rendererRunning s)
    (sk_writeFailed s) (sk_startFailed s) (sk_notified s) (sk_pc s).
Definition set_renderer (x : bool) (s : Sink B) : Sink B :=
  mkSink (sk_buf s) (sk_spec s) (sk_corked s) (sk_quit s) (sk_drainRequested s)
    (sk_playing s) (sk_pending s) (sk_readIndex s) x (sk_rendererRunning s)
    (sk_writeFailed s) (sk_startFailed s) (sk_notified s) (sk_pc s).
Definition set_rendererRunning (x : bool) (s : Sink B) : Sink B :=
  mkSink (sk_buf s) (sk_spec s) (sk_corked s) (sk_quit s) (sk_drainRequested s)
    (sk_playing s) (sk_pending s) (sk_readIndex s) (sk_renderer s) x (sk_writeFailed
    s) (sk_startFailed s) (sk_notified s) (sk_pc s).
Definition set_writeFailed (x : bool) (s : Sink B) : Sink B :=
  mkSink (sk_buf s) (sk_spec s) (sk_corked s) (sk_quit s) (sk_drainRequested s)
    (sk_playing s) (sk_pending s) (sk_readIndex s) (sk_renderer s) (sk_rendererRunning
    s) x (sk_startFailed s) (sk_notified s) (sk_pc s).
Definition set_startFailed (x : bool) (s : Sink B) : Sink B :=
  mkSink (sk_buf s) (sk_spec s) (sk_corked s) (sk_quit s) (sk_drainRequested s)
    (sk_playing s) (sk_pending s) (sk_readIndex s) (sk_renderer s) (sk_rendererRunning
    s) (sk_writeFailed s) x (sk_notified s) (sk_pc s).
Definition set_notified (x : nat) (s : Sink B) : Sink B :=
  mkSink (sk_buf s) (sk_spec s) (sk_corked s) (sk_quit s) (sk_drainRequested s)
    (sk_playing s) (sk_pending s) (sk_readIndex s) (sk_renderer s) (sk_rendererRunning
    s) (sk_writeFailed s) (sk_startFailed s) x (sk_pc s).
Definition set_pc (x : RenderPc) (s : Sink B) : Sink B :=
  mkSink (sk_buf s) (sk_spec s) (sk_corked s) (sk_quit s) (sk_drainRequested s)
    (sk_playing s) (sk_pending s) (sk_readIndex s) (sk_renderer s) (sk_rendererRunning
    s) (sk_writeFailed s) (sk_startFailed s) (sk_notified s) x.
End Setters.

(** The sample formats of [ToOhosFormat]; [None] is [supported = false]. *)
Inductive AudioSampleFormat := OHOS_U8 | OHOS_S16LE | OHOS_S24LE | OHOS_S32LE | OHOS_F32LE.

Definition ToOhosFormat (paFormat : Z) : option AudioSampleFormat :=
  if paFormat =? fmt.SAMPLE_U8 then Some OHOS_U8
  else if paFormat =? fmt.SAMPLE_S16LE then Some OHOS_S16LE
  else if paFormat =? fmt.SAMPLE_S24LE then Some OHOS_S24LE
  else if paFormat =? fmt.SAMPLE_S32LE then Some OHOS_S32LE
  else if paFormat =? fmt.SAMPLE_FLOAT32LE then Some OHOS_F32LE
  else None.

Definition WRITE_CHUNK_USEC : Z := 20000.
Definition MIN_WRITE_CHUNK : Z := 1024.

Section Sink.
Context {B : Type} `{ByteBuffer B}.
Implicit Types s : Sink B.

(** The members of a fresh [OhosSink] object. *)
Definition Sink_new : Sink B :=
  mkSink (bb_new 0) SampleSpec_default true false false false Events_none 0 false false
    false false 0 PcNone.

(** [OhosSink::Open]; [created] is whether [AudioRenderer::Create] gave a renderer. *)
Definition Open (created : bool) (ss : SampleSpec) (ringBytes : nat) (s : Sink B)
    : bool * Sink B :=
  match ToOhosFormat (ss_format ss) with
  | None => (false, s)
  | Some _ =>
      if (ss_channels ss <? 1) || (2 <? ss_channels ss) then (false, s)
      else if negb created then (false, s)
      else (true,
            mkSink (bb_new ringBytes) ss true false (sk_drainRequested s) false (sk_pending s) 0
              true (sk_rendererRunning s) false (sk_startFailed s) (sk_notified s) PcWait)
  end.

(** [Close] up to [thread_.join()], and what follows it. *)
Definition Close s : Sink B := if sk_quit s then s else set_quit true s.
Definition Close_joined s : Sink B :=
  match sk_pc s with PcExit => set_renderer false s | _ => s end.

Definition Push (data : bytes) s : option (nat * Sink B) :=
  if sk_quit s || (bb_size (sk_buf s) =? 0)%nat then Some (O, s)
  else '(accepted, b) ← bb_push data (sk_buf s); Some (accepted, set_buf b s).

Definition Buffered s : nat := bb_fill (sk_buf s).

Definition Flush s : Sink B :=
  s .> set_buf (bb_clear (sk_buf s)) .> set_playing false .> set_drainRequested false.

Definition SetCorked (c : bool) s : Sink B := set_corked c s.
Definition RequestDrain s : Sink B := set_drainRequested true s.
Definition TakeEvents s : Events * Sink B := (sk_pending s, set_pending Events_none s).
Definition ReadIndex s : Z := sk_readIndex s.
Definition IsPlaying s : bool := sk_playing s && negb (sk_corked s).

(** [latency] is [GetLatency]'s result, [None] when it does not return 0. *)
Definition SinkLatencyUsec (latency : option Z) s : Z :=
  if sk_renderer s then default 0 latency else 0.

(** The size of [scratch], computed when the thread starts. *)
Definition chunk_size s : nat :=
  Z.to_nat (Z.min (Z.max (UsecToBytes (sk_spec s) WRITE_CHUNK_USEC) MIN_WRITE_CHUNK)
                  (Z.of_nat (bb_size (sk_buf s)))).

(** The predicate of [cv_.wait_for]. *)
Definition wait_pred s : bool :=
  sk_quit s || (negb (sk_corked s) && (0 <? bb_fill (sk_buf s))%nat) || sk_drainRequested s.

(** The first critical section of an iteration of [RenderLoop]. *)
Definition render_wait s : option (Sink B) :=
  if sk_quit s then Some (set_pc PcExit s)
  else if negb (sk_corked s) && (0 <? bb_fill (sk_buf s))%nat then
    '(scratch, b) ← bb_pop (chunk_size s) (sk_buf s);
    Some (s .> set_buf b
            .> set_pc (if (length scratch =? 0)%nat then PcWait else PcStart scratch))
  else if sk_drainRequested s && (bb_fill (sk_buf s) =? 0)%nat then
    Some (s .> set_drainRequested false .> set_pc PcDrain)
  else if sk_corked s && sk_rendererRunning s then Some (set_pc PcPause s)
  else if negb (sk_corked s) && (bb_fill (sk_buf s) =? 0)%nat && sk_playing s then
    Some (s .> set_playing false
            .> set_pending (mkEvents (credit (sk_pending s)) true (started (sk_pending s))
                                     (drained (sk_pending s)))
            .> set_pc PcNotify)
  else Some (set_pc PcWait s).

(** The last one: [readIndex_ += got; pending_.credit += got; ...]. *)
Definition render_account (got : nat) s : Sink B :=
  let e := sk_pending s in
  s .> set_readIndex (u64 (sk_readIndex s + Z.of_nat got))
    .> set_pending (mkEvents (u64 (credit e + Z.of_nat got)) (underflow e)
                             (started e || negb (sk_playing s)) (drained e))
    .> set_playing true
    .> set_pc PcNotify.

(** One step of the render thread: [start_ok] is what [renderer_->Start()]
    returns and [n] what [renderer_->Write()] returns, should this step call
    them.  The second component is the audio handed to the renderer. *)
Definition render_step (start_ok : bool) (n : Z) s : option (Sink B * bytes) :=
  match sk_pc s with
  | PcNone | PcExit => Some (s, [])
  | PcWait => s ← render_wait s; Some (s, [])
  | PcPause => Some (s .> set_rendererRunning false .> set_pc PcWait, [])
  | PcNotify => Some (s .> set_notified (S (sk_notified s)) .> set_pc PcWait, [])
  | PcDrain => Some (set_pc PcDrained s, [])
  | PcDrained =>
      let e := sk_pending s in
      Some (s .> set_pending (mkEvents (credit e) (underflow e) (started e) true)
              .> set_pc PcNotify, [])
  | PcStart scratch =>
      if sk_rendererRunning s then Some (set_pc (PcWrite scratch 0) s, [])
      else Some (s .> set_rendererRunning start_ok
                   .> set_startFailed (sk_startFailed s || negb start_ok)
                   .> set_pc (PcWrite scratch 0), [])
  | PcWrite scratch written =>
      if sk_rendererRunning s && (written <? length scratch)%nat then
        if n <=? 0 then
          Some (s .> set_writeFailed true .> set_pc (PcAccount (length scratch)), [])
        else Some (set_pc (PcWrite scratch (written + Z.to_nat n)) s,
                   take (Z.to_nat n) (drop written scratch))
      else Some (set_pc (PcAccount (length scratch)) s, [])
  | PcAccount got => Some (render_account got s, [])
  end.

End Sink.

(** ** Sequences of operations

    Everything another thread can do to a sink, one critical section (or one
    renderer call) at a time, and what it observes. *)

Inductive sink_op :=
| OpPush (data : bytes) | OpFlush | OpCork (c : bool) | OpRequestDrain | OpTakeEvents
| OpClose | OpRender (start_ok : bool) (n : Z).

Inductive sink_obs :=
| ObsNone | ObsAccepted (n : nat) | ObsEvents (e : Events) | ObsPlayed (audio : bytes).

Section Runs.
Context {B : Type} `{ByteBuffer B}.

Definition sink_exec (op : sink_op) (s : Sink B) : option (Sink B * sink_obs) :=
  match op with
  | OpPush data => '(n, s) ← Push data s; Some (s, ObsAccepted n)
  | OpFlush => Some (Flush s, ObsNone)
  | OpCork c => Some (SetCorked c s, ObsNone)
  | OpRequestDrain => Some (RequestDrain s, ObsNone)
  | OpTakeEvents => let '(e, s) := TakeEvents s in Some (s, ObsEvents e)
  | OpClose => Some (Close s, ObsNone)
  | OpRender start_ok n => '(s, audio) ← render_step start_ok n s; Some (s, ObsPlayed audio)
  end.

Fixpoint sink_run (ops : list sink_op) (s : Sink B) : option (Sink B * list sink_obs) :=
  match ops with
  | [] => Some (s, [])
  | op :: ops =>
      '(s, o) ← sink_exec op s;
      '(s, os) ← sink_run ops s;
      Some (s, o :: os)
  end.

End Runs.

(** ** The ring implements the queue *)

(** The buffered bytes, oldest first. *)
Definition ring_bytes (r : Ring) : bytes :=
  take (r_fill r) (drop (r_head r) (r_ring r) ++ take (r_head r) (r_ring r)).

Definition ring_wf (r : Ring) : Prop :=
  (r_head r < length (r_ring r))%nat ∧ (r_fill r ≤ length (r_ring r))%nat.

Definition ring_abs (r : Ring) : Queue := mkQueue (length (r_ring r)) (ring_bytes r).

Lemma mod_wrap x s : (x < 2 * s)%nat → (x mod s)%nat = if (x <? s)%nat then x else (x - s)%nat.
Proof.
  intros Hx. destruct (Nat.ltb_spec x s); [by apply Nat.mod_small|].
  replace x with (x - s + 1 * s)%nat at 1 by lia. rewrite Nat.Div0.mod_add. apply Nat.mod_small. lia.
Qed.

Lemma copy_to_Some i src dst :
  (i + length src ≤ length dst)%nat →
  ∃ out, copy_to i src dst = Some out ∧ length out = length dst ∧
    ∀ j, out !! j = if (i <=? j)%nat && (j <? i + length src)%nat
                    then src !! (j - i)%nat else dst !! j.
Proof.
  intros Hle. unfold copy_to. destruct (Nat.leb_spec (i + length src) (length dst)); [|lia].
  eexists. split; [done|]. split.
  - rewrite !length_app length_take length_drop. lia.
  - intros j. destruct (Nat.leb_spec i j); simpl.
    + rewrite lookup_app_r length_take; [|lia]. rewrite Nat.min_l; [|lia].
      destruct (Nat.ltb_spec j (i + length src)); simpl.
      * by rewrite lookup_app_l; [|lia].
      * rewrite lookup_app_r; [|lia]. rewrite lookup_drop. f_equal. lia.
    + rewrite lookup_app_l ?length_take; [|lia]. by rewrite lookup_take_lt.
Qed.

Lemma ring_bytes_length r : ring_wf r → length (ring_bytes r) = r_fill r.
Proof.
  intros [Hh Hf]. unfold ring_bytes.
  rewrite length_take length_app length_drop length_take. lia.
Qed.

Lemma ring_bytes_lookup r i :
  ring_wf r → (i < r_fill r)%nat →
  ring_bytes r !! i = r_ring r !! ((r_head r + i) mod length (r_ring r))%nat.
Proof.
  intros [Hh Hf] Hi. unfold ring_bytes. rewrite lookup_take_lt //.
  rewrite mod_wrap; [|lia]. destruct (Nat.ltb_spec (r_head r + i) (length (r_ring r))).
  - rewrite lookup_app_l; [|rewrite length_drop; lia]. by rewrite lookup_drop.
  - rewrite lookup_app_r length_drop; [|lia]. rewrite lookup_take_lt; [|lia]. f_equal. lia.
Qed.

Lemma ring_bytes_lookup_ge r i :
  ring_wf r → (r_fill r ≤ i)%nat → ring_bytes r !! i = None.
Proof. intros Hwf Hi. apply lookup_ge_None. by rewrite ring_bytes_length. Qed.

(** [Push] writes in two pieces at most; the ring after both. *)
Lemma ring_push_Some data r :
  ring_wf r →
  let n := Nat.min (length data) (length (r_ring r) - r_fill r) in
  ∃ out, ring_push data r = Some (n, mkRing out (r_head r) (r_fill r + n)) ∧
    length out = length (r_ring r) ∧
    (∀ i, (i < r_fill r)%nat →
       out !! ((r_head r + i) mod length (r_ring r))%nat
       = r_ring r !! ((r_head r + i) mod length (r_ring r))%nat) ∧
    (∀ i, (i < n)%nat →
       out !! ((r_head r + (r_fill r + i)) mod length (r_ring r))%nat = data !! i).
Proof.
  intros [Hh Hf] n. unfold ring_push. fold n.
  set (size := length (r_ring r)) in *.
  destruct (Nat.eqb_spec size 0); [lia|].
  set (tail := ((r_head r + r_fill r) mod size)%nat).
  assert (tail < size)%nat as Ht by (by apply Nat.mod_upper_bound).
  assert (tail = if (r_head r + r_fill r <? size)%nat then (r_head r + r_fill r)%nat
                 else (r_head r + r_fill r - size)%nat) as Htail
    by (unfold tail; rewrite mod_wrap //; lia).
  set (first := Nat.min n (size - tail)).
  assert (n ≤ length data)%nat as Hn by (unfold n; lia).
  assert (n ≤ size - r_fill r)%nat as Hn2 by (unfold n; lia).
  destruct (copy_to_Some tail (take first data) (r_ring r)) as (b1 & -> & Hl1 & Hb1).
  { rewrite length_take. fold size. lia. }
  rewrite length_take Nat.min_l in Hb1; [|lia]. cbn [mbind option_bind].
  destruct (Nat.ltb_spec first n) as [Hlt|Hge].
  - destruct (copy_to_Some 0 (take (n - first) (drop first data)) b1) as (b2 & -> & Hl2 & Hb2).
    { rewrite length_take length_drop Hl1. fold size. lia. }
    rewrite length_take length_drop Nat.min_l in Hb2; [|lia]. cbn [mbind option_bind].
    eexists. split; [done|]. split; [by rewrite Hl2 Hl1|].
    split; intros i Hi; rewrite Hb2 Hb1 mod_wrap; try lia.
    all: destruct (Nat.ltb_spec (r_head r + r_fill r) size).
    all: repeat match goal with
         | |- context [(?a <? ?b)%nat] => destruct (Nat.ltb_spec a b); simpl; try lia
         | |- context [(?a <=? ?b)%nat] => destruct (Nat.leb_spec a b); simpl; try lia
         end.
    all: try done.
    all: rewrite lookup_take_lt ?lookup_drop; try lia; f_equal; lia.
  - cbn [mbind option_bind]. eexists. split; [done|]. split; [done|].
    split; intros i Hi; rewrite Hb1 mod_wrap; try lia.
    all: destruct (Nat.ltb_spec (r_head r + r_fill r) size).
    all: repeat match goal with
         | |- context [(?a <? ?b)%nat] => destruct (Nat.ltb_spec a b); simpl; try lia
         | |- context [(?a <=? ?b)%nat] => destruct (Nat.leb_spec a b); simpl; try lia
         end.
    all: try done.
    all: rewrite lookup_take_lt; try lia; f_equal; lia.
Qed.

Lemma ring_push_refines data r :
  ring_wf r →
  ∃ n r', ring_push data r = Some (n, r') ∧ ring_wf r' ∧
    queue_push data (ring_abs r) = Some (n, ring_abs r').
Proof.
  intros Hwf. destruct (ring_push_Some data r Hwf) as (out & Hpush & Hlen & Hold & Hnew).
  set (n := Nat.min _ _) in *. rewrite Hpush. do 2 eexists. split; [done|].
  destruct Hwf as [Hh Hf].
  assert (ring_wf (mkRing out (r_head r) (r_fill r + n))) as Hwf'
    by (split; simpl; rewrite Hlen; lia).
  split; [done|]. unfold queue_push, ring_abs. simpl.
  destruct (Nat.eqb_spec (length (r_ring r)) 0); [lia|].
  rewrite ring_bytes_length //. fold n. rewrite Hlen. do 3 f_equal.
  apply list_eq. intros i. destruct (decide (i < r_fill r + n)%nat) as [Hi|Hi].
  - rewrite ring_bytes_lookup //= Hlen. destruct (decide (i < r_fill r)%nat).
    + rewrite Hold // lookup_app_l ?ring_bytes_length //. by rewrite ring_bytes_lookup.
    + rewrite lookup_app_r ring_bytes_length //; [|lia]. rewrite lookup_take_lt; [|lia].
      rewrite -(Hnew (i - r_fill r)%nat); [|lia]. do 3 f_equal. lia.
  - rewrite (ring_bytes_lookup_ge (mkRing _ _ _)) //=; [|lia].
    apply lookup_ge_None. rewrite length_app ring_bytes_length // length_take. lia.
Qed.

Lemma copy_from_Some i n src :
  (i + n ≤ length src)%nat → copy_from i n src = Some (take n (drop i src)).
Proof. intros. unfold copy_from. by destruct (Nat.leb_spec (i + n) (length src)); [|lia]. Qed.

Lemma PopLocked_refines want r :
  ring_wf r →
  ∃ out r', PopLocked want r = Some (out, r') ∧ ring_wf r' ∧
    queue_pop want (ring_abs r) = Some (out, ring_abs r') ∧
    length out = Nat.min want (r_fill r).
Proof.
  intros Hwf. pose proof (ring_bytes_length r Hwf) as Hbl.
  destruct (id Hwf) as [Hh Hf]. unfold PopLocked.
  set (got := Nat.min want (r_fill r)). set (size := length (r_ring r)) in *.
  set (first := Nat.min got (size - r_head r)).
  rewrite (copy_from_Some (r_head r) first); [|fold size; lia]. rewrite mbind_Some. cbv beta.
  assert (∃ dst, (if (first <? got)%nat
                  then rest ← copy_from 0 (got - first) (r_ring r);
                       Some (take first (drop (r_head r) (r_ring r)) ++ rest)
                  else Some (take first (drop (r_head r) (r_ring r)))) = Some dst ∧
                 dst = take got (ring_bytes r)) as (dst & -> & ->).
  { unfold ring_bytes. rewrite take_take Nat.min_l; [|lia].
    destruct (Nat.ltb_spec first got).
    - rewrite copy_from_Some; [|fold size; lia]. eexists. split; [done|].
      rewrite take_app_ge ?length_drop; [|fold size; lia]. fold size.
      rewrite (take_ge (drop _ _)); [|rewrite length_drop; fold size; lia].
      rewrite take_take drop_0. do 2 f_equal. lia.
    - eexists. split; [done|]. rewrite take_app_le ?length_drop; [|fold size; lia].
      f_equal. lia. }
  rewrite mbind_Some. destruct (Nat.eqb_spec size 0); [lia|].
  assert ((r_head r + got) mod size < size)%nat as Hm by (by apply Nat.mod_upper_bound).
  set (r' := mkRing (r_ring r) ((r_head r + got) mod size) (r_fill r - got)).
  assert (ring_wf r') as Hwf' by (split; simpl; fold size; lia).
  exists (take got (ring_bytes r)), r'. split; [done|]. split; [done|]. split.
  - unfold queue_pop, ring_abs. simpl. fold size. destruct (Nat.eqb_spec size 0); [lia|].
    do 2 f_equal.
    { destruct (decide (want ≤ r_fill r)%nat); [f_equal; unfold got; lia|].
      rewrite !take_ge //; rewrite Hbl; unfold got; lia. }
    f_equal. apply list_eq. intros i. rewrite lookup_drop.
    destruct (decide (want + i < r_fill r)%nat).
    + rewrite (ring_bytes_lookup r) // (ring_bytes_lookup r') //=; [|unfold got; lia].
      fold size. rewrite Nat.Div0.add_mod_idemp_l. do 2 f_equal. unfold got. lia.
    + rewrite (ring_bytes_lookup_ge r) //; [|lia].
      rewrite (ring_bytes_lookup_ge r') //. simpl. unfold got. lia.
  - rewrite length_take Hbl. unfold got. lia.
Qed.

(** *** Sinks over the two buffers *)

Definition map_buf {B C} (f : B → C) (s : Sink B) : Sink C :=
  mkSink (f (sk_buf s)) (sk_spec s) (sk_corked s) (sk_quit s) (sk_drainRequested s)
    (sk_playing s) (sk_pending s) (sk_readIndex s) (sk_renderer s) (sk_rendererRunning s)
    (sk_writeFailed s) (sk_startFailed s) (sk_notified s) (sk_pc s).

Definition sink_wf (s : Sink Ring) : Prop := ring_wf (sk_buf s).

Lemma ring_abs_fill r : ring_wf r → bb_fill (ring_abs r) = bb_fill r.
Proof. intros. by apply ring_bytes_length. Qed.

Lemma Push_refines data s :
  sink_wf s →
  ∃ n s', Push data s = Some (n, s') ∧ sink_wf s' ∧
    Push data (map_buf ring_abs s) = Some (n, map_buf ring_abs s').
Proof.
  intros Hwf. unfold Push. simpl. destruct (sk_quit s || _) eqn:E; [naive_solver|].
  destruct (ring_push_refines data (sk_buf s) Hwf) as (n & r' & -> & Hwf' & ->).
  simpl. eauto.
Qed.

Lemma chunk_size_abs s : chunk_size (map_buf ring_abs s) = chunk_size s.
Proof. done. Qed.

Lemma render_wait_refines s :
  sink_wf s →
  ∃ s', render_wait s = Some s' ∧ sink_wf s' ∧
    render_wait (map_buf ring_abs s) = Some (map_buf ring_abs s').
Proof.
  intros Hwf. unfold render_wait. rewrite chunk_size_abs.
  generalize (chunk_size s). intros want. pose proof (ring_abs_fill _ Hwf) as Hfill.
  destruct (PopLocked_refines want _ Hwf) as (out & r' & Hpop & Hwf' & Hqpop & _).
  destruct s as [b]; simpl in Hwf, Hfill, Hpop, Hqpop |- *. rewrite Hfill Hpop Hqpop.
  repeat (case_match; [by eauto|]). eauto.
Qed.

Lemma sink_exec_refines op s :
  sink_wf s →
  ∃ s' o, sink_exec op s = Some (s', o) ∧ sink_wf s' ∧
    sink_exec op (map_buf ring_abs s) = Some (map_buf ring_abs s', o).
Proof.
  intros Hwf. destruct op as [data| |c| | | |ok n]; simpl.
  - destruct (Push_refines data s Hwf) as (k & s' & -> & Hwf' & ->). simpl. eauto.
  - do 2 eexists. split; [done|]. destruct Hwf as [Hh Hf]. split; [|done].
    split; simpl; lia.
  - eauto.
  - eauto.
  - eauto.
  - unfold Close. simpl. case_match; eauto.
  - unfold render_step. destruct (sk_pc s) eqn:Hpc; simpl; rewrite ?Hpc; try by eauto.
    + destruct (render_wait_refines s Hwf) as (s' & -> & Hwf' & Hw). simpl.
      rewrite Hw /=. eauto.
    + case_match; simpl; eauto.
    + repeat case_match; simpl; eauto.
Qed.

Lemma sink_run_refines ops s :
  sink_wf s →
  ∃ s' os, sink_run ops s = Some (s', os) ∧ sink_wf s' ∧
    sink_run ops (map_buf ring_abs s) = Some (map_buf ring_abs s', os).
Proof.
  revert s. induction ops as [|op ops IH]; intros s Hwf; simpl; [eauto|].
  destruct (sink_exec_refines op s Hwf) as (s1 & o & -> & Hwf1 & ->). simpl.
  destruct (IH s1 Hwf1) as (s2 & os & -> & Hwf2 & ->). simpl. eauto.
Qed.

Lemma Open_wf ss n s s' : (0 < n)%nat → Open true ss n s = (true, s') → sink_wf s'.
Proof.
  unfold Open. intros Hn HO. repeat (case_match; simplify_eq). split; simpl;
    rewrite length_replicate; lia.
Qed.

Lemma Open_abs created ss n s :
  Open created ss n (map_buf ring_abs s)
  = (fst (Open created ss n s), map_buf ring_abs (snd (Open created ss n s))).
Proof.
  unfold Open. repeat case_match; try done. simpl. unfold map_buf. simpl. do 2 f_equal.
  unfold ring_abs, ring_bytes. simpl. by rewrite length_replicate.
Qed.

Lemma Sink_new_abs : map_buf ring_abs (Sink_new (B := Ring)) = Sink_new (B := Queue).
Proof. done. Qed.

(** ** Audio order and accounting *)

(** The bytes [Push] accepted and the bytes the renderer was given, in order. *)
Fixpoint accepted_bytes (ops : list sink_op) (os : list sink_obs) : bytes :=
  match ops, os with
  | OpPush data :: ops, ObsAccepted n :: os => take n data ++ accepted_bytes ops os
  | _ :: ops, _ :: os => accepted_bytes ops os
  | _, _ => []
  end.

Definition played_of (o : sink_obs) : bytes :=
  match o with ObsPlayed audio => audio | _ => [] end.
Definition played_bytes (os : list sink_obs) : bytes := concat (played_of <$> os).

(** What the render thread holds and has not handed over yet. *)
Definition scratch_left {B} (s : Sink B) : bytes :=
  match sk_pc s with
  | PcStart scratch => scratch
  | PcWrite scratch written => drop written scratch
  | _ => []
  end.

(** The renderer starts and takes at least one byte per [Write], and nobody
    flushes the stream. *)
Definition healthy (op : sink_op) : Prop :=
  match op with
  | OpRender start_ok n => start_ok = true ∧ 0 < n
  | OpFlush => False
  | _ => True
  end.

Definition writing_runs {B} (s : Sink B) : Prop :=
  match sk_pc s with PcWrite _ _ => sk_rendererRunning s = true | _ => True end.

Section QueueSink.
Implicit Types s : Sink Queue.

Definition q_of (s : Sink Queue) : bytes := q_bytes (sk_buf s).

Lemma render_wait_fifo s s' :
  writing_runs s → sk_pc s = PcWait → render_wait s = Some s' →
  scratch_left s' ++ q_of s' = q_of s ∧ writing_runs s'.
Proof.
  intros Hw Hpc Hr. unfold render_wait in Hr. unfold scratch_left, q_of, writing_runs in *.
  destruct (sk_quit s); [by simplify_eq/=|].
  destruct (negb _ && _) eqn:E.
  { simpl in Hr. unfold queue_pop in Hr. destruct (_ =? _)%nat; [done|]. simplify_eq/=.
    destruct (Nat.eqb_spec (length (take (chunk_size s) (q_bytes (sk_buf s)))) 0) as [E0|]; simpl.
    - apply nil_length_inv in E0. split; [|done].
      rewrite -{2}(take_drop (chunk_size s) (q_bytes (sk_buf s))). by rewrite E0.
    - by rewrite take_drop. }
  repeat (case_match; simplify_eq/=; try done).
Qed.

Lemma sink_exec_fifo op s s' o :
  healthy op → writing_runs s → sink_exec op s = Some (s', o) →
  writing_runs s' ∧
  (scratch_left s ++ q_of s) ++ accepted_bytes [op] [o]
  = played_of o ++ scratch_left s' ++ q_of s'.
Proof.
  intros Hh Hw Hex. destruct op as [data| |c| | | |ok n]; simpl in Hh.
  - simpl in Hex. unfold Push in Hex. destruct (sk_quit s || _) eqn:E; simplify_eq/=.
    { by rewrite ?take_0 !app_nil_r. }
    unfold queue_push in Hex. destruct (_ =? _)%nat; simplify_eq/=.
    split; [done|]. unfold scratch_left, q_of. simpl. by rewrite app_nil_r -!app_assoc.
  - done.
  - simplify_eq/=. by rewrite app_nil_r.
  - simplify_eq/=. by rewrite app_nil_r.
  - simplify_eq/=. by rewrite app_nil_r.
  - simplify_eq/=. rewrite app_nil_r. unfold Close. by case_match.
  - destruct Hh as [-> Hn]. simpl in Hex. unfold render_step in Hex.
    assert (accepted_bytes [OpRender true n] [o] = []) as -> by done. rewrite app_nil_r.
    destruct (sk_pc s) eqn:Hpc.
    2: { destruct (render_wait s) as [s1|] eqn:Hr; simplify_eq/=.
         destruct (render_wait_fifo s s' Hw Hpc Hr) as [-> ?]. unfold scratch_left. by rewrite Hpc. }
    all: unfold writing_runs, scratch_left, q_of in *; rewrite Hpc in Hw |- *.
    all: try (simplify_eq/=; by rewrite ?Hpc).
    + destruct (sk_rendererRunning s) eqn:Hrun; simplify_eq/=; by rewrite ?Hrun.
    + rewrite Hw in Hex. destruct (Nat.ltb_spec written (length scratch)); simpl in Hex.
      * destruct (Z.leb_spec n 0); [lia|]. simplify_eq/=. split; [done|].
        by rewrite app_assoc -drop_drop take_drop.
      * simplify_eq/=. split; [done|]. by rewrite drop_ge.
Qed.

Lemma sink_run_fifo ops s s' os :
  Forall healthy ops → writing_runs s → sink_run ops s = Some (s', os) →
  (scratch_left s ++ q_of s) ++ accepted_bytes ops os
  = played_bytes os ++ scratch_left s' ++ q_of s'.
Proof.
  intros Hops. revert s os. induction Hops as [|op ops Hop Hops IH]; intros s os Hw Hrun.
  { simplify_eq/=. by rewrite app_nil_r. }
  simpl in Hrun. destruct (sink_exec op s) as [[s1 o]|] eqn:Hex; [|done]. simpl in Hrun.
  destruct (sink_run ops s1) as [[s2 os2]|] eqn:Hrun2; [|done]. simpl in Hrun. simplify_eq.
  destruct (sink_exec_fifo _ _ _ _ Hop Hw Hex) as [Hw1 Heq].
  specialize (IH s1 os2 Hw1 Hrun2).
  assert (accepted_bytes (op :: ops) (o :: os2)
          = accepted_bytes [op] [o] ++ accepted_bytes ops os2) as ->.
  { destruct op, o; simpl; rewrite ?app_nil_r //. }
  by rewrite app_assoc Heq -app_assoc IH /played_bytes /= -app_assoc.
Qed.

End QueueSink.


(** Bytes popped and not accounted for yet. *)
Definition inflight {B} (s : Sink B) : Z :=
  match sk_pc s with
  | PcStart scratch | PcWrite scratch _ => Z.of_nat (length scratch)
  | PcAccount got => Z.of_nat got
  | _ => 0
  end.

Definition events_credit (o : sink_obs) : Z :=
  match o with ObsEvents e => credit e | _ => 0 end.
Definition taken_credit (os : list sink_obs) : Z := foldr (λ o, Z.add (events_credit o)) 0 os.

Definition accepted_of (o : sink_obs) : Z :=
  match o with ObsAccepted n => Z.of_nat n | _ => 0 end.
Definition accepted_total (os : list sink_obs) : Z := foldr (λ o, Z.add (accepted_of o)) 0 os.

Definition no_flush (op : sink_op) : Prop := op ≠ OpFlush.

Lemma accepted_total_nonneg os : 0 ≤ accepted_total os.
Proof. induction os as [|[] os IH]; simpl; lia. Qed.

Section QueueCredit.
Implicit Types s : Sink Queue.

(** Everything the sink is answerable for: played, in flight or buffered. *)
Definition held s : Z := sk_readIndex s + inflight s + Z.of_nat (bb_fill (sk_buf s)).

Definition credit_ok s : Prop := 0 ≤ credit (sk_pending s) ≤ sk_readIndex s.

Lemma render_wait_held s s' :
  sk_pc s = PcWait → render_wait s = Some s' →
  held s' = held s ∧ sk_readIndex s' = sk_readIndex s ∧
  credit (sk_pending s') = credit (sk_pending s).
Proof.
  intros Hpc Hr. unfold render_wait in Hr. unfold held, inflight in *. rewrite Hpc.
  destruct (sk_quit s); [by simplify_eq/=|].
  destruct (negb _ && _) eqn:E.
  { simpl in Hr. unfold queue_pop in Hr. destruct (_ =? _)%nat; [done|]. simplify_eq/=.
    rewrite length_take length_drop.
    destruct (Nat.eqb_spec (chunk_size s `min` length (q_bytes (sk_buf s))) 0); simpl;
      rewrite ?length_take; lia. }
  repeat (case_match; simplify_eq/=; try done).
Qed.

Lemma sink_exec_held op s s' o :
  sink_exec op s = Some (s', o) → credit_ok s → held s < 2 ^ 64 →
  credit_ok s' ∧
  sk_readIndex s' - sk_readIndex s
    = events_credit o + credit (sk_pending s') - credit (sk_pending s) ∧
  held s' ≤ held s + accepted_of o ∧ (no_flush op → held s' = held s + accepted_of o).
Proof.
  intros Hex Hc Hb. unfold credit_ok in *. destruct op as [data| |c| | | |ok n].
  - simpl in Hex. unfold Push in Hex. destruct (sk_quit s || _); simplify_eq/=; [lia|].
    unfold queue_push in Hex. destruct (_ =? _)%nat; simplify_eq/=.
    unfold held, inflight. simpl. rewrite length_app length_take. lia.
  - simplify_eq/=. unfold held, inflight, no_flush. simpl. split_and!; try lia. done.
  - simplify_eq/=. unfold held, inflight. simpl. lia.
  - simplify_eq/=. unfold held, inflight. simpl. lia.
  - simplify_eq/=. unfold held, inflight. simpl. lia.
  - simplify_eq/=. unfold Close, held, inflight. case_match; simpl; lia.
  - simpl in Hex. unfold render_step in Hex. destruct (sk_pc s) eqn:Hpc.
    2: { destruct (render_wait s) as [s1|] eqn:Hr; simplify_eq/=.
         destruct (render_wait_held s s' Hpc Hr) as (-> & -> & ->). lia. }
    all: unfold held, inflight in *; rewrite Hpc in Hb |- *.
    all: try (simplify_eq/=; rewrite ?Hpc; lia).
    all: try (repeat (break_match_hyp; simplify_eq/=); lia).
    simplify_eq/=. rewrite /u64 !Z.mod_small; lia.
Qed.

Lemma sink_run_held ops s s' os :
  sink_run ops s = Some (s', os) → credit_ok s → held s + accepted_total os < 2 ^ 64 →
  sk_readIndex s' - sk_readIndex s
    = taken_credit os + credit (sk_pending s') - credit (sk_pending s) ∧
  held s' ≤ held s + accepted_total os ∧
  (Forall no_flush ops → held s' = held s + accepted_total os).
Proof.
  revert s os. induction ops as [|op ops IH]; intros s os Hrun Hc Hb.
  { simplify_eq/=. split_and!; intros; lia. }
  simpl in Hrun. destruct (sink_exec op s) as [[s1 o]|] eqn:Hex; [|done]. simpl in Hrun.
  destruct (sink_run ops s1) as [[s2 os2]|] eqn:Hrun2; [|done]. simpl in Hrun. simplify_eq.
  simpl in Hb |- *. pose proof (accepted_total_nonneg os2).
  assert (0 ≤ accepted_of o) by (destruct o; simpl; lia).
  destruct (sink_exec_held _ _ _ _ Hex Hc) as (Hc1 & Hr1 & Hh1 & Hn1); [lia|].
  destruct (IH s1 os2 Hrun2 Hc1) as (Hr2 & Hh2 & Hn2); [lia|].
  split_and!; [lia|lia|]. intros Hf. inversion Hf; subst. rewrite Hn2 // Hn1 //. lia.
Qed.

End QueueCredit.

(** ** Progress of the render thread *)

(** A run of the render thread alone, with the renderer's answers. *)
Fixpoint render_run {B} `{ByteBuffer B} (answers : list (bool * Z)) (s : Sink B)
    : option (Sink B) :=
  match answers with
  | [] => Some s
  | (start_ok, n) :: answers => '(s, _) ← render_step start_ok n s; render_run answers s
  end.

Section Progress.
Context {B : Type} `{ByteBuffer B}.
Implicit Types s : Sink B.

Lemma render_run_app a1 a2 s :
  render_run (a1 ++ a2) s = s' ← render_run a1 s; render_run a2 s'.
Proof.
  revert s. induction a1 as [|[ok n] a1 IH]; intros s; [done|]. simpl.
  destruct (render_step ok n s) as [[s1 au]|]; [|done]. simpl. apply IH.
Qed.

(** What the write loop leaves alone. *)
Definition same_but_writing s s' : Prop :=
  sk_buf s' = sk_buf s ∧ sk_spec s' = sk_spec s ∧ sk_corked s' = sk_corked s ∧
  sk_quit s' = sk_quit s ∧ sk_drainRequested s' = sk_drainRequested s ∧
  sk_playing s' = sk_playing s ∧ sk_pending s' = sk_pending s ∧
  sk_readIndex s' = sk_readIndex s ∧ sk_notified s' = sk_notified s.

(** The write loop ends: whatever the renderer answers, after at most one step
    per byte left and one more the chunk is accounted for. *)
Lemma write_loop_ends answers scratch written s :
  sk_pc s = PcWrite scratch written → (length scratch - written < length answers)%nat →
  ∃ k s', (0 < k ≤ length scratch - written + 1)%nat ∧ render_run (take k answers) s = Some s' ∧
    sk_pc s' = PcAccount (length scratch) ∧ same_but_writing s s'.
Proof.
  revert written s. induction answers as [|[ok n] answers IH]; intros written s Hpc Hlen;
    simpl in Hlen; [lia|].
  destruct (decide (sk_rendererRunning s = true ∧ (written < length scratch)%nat ∧ 0 < n))
    as [(Hrun & Hw & Hn)|Hstop].
  - assert (render_step ok n s
            = Some (set_pc (PcWrite scratch (written + Z.to_nat n)) s,
                    take (Z.to_nat n) (drop written scratch))) as Hst.
    { unfold render_step. rewrite Hpc Hrun. destruct (Nat.ltb_spec written (length scratch));
        [|lia]. simpl. by destruct (Z.leb_spec n 0); [lia|]. }
    destruct (IH (written + Z.to_nat n)%nat (set_pc (PcWrite scratch (written + Z.to_nat n)) s))
      as (k & s' & Hk & Hrn & Hpc' & Hsame); [done|lia|].
    exists (S k), s'. split; [lia|]. simpl. rewrite Hst /=. done.
  - exists 1%nat.
    assert (∃ s' au, render_step ok n s = Some (s', au) ∧ sk_pc s' = PcAccount (length scratch) ∧
              same_but_writing s s') as (s' & au & Hst & Hpc' & Hsame).
    { unfold render_step. rewrite Hpc. unfold same_but_writing.
      destruct (sk_rendererRunning s) eqn:Hrun; simpl; [|by eauto 15].
      destruct (Nat.ltb_spec written (length scratch)); [|by eauto 15].
      destruct (Z.leb_spec n 0); [by eauto 15|]. exfalso. apply Hstop. done. }
    exists s'. split; [lia|]. simpl. by rewrite Hst.
Qed.

(** One turn of the loop on a non-empty, uncorked ring. *)
Lemma render_turn answers s scratch b :
  sk_pc s = PcWait → sk_quit s = false → sk_corked s = false →
  (0 < bb_fill (sk_buf s))%nat →
  bb_pop (chunk_size s) (sk_buf s) = Some (scratch, b) → scratch ≠ [] →
  (length scratch + 5 ≤ length answers)%nat →
  ∃ k s', (k ≤ length scratch + 5)%nat ∧ render_run (take k answers) s = Some s' ∧
    sk_pc s' = PcWait ∧ sk_buf s' = b ∧ sk_spec s' = sk_spec s ∧
    sk_quit s' = false ∧ sk_corked s' = false ∧
    sk_drainRequested s' = sk_drainRequested s ∧
    sk_notified s' = S (sk_notified s) ∧
    sk_readIndex s' = u64 (sk_readIndex s + Z.of_nat (length scratch)) ∧
    credit (sk_pending s') = u64 (credit (sk_pending s) + Z.of_nat (length scratch)).
Proof.
  intros Hpc Hq Hc Hfill Hpop Hne Hlen.
  assert (0 < length scratch)%nat by (destruct scratch; simpl; [done|lia]).
  destruct answers as [|[o1 n1] answers]; simpl in Hlen; [lia|].
  destruct answers as [|[o2 n2] answers]; simpl in Hlen; [lia|].
  assert (render_step o1 n1 s = Some (s .> set_buf b .> set_pc (PcStart scratch), [])) as H1.
  { unfold render_step, render_wait. rewrite Hpc Hq Hc /=.
    destruct (Nat.ltb_spec 0 (bb_fill (sk_buf s))); [|lia]. rewrite Hpop /=.
    by destruct (Nat.eqb_spec (length scratch) 0); [lia|]. }
  set (s1 := s .> set_buf b .> set_pc (PcStart scratch)) in *.
  assert (∃ s2, render_step o2 n2 s1 = Some (s2, []) ∧ sk_pc s2 = PcWrite scratch 0 ∧
            same_but_writing s1 s2) as (s2 & H2 & Hpc2 & Hsame2).
  { unfold render_step, same_but_writing. simpl. case_match; eauto 15. }
  destruct (write_loop_ends answers scratch 0 s2 Hpc2) as (k & s3 & Hk & H3 & Hpc3 & Hsame3);
    [lia|].
  assert (k + 2 ≤ length answers)%nat as Hk2 by lia.
  assert (∃ a4 a5 rest, drop k answers = a4 :: a5 :: rest) as ([o4 n4] & [o5 n5] & rest & Hd).
  { assert (2 ≤ length (drop k answers))%nat as Hl by (rewrite length_drop; lia).
    destruct (drop k answers) as [|a4 [|a5 rest]]; simpl in Hl; [lia|lia|eauto]. }
  exists (S (S (k + 2))). eexists. split; [lia|]. cbn [take]. split.
  { cbn [render_run]. rewrite H1 mbind_Some. cbv beta iota. rewrite H2 mbind_Some. cbv beta iota.
    rewrite -(take_take_drop _ k 2) Hd. cbn [take]. rewrite render_run_app H3 mbind_Some. cbv beta.
    cbn [render_run].
    assert (render_step o4 n4 s3 = Some (render_account (length scratch) s3, [])) as ->
      by (by unfold render_step; rewrite Hpc3).
    rewrite mbind_Some. reflexivity. }
  destruct Hsame2 as (E1 & E2 & E3 & E4 & E5 & E6 & E7 & E8 & E9).
  destruct Hsame3 as (F1 & F2 & F3 & F4 & F5 & F6 & F7 & F8 & F9).
  simpl. rewrite F1 F2 F3 F4 F5 F7 F8 F9 E1 E2 E3 E4 E5 E7 E8 E9. by split_and!.
Qed.

End Progress.


(** ** Draining *)

Section RingProgress.
Implicit Types s : Sink Ring.

Lemma chunk_size_pos s : sink_wf s → (0 < chunk_size s)%nat.
Proof. intros [Hh _]. unfold chunk_size, MIN_WRITE_CHUNK. simpl. lia. Qed.

Lemma PopLocked_fill want r out r' :
  PopLocked want r = Some (out, r') → r_fill r' = (r_fill r - Nat.min want (r_fill r))%nat.
Proof.
  unfold PopLocked. intros (dst & _ & Hb)%bind_Some. apply bind_Some in Hb as (dst' & _ & Hb).
  by case_match; simplify_eq/=.
Qed.

Lemma ring_render_turn answers s :
  sink_wf s → sk_pc s = PcWait → sk_quit s = false → sk_corked s = false →
  (0 < Buffered s)%nat →
  let got := Nat.min (chunk_size s) (Buffered s) in
  (got + 5 ≤ length answers)%nat →
  ∃ k s', (k ≤ got + 5)%nat ∧ render_run (take k answers) s = Some s' ∧
    sink_wf s' ∧ sk_pc s' = PcWait ∧ sk_quit s' = false ∧ sk_corked s' = false ∧
    sk_drainRequested s' = sk_drainRequested s ∧
    Buffered s' = (Buffered s - got)%nat ∧
    sk_notified s' = S (sk_notified s) ∧
    sk_readIndex s' = u64 (sk_readIndex s + Z.of_nat got) ∧
    credit (sk_pending s') = u64 (credit (sk_pending s) + Z.of_nat got).
Proof.
  intros Hwf Hpc Hq Hc Hf got Hlen. pose proof (chunk_size_pos s Hwf) as Hch.
  unfold Buffered in *. simpl in Hf.
  destruct (PopLocked_refines (chunk_size s) _ Hwf) as (scratch & b & Hpop & Hwfb & Hq' & Hl).
  simpl in got. fold got in Hl.
  assert (bb_fill b = r_fill (sk_buf s) - got)%nat as Hfb.
  { by apply PopLocked_fill in Hpop. }
  destruct (render_turn answers s scratch b) as
    (k & s' & Hk & Hr & ? & <- & ? & ? & ? & ? & ? & Hri & Hcr); try done.
  { destruct scratch; [simpl in Hl; lia|done]. }
  { lia. }
  rewrite Hl in Hk. rewrite Hl in Hri. rewrite Hl in Hcr. exists k, s'. by split_and!.
Qed.

Lemma drain_empty answers s :
  sk_pc s = PcWait → sk_quit s = false → sk_drainRequested s = true → Buffered s = 0%nat →
  (4 ≤ length answers)%nat →
  ∃ s', render_run (take 4 answers) s = Some s' ∧ sk_pc s' = PcWait ∧
    drained (sk_pending s') = true ∧ sk_drainRequested s' = false ∧
    sk_buf s' = sk_buf s ∧ sk_notified s' = S (sk_notified s) ∧
    sk_readIndex s' = sk_readIndex s.
Proof.
  intros Hpc Hq Hd Hf Hlen.
  destruct answers as [|[o1 n1] [|[o2 n2] [|[o3 n3] [|[o4 n4] rest]]]]; simpl in Hlen; try lia.
  assert (render_step o1 n1 s = Some (s .> set_drainRequested false .> set_pc PcDrain, [])) as H1.
  { unfold render_step, render_wait. unfold Buffered in Hf. simpl in Hf.
    by rewrite Hpc Hq Hd /= Hf /= andb_false_r. }
  eexists. cbn [take firstn]. split.
  { cbn [render_run]. rewrite H1 mbind_Some. reflexivity. }
  by split_and!.
Qed.

Lemma drain_run n answers s :
  Buffered s = n → sink_wf s → sk_pc s = PcWait → sk_quit s = false → sk_corked s = false →
  sk_drainRequested s = true → is_u64 (sk_readIndex s) →
  (6 * n + 4 ≤ length answers)%nat →
  ∃ k s', (k ≤ 6 * n + 4)%nat ∧ render_run (take k answers) s = Some s' ∧
    sk_pc s' = PcWait ∧ drained (sk_pending s') = true ∧ Buffered s' = 0%nat ∧
    (sk_notified s < sk_notified s')%nat ∧
    sk_readIndex s' = u64 (sk_readIndex s + Z.of_nat n).
Proof.
  revert s answers. induction (lt_wf n) as [n _ IH]. intros s answers Hn Hwf Hpc Hq Hc Hd Hu Hl.
  destruct (decide (n = 0)%nat) as [->|].
  { destruct (drain_empty answers s) as (s' & Hr & ? & ? & ? & Hb & ? & Hi); try done.
    exists 4%nat, s'. split; [lia|]. split_and!; try done.
    - unfold Buffered in *. congruence.
    - lia.
    - rewrite Hi Z.add_0_r u64_id //. }
  pose proof (chunk_size_pos s Hwf) as Hch.
  destruct (ring_render_turn answers s) as
    (k & s1 & Hk & Hr & Hwf1 & Hpc1 & Hq1 & Hc1 & Hd1 & Hf1 & Hn1 & Hi1 & _); try done; [lia..|].
  set (got := Nat.min (chunk_size s) (Buffered s)) in *.
  destruct (IH (n - got)%nat ltac:(lia) s1 (drop k answers)) as
    (k' & s2 & Hk' & Hr2 & ? & ? & ? & ? & Hi2); try done.
  { rewrite Hf1. lia. }
  { congruence. }
  { rewrite Hi1. auto with widths. }
  { rewrite length_drop. lia. }
  exists (k + k')%nat, s2. split; [lia|]. split_and!; try done.
  - rewrite -take_take_drop render_run_app Hr mbind_Some. done.
  - lia.
  - rewrite Hi2 Hi1. unfold u64. rewrite Zplus_mod_idemp_l. f_equal. lia.
Qed.

End RingProgress.

Section DrainEvents.
Context {B : Type} `{ByteBuffer B}.
Implicit Types s : Sink B.

(** No drain is asked for, under way or waiting to be reported. *)
Definition no_drain s : Prop :=
  sk_drainRequested s = false ∧ drained (sk_pending s) = false ∧
  sk_pc s ≠ PcDrain ∧ sk_pc s ≠ PcDrained.

Definition reports_drain (o : sink_obs) : Prop :=
  match o with ObsEvents e => drained e = true | _ => False end.

Lemma no_drain_exec op s s' o :
  op ≠ OpRequestDrain → no_drain s → sink_exec op s = Some (s', o) →
  no_drain s' ∧ ¬ reports_drain o.
Proof.
  intros Hop (Hd & Hp & Hn1 & Hn2) Hex. unfold no_drain.
  destruct op as [data| |c| | | |ok n]; simpl in Hex; [| | |done| | |].
  - unfold Push in Hex. destruct (sk_quit s || _); simplify_eq/=; [naive_solver|].
    destruct (bb_push data _) as [[]|]; simplify_eq/=. naive_solver.
  - simplify_eq/=. naive_solver.
  - simplify_eq/=. naive_solver.
  - simplify_eq/=. rewrite Hp. naive_solver.
  - simplify_eq/=. unfold Close. case_match; naive_solver.
  - unfold render_step in Hex. destruct (sk_pc s) eqn:Hpc; try done.
    2: { unfold render_wait in Hex. rewrite Hd /= in Hex.
         destruct (sk_quit s); [simplify_eq/=; naive_solver|].
         destruct (negb _ && _); [destruct (bb_pop _ _) as [[]|]|]; simplify_eq/=.
         - case_match; naive_solver.
         - repeat (case_match; simplify_eq/=); naive_solver. }
    all: break_match_hyp; simplify_eq/=; rewrite ?Hpc; naive_solver.
Qed.

Lemma no_drain_run ops s s' os :
  OpRequestDrain ∉ ops → no_drain s → sink_run ops s = Some (s', os) →
  Forall (λ o, ¬ reports_drain o) os.
Proof.
  revert s os. induction ops as [|op ops IH]; intros s os Hops Hnd Hrun.
  { by simplify_eq/=. }
  apply not_elem_of_cons in Hops as [Hop Hops].
  simpl in Hrun. destruct (sink_exec op s) as [[s1 o]|] eqn:Hex; [|done]. simpl in Hrun.
  destruct (sink_run ops s1) as [[s2 os2]|] eqn:Hrun2; simplify_eq/=.
  destruct (no_drain_exec op s s1 o) as [Hnd1 Ho]; [by intros ->|done..|].
  constructor; [done|]. by eapply IH.
Qed.

End DrainEvents.


(** ** Properties of the sink *)

Lemma Open_fresh ss n s0 :
  (0 < n)%nat → Open true ss n (Sink_new (B := Ring)) = (true, s0) →
  sk_pc s0 = PcWait ∧ ring_bytes (sk_buf s0) = [] ∧ sk_readIndex s0 = 0 ∧
  sk_pending s0 = Events_none.
Proof. unfold Open. intros Hn HO. repeat (case_match; simplify_eq). by split_and!. Qed.

(** A stereo S16LE stream at 48 kHz and a small ring, for the witnesses. *)
Definition demo_spec : SampleSpec := mkSampleSpec fmt.SAMPLE_S16LE 2 48000.
Definition demo_sink : Sink Ring := snd (Open true demo_spec 8 Sink_new).

(** C5: the sink with its ring buffer behaves as a bounded FIFO queue.  From a
    freshly opened sink, every sequence of calls of the protocol loop and steps
    of the render thread runs without undefined behaviour (no copy leaves the
    vector, no remainder by zero), and the same sequence over the abstract queue
    gives the same observations - accepted counts, events, audio handed to the
    renderer - and ends in the abstraction of the ring's state. *)
Theorem sink_refines_queue ss n ops s0 :
  (0 < n)%nat → Open true ss n (Sink_new (B := Ring)) = (true, s0) →
  ∃ s' os, sink_run ops s0 = Some (s', os) ∧
    sink_run ops (snd (Open true ss n (Sink_new (B := Queue)))) = Some (map_buf ring_abs s', os).
Proof.
  intros Hn HO. pose proof (Open_wf _ _ _ _ Hn HO) as Hwf.
  rewrite -Sink_new_abs Open_abs HO /=.
  destruct (sink_run_refines ops s0 Hwf) as (s' & os & ? & _ & ?). eauto.
Qed.

Lemma sink_refines_queue_witness :
  (0 < 8)%nat ∧ Open true demo_spec 8 (Sink_new (B := Ring)) = (true, demo_sink) ∧
  ∃ s' os, sink_run [OpPush [1; 2; 3; 4]; OpCork false; OpRender true 4] demo_sink = Some (s', os) ∧
    sink_run [OpPush [1; 2; 3; 4]; OpCork false; OpRender true 4]
      (snd (Open true demo_spec 8 (Sink_new (B := Queue)))) = Some (map_buf ring_abs s', os).
Proof.
  split; [lia|]. split; [reflexivity|].
  apply (sink_refines_queue demo_spec 8); [lia|reflexivity].
Defined.

(** Audio is played in order, without loss or duplication.  With a renderer
    that starts and takes at least a byte per write, and no flush, the bytes
    [Push] accepted are exactly the bytes handed to the renderer, followed by
    the rest of the chunk in flight, followed by the contents of the ring. *)
Theorem sink_fifo ss n ops s0 s' os :
  (0 < n)%nat → Open true ss n (Sink_new (B := Ring)) = (true, s0) →
  Forall healthy ops → sink_run ops s0 = Some (s', os) →
  accepted_bytes ops os = played_bytes os ++ scratch_left s' ++ ring_bytes (sk_buf s').
Proof.
  intros Hn HO Hops Hrun. pose proof (Open_wf _ _ _ _ Hn HO) as Hwf.
  destruct (sink_run_refines ops s0 Hwf) as (s1 & os1 & Hr1 & _ & Hq). simplify_eq.
  destruct (Open_fresh _ _ _ Hn HO) as (Hpc & Hempty & _).
  assert (writing_runs (map_buf ring_abs s0)) as Hw by (unfold writing_runs; simpl; by rewrite Hpc).
  pose proof (sink_run_fifo _ _ _ _ Hops Hw Hq) as Heq.
  unfold scratch_left at 1, q_of at 1 in Heq. by rewrite /= Hpc Hempty in Heq.
Qed.

Definition demo_ops : list sink_op :=
  [OpPush [1; 2; 3; 4; 5; 6]; OpCork false; OpRender true 1; OpRender true 1;
   OpRender true 2; OpPush [7; 8; 9]].

Lemma sink_fifo_witness :
  ∃ s' os, sink_run demo_ops demo_sink = Some (s', os) ∧
    accepted_bytes demo_ops os = [1; 2; 3; 4; 5; 6; 7; 8; 9] ∧
    accepted_bytes demo_ops os = played_bytes os ++ scratch_left s' ++ ring_bytes (sk_buf s').
Proof.
  remember (sink_run demo_ops demo_sink) as r eqn:Hr. vm_compute in Hr. subst r.
  do 2 eexists. split; [reflexivity|]. split; [reflexivity|].
  apply (sink_fifo demo_spec 8 demo_ops demo_sink); [lia|reflexivity| |reflexivity].
  by repeat constructor.
Defined.

(** Credit is conserved.  As long as fewer than 2^64 bytes were accepted,
    after any sequence of operations the credit handed out by [TakeEvents] plus
    the credit still pending is the sink's read index, and read index, bytes in
    flight and bytes buffered together never exceed what [Push] accepted; without
    a flush they are exactly what it accepted. *)
Theorem sink_credit_conserved ss n ops s0 s' os :
  (0 < n)%nat → Open true ss n (Sink_new (B := Ring)) = (true, s0) →
  sink_run ops s0 = Some (s', os) → accepted_total os < 2 ^ 64 →
  taken_credit os + credit (sk_pending s') = ReadIndex s' ∧
  ReadIndex s' + inflight s' + Z.of_nat (Buffered s') ≤ accepted_total os ∧
  (Forall no_flush ops →
   ReadIndex s' + inflight s' + Z.of_nat (Buffered s') = accepted_total os).
Proof.
  intros Hn HO Hrun Hb. pose proof (Open_wf _ _ _ _ Hn HO) as Hwf.
  destruct (sink_run_refines ops s0 Hwf) as (s1 & os1 & Hr1 & Hwf1 & Hq). simplify_eq.
  destruct (Open_fresh _ _ _ Hn HO) as (Hpc & Hempty & Hri & Hpe).
  assert (held (map_buf ring_abs s0) = 0) as H0
    by (unfold held, inflight; by rewrite /= Hpc Hempty Hri).
  destruct (sink_run_held _ _ _ _ Hq) as (H1 & H2 & H3).
  { unfold credit_ok. simpl. by rewrite Hpe Hri. }
  { lia. }
  rewrite H0 in H2, H3. unfold held in H2, H3. rewrite (ring_abs_fill _ Hwf1 : bb_fill (sk_buf (map_buf ring_abs s')) = _) in H2, H3.
  simpl in H1, H2, H3. rewrite Hri Hpe /= in H1. unfold ReadIndex, Buffered. simpl.
  split_and!; [lia|exact H2|exact H3].
Qed.

Definition demo_ops2 : list sink_op := demo_ops ++
  [OpRender true 9; OpRender true 0; OpRender true 0; OpTakeEvents; OpRender true 0;
   OpRender true 0].

Lemma sink_credit_conserved_witness :
  ∃ s' os, sink_run demo_ops2 demo_sink = Some (s', os) ∧ taken_credit os = 6 ∧
    taken_credit os + credit (sk_pending s') = ReadIndex s' ∧
    ReadIndex s' + inflight s' + Z.of_nat (Buffered s') ≤ accepted_total os ∧
    (Forall no_flush demo_ops2 →
     ReadIndex s' + inflight s' + Z.of_nat (Buffered s') = accepted_total os).
Proof.
  remember (sink_run demo_ops2 demo_sink) as r eqn:Hr. vm_compute in Hr. subst r.
  do 2 eexists. split; [reflexivity|]. split; [reflexivity|].
  apply (sink_credit_conserved demo_spec 8 demo_ops2 demo_sink);
    [lia|reflexivity|reflexivity|reflexivity].
Defined.

(** C35: the render thread always makes progress.  With audio buffered on an
    uncorked stream, one turn of the loop takes [got] bytes (a chunk, or what is
    buffered) out of the ring and, whatever the renderer answers to [Start] and
    [Write] - failures and short writes included - gives them back to the client
    as credit within [got + 5] steps, and calls [notify_] once. *)
Theorem render_progress answers (s : Sink Ring) :
  sink_wf s → sk_pc s = PcWait → sk_quit s = false → sk_corked s = false →
  (0 < Buffered s)%nat →
  (Nat.min (chunk_size s) (Buffered s) + 5 ≤ length answers)%nat →
  ∃ k s', (k ≤ Nat.min (chunk_size s) (Buffered s) + 5)%nat ∧
    render_run (take k answers) s = Some s' ∧ sk_pc s' = PcWait ∧
    Buffered s' = (Buffered s - Nat.min (chunk_size s) (Buffered s))%nat ∧
    sk_notified s' = S (sk_notified s) ∧
    ReadIndex s' = u64 (ReadIndex s + Z.of_nat (Nat.min (chunk_size s) (Buffered s))) ∧
    credit (sk_pending s')
      = u64 (credit (sk_pending s) + Z.of_nat (Nat.min (chunk_size s) (Buffered s))).
Proof.
  intros Hwf Hpc Hq Hc Hf Hl.
  destruct (ring_render_turn answers s Hwf Hpc Hq Hc Hf Hl)
    as (k & s' & ? & ? & ? & ? & ? & ? & ? & ? & ? & ? & ?).
  exists k, s'. by split_and!.
Qed.

(** A sink with two bytes buffered, uncorked. *)
Definition demo_ready : Sink Ring :=
  match sink_run [OpPush [1; 2]; OpCork false] demo_sink with
  | Some (s, _) => s | None => demo_sink end.

Lemma render_progress_witness :
  ∃ k s', (k ≤ 7)%nat ∧ render_run (take k (replicate 7 (false, -1))) demo_ready = Some s' ∧
    ReadIndex s' = 2.
Proof.
  destruct (render_progress (replicate 7 (false, -1)) demo_ready)
    as (k & s' & Hk & Hr & _ & _ & _ & Hi & _);
    [split; vm_compute; lia|reflexivity|reflexivity|reflexivity|vm_compute; lia
    |vm_compute; lia|].
  exists k, s'. split; [exact Hk|]. split; [exact Hr|]. rewrite Hi. reflexivity.
Defined.

(** A drain completes.  On an uncorked stream with a drain requested and
    [n] bytes buffered, whatever the renderer answers, within [6 n + 4] steps the
    ring is empty, the drain is reported in the pending events, [notify_] was
    called and every buffered byte has been counted in the read index. *)
Theorem drain_completes answers (s : Sink Ring) :
  sink_wf s → sk_pc s = PcWait → sk_quit s = false → sk_corked s = false →
  sk_drainRequested s = true → is_u64 (sk_readIndex s) →
  (6 * Buffered s + 4 ≤ length answers)%nat →
  ∃ k s', (k ≤ 6 * Buffered s + 4)%nat ∧ render_run (take k answers) s = Some s' ∧
    sk_pc s' = PcWait ∧ drained (sk_pending s') = true ∧ Buffered s' = 0%nat ∧
    (sk_notified s < sk_notified s')%nat ∧
    ReadIndex s' = u64 (ReadIndex s + Z.of_nat (Buffered s)).
Proof. intros. by apply drain_run. Qed.

Lemma drain_completes_witness :
  ∃ k s', (k ≤ 16)%nat ∧
    render_run (take k (replicate 16 (true, 1))) (RequestDrain demo_ready) = Some s' ∧
    drained (sk_pending s') = true ∧ ReadIndex s' = 2.
Proof.
  destruct (drain_completes (replicate 16 (true, 1)) (RequestDrain demo_ready))
    as (k & s' & Hk & Hr & _ & Hd & _ & _ & Hi);
    [split; vm_compute; lia|reflexivity|reflexivity|reflexivity|reflexivity
    |split; vm_compute; congruence|vm_compute; lia|].
  exists k, s'. split; [exact Hk|]. split; [exact Hr|]. split; [exact Hd|].
  rewrite Hi. reflexivity.
Defined.

(** [Flush] cancels a drain for good.  Once a stream whose drain has not been
    reached by the render thread is flushed, no later [TakeEvents] reports a
    drain, whatever runs, until [RequestDrain] is called again. *)
Theorem flush_cancels_drain (s : Sink Ring) ops s' os :
  drained (sk_pending s) = false → sk_pc s ≠ PcDrain → sk_pc s ≠ PcDrained →
  OpRequestDrain ∉ ops →
  sink_run ops (Flush (RequestDrain s)) = Some (s', os) →
  Forall (λ o, ¬ reports_drain o) os.
Proof. intros Hd Hp1 Hp2 Hops. apply no_drain_run; [done|]. by split_and!. Qed.

Lemma flush_cancels_drain_witness :
  ∃ s' os, sink_run [OpRender true 0; OpRender true 0; OpTakeEvents] (Flush (RequestDrain demo_ready))
           = Some (s', os) ∧ Forall (λ o, ¬ reports_drain o) os.
Proof.
  remember (sink_run [OpRender true 0; OpRender true 0; OpTakeEvents]
              (Flush (RequestDrain demo_ready))) as r eqn:Hr. vm_compute in Hr. subst r.
  do 2 eexists. split; [reflexivity|].
  eapply (flush_cancels_drain demo_ready [OpRender true 0; OpRender true 0; OpTakeEvents]);
    [reflexivity|done|done|set_solver|reflexivity].
Defined.

(** Draining a corked stream spins.  With audio buffered, the stream corked,
    a drain requested and the renderer paused, the wait predicate of the render
    loop holds - so the loop does not sleep - and the turn changes nothing, so
    it holds again at once, for as long as nobody uncorks or flushes. *)
Theorem corked_drain_spins answers (s : Sink Ring) :
  sk_pc s = PcWait → sk_quit s = false → sk_corked s = true → sk_drainRequested s = true →
  sk_rendererRunning s = false → (0 < Buffered s)%nat →
  wait_pred s = true ∧ render_run answers s = Some s.
Proof.
  intros Hpc Hq Hc Hd Hr Hf. split.
  { unfold wait_pred. by rewrite Hd !orb_true_r. }
  induction answers as [|[ok n] answers IH]; [done|]. cbn [render_run].
  assert (render_step ok n s = Some (s, [])) as ->; [|done].
  unfold Buffered in Hf. unfold render_step, render_wait. rewrite Hpc Hq Hc Hd Hr /=.
  simpl in Hf. destruct (Nat.eqb_spec (r_fill (sk_buf s)) 0); [lia|]. simpl.
  destruct s. simpl in Hpc. by subst.
Qed.

Lemma corked_drain_spins_witness :
  let s := SetCorked true (RequestDrain demo_ready) in
  wait_pred s = true ∧ render_run (replicate 100 (true, 1)) s = Some s.
Proof.
  apply (corked_drain_spins (replicate 100 (true, 1)) (SetCorked true (RequestDrain demo_ready)));
    [reflexivity|reflexivity|reflexivity|reflexivity|reflexivity|vm_compute; lia].
Defined.
