(* ===== verification/PaServer.v ===== *)
(** * The audio daemon's protocol loop (hybris_generic/waydroid/audio/waydroid_audio_main.cpp)

    [Stream], [Connection] and [Server] are records with the members of the
    source.  A handler is a function in a state monad over one connection and
    the server's counters; [None] is undefined behaviour (a null dereference, a
    signed overflow, a read outside an array).

    What the daemon does not control is an [Env]: the answers of the audio
    service, the clock, and what each render thread did between two accesses of
    its sink.  Every access of a sink by the loop consumes one tick of the
    environment, and the render thread of that sink first runs the steps the
    environment gives for the tick; sinks are independent, so this covers every
    interleaving of the loop with the render threads. *)

From S2P Require Import Prelude PaWire OhosSink.
Set Warnings "-rewrite-rw,-clear-no-such-hyp".

Definition SINK_NAME : bytes := bytes_of_string "waydroid_output".
Definition SOURCE_NAME : bytes := bytes_of_string "waydroid_input".
Definition DEFAULT_MAXLENGTH_USEC : Z := 2000000.
Definition DEFAULT_TLENGTH_USEC : Z := 200000.
Definition ABSOLUTE_MAX_BUFFER : Z := 16 * 1024 * 1024.

(** ** State *)

Record Stream := mkStream {
  st_channel : Z;
  st_index : Z;
  st_ss : SampleSpec;
  st_cm : ChannelMap;
  st_attr : BufferAttr;
  st_corked : bool;
  st_sink : option (Sink Ring);      (* [None] is a null [unique_ptr] *)
  st_writeIndex : Z;
  st_outstanding : Z;
  st_underrunFor : Z;
  st_playingFor : Z;
  st_startedAtUsec : Z;
  st_drainPending : bool;
  st_drainTag : Z;
}.

Definition with_sink (x : option (Sink Ring)) (s : Stream) : Stream :=
  mkStream (st_channel s) (st_index s) (st_ss s) (st_cm s) (st_attr s) (st_corked s) x
    (st_writeIndex s) (st_outstanding s) (st_underrunFor s) (st_playingFor s)
    (st_startedAtUsec s) (st_drainPending s) (st_drainTag s).
Definition with_corked (x : bool) (s : Stream) : Stream :=
  mkStream (st_channel s) (st_index s) (st_ss s) (st_cm s) (st_attr s) x (st_sink s)
    (st_writeIndex s) (st_outstanding s) (st_underrunFor s) (st_playingFor s)
    (st_startedAtUsec s) (st_drainPending s) (st_drainTag s).
Definition with_writeIndex (x : Z) (s : Stream) : Stream :=
  mkStream (st_channel s) (st_index s) (st_ss s) (st_cm s) (st_attr s) (st_corked s)
    (st_sink s) x (st_outstanding s) (st_underrunFor s) (st_playingFor s)
    (st_startedAtUsec s) (st_drainPending s) (st_drainTag s).
Definition with_outstanding (x : Z) (s : Stream) : Stream :=
  mkStream (st_channel s) (st_index s) (st_ss s) (st_cm s) (st_attr s) (st_corked s)
    (st_sink s) (st_writeIndex s) x (st_underrunFor s) (st_playingFor s)
    (st_startedAtUsec s) (st_drainPending s) (st_drainTag s).
Definition with_underrunFor (x : Z) (s : Stream) : Stream :=
  mkStream (st_channel s) (st_index s) (st_ss s) (st_cm s) (st_attr s) (st_corked s)
    (st_sink s) (st_writeIndex s) (st_outstanding s) x (st_playingFor s)
    (st_startedAtUsec s) (st_drainPending s) (st_drainTag s).
Definition with_playingFor (x : Z) (s : Stream) : Stream :=
  mkStream (st_channel s) (st_index s) (st_ss s) (st_cm s) (st_attr s) (st_corked s)
    (st_sink s) (st_writeIndex s) (st_outstanding s) (st_underrunFor s) x
    (st_startedAtUsec s) (st_drainPending s) (st_drainTag s).
Definition with_drain (pending : bool) (tag : Z) (s : Stream) : Stream :=
  mkStream (st_channel s) (st_index s) (st_ss s) (st_cm s) (st_attr s) (st_corked s)
    (st_sink s) (st_writeIndex s) (st_outstanding s) (st_underrunFor s) (st_playingFor s)
    (st_startedAtUsec s) pending tag.

Record Connection := mkConnection {
  c_fd : Z;
  c_version : Z;
  c_authorized : bool;
  c_in : bytes;
  c_out : bytes;
  c_streams : gmap Z Stream;
  c_nextChannel : Z;
}.

Definition Connection_new (fd : Z) : Connection :=
  mkConnection fd PROTOCOL_VERSION false [] [] ∅ 0.

Definition with_auth (version : Z) (c : Connection) : Connection :=
  mkConnection (c_fd c) version true (c_in c) (c_out c) (c_streams c) (c_nextChannel c).
Definition with_in (x : bytes) (c : Connection) : Connection :=
  mkConnection (c_fd c) (c_version c) (c_authorized c) x (c_out c) (c_streams c)
    (c_nextChannel c).
Definition with_out (x : bytes) (c : Connection) : Connection :=
  mkConnection (c_fd c) (c_version c) (c_authorized c) (c_in c) x (c_streams c)
    (c_nextChannel c).
Definition with_streams (x : gmap Z Stream) (c : Connection) : Connection :=
  mkConnection (c_fd c) (c_version c) (c_authorized c) (c_in c) (c_out c) x
    (c_nextChannel c).
Definition with_nextChannel (x : Z) (c : Connection) : Connection :=
  mkConnection (c_fd c) (c_version c) (c_authorized c) (c_in c) (c_out c) (c_streams c) x.

(** What [read], [write] return; a list of results ends with [EAGAIN]. *)
Inductive Errno := EAGAIN | EINTR | EOTHER.
Inductive ReadResult := RdData (buf : bytes) | RdEof | RdErr (e : Errno).
Inductive WriteResult := WrCount (n : nat) | WrErr (e : Errno).

(** The environment, by tick. *)
Record Env := mkEnv {
  e_reads : nat → list ReadResult;      (* the results of one [ReadFrom] *)
  e_writes : nat → list WriteResult;    (* the results of one [FlushOut] *)
  e_accepts : nat → list Z;             (* the descriptors one [Accept] gets *)
  e_sched : nat → list (bool * Z);      (* what a render thread did before the access *)
  e_created : nat → bool;               (* [AudioRenderer::Create] *)
  e_latency : nat → option Z;           (* [AudioRenderer::GetLatency] *)
  e_tv : nat → Z * Z;                   (* [gettimeofday] *)
}.

(** What a handler reads and writes: its connection and the server's counters. *)
Record HState := mkHState {
  h_conn : Connection;
  h_nextStreamIndex : Z;
  h_nextClientIndex : Z;
  h_tick : nat;
}.

Definition M (A : Type) := HState → option (A * HState).
Definition ret {A} (a : A) : M A := λ h, Some (a, h).
Definition bind {A B} (m : M A) (k : A → M B) : M B := λ h,
  match m h with Some (a, h) => k a h | None => None end.
Definition UB {A} : M A := λ _, None.
Notation "'let!' x ':=' m 'in' k" := (bind m (λ x, k))
  (at level 10, x name, m at level 100, k at level 200) : wire_scope.
Notation "'do!' m 'in' k" := (bind m (λ _, k))
  (at level 10, m at level 100, k at level 200) : wire_scope.
Open Scope wire_scope.

Definition get_conn : M Connection := λ h, Some (h_conn h, h).
Definition upd_conn (f : Connection → Connection) : M unit := λ h,
  Some ((), mkHState (f (h_conn h)) (h_nextStreamIndex h) (h_nextClientIndex h) (h_tick h)).
Definition tick : M nat := λ h,
  Some (h_tick h,
        mkHState (h_conn h) (h_nextStreamIndex h) (h_nextClientIndex h) (S (h_tick h))).
(** [nextStreamIndex_++] and [nextClientIndex_++]. *)
Definition next_stream_index : M Z := λ h,
  Some (h_nextStreamIndex h,
        mkHState (h_conn h) (u32 (h_nextStreamIndex h + 1)) (h_nextClientIndex h) (h_tick h)).
Definition next_client_index : M Z := λ h,
  Some (h_nextClientIndex h,
        mkHState (h_conn h) (h_nextStreamIndex h) (u32 (h_nextClientIndex h + 1)) (h_tick h)).
Definition of_option {A} (o : option A) : M A := λ h,
  match o with Some a => Some (a, h) | None => None end.
(** The result of an [int64_t] operation; overflow is undefined. *)
Definition check_s64 (z : Z) : M Z :=
  if (- 2 ^ 63 <=? z) && (z <? 2 ^ 63) then ret z else UB.
(** [if (!r.GetX(...) || ...) { return false; }] and what follows it. *)
Definition parse {A} (g : Reader A) (r : TagReader) (k : A → M bool) : M bool :=
  match g r with
  | ROk a _ => k a
  | RFail _ => ret false
  | RUB => UB
  end.

(** ** Sending *)

(** The bytes of one packet: the descriptor and the payload. *)
Definition frame (channel : Z) (payload : bytes) (flags : Z) : bytes :=
  be32_bytes (u32 (Z.of_nat (length payload))) ++ be32_bytes channel ++ be32_bytes 0
    ++ be32_bytes 0 ++ be32_bytes flags ++ payload.

Definition Send (channel : Z) (payload : bytes) (flags : Z) : M unit :=
  upd_conn (λ c, with_out (c_out c ++ frame channel payload flags) c).
Definition SendTag (t : TagWriter) : M unit := Send CHANNEL_COMMAND t 0.

Definition SendReplyHeader (tag : Z) (t : TagWriter) : TagWriter :=
  t .> PutU32 (Command_code COMMAND_REPLY) .> PutU32 tag.
Definition SendSimpleAck (tag : Z) : M unit := SendTag (SendReplyHeader tag []).
Definition error_payload (tag : Z) (error : Error) : TagWriter :=
  [] .> PutU32 (Command_code COMMAND_ERROR) .> PutU32 tag .> PutU32 (Error_code error).
Definition SendError (tag : Z) (error : Error) : M unit := SendTag (error_payload tag error).
Definition event_payload (command : Command) (streamChannel : Z) (extra : option Z) : TagWriter :=
  let t := [] .> PutU32 (Command_code command) .> PutU32 INVALID_INDEX .> PutU32 streamChannel in
  match extra with Some v => t .> PutS64 v | None => t end.
Definition SendEvent (command : Command) (streamChannel : Z) (extra : option Z) : M unit :=
  SendTag (event_payload command streamChannel extra).

Definition FindStream (channel : Z) : M (option Stream) :=
  let! c := get_conn in ret (c_streams c !! channel).
(** Write a stream object back through the pointer [FindStream] gave. *)
Definition put_stream (channel : Z) (s : Stream) : M unit :=
  upd_conn (λ c, with_streams (<[channel := s]> (c_streams c)) c).

Section Handlers.
Context (env : Env).

(** One access of a stream's sink: the render thread runs first. *)
Definition preempt (k : Sink Ring) : M (Sink Ring) :=
  let! n := tick in of_option (render_run (e_sched env n) k).
Definition on_sink {A} (f : Sink Ring → option (A * Sink Ring)) (s : Stream)
    : M (A * Stream) :=
  match st_sink s with
  | None => UB
  | Some k =>
      let! k := preempt k in
      let! p := of_option (f k) in
      ret (fst p, with_sink (Some (snd p)) s)
  end.
(** The sink's methods as accesses. *)
Definition sink_get {A} (f : Sink Ring → A) : Sink Ring → option (A * Sink Ring) :=
  λ k, Some (f k, k).
Definition sink_do (f : Sink Ring → Sink Ring) : Sink Ring → option (unit * Sink Ring) :=
  λ k, Some ((), f k).
Definition sink_latency (s : Stream) : M Z :=
  let! n := tick in
  match st_sink s with None => UB | Some k => ret (SinkLatencyUsec (e_latency env n) k) end.

Definition NowUsec : M Z :=
  let! n := tick in
  ret (u64 (fst (e_tv env n) * 1000000 + snd (e_tv env n))).

Definition request_payload (channel owed : Z) : TagWriter :=
  [] .> PutU32 (Command_code COMMAND_REQUEST) .> PutU32 INVALID_INDEX .> PutU32 channel
     .> PutU32 (u32 owed).

Definition MaybeRequest (s : Stream) : M Stream :=
  match st_sink s with
  | None => ret s
  | Some _ =>
      let! p := on_sink (sink_get Buffered) s in
      let s := snd p in
      let! a := check_s64 (tlength (st_attr s) - Z.of_nat (fst p)) in
      let! owed := check_s64 (a - st_outstanding s) in
      if owed <? minreq (st_attr s) then ret s
      else
        let! o := check_s64 (st_outstanding s + owed) in
        do! SendTag (request_payload (st_channel s) owed) in
        ret (with_outstanding o s)
  end.

(** ** CREATE_PLAYBACK_STREAM *)

Record CreateReq := mkCreateReq {
  rq_ss : SampleSpec; rq_cm : ChannelMap; rq_sinkIndex : Z; rq_device : bytes * bool;
  rq_attr : BufferAttr; rq_corked : bool; rq_syncId : Z; rq_volume : Z * Z;
  rq_startMuted : bool; rq_adjustLatency : bool; rq_props : proplist }.

Fixpoint get_flags (n : nat) : Reader unit :=
  match n with O => rret () | S n => do* GetBool in get_flags n end.

(** The request, in the order of the three groups of getters. *)
Definition get_create : Reader CreateReq :=
  let* ss := GetSampleSpec in
  let* cm := GetChannelMap ChannelMap_default in
  let* sinkIndex := GetU32 in
  let* device := GetString in
  let* maxl := GetU32 in
  let* corked := GetBool in
  let* tl := GetU32 in
  let* pb := GetU32 in
  let* mr := GetU32 in
  let* syncId := GetU32 in
  let* vol := GetCVolume in
  do* get_flags 7 in
  let* startMuted := GetBool in
  let* adjustLatency := GetBool in
  let* props := GetProplist [] in
  rret (mkCreateReq ss cm sinkIndex device
          (mkBufferAttr maxl tl pb mr (fragsize BufferAttr_default)) corked syncId vol
          startMuted adjustLatency props).

(** "Fill in anything the client left to us, then make the numbers sane." *)
Definition fix_attr (ss : SampleSpec) (a : BufferAttr) : BufferAttr :=
  let frame := FrameSize ss in
  let maxl := if (maxlength a =? INVALID_INDEX) || (maxlength a =? 0)
              then u32 (UsecToBytes ss DEFAULT_MAXLENGTH_USEC) else maxlength a in
  let maxl := u32 (Z.min (Z.max maxl frame) ABSOLUTE_MAX_BUFFER) in
  let tl := if (tlength a =? INVALID_INDEX) || (tlength a =? 0)
            then u32 (UsecToBytes ss DEFAULT_TLENGTH_USEC) else tlength a in
  let tl := u32 (Z.min (Z.max tl frame) maxl) in
  let mr := if (minreq a =? INVALID_INDEX) || (minreq a =? 0) then tl / 4 else minreq a in
  let mr := u32 (Z.min (Z.max mr frame) tl) in
  let pb := if prebuf a =? INVALID_INDEX then tl else prebuf a in
  let pb := Z.min pb tl in
  mkBufferAttr maxl tl pb mr (fragsize a).

(** The reply libpulse expects for v13. *)
Definition create_reply (tag : Z) (s : Stream) (latency : Z) : option TagWriter :=
  let a := st_attr s in
  t ← PutChannelMap (st_cm s)
        (SendReplyHeader tag [] .> PutU32 (st_channel s) .> PutU32 (st_index s)
           .> PutU32 (tlength a) .> PutU32 (maxlength a) .> PutU32 (tlength a)
           .> PutU32 (prebuf a) .> PutU32 (minreq a) .> PutSampleSpec (st_ss s));
  Some (t .> PutU32 0 .> PutString (Some SINK_NAME) .> PutBool false .> PutUsec latency).

(** The part after the sink was opened. *)
Definition create_opened (tag : Z) (rq : CreateReq) (attr : BufferAttr) (k : Sink Ring)
    : M bool :=
  let! k := preempt k in
  let k := SetCorked (rq_corked rq) k in
  let! c := get_conn in
  let channel := c_nextChannel c in
  do! upd_conn (with_nextChannel (u32 (channel + 1))) in
  let! index := next_stream_index in
  let! now := NowUsec in
  let s := mkStream channel index (rq_ss rq) (rq_cm rq) attr (rq_corked rq) (Some k)
             0 0 0 0 now false 0 in
  let! latency := sink_latency s in
  let! t := of_option (create_reply tag s latency) in
  do! SendTag t in
  do! put_stream channel (with_outstanding (tlength attr) s) in
  ret true.

Definition HandleCreatePlayback (tag : Z) (r : TagReader) : M bool :=
  parse get_create r (λ rq,
    if negb (Valid (rq_ss rq)) then do! SendError tag ERR_INVALID in ret true
    else
      let attr := fix_attr (rq_ss rq) (rq_attr rq) in
      let! n := tick in
      let opened := Open (e_created env n) (rq_ss rq) (Z.to_nat (maxlength attr)) Sink_new in
      if negb (fst opened) then do! SendError tag ERR_INVALID in ret true
      else create_opened tag rq attr (snd opened)).

(** ** Stream data *)

Definition HandleStreamData (channel flags : Z) (data : bytes) : M unit :=
  let! found := FindStream channel in
  match found with
  | None => ret ()
  | Some s =>
      match st_sink s with
      | None => ret ()
      | Some _ =>
          let len := Z.of_nat (length data) in
          let s := with_writeIndex (u64 (st_writeIndex s + len)) s in
          let! o := check_s64 (st_outstanding s - len) in
          let s := with_outstanding o s in
          let! p := on_sink (Push data) s in
          do! (if (fst p <? length data)%nat then SendEvent COMMAND_OVERFLOW channel None
               else ret ()) in
          let! s := MaybeRequest (snd p) in
          put_stream channel s
      end
  end.

(** ** Commands: one definition per case of [HandleCommand] *)

Definition cmd_auth (tag : Z) (r : TagReader) : M bool :=
  parse (let* version := GetU32 in let* cookie := GetArbitrary in rret version) r (λ version,
    let peer := Z.land version VERSION_MASK in
    if peer <? 8 then do! SendError tag ERR_VERSION in ret true
    else
      let v := Z.min peer PROTOCOL_VERSION in
      do! upd_conn (with_auth v) in
      do! SendTag (SendReplyHeader tag [] .> PutU32 v) in
      ret true).

Definition cmd_set_client_name (tag : Z) (r : TagReader) : M bool :=
  let! c := get_conn in
  let finish : M bool :=
    let t := SendReplyHeader tag [] in
    if 13 <=? c_version c then
      let! i := next_client_index in
      do! SendTag (t .> PutU32 i) in ret true
    else do! SendTag t in ret true in
  if 13 <=? c_version c then parse (GetProplist []) r (λ _, finish)
  else parse GetString r (λ _, finish).

Definition cmd_delete (tag : Z) (r : TagReader) : M bool :=
  parse GetU32 r (λ channel,
    let! found := FindStream channel in
    match found with
    | None => do! SendError tag ERR_NOENTITY in ret true
    | Some _ =>
        do! upd_conn (λ c, with_streams (delete channel (c_streams c)) c) in
        do! SendSimpleAck tag in ret true
    end).

(** [FindStream], ERR_NOENTITY when there is none. *)
Definition on_stream (tag channel : Z) (k : Stream → M bool) : M bool :=
  let! found := FindStream channel in
  match found with
  | None => do! SendError tag ERR_NOENTITY in ret true
  | Some s => k s
  end.

Definition cmd_cork (tag : Z) (r : TagReader) : M bool :=
  parse (let* channel := GetU32 in let* cork := GetBool in rret (channel, cork)) r (λ a,
    on_stream tag (fst a) (λ s,
      let s := with_corked (snd a) s in
      let! p := on_sink (sink_do (SetCorked (snd a))) s in
      do! SendSimpleAck tag in
      let! s := MaybeRequest (snd p) in
      do! put_stream (fst a) s in ret true)).

Definition cmd_flush (tag : Z) (r : TagReader) : M bool :=
  parse GetU32 r (λ channel,
    on_stream tag channel (λ s,
      let! p := on_sink (sink_do Flush) s in
      do! SendSimpleAck tag in
      let! s := MaybeRequest (snd p) in
      do! put_stream channel s in ret true)).

Definition cmd_trigger_prebuf (tag : Z) (r : TagReader) : M bool :=
  parse GetU32 r (λ channel,
    on_stream tag channel (λ _, do! SendSimpleAck tag in ret true)).

Definition cmd_drain (tag : Z) (r : TagReader) : M bool :=
  parse GetU32 r (λ channel,
    on_stream tag channel (λ s,
      let! p := on_sink (sink_do RequestDrain) (with_drain true tag s) in
      do! put_stream channel (snd p) in ret true)).

Definition latency_reply (tag version : Z) (s : Stream) (readIndex now latency : Z)
    (playing : bool) (sec usec : Z) : TagWriter :=
  let t := SendReplyHeader tag [] .> PutUsec latency .> PutUsec 0 .> PutBool playing
             .> PutTimeval sec usec
             .> PutTimeval (u32 (now / 1000000)) (u32 (now mod 1000000))
             .> PutS64 (s64 (st_writeIndex s)) .> PutS64 (s64 readIndex) in
  if 13 <=? version then t .> PutU64 (st_underrunFor s) .> PutU64 (st_playingFor s) else t.

Definition cmd_latency (tag : Z) (r : TagReader) : M bool :=
  parse (let* channel := GetU32 in let* tv := GetTimeval in rret (channel, tv)) r (λ a,
    on_stream tag (fst a) (λ s,
      let! p := on_sink (sink_get ReadIndex) s in
      let s := snd p in
      let! now := NowUsec in
      let! latency := sink_latency s in
      let! q := on_sink (sink_get IsPlaying) s in
      let! c := get_conn in
      do! SendTag (latency_reply tag (c_version c) (snd q) (fst p) now latency (fst q)
                     (fst (snd a)) (snd (snd a))) in
      do! put_stream (fst a) (snd q) in ret true)).

Definition cmd_set_name (tag : Z) (r : TagReader) : M bool :=
  parse (let* channel := GetU32 in let* name := GetString in rret channel) r (λ _,
    do! SendSimpleAck tag in ret true).

Definition attr_reply (tag : Z) (a : BufferAttr) : TagWriter :=
  SendReplyHeader tag [] .> PutU32 (maxlength a) .> PutU32 (tlength a) .> PutU32 (prebuf a)
    .> PutU32 (minreq a).

Definition cmd_set_buffer_attr (tag : Z) (r : TagReader) : M bool :=
  parse (let* channel := GetU32 in do* GetU32 in do* GetU32 in do* GetU32 in do* GetU32 in
         rret channel) r (λ channel,
    on_stream tag channel (λ s,
      let! c := get_conn in
      let t := attr_reply tag (st_attr s) in
      if 13 <=? c_version c then
        let! latency := sink_latency s in
        do! SendTag (t .> PutUsec latency) in ret true
      else do! SendTag t in ret true)).

Definition cmd_server_info (tag : Z) : M bool :=
  let! c := get_conn in
  let t := SendReplyHeader tag [] .> PutString (Some (bytes_of_string "waydroid_audio"))
             .> PutString (Some (bytes_of_string "13.0.0"))
             .> PutString (Some (bytes_of_string "waydroid"))
             .> PutString (Some (bytes_of_string "localhost"))
             .> PutSampleSpec SampleSpec_default .> PutString (Some SINK_NAME)
             .> PutString (Some SOURCE_NAME) .> PutU32 0 in
  let! t := (if 15 <=? c_version c then of_option (PutChannelMap ChannelMap_default t)
             else ret t) in
  do! SendTag t in ret true.

Definition HandleCommand (command tag : Z) (r : TagReader) : M bool :=
  let! c := get_conn in
  if negb (c_authorized c) && negb (command =? Command_code COMMAND_AUTH) then
    do! SendError tag ERR_ACCESS in ret true
  else
    match case_of command with
    | Some COMMAND_AUTH => cmd_auth tag r
    | Some COMMAND_SET_CLIENT_NAME => cmd_set_client_name tag r
    | Some COMMAND_CREATE_PLAYBACK_STREAM => HandleCreatePlayback tag r
    | Some COMMAND_DELETE_PLAYBACK_STREAM => cmd_delete tag r
    | Some COMMAND_CORK_PLAYBACK_STREAM => cmd_cork tag r
    | Some COMMAND_FLUSH_PLAYBACK_STREAM => cmd_flush tag r
    | Some COMMAND_TRIGGER_PLAYBACK_STREAM
    | Some COMMAND_PREBUF_PLAYBACK_STREAM => cmd_trigger_prebuf tag r
    | Some COMMAND_DRAIN_PLAYBACK_STREAM => cmd_drain tag r
    | Some COMMAND_GET_PLAYBACK_LATENCY => cmd_latency tag r
    | Some COMMAND_SET_PLAYBACK_STREAM_NAME => cmd_set_name tag r
    | Some COMMAND_SET_PLAYBACK_STREAM_BUFFER_ATTR => cmd_set_buffer_attr tag r
    | Some COMMAND_GET_SERVER_INFO => cmd_server_info tag
    | Some COMMAND_CREATE_RECORD_STREAM => do! SendError tag ERR_NOTSUPPORTED in ret true
    | Some COMMAND_EXIT => do! SendSimpleAck tag in ret true
    | _ => do! SendError tag ERR_NOTSUPPORTED in ret true
    end.

Definition HandlePacket (channel flags : Z) (data : bytes) : M bool :=
  if negb (channel =? CHANNEL_COMMAND) then
    do! HandleStreamData channel flags data in ret true
  else if negb (Z.land flags FLAG_SHMDATA =? 0) then ret false
  else
    match (let* command := GetU32 in let* tag := GetU32 in rret (command, tag))
            (TagReader_new data) with
    | ROk a r => HandleCommand (fst a) (snd a) r
    | RFail _ => ret false
    | RUB => UB
    end.

(** ** Render-thread news: [PumpSinks] *)

Definition when (b : bool) (m : M unit) : M unit := if b then m else ret ().

(** The body of the inner loop, for the stream under the key [key]. *)
Definition pump_stream (key : Z) : M unit :=
  let! found := FindStream key in
  match found with
  | None => UB
  | Some s =>
      match st_sink s with
      | None => ret ()
      | Some _ =>
          let! p := on_sink (λ k, Some (TakeEvents k)) s in
          let ev := fst p in
          let s := snd p in
          let s := if 0 <? credit ev
                   then with_playingFor (u64 (st_playingFor s + BytesToUsec (st_ss s) (credit ev))) s
                   else s in
          do! when (started ev) (SendEvent COMMAND_STARTED (st_channel s) None) in
          let! c := get_conn in
          let! s :=
            (if underflow ev then
               let s := with_underrunFor (u64 (st_underrunFor s + 1)) s in
               if 23 <=? c_version c then
                 let! q := on_sink (sink_get ReadIndex) s in
                 do! SendEvent COMMAND_UNDERFLOW (st_channel s) (Some (s64 (fst q))) in
                 ret (snd q)
               else
                 do! SendEvent COMMAND_UNDERFLOW (st_channel s) None in ret s
             else ret s) in
          let! s :=
            (if drained ev && st_drainPending s then
               do! SendSimpleAck (st_drainTag s) in
               ret (with_drain false (st_drainTag s) s)
             else ret s) in
          let! s := MaybeRequest s in
          put_stream key s
      end
  end.

(** [for (auto &x : m)]: a [std::map] is visited in key order. *)
Definition map_keys {A} (m : gmap Z A) : list Z :=
  merge_sort Z.le (fst <$> map_to_list m).

Fixpoint pump_streams (keys : list Z) : M unit :=
  match keys with
  | [] => ret ()
  | key :: keys => do! pump_stream key in pump_streams keys
  end.
Definition pump_connection : M unit :=
  let! c := get_conn in pump_streams (map_keys (c_streams c)).

(** ** Socket input and output *)

Definition READ_SIZE : nat := Z.to_nat 16384.

(** The first loop of [ReadFrom]: false for [return false], and the new [in]. *)
Fixpoint read_loop (rs : list ReadResult) (acc : bytes) : bool * bytes :=
  match rs with
  | [] => (true, acc)
  | RdEof :: _ => (false, acc)
  | RdErr EAGAIN :: _ => (true, acc)
  | RdErr EINTR :: rs => read_loop rs acc
  | RdErr EOTHER :: _ => (false, acc)
  | RdData buf :: rs =>
      let buf := take READ_SIZE buf in
      if (length buf <? READ_SIZE)%nat then (true, acc ++ buf) else read_loop rs (acc ++ buf)
  end.

Definition be32_at (i : nat) (d : bytes) : option Z :=
  b0 ← d !! i; b1 ← d !! (i + 1)%nat; b2 ← d !! (i + 2)%nat; b3 ← d !! (i + 3)%nat;
  Some (be32 b0 b1 b2 b3).

(** The second loop: handle every whole packet of [inb] from [off] on.  The
    result is [None] for [return false], otherwise the final [off].  Every turn
    consumes a descriptor, so [length inb] turns are enough. *)
Fixpoint packet_loop (fuel : nat) (inb : bytes) (off : nat) : M (option nat) :=
  if (length inb - off <? DESCRIPTOR_SIZE)%nat then ret (Some off)
  else
    match fuel with
    | O => UB
    | S fuel =>
        let d := drop off inb in
        let! len := of_option (be32_at 0 d) in
        let! channel := of_option (be32_at 4 d) in
        let! flags := of_option (be32_at 16 d) in
        if ABSOLUTE_MAX_BUFFER <? len then ret None
        else if (length inb - off <? DESCRIPTOR_SIZE + Z.to_nat len)%nat then ret (Some off)
        else
          let! ok := HandlePacket channel flags (take (Z.to_nat len) (drop DESCRIPTOR_SIZE d)) in
          if (ok : bool) then packet_loop fuel inb (off + (DESCRIPTOR_SIZE + Z.to_nat len))
          else ret None
    end.

Definition ReadFrom : M bool :=
  let! n := tick in
  let! c := get_conn in
  let inb := snd (read_loop (e_reads env n) (c_in c)) in
  do! upd_conn (with_in inb) in
  if negb (fst (read_loop (e_reads env n) (c_in c))) then ret false
  else
    let! off := packet_loop (length inb) inb 0 in
    match off with
    | None => ret false
    | Some off => do! upd_conn (with_in (drop off inb)) in ret true
    end.

(** The loop of [FlushOut]: how much of [out] was sent, [None] for
    [return false].  [write] never takes more than it is given. *)
Fixpoint write_loop (ws : list WriteResult) (size sent : nat) : option nat :=
  if (sent <? size)%nat then
    match ws with
    | [] => Some sent
    | WrErr EINTR :: ws => write_loop ws size sent
    | WrErr EAGAIN :: _ => Some sent
    | WrErr EOTHER :: _ => None
    | WrCount n :: ws => write_loop ws size (sent + Nat.min n (size - sent))
    end
  else Some sent.

Definition FlushOut : M bool :=
  let! n := tick in
  let! c := get_conn in
  match write_loop (e_writes env n) (length (c_out c)) 0 with
  | None => ret false
  | Some sent => do! upd_conn (with_out (drop sent (c_out c))) in ret true
  end.

(** ** The server *)

Record Server := mkServer {
  sv_listenFd : Z;
  sv_eventFd : Z;
  sv_conns : gmap Z Connection;
  sv_epollOut : gmap Z bool;          (* per registered client: is EPOLLOUT asked for? *)
  sv_nextStreamIndex : Z;
  sv_nextClientIndex : Z;
  sv_tick : nat;
}.

Definition with_conns (x : gmap Z Connection) (sv : Server) : Server :=
  mkServer (sv_listenFd sv) (sv_eventFd sv) x (sv_epollOut sv) (sv_nextStreamIndex sv)
    (sv_nextClientIndex sv) (sv_tick sv).
Definition with_epollOut (x : gmap Z bool) (sv : Server) : Server :=
  mkServer (sv_listenFd sv) (sv_eventFd sv) (sv_conns sv) x (sv_nextStreamIndex sv)
    (sv_nextClientIndex sv) (sv_tick sv).
Definition with_tick (x : nat) (sv : Server) : Server :=
  mkServer (sv_listenFd sv) (sv_eventFd sv) (sv_conns sv) (sv_epollOut sv)
    (sv_nextStreamIndex sv) (sv_nextClientIndex sv) x.

(** Run a handler on the connection of [fd]. *)
Definition on_conn {A} (fd : Z) (m : M A) (sv : Server) : option (A * Server) :=
  c ← sv_conns sv !! fd;
  '(a, h) ← m (mkHState c (sv_nextStreamIndex sv) (sv_nextClientIndex sv) (sv_tick sv));
  Some (a, mkServer (sv_listenFd sv) (sv_eventFd sv) (<[fd := h_conn h]> (sv_conns sv))
             (sv_epollOut sv) (h_nextStreamIndex h) (h_nextClientIndex h) (h_tick h)).

(** [Accept]: one new connection per descriptor until [accept4] fails. *)
Definition Accept (sv : Server) : Server :=
  foldl (λ sv fd, sv .> with_epollOut (<[fd := false]> (sv_epollOut sv))
                     .> with_conns (<[fd := Connection_new fd]> (sv_conns sv)))
    (with_tick (S (sv_tick sv)) sv) (e_accepts env (sv_tick sv)).

(** [UpdateEvents]; [EPOLL_CTL_MOD] of an unregistered descriptor fails. *)
Definition UpdateEvents (c : Connection) (sv : Server) : Server :=
  with_epollOut (alter (λ _, negb (bool_decide (c_out c = []))) (c_fd c) (sv_epollOut sv)) sv.

Definition Drop (fd : Z) (sv : Server) : Server :=
  match sv_conns sv !! fd with
  | None => sv
  | Some _ => sv .> with_epollOut (delete fd (sv_epollOut sv))
                 .> with_conns (delete fd (sv_conns sv))
  end.

Definition pump_one (fd : Z) (sv : Server) : option Server :=
  '(_, sv) ← on_conn fd pump_connection sv;
  c ← sv_conns sv !! fd;
  Some (UpdateEvents c sv).
Fixpoint pump_conns (fds : list Z) (sv : Server) : option Server :=
  match fds with
  | [] => Some sv
  | fd :: fds => sv ← pump_one fd sv; pump_conns fds sv
  end.
Definition PumpSinks (sv : Server) : option Server := pump_conns (map_keys (sv_conns sv)) sv.

(** ** The event loop *)

Record EpollEvent := mkEpollEvent { ev_fd : Z; ev_hup : bool; ev_in : bool; ev_out : bool }.

(** One event of the inner loop; the result says whether [fd] joins [dead]. *)
Definition handle_event (ev : EpollEvent) (sv : Server) : option (bool * Server) :=
  let fd := ev_fd ev in
  if fd =? sv_listenFd sv then Some (false, Accept sv)
  else if fd =? sv_eventFd sv then Some (false, sv)
  else
    match sv_conns sv !! fd with
    | None => Some (false, sv)
    | Some _ =>
        if ev_hup ev then Some (true, sv)
        else
          '(ok, sv) ← (if ev_in ev then on_conn fd ReadFrom sv else Some (true, sv));
          if negb ok then Some (true, sv)
          else
            '(ok, sv) ← (if ev_out ev then on_conn fd FlushOut sv else Some (true, sv));
            Some (negb ok, sv)
    end.

Fixpoint handle_events (evs : list EpollEvent) (sv : Server) : option (list Z * Server) :=
  match evs with
  | [] => Some ([], sv)
  | ev :: evs =>
      '(died, sv) ← handle_event ev sv;
      '(dead, sv) ← handle_events evs sv;
      Some (if (died : bool) then ev_fd ev :: dead else dead, sv)
  end.

(** The last loop of a turn: flush everybody, collecting the broken. *)
Fixpoint flush_conns (fds : list Z) (sv : Server) : option (list Z * Server) :=
  match fds with
  | [] => Some ([], sv)
  | fd :: fds =>
      '(ok, sv) ← on_conn fd FlushOut sv;
      c ← sv_conns sv !! fd;
      '(broken, sv) ← flush_conns fds (if (ok : bool) then UpdateEvents c sv else sv);
      Some (if (ok : bool) then broken else fd :: broken, sv)
  end.

Definition run_turn (evs : list EpollEvent) (sv : Server) : option Server :=
  '(dead, sv) ← handle_events evs sv;
  sv ← PumpSinks (foldl (λ sv fd, Drop fd sv) sv dead);
  '(broken, sv) ← flush_conns (map_keys (sv_conns sv)) sv;
  Some (foldl (λ sv fd, Drop fd sv) sv broken).

(** [Run] until [g_stop] is set or [epoll_wait] fails: the values of [g_stop]
    and the results of [epoll_wait], turn by turn. *)
Inductive WaitResult := WaitErr (e : Errno) | WaitEvents (evs : list EpollEvent).

Fixpoint Run (turns : list (bool * WaitResult)) (sv : Server) : option Server :=
  match turns with
  | [] => Some sv
  | (g_stop, w) :: turns =>
      if (g_stop : bool) then Some sv
      else
        match w with
        | WaitErr EINTR => Run turns sv
        | WaitErr _ => Some sv
        | WaitEvents evs => sv ← run_turn evs sv; Run turns sv
        end
  end.

(** [Shutdown]: all connections go, the descriptors are closed. *)
Definition Shutdown (sv : Server) : Server :=
  mkServer (-1) (-1) ∅ (sv_epollOut sv) (sv_nextStreamIndex sv) (sv_nextClientIndex sv)
    (sv_tick sv).

End Handlers.

(** A server after a successful [Start]. *)
Definition Server_new (listenFd eventFd : Z) : Server := mkServer listenFd eventFd ∅ ∅ 0 0 0.
