(* ===== verification/PaServerFacts.v ===== *)
(** * Proof library for the protocol loop

    Weakest preconditions of the handler monad, what a render thread may do to a
    sink behind the loop's back, the invariant of streams and connections, and
    one specification per handler: it does not fail, keeps the invariant, and
    sends what it sends. *)

From S2P Require Import Prelude PaWire OhosSink PaServer.
Set Warnings "-rewrite-rw,-clear-no-such-hyp".

(** ** Weakest preconditions *)

Definition wp {A} (m : M A) (Q : A → HState → Prop) (h : HState) : Prop :=
  match m h with Some (a, h') => Q a h' | None => False end.

Lemma swp_bind {A B} (m : M A) (k : A → M B) Q h :
  wp m (λ a h', wp (k a) Q h') h → wp (bind m k) Q h.
Proof. unfold wp, bind. by destruct (m h) as [[a h']|]. Qed.

Lemma swp_ret {A} (a : A) (Q : A → HState → Prop) h : Q a h → wp (ret a) Q h.
Proof. done. Qed.

Lemma wp_conseq {A} (m : M A) (P Q : A → HState → Prop) h :
  wp m P h → (∀ a h', P a h' → Q a h') → wp m Q h.
Proof. unfold wp. destruct (m h) as [[a h']|]; auto. Qed.

Lemma wp_of_option {A} (o : option A) a (Q : A → HState → Prop) h :
  o = Some a → Q a h → wp (of_option o) Q h.
Proof. intros ->. done. Qed.

Lemma wp_check_s64 z (Q : Z → HState → Prop) h :
  is_s64 z → Q z h → wp (check_s64 z) Q h.
Proof.
  unfold is_s64, check_s64. intros Hz HQ.
  destruct (Z.leb_spec (- 2 ^ 63) z); [|lia]. by destruct (Z.ltb_spec z (2 ^ 63)); [|lia].
Qed.

Lemma wp_Some {A} (m : M A) Q h : wp m Q h → ∃ a h', m h = Some (a, h') ∧ Q a h'.
Proof. unfold wp. destruct (m h) as [[a h']|]; [eauto|done]. Qed.

(** Readers inside handlers. *)
Definition rd_ok (r : TagReader) : Prop := reader_ok r ∧ bytes_ok (rd_data r).

Lemma wp_parse {A} n (P : A → Prop) (g : Reader A) r k (Q : bool → HState → Prop) h :
  rspec n P g → rd_ok r → (∀ a, P a → wp (k a) Q h) → Q false h → wp (parse g r k) Q h.
Proof.
  intros Hg [Hr Hb] Hk HF. unfold parse. specialize (Hg r Hr Hb).
  destruct (g r) as [a r'|r'|]; [|done|done]. naive_solver.
Qed.

(** ** What a render thread does to its sink *)

Lemma PopLocked_ring want r out r' : PopLocked want r = Some (out, r') → r_ring r' = r_ring r.
Proof.
  unfold PopLocked. intros (dst & _ & Hb)%bind_Some. apply bind_Some in Hb as (dst' & _ & Hb).
  by case_match; simplify_eq/=.
Qed.

Lemma render_step_ring ok n (k : Sink Ring) :
  sink_wf k →
  ∃ k' au, render_step ok n k = Some (k', au) ∧ sink_wf k' ∧
    bb_size (sk_buf k') = bb_size (sk_buf k) ∧ sk_quit k' = sk_quit k ∧
    (Buffered k' ≤ Buffered k)%nat.
Proof.
  intros Hwf. destruct (sink_exec_refines (OpRender ok n) k Hwf) as (k' & o & Hex & Hwf' & _).
  simpl in Hex. destruct (render_step ok n k) as [[k1 au]|] eqn:Hst; simplify_eq/=.
  exists k', au. split; [done|]. split; [done|]. unfold Buffered. simpl.
  unfold render_step in Hst. destruct (sk_pc k) eqn:Hpc; try (break_match_hyp; by simplify_eq/=).
  destruct (render_wait k) as [k2|] eqn:Hr; simplify_eq/=. unfold render_wait in Hr.
  destruct (sk_quit k) eqn:?; [by simplify_eq/=|]. destruct (negb _ && _).
  - simpl in Hr. destruct (PopLocked (chunk_size k) (sk_buf k)) as [[out b]|] eqn:Hp;
      simplify_eq/=.
    pose proof (PopLocked_fill _ _ _ _ Hp). split; [|split; [done|lia]].
    by rewrite (PopLocked_ring _ _ _ _ Hp).
  - repeat (case_match; simplify_eq/=; try done).
Qed.

Lemma render_run_ring answers (k : Sink Ring) :
  sink_wf k →
  ∃ k', render_run answers k = Some k' ∧ sink_wf k' ∧
    bb_size (sk_buf k') = bb_size (sk_buf k) ∧ sk_quit k' = sk_quit k ∧
    (Buffered k' ≤ Buffered k)%nat.
Proof.
  revert k. induction answers as [|[ok n] answers IH]; intros k Hwf; cbn [render_run]; [by exists k|].
  destruct (render_step_ring ok n k Hwf) as (k1 & au & -> & Hwf1 & Hs1 & Hq1 & Hf1).
  rewrite mbind_Some. cbv beta iota.
  destruct (IH k1 Hwf1) as (k2 & -> & Hwf2 & Hs2 & Hq2 & Hf2).
  exists k2. split; [done|]. split; [done|].
  split; [exact (eq_trans Hs2 Hs1)|]. split; [exact (eq_trans Hq2 Hq1)|lia].
Qed.

Lemma Push_ring data (k : Sink Ring) :
  sink_wf k →
  ∃ n k', Push data k = Some (n, k') ∧ sink_wf k' ∧
    bb_size (sk_buf k') = bb_size (sk_buf k) ∧ sk_quit k' = sk_quit k ∧
    (n ≤ length data)%nat ∧
    Buffered k' = (Buffered k + n)%nat ∧
    (sk_quit k = false → n = Nat.min (length data) (bb_size (sk_buf k) - Buffered k)).
Proof.
  intros Hwf. destruct (Push_refines data k Hwf) as (n & k' & HP & Hwf' & _).
  exists n, k'. split; [done|]. split; [done|]. unfold Push in HP. unfold Buffered. simpl in *.
  destruct (sk_quit k) eqn:Hq; simpl in HP.
  { simplify_eq. split_and!; try done; lia. }
  destruct Hwf as [Hh Hf]. destruct (Nat.eqb_spec (length (r_ring (sk_buf k))) 0); [lia|].
  destruct (ring_push_Some data (sk_buf k)) as (out & Hp & Hl & _); [by split|].
  rewrite Hp /= in HP. simplify_eq/=. split_and!; try done; lia.
Qed.

(** ** The invariant *)

(** The buffer attributes after normalisation. *)
Definition attr_ok (ss : SampleSpec) (a : BufferAttr) : Prop :=
  0 < FrameSize ss ≤ minreq a ∧ minreq a ≤ tlength a ≤ maxlength a ∧
  maxlength a ≤ ABSOLUTE_MAX_BUFFER ∧ 0 ≤ prebuf a ≤ tlength a.

(** Flow control: what is buffered and what was asked for fit the target, and
    the client's overdraft is bounded. *)
Definition flow_ok (a : BufferAttr) (outstanding : Z) (k : Sink Ring) : Prop :=
  outstanding + Z.of_nat (Buffered k) ≤ tlength a ∧
  tlength a - maxlength a - minreq a ≤ outstanding.

Definition sink_ok (a : BufferAttr) (k : Sink Ring) : Prop :=
  sink_wf k ∧ Z.of_nat (bb_size (sk_buf k)) = maxlength a ∧ sk_quit k = false.

Definition stream_ok (key : Z) (s : Stream) : Prop :=
  st_channel s = key ∧ is_u32 key ∧ Valid (st_ss s) = true ∧ ChannelMap_ok (st_cm s) ∧
  attr_ok (st_ss s) (st_attr s) ∧
  ∃ k, st_sink s = Some k ∧ sink_ok (st_attr s) k ∧
       flow_ok (st_attr s) (st_outstanding s) k.

Record conn_ok (c : Connection) : Prop := {
  ok_version : 8 ≤ c_version c ≤ PROTOCOL_VERSION;
  ok_auth : c_authorized c = false → c_streams c = ∅;
  ok_streams : map_Forall stream_ok (c_streams c);
  ok_next : is_u32 (c_nextChannel c);
}.

Lemma conn_ok_new fd : conn_ok (Connection_new fd).
Proof. split; [vm_compute; split; congruence|done|apply map_Forall_empty|by vm_compute]. Qed.

(** ** What a handler sends *)

Definition frames (ps : list bytes) : bytes := concat ((λ p, frame CHANNEL_COMMAND p 0) <$> ps).

Lemma frames_app ps qs : frames (ps ++ qs) = frames ps ++ frames qs.
Proof. unfold frames. by rewrite fmap_app concat_app. Qed.

(** [effect ps h h']: the packets [ps] were queued and nothing else of the
    connection and the counters changed. *)
Definition effect (ps : list bytes) (h h' : HState) : Prop :=
  h_conn h' = with_out (c_out (h_conn h) ++ frames ps) (h_conn h) ∧
  h_nextStreamIndex h' = h_nextStreamIndex h ∧ h_nextClientIndex h' = h_nextClientIndex h.

Lemma with_out_nil c : with_out (c_out c ++ []) c = c.
Proof. rewrite app_nil_r. by destruct c. Qed.

Lemma effect_refl h : effect [] h h.
Proof. split; [|done]. unfold frames. simpl. by rewrite with_out_nil. Qed.

Lemma effect_trans ps qs h1 h2 h3 : effect ps h1 h2 → effect qs h2 h3 → effect (ps ++ qs) h1 h3.
Proof.
  intros (H1 & H2 & H3) (G1 & G2 & G3). unfold effect. rewrite G1 G2 G3 H1 H2 H3 /=.
  by rewrite frames_app app_assoc.
Qed.

Lemma effect_streams ps h h' : effect ps h h' → c_streams (h_conn h') = c_streams (h_conn h).
Proof. by intros [-> _]. Qed.

Lemma wp_tick (Q : nat → HState → Prop) h :
  (∀ n h', effect [] h h' → Q n h') → wp tick Q h.
Proof.
  intros HQ. unfold wp, tick. apply HQ. split; [|done]. simpl.
  unfold frames. simpl. by rewrite with_out_nil.
Qed.

Lemma wp_SendTag t (Q : unit → HState → Prop) h :
  (∀ h', effect [t] h h' → Q () h') → wp (SendTag t) Q h.
Proof.
  intros HQ. unfold wp, SendTag, Send, upd_conn. apply HQ. split; [|done]. simpl.
  unfold frames. simpl. by rewrite app_nil_r.
Qed.

Section Access.
Context (env : Env).

Lemma wp_on_sink {A} (f : Sink Ring → option (A * Sink Ring)) a s k
    (Q : A * Stream → HState → Prop) h :
  st_sink s = Some k → sink_ok a k →
  (∀ k', sink_ok a k' → (Buffered k' ≤ Buffered k)%nat →
     ∃ x k'', f k' = Some (x, k'') ∧
       ∀ h', effect [] h h' → Q (x, with_sink (Some k'') s) h') →
  wp (on_sink env f s) Q h.
Proof.
  intros Hs (Hwf & Hsz & Hq) HQ. unfold on_sink. rewrite Hs. apply swp_bind.
  unfold preempt. apply swp_bind, wp_tick. intros n h1 He1.
  destruct (render_run_ring (e_sched env n) k Hwf) as (k' & Hr & Hwf' & Hs' & Hq' & Hf').
  eapply wp_of_option; [done|].
  destruct (HQ k') as (x & k'' & Hf & HQ'); [|done|].
  { unfold sink_ok. rewrite Hs' Hq'. done. }
  apply swp_bind. eapply wp_of_option; [done|]. apply swp_ret. by apply HQ'.
Qed.

(** *** Flow control *)

(** The REQUEST a call of [MaybeRequest] may send. *)
Inductive request_effect (s : Stream) : Z → list bytes → Prop :=
| no_request : request_effect s (st_outstanding s) []
| one_request owed :
    minreq (st_attr s) ≤ owed → is_u32 owed →
    request_effect s (st_outstanding s + owed) [request_payload (st_channel s) owed].

Lemma wp_MaybeRequest s k h (Q : Stream → HState → Prop) :
  st_sink s = Some k → attr_ok (st_ss s) (st_attr s) → sink_ok (st_attr s) k →
  st_outstanding s + Z.of_nat (Buffered k) ≤ tlength (st_attr s) →
  tlength (st_attr s) - 2 ^ 31 ≤ st_outstanding s →
  (∀ k' o' reqs h',
     sink_ok (st_attr s) k' → (Buffered k' ≤ Buffered k)%nat →
     flow_ok (st_attr s) o' k' →
     tlength (st_attr s) - Z.of_nat (Buffered k') - o' < minreq (st_attr s) →
     request_effect s o' reqs → effect reqs h h' →
     Q (with_outstanding o' (with_sink (Some k') s)) h') →
  wp (MaybeRequest env s) Q h.
Proof.
  intros Hs Ha Hk Hup Hlo HQ. unfold MaybeRequest. rewrite Hs. apply swp_bind.
  eapply wp_on_sink; [done..|]. intros k' Hk' Hf. unfold sink_get. do 2 eexists. split; [done|].
  intros h1 He1. cbn [fst snd]. set (s1 := with_sink (Some k') s).
  change (st_attr s1) with (st_attr s). change (st_outstanding s1) with (st_outstanding s).
  destruct Ha as (Hfr & Hmr & Hmx & Hpb). unfold ABSOLUTE_MAX_BUFFER in *.
  assert (Z.of_nat (Buffered k') ≤ maxlength (st_attr s)) as Hcap.
  { destruct Hk' as ((Hh' & Hf') & Hsz' & _). unfold Buffered. simpl in *. lia. }
  apply swp_bind, wp_check_s64; [unfold is_s64; lia|].
  apply swp_bind, wp_check_s64; [unfold is_s64; lia|].
  set (owed := tlength (st_attr s) - Z.of_nat (Buffered k') - st_outstanding s).
  destruct (Z.ltb_spec owed (minreq (st_attr s))) as [Hlt|Hge].
  - apply swp_ret. replace s1 with (with_outstanding (st_outstanding s) (with_sink (Some k') s))
      by (by destruct s).
    eapply HQ; [done..| |lia|constructor|done]. unfold flow_ok. lia.
  - apply swp_bind, wp_check_s64; [unfold is_s64; lia|].
    apply swp_bind, wp_SendTag. intros h2 He2. apply swp_ret. eapply HQ; [done..| |lia| |].
    + unfold flow_ok. lia.
    + apply (one_request s); [done|]. unfold is_u32. lia.
    + by apply (effect_trans [] _ _ _ _ He1 He2).
Qed.

End Access.

(** ** Reading what was sent

    A REQUEST as the client sees it: command, tag, channel and byte count. *)

Definition get_request : Reader (Z * Z * Z) :=
  let* command := GetU32 in let* tag := GetU32 in let* channel := GetU32 in
  let* n := GetU32 in rret (command, channel, n).

Definition request_amount (ch : Z) (p : bytes) : Z :=
  match get_request (TagReader_new p) with
  | ROk (command, channel, n) _ =>
      if (command =? Command_code COMMAND_REQUEST) && (channel =? ch) then n else 0
  | _ => 0
  end.
Definition requested (ch : Z) (ps : list bytes) : Z := foldr (λ p, Z.add (request_amount ch p)) 0 ps.

Lemma requested_app ch ps qs : requested ch (ps ++ qs) = requested ch ps + requested ch qs.
Proof. induction ps as [|p ps IH]; simpl; [done|]. rewrite IH. lia. Qed.

Definition u32_bytes (v : Z) : bytes := Tag_code TAG_U32 :: be32_bytes v.
Lemma PutU32_app v t : PutU32 v t = t ++ u32_bytes v.
Proof. unfold PutU32, RawTag, Raw8, Raw32, u32_bytes. by rewrite -app_assoc. Qed.

Lemma wr_new {A} (g : Reader A) e a : wire_reads g e a → ∃ r, g (TagReader_new e) = ROk a r.
Proof. intros Hg. eexists. apply (Hg _ []); [done|]. by rewrite app_nil_r. Qed.

Lemma request_amount_request ch ch' owed :
  is_u32 ch' → is_u32 owed →
  request_amount ch (request_payload ch' owed) = if ch' =? ch then owed else 0.
Proof.
  intros Hc Ho. unfold request_amount, request_payload. rewrite !PutU32_app (u32_id _ Ho).
  assert (wire_reads get_request
    (u32_bytes 61 ++ u32_bytes INVALID_INDEX ++ u32_bytes ch' ++ u32_bytes owed ++ [])
    (61, ch', owed)) as Hw.
  { assert (is_u32 61) by (unfold is_u32; lia).
    assert (is_u32 INVALID_INDEX) by (unfold is_u32, INVALID_INDEX; lia).
    do 4 (eapply wr_bind; [by apply wr_GetU32|]). apply wr_ret. }
  apply wr_new in Hw as [r Hr]. rewrite app_nil_r in Hr.
  rewrite app_nil_l -!app_assoc. by rewrite Hr.
Qed.

(** A packet with another command carries no credit. *)
Lemma request_amount_other ch code p :
  is_u32 code → code ≠ Command_code COMMAND_REQUEST → u32_bytes code `prefix_of` p →
  request_amount ch p = 0.
Proof.
  intros Hc Hne [rest ->]. unfold request_amount, get_request.
  pose proof (wr_GetU32 code Hc (TagReader_new (u32_bytes code ++ rest)) rest eq_refl eq_refl) as Hw.
  unfold rbind, rret. rewrite Hw. apply Z.eqb_neq in Hne.
  clear Hw. generalize (advance (length (Tag_code TAG_U32 :: be32_bytes code))
    (TagReader_new (u32_bytes code ++ rest))). intros r0.
  destruct (GetU32 r0) as [tag r1|r1|]; [|done|done].
  destruct (GetU32 r1) as [channel r2|r2|]; [|done|done].
  destruct (GetU32 r2) as [n r3|r3|]; [|done|done]. by rewrite Hne.
Qed.

(** *** Writers only append *)

Create HintDb wire discriminated.

Section Prefixes.
Context (pre : bytes).

Lemma prefix_app_l t e : pre `prefix_of` t → pre `prefix_of` t ++ e.
Proof. apply prefix_app_r. Qed.
Lemma prefix_PutU32 v t : pre `prefix_of` t → pre `prefix_of` PutU32 v t.
Proof. rewrite PutU32_app. apply prefix_app_r. Qed.
Lemma prefix_Raw32 v t : pre `prefix_of` t → pre `prefix_of` Raw32 v t.
Proof. apply prefix_app_r. Qed.
Lemma prefix_Raw8 v t : pre `prefix_of` t → pre `prefix_of` Raw8 v t.
Proof. apply prefix_app_r. Qed.
Lemma prefix_Raw64 v t : pre `prefix_of` t → pre `prefix_of` Raw64 v t.
Proof. intros. by apply prefix_Raw32, prefix_Raw32. Qed.
Lemma prefix_PutU64 v t : pre `prefix_of` t → pre `prefix_of` PutU64 v t.
Proof. intros. by apply prefix_Raw64, prefix_Raw8. Qed.
Lemma prefix_PutS64 v t : pre `prefix_of` t → pre `prefix_of` PutS64 v t.
Proof. intros. by apply prefix_Raw64, prefix_Raw8. Qed.
Lemma prefix_PutUsec v t : pre `prefix_of` t → pre `prefix_of` PutUsec v t.
Proof. intros. by apply prefix_Raw64, prefix_Raw8. Qed.
Lemma prefix_PutBool v t : pre `prefix_of` t → pre `prefix_of` PutBool v t.
Proof. apply prefix_Raw8. Qed.
Lemma prefix_PutString v t : pre `prefix_of` t → pre `prefix_of` PutString v t.
Proof. intros. destruct v; [by apply prefix_app_r, prefix_Raw8|by apply prefix_Raw8]. Qed.
Lemma prefix_PutSampleSpec v t : pre `prefix_of` t → pre `prefix_of` PutSampleSpec v t.
Proof. intros. by apply prefix_Raw32, prefix_Raw8, prefix_Raw8, prefix_Raw8. Qed.
Lemma prefix_PutTimeval a b t : pre `prefix_of` t → pre `prefix_of` PutTimeval a b t.
Proof. intros. by apply prefix_Raw32, prefix_Raw32, prefix_Raw8. Qed.
Lemma prefix_put_channels n i map t t' :
  put_channels n i map t = Some t' → pre `prefix_of` t → pre `prefix_of` t'.
Proof.
  revert i t. induction n as [|n IH]; intros i t Hp Ht; simpl in Hp; [by simplify_eq|].
  destruct (map !! i); [|done]. eapply IH; [exact Hp|]. by apply prefix_Raw8.
Qed.
End Prefixes.

#[export] Hint Resolve prefix_PutU32 prefix_PutU64 prefix_PutS64 prefix_PutUsec prefix_PutBool
  prefix_PutString prefix_PutSampleSpec prefix_PutTimeval : wire.

Lemma PutChannelMap_Some cm t :
  ChannelMap_ok cm →
  ∃ t', PutChannelMap cm t = Some t' ∧ ∀ pre, pre `prefix_of` t → pre `prefix_of` t'.
Proof.
  intros (Hc & Hl & Hb). unfold PutChannelMap.
  destruct (put_channels _ _ _ _) as [t'|] eqn:E.
  - eexists. split; [done|]. intros pre Hp. eapply prefix_put_channels; [exact E|].
    by apply prefix_Raw8, prefix_Raw8.
  - exfalso. revert E. rewrite put_channels_take; [done| |done].
    rewrite Hl. unfold CHANNEL_MAP_SIZE. lia.
Qed.

(** ** Specifications of the handlers *)

(** The reply to a command: a REPLY with its tag, or an ERROR with its tag. *)
Definition is_answer (tag : Z) (p : bytes) : Prop :=
  SendReplyHeader tag [] `prefix_of` p ∨ ∃ e, p = error_payload tag e.
Definition is_request (p : bytes) : Prop := ∃ ch owed, p = request_payload ch owed.

(** Exactly one reply, then at most one REQUEST. *)
Definition answered (tag : Z) (ps : list bytes) : Prop :=
  ∃ p reqs, ps = p :: reqs ∧ is_answer tag p ∧ Forall is_request reqs ∧ (length reqs ≤ 1)%nat.

(** A drain of an existing stream is acknowledged later, by [PumpSinks]. *)
Definition deferred (tag : Z) (c : Connection) : Prop :=
  ∃ ch s, c_streams c !! ch = Some s ∧ st_drainPending s = true ∧ st_drainTag s = tag.

(** The server's [outstanding] of every stream moves by the credit sent. *)
Definition ledger (c c' : Connection) (ps : list bytes) (debit : Z → Z) : Prop :=
  ∀ ch s s', c_streams c !! ch = Some s → c_streams c' !! ch = Some s' →
    st_outstanding s' = st_outstanding s + requested ch ps - debit ch.

Definition next_is_free (c : Connection) : Prop := c_streams c !! c_nextChannel c = None.

Record handled (tag : Z) (h : HState) (b : bool) (h' : HState) : Prop := {
  hd_ok : conn_ok (h_conn h');
  hd_auth : c_authorized (h_conn h) = true → c_authorized (h_conn h') = true;
  hd_sent : ∃ ps, c_out (h_conn h') = c_out (h_conn h) ++ frames ps ∧
    (if b then answered tag ps ∨ (ps = [] ∧ deferred tag (h_conn h')) else ps = []) ∧
    (next_is_free (h_conn h) → ledger (h_conn h) (h_conn h') ps (λ _, 0));
}.

Lemma is_answer_reply tag p : SendReplyHeader tag [] `prefix_of` p → is_answer tag p.
Proof. by left. Qed.
Lemma is_answer_error tag e : is_answer tag (error_payload tag e).
Proof. right. eauto. Qed.
#[export] Hint Resolve is_answer_reply is_answer_error : wire.

Lemma is_answer_amount ch tag p : is_answer tag p → request_amount ch p = 0.
Proof.
  intros [[rest ->]|[e ->]].
  - apply (request_amount_other ch 2); [unfold is_u32; lia|done|].
    unfold SendReplyHeader. rewrite !PutU32_app -!app_assoc. by eexists.
  - apply (request_amount_other ch 0); [unfold is_u32; lia|done|].
    unfold error_payload. rewrite !PutU32_app -!app_assoc. by eexists.
Qed.

Lemma handled_false tag h : conn_ok (h_conn h) → handled tag h false h.
Proof.
  intros Hok. split; [done|done|]. exists []. split; [by rewrite app_nil_r|]. split; [done|].
  intros _ ch s s' H1 H2. simplify_eq. simpl. lia.
Qed.

Lemma conn_ok_effect ps h h' : effect ps h h' → conn_ok (h_conn h) → conn_ok (h_conn h').
Proof. intros [-> _] [H1 H2 H3 H4]. by split. Qed.

(** An answer, after changes that leave streams and output alone. *)
Lemma handled_answer_after tag h h1 p h' :
  conn_ok (h_conn h1) → c_out (h_conn h1) = c_out (h_conn h) →
  c_streams (h_conn h1) = c_streams (h_conn h) →
  (c_authorized (h_conn h) = true → c_authorized (h_conn h1) = true) →
  is_answer tag p → effect [p] h1 h' → handled tag h true h'.
Proof.
  intros Hok Hout Hst Hau Hp He. split.
  - by eapply conn_ok_effect.
  - destruct He as [-> _]. by apply Hau.
  - exists [p]. split; [destruct He as [-> _]; by rewrite /= Hout|]. split.
    + left. exists p, []. split_and!; [done|done|constructor|simpl; lia].
    + intros _ ch s s' H1 H2. rewrite (effect_streams _ _ _ He) Hst in H2. simplify_eq.
      simpl. rewrite (is_answer_amount _ _ _ Hp). lia.
Qed.

Lemma handled_answer tag h p h' :
  conn_ok (h_conn h) → is_answer tag p → effect [p] h h' → handled tag h true h'.
Proof. intros. by eapply handled_answer_after. Qed.

Lemma wp_answer tag p h :
  conn_ok (h_conn h) → is_answer tag p → wp (do! SendTag p in ret true) (handled tag h) h.
Proof.
  intros Hok Hp. apply swp_bind, wp_SendTag. intros h' He. apply swp_ret.
  by eapply handled_answer.
Qed.

(** The connection after [put_stream]. *)
Definition updated (ch : Z) (s : Stream) (h h' : HState) : Prop :=
  h_conn h' = with_streams (<[ch := s]> (c_streams (h_conn h))) (h_conn h).

Lemma wp_put_stream ch s (Q : unit → HState → Prop) h :
  (∀ h', updated ch s h h' → h_nextStreamIndex h' = h_nextStreamIndex h →
         h_nextClientIndex h' = h_nextClientIndex h → Q () h') → wp (put_stream ch s) Q h.
Proof. intros HQ. unfold wp, put_stream, upd_conn. by apply HQ. Qed.

Lemma conn_ok_update ch s ps h h1 h2 :
  conn_ok (h_conn h) → is_Some (c_streams (h_conn h) !! ch) → stream_ok ch s →
  effect ps h h1 → updated ch s h1 h2 → conn_ok (h_conn h2).
Proof.
  intros [H1 H2 H3 H4] [s0 Hs0] Hs [He _] Hu. rewrite /updated He /= in Hu. rewrite Hu.
  split; simpl; [done| | |done].
  - intros Ha. rewrite (H2 Ha) in Hs0. done.
  - by apply map_Forall_insert_2.
Qed.

Lemma request_effect_is_request s o reqs :
  request_effect s o reqs → Forall is_request reqs ∧ (length reqs ≤ 1)%nat.
Proof. intros []; split; repeat constructor. unfold is_request. eauto. Qed.

Lemma request_effect_requested s o reqs ch :
  is_u32 (st_channel s) → request_effect s o reqs →
  requested ch reqs = if st_channel s =? ch then o - st_outstanding s else 0.
Proof.
  intros Hc []; simpl.
  - by case_match; lia.
  - rewrite request_amount_request //. case_match; lia.
Qed.

(** A command that updates one stream, answers and may ask for more. *)
Lemma handled_update tag h h1 h2 ch s s1 s' p reqs :
  conn_ok (h_conn h) → c_streams (h_conn h) !! ch = Some s → stream_ok ch s' →
  st_outstanding s1 = st_outstanding s → st_channel s1 = ch →
  is_answer tag p → request_effect s1 (st_outstanding s') reqs →
  effect (p :: reqs) h h1 → updated ch s' h1 h2 → handled tag h true h2.
Proof.
  intros Hok Hs Hs' Ho Hc Hp Hreq He Hu. pose proof Hs' as (Hch & Hu32 & _). split.
  - by eapply conn_ok_update.
  - rewrite Hu. destruct He as [-> _]. done.
  - exists (p :: reqs). split; [rewrite Hu; by destruct He as [-> _]|]. split.
    + left. exists p, reqs. destruct (request_effect_is_request _ _ _ Hreq). done.
    + intros _ ch' t t' H1 H2. rewrite Hu /= (effect_streams _ _ _ He) in H2. simpl.
      rewrite (is_answer_amount _ _ _ Hp).
      rewrite (request_effect_requested s1 (st_outstanding s')) //; [|by rewrite Hc].
      rewrite Hc Ho. destruct (Z.eqb_spec ch ch') as [<-|Hne].
      * rewrite lookup_insert_eq in H2. simplify_eq. lia.
      * rewrite lookup_insert_ne // in H2. simplify_eq. lia.
Qed.

Lemma flow_ok_low ss a o k : attr_ok ss a → flow_ok a o k → tlength a - 2 ^ 31 ≤ o.
Proof. unfold attr_ok, flow_ok, ABSOLUTE_MAX_BUFFER. lia. Qed.

(** [with_sink] and [with_outstanding] on an accepted stream. *)
Lemma stream_ok_sink ch s k o :
  stream_ok ch s → sink_ok (st_attr s) k → flow_ok (st_attr s) o k →
  stream_ok ch (with_outstanding o (with_sink (Some k) s)).
Proof. intros (H1 & H2 & H3 & H4 & H5 & _) Hk Hf. unfold stream_ok. simpl. eauto 10. Qed.

(** A change of a sink that keeps its ring and does not add audio. *)
Definition tame (f : Sink Ring → Sink Ring) : Prop := ∀ a k,
  sink_ok a k → sink_ok a (f k) ∧ (Buffered (f k) ≤ Buffered k)%nat.

Lemma tame_id : tame (λ k, k).
Proof. done. Qed.
Lemma tame_SetCorked c : tame (SetCorked c).
Proof. done. Qed.
Lemma tame_RequestDrain : tame RequestDrain.
Proof. done. Qed.
Lemma tame_Flush : tame Flush.
Proof.
  intros a k ((Hh & Hf) & Hs & Hq). unfold sink_ok, sink_wf, ring_wf, Buffered. simpl in *.
  split_and!; try done; lia.
Qed.
Lemma tame_TakeEvents : tame (λ k, snd (TakeEvents k)).
Proof. done. Qed.
#[export] Hint Resolve tame_id tame_SetCorked tame_RequestDrain tame_Flush tame_TakeEvents : wire.

Section Commands.
Context (env : Env).

Lemma wp_FindStream ch (Q : option Stream → HState → Prop) h :
  Q (c_streams (h_conn h) !! ch) h → wp (FindStream ch) Q h.
Proof. done. Qed.

Lemma wp_on_stream tag ch k h :
  conn_ok (h_conn h) →
  (∀ s, c_streams (h_conn h) !! ch = Some s → stream_ok ch s → wp (k s) (handled tag h) h) →
  wp (on_stream tag ch k) (handled tag h) h.
Proof.
  intros Hok Hk. unfold on_stream. apply swp_bind, wp_FindStream.
  destruct (c_streams (h_conn h) !! ch) as [s|] eqn:Hs.
  - apply Hk; [done|]. by apply (ok_streams _ Hok).
  - apply wp_answer; auto with wire.
Qed.

(** An access of the sink of a stream of the table. *)
Lemma wp_stream_access {A} (f : Sink Ring → option (A * Sink Ring)) ch s h
    (Q : A * Stream → HState → Prop) :
  stream_ok ch s →
  (∀ k, sink_ok (st_attr s) k → ∃ x k', f k = Some (x, k') ∧ sink_ok (st_attr s) k' ∧
     (Buffered k' ≤ Buffered k)%nat) →
  (∀ x k h', stream_ok ch (with_sink (Some k) s) → effect [] h h' →
     Q (x, with_sink (Some k) s) h') →
  wp (on_sink env f s) Q h.
Proof.
  intros Hs Hf HQ. pose proof Hs as (H1 & H2 & H3 & H4 & H5 & k & Hk & Hok & Hfl).
  eapply wp_on_sink; [done..|]. intros k' Hok' Hle.
  destruct (Hf k' Hok') as (x & k'' & Hx & Hok'' & Hle'').
  exists x, k''. split; [done|]. intros h' He. apply HQ; [|done].
  replace (with_sink (Some k'') s) with (with_outstanding (st_outstanding s) (with_sink (Some k'') s))
    by (by destruct s).
  apply stream_ok_sink; [done..|]. destruct Hfl. unfold flow_ok. lia.
Qed.

Lemma wp_stream_do f ch s h (Q : unit * Stream → HState → Prop) :
  stream_ok ch s → tame f →
  (∀ x k h', stream_ok ch (with_sink (Some k) s) → effect [] h h' →
     Q (x, with_sink (Some k) s) h') →
  wp (on_sink env (sink_do f) s) Q h.
Proof.
  intros Hs Hf. apply wp_stream_access; [done|]. intros k Hk. destruct (Hf _ _ Hk).
  do 2 eexists. done.
Qed.

Lemma wp_stream_get {A} (f : Sink Ring → A) ch s h (Q : A * Stream → HState → Prop) :
  stream_ok ch s →
  (∀ x k h', stream_ok ch (with_sink (Some k) s) → effect [] h h' →
     Q (x, with_sink (Some k) s) h') →
  wp (on_sink env (sink_get f) s) Q h.
Proof. intros Hs. apply wp_stream_access; [done|]. intros k Hk. do 2 eexists. done. Qed.

(** [MaybeRequest] on a stream of the table. *)
Lemma wp_stream_request ch s h (Q : Stream → HState → Prop) :
  stream_ok ch s →
  (∀ k o reqs h', stream_ok ch (with_outstanding o (with_sink (Some k) s)) →
     tlength (st_attr s) - Z.of_nat (Buffered k) - o < minreq (st_attr s) →
     request_effect s o reqs → effect reqs h h' →
     Q (with_outstanding o (with_sink (Some k) s)) h') →
  wp (MaybeRequest env s) Q h.
Proof.
  intros Hs HQ. pose proof Hs as (H1 & H2 & H3 & H4 & H5 & k & Hk & Hok & Hfl).
  eapply wp_MaybeRequest; [done..|apply Hfl|by eapply flow_ok_low|].
  intros k' o reqs h' Hok' Hle Hfl' Hlt Hreq He.
  apply (HQ k' o reqs); try done. by apply stream_ok_sink.
Qed.

(** CORK and FLUSH: change the sink, acknowledge, ask for more. *)
Lemma wp_change_sink tag ch f s s0 h :
  conn_ok (h_conn h) → c_streams (h_conn h) !! ch = Some s → stream_ok ch s0 →
  st_outstanding s0 = st_outstanding s → tame f →
  wp (let! p := on_sink env (sink_do f) s0 in
      do! SendSimpleAck tag in
      let! s := MaybeRequest env (snd p) in
      do! put_stream ch s in ret true) (handled tag h) h.
Proof.
  intros Hok Hs Hs0 Ho Hf. apply swp_bind. eapply wp_stream_do; [done..|].
  intros [] k h1 Hk He1. apply swp_bind, wp_SendTag. intros h2 He2.
  apply swp_bind. eapply wp_stream_request; [exact Hk|].
  intros k' o reqs h3 Hs' _ Hreq He3. apply swp_bind, wp_put_stream. intros h4 Hu _ _.
  apply swp_ret. pose proof Hs0 as (Hch & _).
  pose proof (effect_trans _ _ _ _ _ (effect_trans _ _ _ _ _ He1 He2) He3) as He.
  refine (handled_update tag h h3 h4 ch s (with_sink (Some k) s0) _ _ reqs
            Hok Hs Hs' Ho Hch _ Hreq He Hu).
  by apply is_answer_reply.
Qed.

(** *** The commands, one by one *)

Lemma wp_cmd_auth tag r h :
  conn_ok (h_conn h) → rd_ok r → wp (cmd_auth tag r) (handled tag h) h.
Proof.
  intros Hok Hr. unfold cmd_auth. eapply (wp_parse 0 is_u32); [|done| |by apply handled_false].
  { eapply (rspec_bind 5 0); [apply rspec_GetU32|intros v Hv|lia].
    eapply (rspec_bind 5 0); [apply rspec_GetArbitrary|intros c _|lia]. by apply rspec_ret. }
  intros version Hv. set (peer := Z.land version VERSION_MASK).
  destruct (Z.ltb_spec peer 8); [apply wp_answer; auto with wire|].
  apply swp_bind. unfold wp at 1, upd_conn. apply swp_bind, wp_SendTag. intros h' He. apply swp_ret.
  eapply handled_answer_after; [..|exact He]; try done.
  - destruct Hok as [H1 H2 H3 H4]. split; simpl; try done. unfold PROTOCOL_VERSION. lia.
  - apply is_answer_reply. auto with wire.
Qed.

Lemma wp_cmd_set_client_name tag r h :
  conn_ok (h_conn h) → rd_ok r → wp (cmd_set_client_name tag r) (handled tag h) h.
Proof.
  intros Hok Hr. unfold cmd_set_client_name. apply swp_bind. unfold wp at 1, get_conn.
  destruct (Z.leb_spec 13 (c_version (h_conn h))).
  - eapply wp_parse; [apply rspec_GetProplist|done| |by apply handled_false]. intros _ _.
    apply swp_bind. unfold wp at 1, next_client_index. apply swp_bind, wp_SendTag. intros h' He.
    apply swp_ret. eapply handled_answer_after; [..|exact He]; try done.
    apply is_answer_reply. auto with wire.
  - eapply wp_parse; [apply rspec_GetString|done| |by apply handled_false]. intros _ _.
    apply wp_answer; auto with wire.
Qed.

Lemma wp_cmd_delete tag r h :
  conn_ok (h_conn h) → rd_ok r → wp (cmd_delete tag r) (handled tag h) h.
Proof.
  intros Hok Hr. unfold cmd_delete. eapply wp_parse; [apply rspec_GetU32|done| |by apply handled_false].
  intros ch _. apply swp_bind, wp_FindStream.
  destruct (c_streams (h_conn h) !! ch) as [s|] eqn:Hs; [|apply wp_answer; auto with wire].
  apply swp_bind. unfold wp at 1, upd_conn. apply swp_bind, wp_SendTag. intros h' He. apply swp_ret.
  assert (is_answer tag (SendReplyHeader tag [])) as Hans by (by apply is_answer_reply). split.
  - eapply conn_ok_effect; [exact He|]. destruct Hok as [H1 H2 H3 H4].
    split; simpl; [done| |by apply map_Forall_delete|done].
    intros Ha. rewrite (H2 Ha). apply delete_empty.
  - by destruct He as [-> _].
  - exists [SendReplyHeader tag []]. split; [by destruct He as [-> _]|]. split.
    + left. eexists _, []. split_and!; [done|done|constructor|simpl; lia].
    + intros _ ch' t t' H1 H2. rewrite (effect_streams _ _ _ He) /= in H2.
      apply lookup_delete_Some in H2 as [_ H2]. simplify_eq. simpl.
      rewrite (is_answer_amount _ _ _ Hans). lia.
Qed.

Lemma wp_cmd_cork tag r h :
  conn_ok (h_conn h) → rd_ok r → wp (cmd_cork env tag r) (handled tag h) h.
Proof.
  intros Hok Hr. unfold cmd_cork.
  eapply (wp_parse 0 (λ _, True)); [|done| |by apply handled_false].
  { eapply (rspec_bind 5 0); [apply rspec_GetU32|intros v _|lia].
    eapply (rspec_bind 1 0); [apply rspec_GetBool|intros c _|lia]. by apply rspec_ret. }
  intros [ch cork] _. apply wp_on_stream; [done|]. intros s Hs Hsok.
  eapply (wp_change_sink tag ch _ s); [done|done| |done|auto with wire].
  by destruct Hsok as (? & ? & ? & ? & ? & ?).
Qed.

Lemma wp_cmd_flush tag r h :
  conn_ok (h_conn h) → rd_ok r → wp (cmd_flush env tag r) (handled tag h) h.
Proof.
  intros Hok Hr. unfold cmd_flush. eapply wp_parse; [apply rspec_GetU32|done| |by apply handled_false].
  intros ch _. apply wp_on_stream; [done|]. intros s Hs Hsok.
  apply (wp_change_sink tag ch _ s); auto with wire.
Qed.

Lemma wp_cmd_trigger_prebuf tag r h :
  conn_ok (h_conn h) → rd_ok r → wp (cmd_trigger_prebuf tag r) (handled tag h) h.
Proof.
  intros Hok Hr. unfold cmd_trigger_prebuf.
  eapply wp_parse; [apply rspec_GetU32|done| |by apply handled_false].
  intros ch _. apply wp_on_stream; [done|]. intros s Hs Hsok. apply wp_answer; auto with wire.
Qed.

Lemma wp_cmd_drain tag r h :
  conn_ok (h_conn h) → rd_ok r → wp (cmd_drain env tag r) (handled tag h) h.
Proof.
  intros Hok Hr. unfold cmd_drain. eapply wp_parse; [apply rspec_GetU32|done| |by apply handled_false].
  intros ch _. apply wp_on_stream; [done|]. intros s Hs Hsok.
  apply swp_bind. eapply (wp_stream_do _ ch); [|apply tame_RequestDrain|].
  { by destruct Hsok as (? & ? & ? & ? & ? & ?). }
  intros [] k h1 Hk He1. apply swp_bind, wp_put_stream. intros h2 Hu _ _. apply swp_ret.
  pose proof (effect_streams _ _ _ He1) as Hst. split.
  - by eapply conn_ok_update.
  - rewrite Hu. by destruct He1 as [-> _].
  - exists []. split; [rewrite Hu; by destruct He1 as [-> _]|]. split.
    + right. split; [done|]. eexists ch, _. rewrite Hu /=. by rewrite lookup_insert_eq.
    + intros _ ch' t t' H1 H2. rewrite Hu /= Hst in H2. simpl.
      destruct (decide (ch = ch')) as [<-|].
      * rewrite lookup_insert_eq in H2. simplify_eq/=. lia.
      * rewrite lookup_insert_ne // in H2. simplify_eq. lia.
Qed.

Lemma wp_sink_latency ch s h (Q : Z → HState → Prop) :
  stream_ok ch s → (∀ l h', effect [] h h' → Q l h') → wp (sink_latency env s) Q h.
Proof.
  intros (_ & _ & _ & _ & _ & k & Hk & _) HQ. unfold sink_latency.
  apply swp_bind, wp_tick. intros n h' He. rewrite Hk. apply swp_ret. by apply HQ.
Qed.

Lemma wp_NowUsec h (Q : Z → HState → Prop) :
  (∀ l h', effect [] h h' → Q l h') → wp (NowUsec env) Q h.
Proof. intros HQ. apply swp_bind, wp_tick. intros n h' He. apply swp_ret. by apply HQ. Qed.

Lemma wp_cmd_latency tag r h :
  conn_ok (h_conn h) → rd_ok r → wp (cmd_latency env tag r) (handled tag h) h.
Proof.
  intros Hok Hr. unfold cmd_latency.
  eapply (wp_parse 0 (λ _, True)); [|done| |by apply handled_false].
  { eapply (rspec_bind 5 0); [apply rspec_GetU32|intros v _|lia].
    eapply (rspec_bind 9 0); [apply rspec_GetTimeval|intros c _|lia]. by apply rspec_ret. }
  intros [ch tv] _. cbn [fst snd]. apply wp_on_stream; [done|]. intros s Hs Hsok.
  apply swp_bind. eapply (wp_stream_get _ ch); [done|]. intros ri k h1 Hk He1.
  apply swp_bind, wp_NowUsec. intros now h2 He2.
  apply swp_bind. eapply wp_sink_latency; [exact Hk|]. intros l h3 He3.
  apply swp_bind. eapply (wp_stream_get _ ch); [exact Hk|]. intros pl k' h4 Hk' He4.
  apply swp_bind. unfold wp at 1, get_conn. cbn [fst snd].
  apply swp_bind, wp_SendTag. intros h5 He5. apply swp_bind, wp_put_stream. intros h6 Hu _ _.
  apply swp_ret.
  pose proof (effect_trans _ _ _ _ _ (effect_trans _ _ _ _ _ He1 He2)
    (effect_trans _ _ _ _ _ (effect_trans _ _ _ _ _ He3 He4) He5)) as He.
  pose proof Hsok as (Hch & _).
  refine (handled_update tag h h5 h6 ch s s _ _ [] Hok Hs Hk' eq_refl Hch _ (no_request s) He Hu).
  apply is_answer_reply. unfold latency_reply. case_match; auto 15 with wire.
Qed.

Lemma wp_cmd_set_name tag r h :
  conn_ok (h_conn h) → rd_ok r → wp (cmd_set_name tag r) (handled tag h) h.
Proof.
  intros Hok Hr. unfold cmd_set_name.
  eapply (wp_parse 0 (λ _, True)); [|done| |by apply handled_false].
  { eapply (rspec_bind 5 0); [apply rspec_GetU32|intros v _|lia].
    eapply (rspec_bind 1 0); [apply rspec_GetString|intros c _|lia]. by apply rspec_ret. }
  intros _ _. apply wp_answer; auto with wire.
Qed.

Lemma wp_cmd_set_buffer_attr tag r h :
  conn_ok (h_conn h) → rd_ok r → wp (cmd_set_buffer_attr env tag r) (handled tag h) h.
Proof.
  intros Hok Hr. unfold cmd_set_buffer_attr.
  eapply (wp_parse 0 (λ _, True)); [|done| |by apply handled_false].
  { do 5 (eapply (rspec_bind 5 0); [apply rspec_GetU32|intros ? _|lia]). by apply rspec_ret. }
  intros ch _. apply wp_on_stream; [done|]. intros s Hs Hsok.
  apply swp_bind. unfold wp at 1, get_conn.
  destruct (13 <=? _);
    [|apply wp_answer; [done|]; apply is_answer_reply; unfold attr_reply; auto 10 with wire].
  apply swp_bind. eapply wp_sink_latency; [done|]. intros l h1 He1.
  apply swp_bind, wp_SendTag. intros h2 He2. apply swp_ret.
  eapply handled_answer; [done| |exact (effect_trans _ _ _ _ _ He1 He2)].
  apply is_answer_reply. unfold attr_reply. auto 10 with wire.
Qed.

Lemma wp_cmd_server_info tag h :
  conn_ok (h_conn h) → wp (cmd_server_info tag) (handled tag h) h.
Proof.
  intros Hok. unfold cmd_server_info. apply swp_bind. unfold wp at 1, get_conn. cbv zeta.
  apply swp_bind. destruct (15 <=? _).
  - edestruct (PutChannelMap_Some ChannelMap_default) as (t' & Ht & Hpre); [apply ChannelMap_default_ok|].
    eapply wp_of_option; [exact Ht|]. apply wp_answer; [done|]. apply is_answer_reply, Hpre.
    auto 15 with wire.
  - apply swp_ret, wp_answer; [done|]. apply is_answer_reply. auto 15 with wire.
Qed.

(** *** CREATE_PLAYBACK_STREAM *)

Definition attr_u32 (a : BufferAttr) : Prop :=
  is_u32 (maxlength a) ∧ is_u32 (tlength a) ∧ is_u32 (prebuf a) ∧ is_u32 (minreq a).

Lemma fix_attr_ok ss a : Valid ss = true → attr_u32 a → attr_ok ss (fix_attr ss a).
Proof.
  intros HV (H1 & H2 & H3 & H4). destruct (Valid_props _ HV) as (Hc & Hr & Hf).
  pose proof (UsecToBytes_exact ss DEFAULT_MAXLENGTH_USEC HV) as (_ & Hx);
    [unfold DEFAULT_MAXLENGTH_USEC; lia|].
  pose proof (UsecToBytes_exact ss DEFAULT_TLENGTH_USEC HV) as (_ & Hy);
    [unfold DEFAULT_TLENGTH_USEC; lia|].
  unfold attr_ok, fix_attr, ABSOLUTE_MAX_BUFFER, is_u32, INVALID_INDEX in *. cbn [maxlength tlength prebuf minreq].
  set (X := UsecToBytes ss DEFAULT_MAXLENGTH_USEC) in *.
  set (Y := UsecToBytes ss DEFAULT_TLENGTH_USEC) in *.
  set (m0 := if _ || _ then u32 X else _).
  assert (0 ≤ m0 < 2 ^ 32) by (unfold m0, u32; case_match; Z.to_euclidean_division_equations; lia).
  rewrite (u32_id (Z.min (Z.max m0 _) _)); [|unfold is_u32; lia].
  set (m := Z.min (Z.max m0 _) _).
  set (t0 := if _ || _ then u32 Y else _).
  assert (0 ≤ t0 < 2 ^ 32) by (unfold t0, u32; case_match; Z.to_euclidean_division_equations; lia).
  rewrite (u32_id (Z.min (Z.max t0 _) _)); [|unfold is_u32; lia].
  set (tl := Z.min (Z.max t0 _) _).
  set (r0 := if _ || _ then tl / 4 else _).
  assert (0 ≤ r0) by (unfold r0; case_match; Z.to_euclidean_division_equations; lia).
  rewrite (u32_id (Z.min (Z.max r0 _) _)); [|unfold is_u32; lia].
  case_match; lia.
Qed.

Definition create_ok (rq : CreateReq) : Prop :=
  SampleSpec_ok (rq_ss rq) ∧ ChannelMap_ok (rq_cm rq) ∧ attr_u32 (rq_attr rq).

Lemma rspec_get_flags n : rspec 0 (λ _, True) (get_flags n).
Proof.
  induction n as [|n IH]; [by apply rspec_ret|].
  eapply (rspec_bind 1 0); [apply rspec_GetBool|intros ? _; exact IH|lia].
Qed.

Lemma rspec_get_create : rspec 0 create_ok get_create.
Proof.
  eapply (rspec_bind 7 0); [apply rspec_GetSampleSpec|intros ss Hss|lia].
  eapply (rspec_bind 2 0); [apply rspec_GetChannelMap, ChannelMap_default_ok|intros cm Hcm|lia].
  eapply (rspec_bind 5 0); [apply rspec_GetU32|intros si _|lia].
  eapply (rspec_bind 1 0); [apply rspec_GetString|intros dev _|lia].
  eapply (rspec_bind 5 0); [apply rspec_GetU32|intros mx Hmx|lia].
  eapply (rspec_bind 1 0); [apply rspec_GetBool|intros ck _|lia].
  eapply (rspec_bind 5 0); [apply rspec_GetU32|intros tl Htl|lia].
  eapply (rspec_bind 5 0); [apply rspec_GetU32|intros pb Hpb|lia].
  eapply (rspec_bind 5 0); [apply rspec_GetU32|intros mr Hmr|lia].
  eapply (rspec_bind 5 0); [apply rspec_GetU32|intros sy _|lia].
  eapply (rspec_bind 2 0); [apply rspec_GetCVolume|intros vo _|lia].
  eapply (rspec_bind 0 0); [apply rspec_get_flags|intros ? _|lia].
  eapply (rspec_bind 1 0); [apply rspec_GetBool|intros sm _|lia].
  eapply (rspec_bind 1 0); [apply rspec_GetBool|intros al _|lia].
  eapply (rspec_bind 2 0); [apply rspec_GetProplist|intros pr _|lia].
  apply rspec_ret. by split_and!.
Qed.

Lemma Open_sink_ok created ss a k :
  attr_ok ss a → Open created ss (Z.to_nat (maxlength a)) Sink_new = (true, k) →
  sink_ok a k ∧ Buffered k = 0%nat.
Proof.
  intros (H1 & H2 & _) HO. unfold Open in HO. repeat (case_match; simplify_eq).
  unfold sink_ok, sink_wf, ring_wf, Buffered. simpl. rewrite length_replicate.
  split_and!; try done; lia.
Qed.

(** The reply starts with the channel, the index and the initial credit. *)
Lemma create_reply_prefix tag s l :
  ChannelMap_ok (st_cm s) →
  ∃ t, create_reply tag s l = Some t ∧
    (SendReplyHeader tag [] .> PutU32 (st_channel s) .> PutU32 (st_index s)
       .> PutU32 (tlength (st_attr s))) `prefix_of` t.
Proof.
  intros Hcm. unfold create_reply.
  match goal with |- context [PutChannelMap _ ?t0] =>
    destruct (PutChannelMap_Some (st_cm s) t0 Hcm) as (t & Ht & Hpre) end.
  rewrite Ht mbind_Some. eexists. split; [done|].
  apply prefix_PutUsec, prefix_PutBool, prefix_PutString, prefix_PutU32, Hpre.
  apply prefix_PutSampleSpec. do 4 apply prefix_PutU32. done.
Qed.

Lemma create_reply_Some tag s l :
  ChannelMap_ok (st_cm s) → ∃ t, create_reply tag s l = Some t ∧ is_answer tag t.
Proof.
  intros Hcm. destruct (create_reply_prefix tag s l Hcm) as (t & Ht & Hp).
  exists t. split; [done|]. apply is_answer_reply. etrans; [|exact Hp]. auto with wire.
Qed.

Lemma wp_preempt a k h (Q : Sink Ring → HState → Prop) :
  sink_ok a k →
  (∀ k' h', sink_ok a k' → (Buffered k' ≤ Buffered k)%nat → effect [] h h' → Q k' h') →
  wp (preempt env k) Q h.
Proof.
  intros (Hwf & Hsz & Hq) HQ. apply swp_bind, wp_tick. intros n h' He.
  destruct (render_run_ring (e_sched env n) k Hwf) as (k' & Hr & Hwf' & Hs' & Hq' & Hf').
  eapply wp_of_option; [done|]. apply HQ; [|done|done]. unfold sink_ok. by rewrite Hs' Hq'.
Qed.

Lemma wp_create_opened tag rq k h :
  conn_ok (h_conn h) → c_authorized (h_conn h) = true → create_ok rq → Valid (rq_ss rq) = true →
  let a := fix_attr (rq_ss rq) (rq_attr rq) in
  sink_ok a k → Buffered k = 0%nat → wp (create_opened env tag rq a k) (handled tag h) h.
Proof.
  intros Hok Hau (Hss & Hcm & Hu) HV a Hk Hb. pose proof (fix_attr_ok _ _ HV Hu) as Ha. fold a in Ha.
  unfold create_opened. apply swp_bind. eapply wp_preempt; [exact Hk|]. intros k1 h1 Hk1 Hb1 He1.
  apply swp_bind. unfold wp at 1, get_conn. apply swp_bind. unfold wp at 1, upd_conn.
  apply swp_bind. unfold wp at 1, next_stream_index. cbn [h_conn h_nextStreamIndex h_nextClientIndex h_tick].
  set (h2 := mkHState _ _ _ _). apply swp_bind, wp_NowUsec. intros now h3 He3.
  set (ch := c_nextChannel (h_conn h1)).
  assert (ch = c_nextChannel (h_conn h)) as Hch by (unfold ch; by destruct He1 as [-> _]).
  assert (sink_ok a (SetCorked (rq_corked rq) k1)) as Hk2 by done.
  assert (flow_ok a (tlength a) (SetCorked (rq_corked rq) k1)) as Hfl.
  { unfold flow_ok. change (Buffered (SetCorked (rq_corked rq) k1)) with (Buffered k1).
    destruct Ha as (? & ? & ? & ?). lia. }
  set (s := mkStream _ _ _ _ _ _ _ _ _ _ _ _ _ _).
  assert (stream_ok ch (with_outstanding (tlength a) s)) as Hsok.
  { split; [done|]. split; [rewrite Hch; apply (ok_next _ Hok)|]. split; [done|]. split; [done|].
    split; [done|]. eexists. split; [done|]. split; [done|]. exact Hfl. }
  apply swp_bind. unfold sink_latency. apply swp_bind, wp_tick. intros n h4 He4. simpl st_sink. cbv iota.
  apply swp_ret. apply swp_bind.
  edestruct (create_reply_Some tag s) as (t & Ht & Hans); [done|]. eapply wp_of_option; [exact Ht|].
  apply swp_bind, wp_SendTag. intros h5 He5. apply swp_bind, wp_put_stream. intros h6 Hup _ _.
  apply swp_ret. pose proof (effect_trans _ _ _ _ _ (effect_trans _ _ _ _ _ He3 He4) He5) as He.
  assert (c_streams (h_conn h5) = c_streams (h_conn h)) as Hst.
  { rewrite (effect_streams _ _ _ He) /=. apply (effect_streams _ _ _ He1). }
  assert (c_out (h_conn h5) = c_out (h_conn h) ++ frames [t]) as Hout.
  { destruct He as [-> _]. simpl. destruct He1 as [-> _]. simpl. by rewrite app_nil_r. }
  split.
  - rewrite Hup. destruct He as [-> _]. simpl. destruct He1 as [-> _]. destruct Hok as [H1 H2 H3 H4].
    split; simpl; [done| |by apply map_Forall_insert_2|apply u32_is_u32].
    rewrite Hau. done.
  - intros _. rewrite Hup. destruct He as [-> _]. simpl. by destruct He1 as [-> _].
  - exists [t]. split; [by rewrite Hup|]. split.
    + left. exists t, []. split_and!; [done|done|constructor|simpl; lia].
    + unfold next_is_free. rewrite -Hch. intros Hfree ch' s1 s2 H1 H2.
      rewrite Hup /= Hst in H2. rewrite lookup_insert_ne in H2; [|congruence]. simplify_eq.
      simpl. rewrite (is_answer_amount _ _ _ Hans). lia.
Qed.

Lemma wp_HandleCreatePlayback tag r h :
  conn_ok (h_conn h) → c_authorized (h_conn h) = true → rd_ok r →
  wp (HandleCreatePlayback env tag r) (handled tag h) h.
Proof.
  intros Hok Hau Hr. unfold HandleCreatePlayback.
  eapply wp_parse; [apply rspec_get_create|done| |by apply handled_false].
  intros rq Hrq. destruct (Valid (rq_ss rq)) eqn:HV; [|apply wp_answer; auto with wire].
  cbn [negb]. apply swp_bind, wp_tick. intros n h1 He1.
  destruct (Open _ _ _ _) as [opened k] eqn:HO. cbn [fst snd].
  pose proof (conn_ok_effect _ _ _ He1 Hok) as Hok1.
  assert (∀ b h', handled tag h1 b h' → handled tag h b h') as Hmono.
  { intros b h' [H1 H2 (ps & H3 & H4 & H5)]. destruct He1 as [He1 _].
    rewrite He1 /= app_nil_r in H3. rewrite He1 in H2, H5. split; [done|exact H2|].
    exists ps. done. }
  destruct opened; cbn [negb].
  - destruct (Open_sink_ok _ _ _ _ (fix_attr_ok _ _ HV (proj2 (proj2 Hrq))) HO) as [Hk Hb].
    eapply wp_conseq; [apply wp_create_opened; try done|apply Hmono].
    by destruct He1 as [-> _].
  - eapply wp_conseq; [|apply Hmono]. apply wp_answer; auto with wire.
Qed.

(** *** Dispatch *)

Lemma wp_HandleCommand command tag r h :
  conn_ok (h_conn h) → rd_ok r → wp (HandleCommand env command tag r) (handled tag h) h.
Proof.
  intros Hok Hr. unfold HandleCommand. apply swp_bind. unfold wp at 1, get_conn.
  destruct (negb _ && _) eqn:E; [apply wp_answer; auto with wire|].
  destruct (case_of command) as [c|] eqn:Hc; [|apply wp_answer; auto with wire].
  assert (c = COMMAND_AUTH ∨ c_authorized (h_conn h) = true) as [->|Hau].
  { destruct (c_authorized (h_conn h)); [by right|]. left. simpl in E. bool_props. subst command.
    by vm_compute in Hc; simplify_eq. }
  { by apply wp_cmd_auth. }
  destruct c; first
    [ by apply wp_cmd_auth | by apply wp_cmd_set_client_name | by apply wp_HandleCreatePlayback
    | by apply wp_cmd_delete | by apply wp_cmd_cork | by apply wp_cmd_flush
    | by apply wp_cmd_trigger_prebuf | by apply wp_cmd_drain | by apply wp_cmd_latency
    | by apply wp_cmd_set_name | by apply wp_cmd_set_buffer_attr | by apply wp_cmd_server_info
    | apply wp_answer; auto with wire ].
Qed.

(** *** Stream data *)

Lemma event_amount ch command streamChannel extra :
  command ≠ COMMAND_REQUEST → request_amount ch (event_payload command streamChannel extra) = 0.
Proof.
  intros Hne. apply (request_amount_other ch (Command_code command)).
  - by destruct command; vm_compute.
  - by destruct command.
  - unfold event_payload. rewrite !PutU32_app app_nil_l -!app_assoc.
    destruct extra; [apply prefix_PutS64|]; by apply prefix_app_r.
Qed.

Definition debit_of (channel : Z) (len : Z) (ch : Z) : Z := if channel =? ch then len else 0.

(** What a data packet for [channel] leaves behind. *)
Record data_handled (channel : Z) (data : bytes) (h h' : HState) : Prop := {
  dh_ok : conn_ok (h_conn h');
  dh_auth : c_authorized (h_conn h') = c_authorized (h_conn h);
  dh_sent : ∃ ps, c_out (h_conn h') = c_out (h_conn h) ++ frames ps ∧
    ledger (h_conn h) (h_conn h') ps (debit_of channel (Z.of_nat (length data))) ∧
    (∀ s, c_streams (h_conn h) !! channel = Some s →
          Z.of_nat (length data) ≤ st_outstanding s → Forall is_request ps);
}.

Lemma wp_HandleStreamData channel flags data h :
  conn_ok (h_conn h) → Z.of_nat (length data) ≤ ABSOLUTE_MAX_BUFFER →
  wp (HandleStreamData env channel flags data) (λ _ h', data_handled channel data h h') h.
Proof.
  intros Hok Hlen. unfold HandleStreamData. apply swp_bind, wp_FindStream.
  destruct (c_streams (h_conn h) !! channel) as [s|] eqn:Hs.
  2: { apply swp_ret. split; [done|done|]. exists []. split; [by rewrite app_nil_r|]. split.
       - intros ch t t' H1 H2. simplify_eq. unfold debit_of.
         destruct (Z.eqb_spec channel ch); [congruence|]. simpl. lia.
       - constructor. }
  pose proof (ok_streams _ Hok _ _ Hs) as Hsok. simpl in Hsok.
  pose proof Hsok as (Hch & Hu32 & HV & Hcm & Ha & k & Hk & Hkok & Hfl). rewrite Hk.
  set (len := Z.of_nat (length data)) in *. cbn [with_writeIndex st_outstanding].
  pose proof Hfl as [Hup Hlo]. pose proof Ha as (Ha1 & Ha2 & Ha3 & Ha4).
  unfold ABSOLUTE_MAX_BUFFER in *.
  apply swp_bind, wp_check_s64; [unfold is_s64; lia|].
  set (s1 := with_outstanding _ _). apply swp_bind.
  eapply (wp_on_sink env _ (st_attr s) s1 k); [done|done|]. intros k1 Hk1 Hle1.
  destruct (Push_ring data k1 (proj1 Hk1)) as (n & k2 & HP & Hwf2 & Hsz2 & Hq2 & Hn & Hb2 & Hfit).
  exists n, k2. split; [done|]. intros h1 He1. cbn [fst snd].
  assert (sink_ok (st_attr s) k2) as Hk2.
  { destruct Hk1 as (_ & ? & ?). split; [done|]. by rewrite Hsz2 Hq2. }
  set (s2 := with_sink (Some k2) s1).
  set (ov := if (n <? length data)%nat then [event_payload COMMAND_OVERFLOW channel None] else []).
  assert (∀ ch, requested ch ov = 0) as Hov.
  { intros ch. unfold ov. case_match; [|done]. cbn [requested foldr]. by rewrite event_amount. }
  apply swp_bind, wp_conseq with (P := λ _ h2, effect ov h h2).
  { unfold ov. destruct (n <? length data)%nat.
    - apply wp_SendTag. intros h2 He2. exact (effect_trans _ _ _ _ _ He1 He2).
    - by apply swp_ret. }
  intros _ h2 He2. apply swp_bind. change (st_attr s) with (st_attr s2) in *.
  eapply (wp_MaybeRequest env s2 k2); [done|done|done| | |];
    change (st_outstanding s2) with (st_outstanding s - len); [lia|lia|].
  intros k3 o reqs h3 Hk3 Hle3 Hfl3 _ Hreq He3. apply wp_put_stream. intros h4 Hup4 _ _.
  pose proof (effect_trans _ _ _ _ _ He2 He3) as He.
  set (s3 := with_outstanding o (with_sink (Some k3) s2)) in *.
  assert (stream_ok channel s3) as Hs3 by (split_and!; eauto).
  pose proof (effect_streams _ _ _ He) as Hst. split.
  - by eapply conn_ok_update.
  - rewrite Hup4. by destruct He as [-> _].
  - exists (ov ++ reqs). split; [rewrite Hup4; by destruct He as [-> _]|]. split.
    + intros ch t t' H1 H2. rewrite Hup4 /= Hst in H2. rewrite requested_app Hov.
      rewrite (request_effect_requested s2 o) //; [|by rewrite /= Hch].
      change (st_channel s2) with (st_channel s). rewrite Hch. unfold debit_of.
      destruct (Z.eqb_spec channel ch) as [<-|Hne].
      * rewrite lookup_insert_eq in H2. simplify_eq. simpl. lia.
      * rewrite lookup_insert_ne // in H2. simplify_eq. lia.
    + intros s' Hs' Hcr. rewrite Hs in Hs'. injection Hs' as <-. apply Forall_app. split; [|by eapply request_effect_is_request].
      unfold ov. destruct (Nat.ltb_spec n (length data)) as [Hlt|]; [|constructor]. exfalso.
      rewrite Hfit in Hlt; [|apply Hk1]. destruct Hk1 as (_ & Hsz1 & _).
      change (st_attr s2) with (st_attr s) in *. lia.
Qed.

(** *** Packets *)

(** What a packet for [channel] leaves behind, whatever it was. *)
Record packet_handled (channel : Z) (data : bytes) (h h' : HState) : Prop := {
  ph_ok : conn_ok (h_conn h');
  ph_sent : ∃ ps, c_out (h_conn h') = c_out (h_conn h) ++ frames ps ∧
    (next_is_free (h_conn h) →
     ledger (h_conn h) (h_conn h') ps
       (if channel =? CHANNEL_COMMAND then λ _, 0
        else debit_of channel (Z.of_nat (length data))));
}.

Lemma rd_ok_header data :
  bytes_ok data →
  match (let* command := GetU32 in let* tag := GetU32 in rret (command, tag))
          (TagReader_new data) with
  | ROk a r => is_u32 (fst a) ∧ is_u32 (snd a) ∧ rd_ok r
  | RFail _ => True
  | RUB => False
  end.
Proof.
  intros Hb. assert (rspec 10 (λ a, is_u32 a.1 ∧ is_u32 a.2)
    (let* command := GetU32 in let* tag := GetU32 in rret (command, tag))) as Hsp.
  { eapply (rspec_bind 5 5); [apply rspec_GetU32|intros c Hc|lia].
    eapply (rspec_bind 5 0); [apply rspec_GetU32|intros t Ht|lia]. by apply rspec_ret. }
  specialize (Hsp (TagReader_new data)). unfold reader_ok, rd_len in Hsp.
  specialize (Hsp ltac:(simpl; lia) Hb). destruct (rbind _ _ _) as [a r|r|]; [|done|done].
  destruct Hsp as ((H1 & H2) & H3 & H4 & _). unfold rd_ok. by rewrite H4.
Qed.

Lemma wp_HandlePacket channel flags data h :
  conn_ok (h_conn h) → bytes_ok data → Z.of_nat (length data) ≤ ABSOLUTE_MAX_BUFFER →
  wp (HandlePacket env channel flags data) (λ _ h', packet_handled channel data h h') h.
Proof.
  intros Hok Hb Hlen. unfold HandlePacket.
  destruct (channel =? CHANNEL_COMMAND) eqn:Hc; cbn [negb].
  2: { apply swp_bind. eapply wp_conseq; [by apply wp_HandleStreamData|].
       intros _ h' [H1 _ (ps & H3 & H4 & _)]. apply swp_ret. split; [done|].
       exists ps. split; [done|]. rewrite Hc. by intros _. }
  assert (packet_handled channel data h h) as Hsame.
  { destruct (handled_false 0 h Hok) as [H1 _ (ps & H3 & H4 & H5)]. split; [done|].
    exists ps. by rewrite Hc. }
  destruct (negb _); [by apply swp_ret|].
  pose proof (rd_ok_header data Hb) as Hr. destruct (rbind _ _ _) as [[command tag] r|r|];
    [|by apply swp_ret|done].
  eapply wp_conseq; [apply wp_HandleCommand; naive_solver|].
  intros b h' [H1 _ (ps & H3 & H4 & H5)]. split; [done|]. exists ps. by rewrite Hc.
Qed.

End Commands.
