(* ===== verification/PaServerLoop.v ===== *)
(** * Proof library for the packet loop, the sink pump and the event loop

    Framing, [PumpSinks], [FlushOut] and whole turns of [Server::Run]: none of
    them fails, all keep the server's invariant. *)

From S2P Require Import Prelude PaWire OhosSink PaServer PaServerFacts.
Set Warnings "-rewrite-rw,-clear-no-such-hyp".

(** ** What no handler touches

    The descriptor of the connection and its input buffer. *)

Definition keeps {A} (m : M A) : Prop := ∀ h a h', m h = Some (a, h') →
  c_fd (h_conn h') = c_fd (h_conn h) ∧ c_in (h_conn h') = c_in (h_conn h).

Lemma skeeps_bind {A B} (m : M A) (k : A → M B) : keeps m → (∀ a, keeps (k a)) → keeps (bind m k).
Proof.
  intros Hm Hk h b h' Hb. unfold bind in Hb. destruct (m h) as [[a h1]|] eqn:E; [|done].
  destruct (Hm _ _ _ E) as [<- <-]. by eapply Hk.
Qed.
Lemma skeeps_ret {A} (a : A) : keeps (ret a).
Proof. intros h b h' [= <- <-]. done. Qed.
Lemma keeps_UB {A} : keeps (UB (A := A)).
Proof. done. Qed.
Lemma keeps_upd f :
  (∀ c, c_fd (f c) = c_fd c ∧ c_in (f c) = c_in c) → keeps (upd_conn f).
Proof. intros Hf h b h' [= <- <-]. apply Hf. Qed.
Lemma keeps_get_conn : keeps get_conn.
Proof. intros h b h' [= <- <-]. done. Qed.
Lemma keeps_tick : keeps tick.
Proof. intros h b h' [= <- <-]. done. Qed.
Lemma keeps_next_stream_index : keeps next_stream_index.
Proof. intros h b h' [= <- <-]. done. Qed.
Lemma keeps_next_client_index : keeps next_client_index.
Proof. intros h b h' [= <- <-]. done. Qed.
Lemma keeps_of_option {A} (o : option A) : keeps (of_option o).
Proof. destruct o; [apply skeeps_ret|apply keeps_UB]. Qed.
Lemma keeps_check z : keeps (check_s64 z).
Proof. unfold check_s64. case_match; [apply skeeps_ret|apply keeps_UB]. Qed.
Lemma keeps_parse {A} (g : Reader A) r k : (∀ a, keeps (k a)) → keeps (parse g r k).
Proof. intros Hk. unfold parse. case_match; [apply Hk|apply skeeps_ret|apply keeps_UB]. Qed.

(** [keeps_solve]: walk through the code of a handler. *)
Ltac keeps_step :=
  match goal with
  | |- keeps (bind _ _) => apply skeeps_bind; [|intros ?]
  | |- keeps (ret _) => apply skeeps_ret
  | |- keeps UB => apply keeps_UB
  | |- keeps (upd_conn _) => apply keeps_upd; done
  | |- keeps get_conn => apply keeps_get_conn
  | |- keeps tick => apply keeps_tick
  | |- keeps next_stream_index => apply keeps_next_stream_index
  | |- keeps next_client_index => apply keeps_next_client_index
  | |- keeps (of_option _) => apply keeps_of_option
  | |- keeps (check_s64 _) => apply keeps_check
  | |- keeps (parse _ _ _) => apply keeps_parse; intros ?
  | |- keeps (match ?x with _ => _ end) => destruct x
  | |- keeps (if ?x then _ else _) => destruct x
  | H : ?P |- ?P => exact H
  end.
Ltac keeps_solve := cbv zeta; repeat (keeps_step; cbv zeta).

Lemma keeps_SendTag t : keeps (SendTag t).
Proof. unfold SendTag, Send. keeps_solve. Qed.
Lemma keeps_FindStream ch : keeps (FindStream ch).
Proof. unfold FindStream. keeps_solve. Qed.
Lemma keeps_put_stream ch s : keeps (put_stream ch s).
Proof. unfold put_stream. keeps_solve. Qed.

Section Keeps.
Context (env : Env).

Lemma keeps_on_sink {A} (f : Sink Ring → option (A * Sink Ring)) s : keeps (on_sink env f s).
Proof. unfold on_sink, preempt. keeps_solve. Qed.
Lemma keeps_sink_latency s : keeps (sink_latency env s).
Proof. unfold sink_latency. keeps_solve. Qed.
Lemma keeps_MaybeRequest s : keeps (MaybeRequest env s).
Proof. unfold MaybeRequest. repeat first [apply keeps_on_sink | apply keeps_SendTag | keeps_step]. Qed.

Ltac keeps_go :=
  cbv zeta;
  repeat (first [ apply keeps_on_sink | apply keeps_sink_latency | apply keeps_SendTag
                | apply keeps_FindStream | apply keeps_put_stream | apply keeps_MaybeRequest
                | keeps_step ]; cbv zeta).

Lemma keeps_HandlePacket channel flags data : keeps (HandlePacket env channel flags data).
Proof.
  unfold HandlePacket, HandleStreamData, SendEvent, HandleCommand, SendError.
  unfold cmd_auth, cmd_set_client_name, HandleCreatePlayback, create_opened, cmd_delete, cmd_cork,
    cmd_flush, cmd_trigger_prebuf, cmd_drain, cmd_latency, cmd_set_name, cmd_set_buffer_attr,
    cmd_server_info, on_stream, preempt, NowUsec, SendError, SendSimpleAck.
  keeps_go.
Qed.

Lemma keeps_pump_stream key : keeps (pump_stream env key).
Proof. unfold pump_stream, when, SendEvent, SendSimpleAck. keeps_go. Qed.

Lemma keeps_pump_streams keys : keeps (pump_streams env keys).
Proof.
  induction keys as [|key keys IH]; cbn [pump_streams]; [apply skeeps_ret|].
  apply skeeps_bind; [apply keeps_pump_stream|done].
Qed.

End Keeps.

Lemma wp_keeps {A} (m : M A) (Q : A → HState → Prop) h :
  keeps m → wp m Q h →
  wp m (λ a h', Q a h' ∧ c_fd (h_conn h') = c_fd (h_conn h) ∧
                c_in (h_conn h') = c_in (h_conn h)) h.
Proof.
  unfold wp. intros Hk. destruct (m h) as [[a h']|] eqn:E; [|done]. intros HQ.
  split; [done|]. by eapply Hk.
Qed.

(** ** Packets out of the byte stream *)

Lemma be32_at_Some i d : (i + 4 ≤ length d)%nat → ∃ v, be32_at i d = Some v.
Proof.
  intros Hi. unfold be32_at.
  destruct (lookup_lt_is_Some_2 d i) as [b0 ->]; [lia|].
  destruct (lookup_lt_is_Some_2 d (i + 1)) as [b1 ->]; [lia|].
  destruct (lookup_lt_is_Some_2 d (i + 2)) as [b2 ->]; [lia|].
  destruct (lookup_lt_is_Some_2 d (i + 3)) as [b3 ->]; [lia|]. eauto.
Qed.

Lemma be32_at_u32 i d v : bytes_ok d → be32_at i d = Some v → is_u32 v.
Proof.
  intros Hd. unfold be32_at, bytes_ok in *. rewrite Forall_lookup in Hd. intros H.
  apply bind_Some in H as (b0 & H0 & H). apply bind_Some in H as (b1 & H1 & H).
  apply bind_Some in H as (b2 & H2 & H). apply bind_Some in H as (b3 & H3 & H).
  simplify_eq. apply be32_is_u32; by eapply Hd.
Qed.

Section Packets.
Context (env : Env).

(** The loop never runs out of turns, reads outside the buffer or fails. *)
Lemma wp_packet_loop fuel inb off h :
  conn_ok (h_conn h) → bytes_ok inb → (off ≤ length inb)%nat → (length inb - off ≤ fuel)%nat →
  wp (packet_loop env fuel inb off)
     (λ res h', conn_ok (h_conn h') ∧ c_fd (h_conn h') = c_fd (h_conn h) ∧
                c_in (h_conn h') = c_in (h_conn h) ∧
                if res is Some off' then (off ≤ off' ≤ length inb)%nat else True) h.
Proof.
  intros Hok Hb. revert off h Hok.
  induction fuel as [|fuel IH]; intros off h Hok Hoff Hf; cbn [packet_loop];
    destruct (Nat.ltb_spec (length inb - off) DESCRIPTOR_SIZE) as [|Hge];
    try (apply swp_ret; split_and!; [done|done|done|lia|lia]); unfold DESCRIPTOR_SIZE in *; [lia|].
  set (d := drop off inb).
  assert (length d = length inb - off)%nat as Hd by (unfold d; by rewrite length_drop).
  assert (bytes_ok d) as Hbd by (by apply Forall_drop).
  destruct (be32_at_Some 0 d) as [len Hlen]; [lia|].
  destruct (be32_at_Some 4 d) as [channel Hch]; [lia|].
  destruct (be32_at_Some 16 d) as [flags Hfl]; [lia|].
  apply swp_bind. eapply wp_of_option; [done|]. apply swp_bind. eapply wp_of_option; [done|].
  apply swp_bind. eapply wp_of_option; [done|].
  pose proof (be32_at_u32 _ _ _ Hbd Hlen) as Hl32. unfold is_u32 in Hl32.
  destruct (Z.ltb_spec ABSOLUTE_MAX_BUFFER len); [by apply swp_ret|].
  destruct (Nat.ltb_spec (length inb - off) (20 + Z.to_nat len));
    [apply swp_ret; split_and!; [done|done|done|lia|lia]|].
  apply swp_bind. eapply wp_conseq.
  { apply wp_keeps; [apply keeps_HandlePacket|]. apply wp_HandlePacket; [done| |].
    - by apply Forall_take, Forall_drop.
    - rewrite length_take length_drop. lia. }
  intros ok h1 [[Hok1 _] [Hfd1 Hin1]]. destruct ok; [|by apply swp_ret].
  eapply wp_conseq; [apply IH; [done|lia|lia]|].
  intros res h2 (Hok2 & Hfd2 & Hin2 & Hres). split_and!; [done|congruence|congruence|].
  destruct res; [lia|done].
Qed.

(** *** Framing *)

Record Packet := mkPacket { pk_channel : Z; pk_flags : Z; pk_payload : bytes }.
Definition pk_bytes (p : Packet) : bytes := frame (pk_channel p) (pk_payload p) (pk_flags p).
Definition pk_ok (p : Packet) : Prop :=
  is_u32 (pk_channel p) ∧ is_u32 (pk_flags p) ∧
  Z.of_nat (length (pk_payload p)) ≤ ABSOLUTE_MAX_BUFFER.
Definition wire (ps : list Packet) : bytes := concat (pk_bytes <$> ps).

(** The packets one after the other, up to the first that is refused. *)
Fixpoint handle_packets (ps : list Packet) : M bool :=
  match ps with
  | [] => ret true
  | p :: ps =>
      let! ok := HandlePacket env (pk_channel p) (pk_flags p) (pk_payload p) in
      if (ok : bool) then handle_packets ps else ret false
  end.

(** A tail of the stream that does not hold a whole packet yet. *)
Definition incomplete (tail : bytes) : Prop :=
  (length tail < DESCRIPTOR_SIZE)%nat ∨
  ∃ len, be32_at 0 tail = Some len ∧ 0 ≤ len ≤ ABSOLUTE_MAX_BUFFER ∧
         (length tail < DESCRIPTOR_SIZE + Z.to_nat len)%nat.

Lemma be32_at_frame v rest : is_u32 v → be32_at 0 (be32_bytes v ++ rest) = Some v.
Proof. intros Hv. unfold be32_at, be32_bytes. simpl. by rewrite be32_roundtrip. Qed.
Lemma be32_at_skip pre i d : be32_at (length pre + i) (pre ++ d) = be32_at i d.
Proof.
  assert (∀ j, (pre ++ d) !! (length pre + j)%nat = d !! j) as Hj.
  { intros j. rewrite lookup_app_r; [|lia]. f_equal. lia. }
  unfold be32_at. by rewrite -!Nat.add_assoc !Hj.
Qed.

Lemma frame_fields p rest :
  pk_ok p →
  be32_at 0 (pk_bytes p ++ rest) = Some (Z.of_nat (length (pk_payload p))) ∧
  be32_at 4 (pk_bytes p ++ rest) = Some (pk_channel p) ∧
  be32_at 16 (pk_bytes p ++ rest) = Some (pk_flags p) ∧
  take (length (pk_payload p)) (drop DESCRIPTOR_SIZE (pk_bytes p ++ rest)) = pk_payload p ∧
  length (pk_bytes p) = (DESCRIPTOR_SIZE + length (pk_payload p))%nat.
Proof.
  intros (Hc & Hf & Hl). unfold pk_bytes, frame.
  rewrite (u32_id (Z.of_nat _)); [|unfold is_u32, ABSOLUTE_MAX_BUFFER in *; lia].
  rewrite -!app_assoc. split_and!.
  - apply be32_at_frame. unfold is_u32, ABSOLUTE_MAX_BUFFER in *. lia.
  - rewrite (be32_at_skip (be32_bytes _) 0). by apply be32_at_frame.
  - rewrite (be32_at_skip (be32_bytes _) 12) (be32_at_skip (be32_bytes _) 8)
      (be32_at_skip (be32_bytes _) 4) (be32_at_skip (be32_bytes _) 0). by apply be32_at_frame.
  - simpl. by rewrite take_app_length.
  - simpl. done.
Qed.

Lemma packet_loop_stop fuel inb off h :
  incomplete (drop off inb) → (length inb - off ≤ fuel)%nat →
  packet_loop env fuel inb off h = Some (Some off, h).
Proof.
  intros Hinc Hf.
  destruct fuel as [|fuel]; cbn [packet_loop];
    destruct (Nat.ltb_spec (length inb - off) DESCRIPTOR_SIZE) as [|Hge]; try done;
    unfold DESCRIPTOR_SIZE in *; [lia|].
  destruct Hinc as [Hs|(len & Hl & Hb & Hs)]; rewrite length_drop in Hs;
    unfold DESCRIPTOR_SIZE in *; [lia|].
  assert (20 ≤ length (drop off inb))%nat as Hd by (rewrite length_drop; lia).
  destruct (be32_at_Some 4 (drop off inb)) as [channel Hch]; [lia|].
  destruct (be32_at_Some 16 (drop off inb)) as [flags Hfl]; [lia|].
  unfold bind, of_option. rewrite Hl Hch Hfl.
  destruct (Z.ltb_spec ABSOLUTE_MAX_BUFFER len); [lia|].
  by destruct (Nat.ltb_spec (length inb - off) (20 + Z.to_nat len)); [|lia].
Qed.

Lemma wire_cons p ps : wire (p :: ps) = pk_bytes p ++ wire ps.
Proof. done. Qed.

(** The loop splits the byte stream into the packets it is made of. *)
Lemma packet_loop_frames ps fuel pre tail h :
  Forall pk_ok ps → incomplete tail →
  (length (wire ps ++ tail) ≤ fuel)%nat →
  packet_loop env fuel (pre ++ wire ps ++ tail) (length pre) h
  = match handle_packets ps h with
    | Some (true, h') => Some (Some (length (pre ++ wire ps)), h')
    | Some (false, h') => Some (None, h')
    | None => None
    end.
Proof.
  intros Hps Hinc. revert fuel pre h. induction Hps as [|p ps Hp Hps IH]; intros fuel pre h Hf.
  { unfold wire in *. simpl in *. rewrite app_nil_r.
    apply packet_loop_stop; [by rewrite drop_app_length|]. rewrite length_app. lia. }
  rewrite wire_cons -(app_assoc (pk_bytes p)) in Hf |- *.
  destruct (frame_fields p (wire ps ++ tail) Hp) as (H0 & H4 & H16 & Hpay & Hlen).
  destruct Hp as (_ & _ & Hmax).
  rewrite length_app Hlen in Hf. unfold DESCRIPTOR_SIZE in *.
  destruct fuel as [|fuel]; [lia|]. cbn [packet_loop].
  assert (length (pre ++ pk_bytes p ++ wire ps ++ tail) - length pre
          = 20 + length (pk_payload p) + length (wire ps ++ tail))%nat as ->
    by (rewrite (length_app pre) (length_app (pk_bytes p)) Hlen; lia).
  unfold DESCRIPTOR_SIZE. destruct (Nat.ltb_spec (20 + length (pk_payload p) + length (wire ps ++ tail)) 20); [lia|].
  rewrite drop_app_length. unfold bind at 1 2 3, of_option. rewrite H0 H4 H16.
  destruct (Z.ltb_spec ABSOLUTE_MAX_BUFFER (Z.of_nat (length (pk_payload p)))); [lia|].
  rewrite Nat2Z.id.
  destruct (Nat.ltb_spec (20 + length (pk_payload p) + length (wire ps ++ tail)) (20 + length (pk_payload p))); [lia|].
  rewrite Hpay. cbn [handle_packets]. unfold bind.
  destruct (HandlePacket env _ _ _ h) as [[ok h1]|]; [|done]. destruct ok; [|done].
  replace (pre ++ pk_bytes p ++ wire ps ++ tail) with ((pre ++ pk_bytes p) ++ wire ps ++ tail)
    by (by rewrite -(app_assoc pre)).
  replace (length pre + (20 + length (pk_payload p)))%nat with (length (pre ++ pk_bytes p))
    by (rewrite (length_app pre) Hlen; lia).
  rewrite IH; [|lia]. by rewrite -(app_assoc pre).
Qed.

(** *** Reading and writing *)

Lemma read_loop_ok rs acc :
  Forall (λ r, match r with RdData buf => bytes_ok buf | _ => True end) rs → bytes_ok acc →
  bytes_ok (snd (read_loop rs acc)).
Proof.
  intros Hrs. revert acc. induction Hrs as [|r rs Hr Hrs IH]; intros acc Hacc; simpl; [done|].
  destruct r as [buf| |[]]; try done; [|by apply IH].
  case_match; [|apply IH]; apply Forall_app; split; try done; by apply Forall_take.
Qed.

Definition reads_ok : Prop := ∀ n,
  Forall (λ r, match r with RdData buf => bytes_ok buf | _ => True end) (e_reads env n).

Lemma wp_ReadFrom h :
  reads_ok → conn_ok (h_conn h) → bytes_ok (c_in (h_conn h)) →
  wp (ReadFrom env) (λ _ h', conn_ok (h_conn h') ∧ bytes_ok (c_in (h_conn h')) ∧
                             c_fd (h_conn h') = c_fd (h_conn h)) h.
Proof.
  intros Hr Hok Hb. unfold ReadFrom. apply swp_bind, wp_tick. intros n h1 He1.
  pose proof (conn_ok_effect _ _ _ He1 Hok) as Hok1.
  assert (c_in (h_conn h1) = c_in (h_conn h)) as Hin by (by destruct He1 as [-> _]).
  assert (c_fd (h_conn h1) = c_fd (h_conn h)) as Hfd by (by destruct He1 as [-> _]).
  apply swp_bind. unfold wp at 1, get_conn. cbv zeta. rewrite Hin.
  pose proof (read_loop_ok _ _ (Hr n) Hb) as Hb2.
  destruct (read_loop (e_reads env n) (c_in (h_conn h))) as [okr inb]. cbn [fst snd] in *.
  apply swp_bind. unfold wp at 1, upd_conn. set (h2 := mkHState _ _ _ _).
  assert (conn_ok (h_conn h2)) as Hok2 by (by destruct Hok1; split).
  destruct okr; cbn [negb]; [|by apply swp_ret].
  apply swp_bind. eapply wp_conseq; [apply wp_packet_loop; [done|done|lia|lia]|].
  intros res h3 (Hok3 & Hfd3 & Hin3 & Hres). destruct res as [off|]; apply swp_bind || apply swp_ret.
  - unfold wp at 1, upd_conn. apply swp_ret. split_and!; simpl.
    + by destruct Hok3; split.
    + by apply Forall_drop.
    + by rewrite Hfd3.
  - split_and!; [done| |]; by rewrite ?Hin3 ?Hfd3.
Qed.

Lemma wp_FlushOut h :
  conn_ok (h_conn h) →
  wp (FlushOut env) (λ _ h', conn_ok (h_conn h') ∧ c_in (h_conn h') = c_in (h_conn h) ∧
                             c_fd (h_conn h') = c_fd (h_conn h)) h.
Proof.
  intros Hok. unfold FlushOut. apply swp_bind, wp_tick. intros n h1 He1.
  pose proof (conn_ok_effect _ _ _ He1 Hok) as Hok1.
  apply swp_bind. unfold wp at 1, get_conn. destruct (write_loop _ _ _) as [sent|].
  - apply swp_bind. unfold wp at 1, upd_conn. apply swp_ret. destruct He1 as [-> _]. simpl.
    split; [|done]. by destruct Hok; split.
  - apply swp_ret. destruct He1 as [He1 _]. rewrite He1 in Hok1 |- *. done.
Qed.

End Packets.

(** ** [PumpSinks] *)

(** The stream has been asked for everything it may be asked for. *)
Definition fed (s : Stream) : Prop :=
  ∃ k, st_sink s = Some k ∧
    tlength (st_attr s) - Z.of_nat (Buffered k) - st_outstanding s < minreq (st_attr s).

Section Pump.
Context (env : Env).

(** What one turn of the pump does for the stream [key]. *)
Record pumped (key : Z) (h h' : HState) : Prop := {
  pu_ok : conn_ok (h_conn h');
  pu_fed : ∃ s, c_streams (h_conn h') !! key = Some s ∧ fed s;
  pu_others : ∀ ch, ch ≠ key → c_streams (h_conn h') !! ch = c_streams (h_conn h) !! ch;
  pu_sent : ∃ ps, c_out (h_conn h') = c_out (h_conn h) ++ frames ps ∧
              ledger (h_conn h) (h_conn h') ps (λ _, 0);
}.

Lemma wp_when_event b command ch h h0 qs (Q : unit → HState → Prop) :
  effect qs h0 h → command ≠ COMMAND_REQUEST → (∀ c, requested c qs = 0) →
  (∀ qs' h', effect qs' h0 h' → (∀ c, requested c qs' = 0) → Q () h') →
  wp (when b (SendEvent command ch None)) Q h.
Proof.
  intros He Hne Hz HQ. destruct b; simpl.
  - apply wp_SendTag. intros h' He'. eapply HQ; [exact (effect_trans _ _ _ _ _ He He')|].
    intros c. rewrite requested_app Hz. cbn [requested foldr]. by rewrite event_amount.
  - apply swp_ret. by eapply HQ.
Qed.

Lemma wp_pump_underflow (u : bool) v s h h0 qs (Q : Stream → HState → Prop) :
  effect qs h0 h → (∀ c, requested c qs = 0) → v ≤ PROTOCOL_VERSION →
  (∀ qs' s' h', s' = s ∨ s' = with_underrunFor (u64 (st_underrunFor s + 1)) s →
     effect qs' h0 h' → (∀ c, requested c qs' = 0) → Q s' h') →
  wp (if u then
        let s := with_underrunFor (u64 (st_underrunFor s + 1)) s in
        if 23 <=? v then
          let! q := on_sink env (sink_get ReadIndex) s in
          do! SendEvent COMMAND_UNDERFLOW (st_channel s) (Some (s64 (fst q))) in
          ret (snd q)
        else
          do! SendEvent COMMAND_UNDERFLOW (st_channel s) None in ret s
      else ret s) Q h.
Proof.
  intros He Hz Hv HQ. destruct u; [|apply swp_ret; eapply HQ; [by left|done|done]].
  unfold PROTOCOL_VERSION in Hv. destruct (Z.leb_spec 23 v); [lia|].
  apply swp_bind, wp_SendTag. intros h' He'. apply swp_ret.
  eapply HQ; [by right|exact (effect_trans _ _ _ _ _ He He')|].
  intros c. rewrite requested_app Hz. cbn [requested foldr]. by rewrite event_amount.
Qed.

Lemma wp_pump_drained (d : bool) s h h0 qs (Q : Stream → HState → Prop) :
  effect qs h0 h → (∀ c, requested c qs = 0) →
  (∀ qs' s' h', s' = s ∨ s' = with_drain false (st_drainTag s) s →
     effect qs' h0 h' → (∀ c, requested c qs' = 0) → Q s' h') →
  wp (if d then
        do! SendSimpleAck (st_drainTag s) in ret (with_drain false (st_drainTag s) s)
      else ret s) Q h.
Proof.
  intros He Hz HQ. destruct d; [|apply swp_ret; eapply HQ; [by left|done|done]].
  apply swp_bind, wp_SendTag. intros h' He'. apply swp_ret.
  eapply HQ; [by right|exact (effect_trans _ _ _ _ _ He He')|].
  intros c. rewrite requested_app Hz. cbn [requested foldr].
  rewrite (is_answer_amount _ (st_drainTag s)) //. by apply is_answer_reply.
Qed.

(** Statistics and drain bookkeeping keep a stream's invariant. *)
Lemma stream_ok_stats ch s s' :
  st_channel s' = st_channel s → st_ss s' = st_ss s → st_cm s' = st_cm s →
  st_attr s' = st_attr s → st_sink s' = st_sink s → st_outstanding s' = st_outstanding s →
  stream_ok ch s → stream_ok ch s'.
Proof. unfold stream_ok. by intros -> -> -> -> -> ->. Qed.

Lemma wp_pump_stream key h :
  conn_ok (h_conn h) → is_Some (c_streams (h_conn h) !! key) →
  wp (pump_stream env key) (λ _ h', pumped key h h') h.
Proof.
  intros Hok [s Hs]. unfold pump_stream. apply swp_bind, wp_FindStream. rewrite Hs.
  pose proof (ok_streams _ Hok _ _ Hs) as Hsok. simpl in Hsok.
  pose proof Hsok as (Hch & Hu32 & _ & _ & _ & k0 & Hk0 & _). rewrite Hk0.
  apply swp_bind. eapply (wp_stream_access env _ key); [exact Hsok| |].
  { intros k Hk. do 2 eexists. split; [done|]. by apply tame_TakeEvents. }
  intros ev k h1 Hs1 He1. cbv zeta. cbn [fst snd].
  set (s1 := with_sink (Some k) s) in *. set (s2 := if 0 <? credit ev then _ else s1).
  assert (stream_ok key s2) as Hs2.
  { unfold s2. by case_match; [apply (stream_ok_stats key s1)|]. }
  assert (st_outstanding s2 = st_outstanding s) as Ho2 by (unfold s2; by case_match).
  apply swp_bind. eapply wp_when_event; [exact He1|done|done|]. intros qs2 h2 He2 Hz2.
  apply swp_bind. unfold wp at 1, get_conn. apply swp_bind.
  eapply wp_pump_underflow; [exact He2|exact Hz2| |].
  { destruct He2 as [-> _]. apply (ok_version _ Hok). }
  intros qs3 s3 h3 Hs3 He3 Hz3.
  assert (stream_ok key s3 ∧ st_outstanding s3 = st_outstanding s) as [Hok3 Ho3].
  { destruct Hs3 as [->| ->]; [done|]. split; [|done]. by apply (stream_ok_stats key s2). }
  apply swp_bind. eapply wp_pump_drained; [exact He3|exact Hz3|].
  intros qs4 s4 h4 Hs4 He4 Hz4.
  assert (stream_ok key s4 ∧ st_outstanding s4 = st_outstanding s) as [Hok4 Ho4].
  { destruct Hs4 as [->| ->]; [done|]. split; [|done]. by apply (stream_ok_stats key s3). }
  apply swp_bind. eapply wp_stream_request; [exact Hok4|].
  intros k5 o reqs h5 Hok5 Hlt Hreq He5. apply wp_put_stream. intros h6 Hup _ _.
  pose proof (effect_trans _ _ _ _ _ He4 He5) as He.
  pose proof (effect_streams _ _ _ He) as Hst. split.
  - by eapply conn_ok_update.
  - eexists. rewrite Hup /= lookup_insert_eq. split; [done|]. by eexists.
  - intros ch Hne. by rewrite Hup /= lookup_insert_ne // Hst.
  - exists (qs4 ++ reqs). split; [rewrite Hup; by destruct He as [-> _]|].
    intros ch t t' H1 H2. rewrite Hup /= Hst in H2. rewrite requested_app Hz4.
    pose proof Hok4 as (Hch4 & _).
    rewrite (request_effect_requested s4 o) //; [|by rewrite Hch4]. rewrite Hch4.
    destruct (Z.eqb_spec key ch) as [<-|].
    + rewrite lookup_insert_eq in H2. simplify_eq. simpl. lia.
    + rewrite lookup_insert_ne // in H2. simplify_eq. lia.
Qed.

(** Every stream of the connection is fed after its turn. *)
Lemma wp_pump_streams keys h :
  conn_ok (h_conn h) → NoDup keys → (∀ key, key ∈ keys → is_Some (c_streams (h_conn h) !! key)) →
  wp (pump_streams env keys)
     (λ _ h', conn_ok (h_conn h') ∧
        (∀ key, key ∈ keys → ∃ s, c_streams (h_conn h') !! key = Some s ∧ fed s) ∧
        (∀ ch, ch ∉ keys → c_streams (h_conn h') !! ch = c_streams (h_conn h) !! ch) ∧
        ∃ ps, c_out (h_conn h') = c_out (h_conn h) ++ frames ps ∧
              ledger (h_conn h) (h_conn h') ps (λ _, 0)) h.
Proof.
  intros Hok Hnd. revert h Hok. induction Hnd as [|key keys Hnew Hnd IH]; intros h Hok Hin;
    cbn [pump_streams].
  { apply swp_ret. split; [done|]. split; [set_solver|]. split; [done|]. exists [].
    split; [by rewrite app_nil_r|]. intros ch s s' H1 H2. simplify_eq. simpl. lia. }
  apply swp_bind. eapply wp_conseq; [apply wp_pump_stream; [done|set_solver]|].
  intros _ h1 [Hok1 Hfed1 Hoth1 (ps1 & Hout1 & Hled1)].
  eapply wp_conseq; [apply IH; [done|]|].
  { intros key' Hk'. rewrite Hoth1; [|set_solver]. apply Hin. set_solver. }
  intros _ h2 (Hok2 & Hfed2 & Hoth2 & ps2 & Hout2 & Hled2). split; [done|]. split.
  { intros key' [->|Hk']%elem_of_cons; [|by apply Hfed2]. by rewrite Hoth2. }
  split.
  { intros ch Hch. rewrite Hoth2; [|set_solver]. apply Hoth1. set_solver. }
  exists (ps1 ++ ps2). split; [by rewrite Hout2 Hout1 frames_app app_assoc|].
  intros ch s s' H1 H2. rewrite requested_app.
  assert (is_Some (c_streams (h_conn h1) !! ch)) as [s1 Hs1].
  { destruct (decide (ch = key)) as [->|]; [naive_solver|]. by rewrite Hoth1 // H1. }
  specialize (Hled1 _ _ _ H1 Hs1). specialize (Hled2 _ _ _ Hs1 H2).
  cbv beta in Hled1, Hled2. lia.
Qed.

End Pump.

Lemma map_keys_spec {A} (m : gmap Z A) :
  NoDup (map_keys m) ∧ ∀ k, k ∈ map_keys m ↔ is_Some (m !! k).
Proof.
  unfold map_keys. pose proof (merge_sort_Permutation Z.le (fst <$> map_to_list m)) as HP.
  split.
  - rewrite HP. apply NoDup_fst_map_to_list.
  - intros k. rewrite HP list_elem_of_fmap. split.
    + intros ([k' x] & -> & Hx). apply elem_of_map_to_list in Hx. eauto.
    + intros [x Hx]. exists (k, x). split; [done|]. by apply elem_of_map_to_list.
Qed.

(** ** The server *)

Record client_ok (fd : Z) (c : Connection) : Prop := {
  cl_ok : conn_ok c;
  cl_fd : c_fd c = fd;
  cl_in : bytes_ok (c_in c);
}.

Record server_ok (sv : Server) : Prop := {
  so_conns : map_Forall client_ok (sv_conns sv);
  so_epoll : ∀ fd, is_Some (sv_conns sv !! fd) ↔ is_Some (sv_epollOut sv !! fd);
}.

Lemma server_ok_new lfd efd : server_ok (Server_new lfd efd).
Proof.
  split; [apply map_Forall_empty|]. intros fd. simpl. by rewrite !lookup_empty.
Qed.

(** [on_conn] with a handler that keeps its connection well-formed. *)
Lemma on_conn_ok {A} (m : M A) (Q : A → Connection → Connection → Prop) fd c sv :
  server_ok sv → sv_conns sv !! fd = Some c →
  (∀ h, h_conn h = c → wp m (λ a h', client_ok fd (h_conn h') ∧ Q a c (h_conn h')) h) →
  ∃ a c' sv', on_conn fd m sv = Some (a, sv') ∧ server_ok sv' ∧ Q a c c' ∧
    sv_conns sv' = <[fd := c']> (sv_conns sv) ∧ sv_epollOut sv' = sv_epollOut sv ∧
    sv_listenFd sv' = sv_listenFd sv ∧ sv_eventFd sv' = sv_eventFd sv.
Proof.
  intros [H1 H2] Hc Hm. unfold on_conn. rewrite Hc mbind_Some.
  destruct (wp_Some _ _ _ (Hm (mkHState c (sv_nextStreamIndex sv) (sv_nextClientIndex sv)
    (sv_tick sv)) eq_refl)) as (a & h' & -> & Hcl & HQ). rewrite mbind_Some.
  exists a, (h_conn h'). eexists. split; [done|]. split; [|by split_and!].
  split; simpl.
  - by apply map_Forall_insert_2.
  - intros fd'. rewrite -H2. destruct (decide (fd = fd')) as [<-|].
    + rewrite lookup_insert_eq Hc. split; eauto.
    + by rewrite lookup_insert_ne.
Qed.

Lemma Accept_ok env sv : server_ok sv → server_ok (Accept env sv).
Proof.
  intros Hok. unfold Accept.
  assert (server_ok (with_tick (S (sv_tick sv)) sv)) as Hok1 by (by destruct Hok; split).
  revert Hok1. generalize (with_tick (S (sv_tick sv)) sv). generalize (e_accepts env (sv_tick sv)).
  clear sv Hok. intros fds. induction fds as [|fd fds IH]; intros sv [H1 H2]; simpl; [by split|].
  apply IH. split; simpl.
  - apply map_Forall_insert_2; [|done].
    split; [apply conn_ok_new|done|]. simpl. constructor.
  - intros fd'. destruct (decide (fd = fd')) as [<-|].
    + rewrite !lookup_insert_eq. split; eauto.
    + by rewrite !lookup_insert_ne.
Qed.

Lemma UpdateEvents_ok c sv : server_ok sv → server_ok (UpdateEvents c sv).
Proof.
  intros [H1 H2]. split; simpl; [done|]. intros fd. rewrite H2.
  destruct (decide (c_fd c = fd)) as [->|].
  - rewrite lookup_alter_eq. symmetry. apply fmap_is_Some.
  - by rewrite lookup_alter_ne.
Qed.

Lemma Drop_ok fd sv : server_ok sv → server_ok (Drop fd sv).
Proof.
  intros [H1 H2]. unfold Drop. destruct (sv_conns sv !! fd) eqn:E; [|by split].
  split; simpl; [by apply map_Forall_delete|]. intros fd'.
  destruct (decide (fd = fd')) as [<-|].
  - rewrite !lookup_delete_eq. done.
  - by rewrite !lookup_delete_ne.
Qed.

Lemma Drop_all_ok fds sv : server_ok sv → server_ok (foldl (λ sv fd, Drop fd sv) sv fds).
Proof. revert sv. induction fds as [|fd fds IH]; intros sv Hok; [done|]. by apply IH, Drop_ok. Qed.

Section Turn.
Context (env : Env).

(** [ReadFrom], [FlushOut] and the pump as handlers of a client. *)
Lemma ReadFrom_client fd c h :
  reads_ok env → client_ok fd c → h_conn h = c →
  wp (ReadFrom env) (λ _ h', client_ok fd (h_conn h') ∧ True) h.
Proof.
  intros Hreads [H1 H2 H3] <-. eapply wp_conseq; [by apply wp_ReadFrom|].
  intros _ h' (G1 & G2 & G3). split; [|done]. split; [done|by rewrite G3|done].
Qed.

Lemma FlushOut_client fd c h :
  client_ok fd c → h_conn h = c →
  wp (FlushOut env) (λ _ h', client_ok fd (h_conn h') ∧ True) h.
Proof.
  intros [H1 H2 H3] <-. eapply wp_conseq; [by apply wp_FlushOut|].
  intros _ h' (G1 & G2 & G3). split; [|done]. split; [done|by rewrite G3|by rewrite G2].
Qed.

(** Every stream of a connection is fed. *)
Definition all_fed (c : Connection) : Prop := map_Forall (λ _ s, fed s) (c_streams c).

Lemma pump_client fd c h :
  client_ok fd c → h_conn h = c →
  wp (pump_connection env) (λ _ h', client_ok fd (h_conn h') ∧ all_fed (h_conn h')) h.
Proof.
  intros [H1 H2 H3] <-. unfold pump_connection. apply swp_bind. unfold wp at 1, get_conn.
  destruct (map_keys_spec (c_streams (h_conn h))) as [Hnd Hin].
  eapply wp_conseq; [apply wp_keeps; [apply keeps_pump_streams|apply wp_pump_streams; [done|done|]]|].
  { intros key Hk. by apply Hin. }
  intros _ h' ((G1 & G2 & G3 & _) & G4 & G5).
  split; [split; [done|by rewrite G4|by rewrite G5]|].
  intros ch s Hs. destruct (decide (ch ∈ map_keys (c_streams (h_conn h)))) as [Hm|Hm].
  - destruct (G2 _ Hm) as (s' & Hs' & Hfed). congruence.
  - rewrite G3 // in Hs. exfalso. apply Hm, Hin. eauto.
Qed.

Lemma handle_event_ok ev sv :
  reads_ok env → server_ok sv → ∃ died sv', handle_event env ev sv = Some (died, sv') ∧ server_ok sv'.
Proof.
  intros Hreads Hok. unfold handle_event.
  destruct (_ =? sv_listenFd sv); [do 2 eexists; split; [done|by apply Accept_ok]|].
  destruct (_ =? sv_eventFd sv); [by eauto|].
  destruct (sv_conns sv !! ev_fd ev) as [c|] eqn:Hc; [|by eauto].
  destruct (ev_hup ev); [by eauto|].
  assert (∃ ok sv1, (if ev_in ev then on_conn (ev_fd ev) (ReadFrom env) sv else Some (true, sv))
            = Some (ok, sv1) ∧ server_ok sv1 ∧ is_Some (sv_conns sv1 !! ev_fd ev))
    as (ok & sv1 & -> & Hok1 & [c1 Hc1]).
  { destruct (ev_in ev); [|by eauto 10].
    destruct (on_conn_ok (ReadFrom env) (λ _ _ _, True) (ev_fd ev) c sv Hok Hc)
      as (a & c' & sv' & ? & ? & _ & Hcs & _).
    - intros h Hh. eapply ReadFrom_client; [done| |done]. by apply (so_conns _ Hok).
    - exists a, sv'. rewrite Hcs lookup_insert_eq. eauto. }
  rewrite mbind_Some. destruct ok; cbn [negb]; [|by eauto].
  assert (∃ ok sv2, (if ev_out ev then on_conn (ev_fd ev) (FlushOut env) sv1 else Some (true, sv1))
            = Some (ok, sv2) ∧ server_ok sv2) as (ok & sv2 & -> & Hok2).
  { destruct (ev_out ev); [|by eauto].
    destruct (on_conn_ok (FlushOut env) (λ _ _ _, True) (ev_fd ev) c1 sv1 Hok1 Hc1)
      as (a & c' & sv' & ? & ? & _).
    - intros h Hh. eapply FlushOut_client; [|done]. by apply (so_conns _ Hok1).
    - eauto. }
  rewrite mbind_Some. eauto.
Qed.

Lemma handle_events_ok evs sv :
  reads_ok env → server_ok sv → ∃ dead sv', handle_events env evs sv = Some (dead, sv') ∧ server_ok sv'.
Proof.
  intros Hreads. revert sv.
  induction evs as [|ev evs IH]; intros sv Hok; cbn [handle_events]; [eauto|].
  destruct (handle_event_ok ev sv Hreads Hok) as (died & sv1 & -> & Hok1). rewrite mbind_Some. cbv iota beta.
  destruct (IH sv1 Hok1) as (dead & sv2 & -> & Hok2). rewrite mbind_Some. eauto.
Qed.

(** The pump over all connections: invariant, and every stream is fed. *)
Lemma pump_conns_ok fds sv :
  server_ok sv → NoDup fds → (∀ fd, fd ∈ fds → is_Some (sv_conns sv !! fd)) →
  ∃ sv', pump_conns env fds sv = Some sv' ∧ server_ok sv' ∧
    (∀ fd, is_Some (sv_conns sv' !! fd) ↔ is_Some (sv_conns sv !! fd)) ∧
    (∀ fd, fd ∉ fds → sv_conns sv' !! fd = sv_conns sv !! fd) ∧
    ∀ fd c, fd ∈ fds → sv_conns sv' !! fd = Some c → all_fed c.
Proof.
  intros Hok Hnd. revert sv Hok. induction Hnd as [|fd fds Hnew Hnd IH]; intros sv Hok Hin;
    cbn [pump_conns].
  { eexists. split; [done|]. split; [done|]. split; [done|]. split; [done|]. set_solver. }
  destruct (Hin fd) as [c Hc]; [set_solver|].
  destruct (on_conn_ok (pump_connection env) (λ _ _ c', all_fed c') fd c sv Hok Hc)
    as ([] & c1 & sv1 & Ho & Hok1 & Hfed & Hcs & _).
  { intros h Hh. eapply pump_client; [|done]. by apply (so_conns _ Hok). }
  unfold pump_one. rewrite Ho mbind_Some Hcs lookup_insert_eq !mbind_Some.
  destruct (IH (UpdateEvents c1 sv1)) as (sv2 & -> & Hok2 & Hdom & Hoth & Hall).
  { by apply UpdateEvents_ok. }
  { intros fd' Hfd'. simpl. rewrite Hcs lookup_insert_ne; [|set_solver]. apply Hin. set_solver. }
  eexists. split; [done|]. split; [done|]. simpl in Hdom, Hoth. rewrite Hcs in Hdom, Hoth.
  split_and!.
  - intros fd'. rewrite Hdom. destruct (decide (fd = fd')) as [<-|].
    + rewrite lookup_insert_eq Hc. split; eauto.
    + by rewrite lookup_insert_ne.
  - intros fd' Hfd'. rewrite Hoth; [|set_solver]. rewrite lookup_insert_ne //. set_solver.
  - intros fd' c' Hfd' Hc'. destruct (decide (fd' ∈ fds)); [by eapply Hall|].
    assert (fd' = fd) as -> by set_solver. rewrite Hoth // lookup_insert_eq in Hc'.
    by simplify_eq.
Qed.

Lemma PumpSinks_ok sv :
  server_ok sv → ∃ sv', PumpSinks env sv = Some sv' ∧ server_ok sv' ∧
    (∀ fd, is_Some (sv_conns sv' !! fd) ↔ is_Some (sv_conns sv !! fd)) ∧
    ∀ fd c, sv_conns sv' !! fd = Some c → all_fed c.
Proof.
  intros Hok. destruct (map_keys_spec (sv_conns sv)) as [Hnd Hin].
  destruct (pump_conns_ok (map_keys (sv_conns sv)) sv Hok Hnd) as (sv' & H1 & H2 & H3 & _ & H4).
  { intros fd Hfd. by apply Hin. }
  exists sv'. split_and!; try done. intros fd c Hc. apply (H4 fd); [|done]. apply Hin, H3. eauto.
Qed.

(** Is EPOLLOUT asked for exactly when there is output left? *)
Definition armed (sv : Server) (fd : Z) : Prop :=
  ∀ c, sv_conns sv !! fd = Some c →
    sv_epollOut sv !! fd = Some (negb (bool_decide (c_out c = []))).

Lemma flush_conns_ok fds sv :
  server_ok sv → NoDup fds → (∀ fd, fd ∈ fds → is_Some (sv_conns sv !! fd)) →
  ∃ broken sv', flush_conns env fds sv = Some (broken, sv') ∧ server_ok sv' ∧
    (∀ fd, is_Some (sv_conns sv' !! fd) ↔ is_Some (sv_conns sv !! fd)) ∧
    (∀ fd, fd ∉ fds → sv_conns sv' !! fd = sv_conns sv !! fd ∧
                      sv_epollOut sv' !! fd = sv_epollOut sv !! fd) ∧
    ∀ fd, fd ∈ fds → fd ∉ broken → armed sv' fd.
Proof.
  intros Hok Hnd. revert sv Hok. induction Hnd as [|fd fds Hnew Hnd IH]; intros sv Hok Hin;
    cbn [flush_conns].
  { do 2 eexists. split; [done|]. split; [done|]. split; [done|]. split; [done|]. set_solver. }
  destruct (Hin fd) as [c Hc]; [set_solver|].
  destruct (on_conn_ok (FlushOut env) (λ _ _ _, True) fd c sv Hok Hc)
    as (ok & c1 & sv1 & Ho & Hok1 & _ & Hcs & Hep & _).
  { intros h Hh. eapply FlushOut_client; [|done]. by apply (so_conns _ Hok). }
  rewrite Ho mbind_Some. cbv iota beta. rewrite Hcs lookup_insert_eq mbind_Some.
  set (sv2 := if ok then UpdateEvents c1 sv1 else sv1).
  assert (sv_conns sv2 = <[fd := c1]> (sv_conns sv)) as Hc2 by (unfold sv2; by destruct ok).
  assert (c_fd c1 = fd) as Hfd1.
  { eapply cl_fd, (so_conns _ Hok1). rewrite Hcs. apply lookup_insert_eq. }
  destruct (IH sv2) as (broken & sv3 & Hfl & Hok3 & Hdom & Hoth & Harm).
  { unfold sv2. destruct ok; [by apply UpdateEvents_ok|done]. }
  { intros fd' Hfd'. rewrite Hc2 lookup_insert_ne; [|set_solver]. apply Hin. set_solver. }
  rewrite Hfl mbind_Some. do 2 eexists. split; [done|]. split; [done|]. split_and!.
  - intros fd'. rewrite Hdom Hc2. destruct (decide (fd = fd')) as [<-|].
    + rewrite lookup_insert_eq Hc. split; eauto.
    + by rewrite lookup_insert_ne.
  - intros fd' Hfd'. destruct (Hoth fd') as [-> ->]; [set_solver|]. rewrite Hc2.
    rewrite lookup_insert_ne; [|set_solver]. split; [done|]. unfold sv2.
    destruct ok; simpl; rewrite ?Hep ?Hfd1 ?lookup_alter_ne //. set_solver.
  - intros fd' Hfd' Hb. destruct (decide (fd' ∈ fds)) as [|Hni].
    + apply Harm; [done|]. destruct ok; set_solver.
    + assert (fd' = fd) as -> by set_solver. destruct ok; [|set_solver].
      intros c' Hc'. destruct (Hoth fd Hni) as [Ha Hb']. rewrite Ha Hc2 lookup_insert_eq in Hc'.
      simplify_eq. rewrite Hb'. unfold sv2. simpl. rewrite Hep lookup_alter_eq.
      destruct (proj1 (so_epoll _ Hok (c_fd c'))) as [b ->]; [by rewrite Hc|]. done.
Qed.

Lemma Drop_all_lookup fds sv fd :
  sv_conns (foldl (λ sv fd, Drop fd sv) sv fds) !! fd
    = (if decide (fd ∈ fds) then None else sv_conns sv !! fd) ∧
  (fd ∉ fds → sv_epollOut (foldl (λ sv fd, Drop fd sv) sv fds) !! fd = sv_epollOut sv !! fd).
Proof.
  revert sv. induction fds as [|fd0 fds IH]; intros sv; cbn [foldl].
  { split; [|done]. case_decide; [set_solver|done]. }
  assert (sv_conns (Drop fd0 sv) !! fd = if decide (fd = fd0) then None else sv_conns sv !! fd) as H1.
  { clear IH. unfold Drop. destruct (decide (fd = fd0)) as [->|Hne].
    - destruct (sv_conns sv !! fd0) eqn:E; [apply lookup_delete_eq|done].
    - destruct (sv_conns sv !! fd0) eqn:E; [by apply lookup_delete_ne|done]. }
  assert (fd ≠ fd0 → sv_epollOut (Drop fd0 sv) !! fd = sv_epollOut sv !! fd) as H2.
  { intros Hne. unfold Drop. destruct (sv_conns sv !! fd0); simpl; [|done].
    by rewrite lookup_delete_ne. }
  destruct (IH (Drop fd0 sv)) as [-> G2]. rewrite H1. split.
  - repeat case_decide; set_solver.
  - intros Hni. rewrite G2; [|set_solver]. apply H2. set_solver.
Qed.

Lemma run_turn_ok evs sv :
  reads_ok env → server_ok sv → ∃ sv', run_turn env evs sv = Some sv' ∧ server_ok sv' ∧ ∀ fd, armed sv' fd.
Proof.
  intros Hreads Hok. unfold run_turn.
  destruct (handle_events_ok evs sv Hreads Hok) as (dead & sv1 & -> & Hok1). rewrite mbind_Some. cbv iota beta.
  destruct (PumpSinks_ok _ (Drop_all_ok dead sv1 Hok1)) as (sv2 & -> & Hok2 & _).
  rewrite mbind_Some. cbv beta. destruct (map_keys_spec (sv_conns sv2)) as [Hnd Hin].
  destruct (flush_conns_ok (map_keys (sv_conns sv2)) sv2 Hok2 Hnd)
    as (broken & sv3 & -> & Hok3 & Hdom & _ & Harm).
  { intros fd Hfd. by apply Hin. }
  rewrite mbind_Some. eexists. split; [done|]. split; [by apply Drop_all_ok|].
  intros fd c Hc. destruct (Drop_all_lookup broken sv3 fd) as [H1 H2]. rewrite H1 in Hc.
  case_decide as Hb; [done|]. rewrite H2 //. apply Harm; [|done|done].
  apply Hin, Hdom. eauto.
Qed.

Lemma Run_ok turns sv :
  reads_ok env → server_ok sv → ∃ sv', Run env turns sv = Some sv' ∧ server_ok sv'.
Proof.
  intros Hreads. revert sv.
  induction turns as [|[stop w] turns IH]; intros sv Hok; cbn [Run]; [eauto|].
  destruct stop; [eauto|]. destruct w as [[]|evs]; [eauto|by apply IH|eauto|].
  destruct (run_turn_ok evs sv Hreads Hok) as (sv1 & -> & Hok1 & _). rewrite mbind_Some. by apply IH.
Qed.

End Turn.
