(* ===== verification/PaServerProps.v ===== *)
(** * Properties of the audio daemon

    The theorems about [waydroid_audio_main.cpp], each with a concrete run that
    shows its hypotheses can be met. *)

From S2P Require Import Prelude PaWire OhosSink PaServer PaServerFacts PaServerLoop.
Set Warnings "-rewrite-rw,-clear-no-such-hyp".

(** ** A concrete environment and connection *)

Definition quiet_env : Env :=
  mkEnv (λ _, []) (λ _, []) (λ _, []) (λ _, []) (λ _, true) (λ _, Some 1000) (λ _, (5, 7)).

Definition auth_packet : bytes :=
  ([] .> PutU32 (Command_code COMMAND_AUTH) .> PutU32 0 .> PutU32 35 .> RawTag TAG_ARBITRARY
      .> Raw32 0).

(** A v13 CREATE_PLAYBACK_STREAM: 48 kHz stereo, maxlength 64, tlength 32,
    prebuf unset, minreq 8. *)
Definition create_packet : bytes :=
  default [] (PutChannelMap ChannelMap_default
    ([] .> PutU32 (Command_code COMMAND_CREATE_PLAYBACK_STREAM) .> PutU32 1
        .> PutSampleSpec SampleSpec_default))
  .> PutU32 INVALID_INDEX .> PutString None .> PutU32 64 .> PutBool true .> PutU32 32
  .> PutU32 INVALID_INDEX .> PutU32 8 .> PutU32 0 .> PutCVolume 2 VOLUME_NORM
  .> PutBool false .> PutBool false .> PutBool false .> PutBool false .> PutBool false
  .> PutBool false .> PutBool false .> PutBool false .> PutBool true .> PutEmptyProplist.

Definition demo_new : HState := mkHState (Connection_new 7) 0 0 0.
Definition after {A} (m : M A) (h : HState) : HState :=
  match m h with Some (_, h') => h' | None => h end.
Definition demo_authorised : HState :=
  after (HandlePacket quiet_env CHANNEL_COMMAND 0 auth_packet) demo_new.
Definition demo_playing : HState :=
  after (HandlePacket quiet_env CHANNEL_COMMAND 0 create_packet) demo_authorised.

(** The packets really are accepted: one stream, with a credit of 32 bytes. *)
Example demo_playing_stream :
  st_outstanding <$> c_streams (h_conn demo_playing) !! 0 = Some 32 ∧
  c_authorized (h_conn demo_playing) = true.
Proof. split; vm_compute; reflexivity. Qed.

Lemma packet_bytes_ok (l : bytes) : forallb (λ b, (0 <=? b) && (b <? 256)) l = true → bytes_ok l.
Proof.
  intros Hl. apply Forall_forall. intros b Hb. rewrite forallb_forall in Hl.
  apply list_elem_of_In in Hb. specialize (Hl b Hb). bool_props. by split.
Qed.

Lemma after_ok env channel flags data h :
  conn_ok (h_conn h) → bytes_ok data → Z.of_nat (length data) ≤ ABSOLUTE_MAX_BUFFER →
  conn_ok (h_conn (after (HandlePacket env channel flags data) h)).
Proof.
  intros H1 H2 H3. unfold after.
  destruct (wp_Some _ _ _ (wp_HandlePacket env channel flags data h H1 H2 H3))
    as (b & h' & -> & Hh). apply Hh.
Qed.

Lemma demo_playing_ok : conn_ok (h_conn demo_playing).
Proof.
  apply after_ok; [apply after_ok; [apply conn_ok_new|..]|..];
    first [by apply packet_bytes_ok; vm_compute | by vm_compute].
Qed.

(** ** Safety *)

(** C1: the daemon never runs into undefined behaviour.  From a started server,
    any number of turns of the event loop - whatever bytes the clients send and
    however they are cut up, whatever the render threads do in between, whatever
    [read], [write], [accept4] and [epoll_wait] return - completes without a null
    or out-of-range access, a signed overflow or a packet loop that does not end,
    and leaves every connection, stream and sink well-formed. *)
Theorem server_run_safe env turns listenFd eventFd :
  reads_ok env →
  ∃ sv, Run env turns (Server_new listenFd eventFd) = Some sv ∧ server_ok sv.
Proof. intros Hr. apply Run_ok; [done|apply server_ok_new]. Qed.

(** A client connects, authorises and creates a stream. *)
Definition busy_env : Env :=
  mkEnv (λ n, if (n =? 2)%nat
              then [RdData (frame CHANNEL_COMMAND auth_packet 0 ++
                            frame CHANNEL_COMMAND create_packet 0)] else [])
    (λ _, [WrCount 10; WrErr EAGAIN]) (λ n, if (n =? 0)%nat then [7] else [])
    (λ _, [(true, 4)]) (λ _, true) (λ _, Some 1000) (λ _, (5, 7)).
Definition busy_turns : list (bool * WaitResult) :=
  [(false, WaitEvents [mkEpollEvent 3 false true false]); (false, WaitErr EINTR);
   (false, WaitEvents [mkEpollEvent 7 false true false]); (true, WaitErr EINTR)].

Lemma busy_reads_ok : reads_ok busy_env.
Proof.
  intros n. unfold busy_env. simpl. destruct (n =? 2)%nat; [|constructor].
  apply Forall_singleton. apply packet_bytes_ok. vm_compute. reflexivity.
Qed.

Lemma server_run_safe_witness :
  ∃ sv, Run busy_env busy_turns (Server_new 3 4) = Some sv ∧ server_ok sv ∧
    (sv_conns sv !! 7 ≫= λ c, st_outstanding <$> c_streams c !! 0) = Some 32.
Proof.
  destruct (server_run_safe busy_env busy_turns 3 4 busy_reads_ok) as (sv & Hr & Hok).
  exists sv. split; [exact Hr|]. split; [exact Hok|].
  assert (∃ sv', Run busy_env busy_turns (Server_new 3 4) = Some sv' ∧
    (sv_conns sv' !! 7 ≫= λ c, st_outstanding <$> c_streams c !! 0) = Some 32) as (sv' & Hr' & Hs).
  { eexists. split; [vm_compute; reflexivity|vm_compute; reflexivity]. }
  rewrite Hr in Hr'. injection Hr' as ->. exact Hs.
Defined.

(** After every turn of the event loop [EPOLLOUT] is asked for exactly on the
    connections that still have output queued, so queued replies and REQUESTs are
    always flushed later and an idle client never wakes the loop. *)
Theorem turn_arms_epollout env evs sv :
  reads_ok env → server_ok sv →
  ∃ sv', run_turn env evs sv = Some sv' ∧
    ∀ fd c, sv_conns sv' !! fd = Some c →
      sv_epollOut sv' !! fd = Some (negb (bool_decide (c_out c = []))).
Proof.
  intros Hr Hok. destruct (run_turn_ok env evs sv Hr Hok) as (sv' & H1 & _ & H2).
  exists sv'. split; [done|]. intros fd c Hc. by apply H2.
Qed.

Definition busy_server : Server :=
  default (Server_new 3 4) (Run busy_env (take 2 busy_turns) (Server_new 3 4)).

Lemma turn_arms_epollout_witness :
  ∃ sv', run_turn busy_env [mkEpollEvent 7 false true false] busy_server = Some sv' ∧
    sv_epollOut sv' !! 7 = Some true.
Proof.
  assert (server_ok busy_server) as Hok.
  { unfold busy_server. destruct (Run_ok busy_env (take 2 busy_turns)
      (Server_new 3 4) busy_reads_ok (server_ok_new 3 4)) as (sv & -> & H). exact H. }
  destruct (turn_arms_epollout busy_env [mkEpollEvent 7 false true false] busy_server
    busy_reads_ok Hok) as (sv' & Hr & Ha).
  exists sv'. split; [exact Hr|].
  assert (∃ sv1 c, run_turn busy_env [mkEpollEvent 7 false true false] busy_server = Some sv1 ∧
    sv_conns sv1 !! 7 = Some c ∧ negb (bool_decide (c_out c = [])) = true)
    as (sv1 & c & Hr1 & Hc & Ho).
  { do 2 eexists. split; [vm_compute; reflexivity|]. split; vm_compute; reflexivity. }
  rewrite Hr in Hr1. injection Hr1 as ->. rewrite (Ha 7 c Hc) Ho. reflexivity.
Defined.

(** ** Flow control *)

(** The buffer attributes the server settles on are sane whatever the client
    asked for: at least one frame per request, [minreq <= tlength <= maxlength],
    at most 16 MiB, and [prebuf] within [tlength]. *)
Theorem fix_attr_sane ss a :
  Valid ss = true → attr_u32 a →
  let b := fix_attr ss a in
  0 < FrameSize ss ≤ minreq b ∧ minreq b ≤ tlength b ≤ maxlength b ∧
  maxlength b ≤ ABSOLUTE_MAX_BUFFER ∧ 0 ≤ prebuf b ≤ tlength b.
Proof. apply fix_attr_ok. Qed.

Lemma fix_attr_sane_witness :
  let b := fix_attr SampleSpec_default BufferAttr_default in
  maxlength b = 384000 ∧ tlength b = 38400 ∧ minreq b = 9600 ∧
  0 < FrameSize SampleSpec_default ≤ minreq b.
Proof.
  split; [reflexivity|]. split; [reflexivity|]. split; [reflexivity|].
  exact (proj1 (fix_attr_sane SampleSpec_default BufferAttr_default eq_refl
    ltac:(by repeat split))).
Defined.

(** C8: the server's credit counter mirrors the client's.  Whatever packet is
    handled (and whatever the render thread does meanwhile), for every stream
    that exists before and after it, [outstanding] changes by exactly the bytes
    of the REQUESTs queued to the client - as the client decodes them - minus the
    data bytes the client sent; so a client that debits every byte it writes and
    credits every REQUEST agrees with the server for ever, overdrafts included. *)
Theorem credit_mirror env channel flags data h :
  conn_ok (h_conn h) → next_is_free (h_conn h) → bytes_ok data →
  Z.of_nat (length data) ≤ ABSOLUTE_MAX_BUFFER →
  ∃ b h' ps, HandlePacket env channel flags data h = Some (b, h') ∧
    c_out (h_conn h') = c_out (h_conn h) ++ frames ps ∧
    ∀ ch s s', c_streams (h_conn h) !! ch = Some s → c_streams (h_conn h') !! ch = Some s' →
      st_outstanding s' = st_outstanding s + requested ch ps
        - (if (channel =? ch) && negb (channel =? CHANNEL_COMMAND)
           then Z.of_nat (length data) else 0).
Proof.
  intros H1 H2 H3 H4.
  destruct (wp_Some _ _ _ (wp_HandlePacket env channel flags data h H1 H3 H4))
    as (b & h' & Hp & [Hok (ps & Hout & Hled)]).
  exists b, h', ps. split; [done|]. split; [done|]. intros ch s s' Hs Hs'.
  rewrite (Hled H2 ch s s' Hs Hs'). unfold debit_of.
  destruct (channel =? CHANNEL_COMMAND), (channel =? ch); simpl; lia.
Qed.

(** 20 data bytes on the demo stream: 12 bytes of credit remain, and as those
    and the 20 buffered make up the target nothing is requested. *)
Lemma credit_mirror_witness :
  ∃ b h' ps, HandlePacket quiet_env 0 0 (replicate 20 1) demo_playing = Some (b, h') ∧
    c_out (h_conn h') = c_out (h_conn demo_playing) ++ frames ps ∧
    ∀ ch s s', c_streams (h_conn demo_playing) !! ch = Some s →
      c_streams (h_conn h') !! ch = Some s' →
      st_outstanding s' = st_outstanding s + requested ch ps
        - (if (0 =? ch) && negb (0 =? CHANNEL_COMMAND) then 20 else 0).
Proof.
  apply (credit_mirror quiet_env 0 0 (replicate 20 1) demo_playing demo_playing_ok);
    [vm_compute; reflexivity|by repeat constructor|by vm_compute].
Defined.

(** [Push] appends what it accepts. *)
Lemma Push_appends data (k : Sink Ring) n k' :
  sink_wf k → Push data k = Some (n, k') →
  ring_bytes (sk_buf k') = ring_bytes (sk_buf k) ++ take n data.
Proof.
  intros Hwf HP. destruct (Push_refines data k Hwf) as (n' & k'' & HP' & _ & HQ).
  rewrite HP in HP'. injection HP' as <- <-. clear HP. unfold Push in HQ. cbn in HQ.
  destruct (sk_quit k || _).
  - assert (n = O) as -> by congruence. rewrite take_0 app_nil_r.
    by apply (f_equal (λ x, from_option (λ x, q_bytes (sk_buf x.2)) [] x)) in HQ.
  - unfold queue_push in HQ. destruct (_ =? 0)%nat in HQ; [done|]. cbn in HQ.
    assert (Nat.min (length data) (length (r_ring (sk_buf k)) - length (ring_bytes (sk_buf k))) = n)
      as <- by congruence.
    by apply (f_equal (λ x, from_option (λ x, q_bytes (sk_buf x.2)) [] x)) in HQ.
Qed.

(** [accepted k data k' env]: the render thread runs, the bytes go to the end of the
    ring, all of them, and the render thread runs again. *)
Definition accepted (env : Env) (k : Sink Ring) (data : bytes) (k' : Sink Ring) : Prop :=
  ∃ n m k1 k2, render_run (e_sched env n) k = Some k1 ∧
    Push data k1 = Some (length data, k2) ∧
    ring_bytes (sk_buf k2) = ring_bytes (sk_buf k1) ++ data ∧
    render_run (e_sched env m) k2 = Some k'.

Lemma MaybeRequest_sink env s k h s' h' :
  st_sink s = Some k → MaybeRequest env s h = Some (s', h') →
  st_writeIndex s' = st_writeIndex s ∧
  ∃ m k', render_run (e_sched env m) k = Some k' ∧ st_sink s' = Some k'.
Proof.
  intros Hk. unfold MaybeRequest. rewrite Hk.
  unfold on_sink, bind, preempt, tick, of_option, ret, sink_get, check_s64, UB. rewrite Hk.
  cbn -[SendTag]. intros H. repeat (case_match; simplify_eq); cbn; eauto.
Qed.

Lemma data_accepted env channel flags data s k h h' :
  conn_ok (h_conn h) → c_streams (h_conn h) !! channel = Some s → st_sink s = Some k →
  Z.of_nat (length data) ≤ st_outstanding s →
  HandleStreamData env channel flags data h = Some (tt, h') →
  ∃ s' k', c_streams (h_conn h') !! channel = Some s' ∧ st_sink s' = Some k' ∧
    accepted env k data k' ∧
    st_writeIndex s' = u64 (st_writeIndex s + Z.of_nat (length data)).
Proof.
  intros Hok Hs Hk Hcr Hd.
  destruct (ok_streams _ Hok _ _ Hs) as (_ & _ & _ & _ & Ha & k0 & Hk0 & (Hwf & Hsz & Hq) & Hfl).
  rewrite Hk in Hk0. injection Hk0 as <-.
  unfold HandleStreamData, FindStream, get_conn, bind, ret in Hd. rewrite Hs Hk in Hd.
  unfold check_s64, UB, ret in Hd. cbn [with_writeIndex st_outstanding] in Hd.
  destruct (_ && _) in Hd; [|done].
  unfold on_sink, bind, preempt, tick, of_option, ret in Hd. cbn [st_sink with_outstanding with_writeIndex] in Hd.
  rewrite Hk in Hd. cbn -[Nat.ltb MaybeRequest] in Hd.
  destruct (render_run_ring (e_sched env (h_tick h)) k Hwf) as (k1 & Hr & Hwf1 & Hs1 & Hq1 & Hf1).
  rewrite Hr in Hd.
  destruct (Push_ring data k1 Hwf1) as (n & k2 & HP & _ & _ & _ & _ & _ & Hn). rewrite HP in Hd.
  assert (n = length data) as ->.
  { rewrite Hn; [|congruence]. destruct Hfl as [Hup _]. destruct Ha as (? & ? & ? & _). lia. }
  cbn [fst snd] in Hd. rewrite Nat.ltb_irrefl in Hd.
  destruct (MaybeRequest _ _ _) as [[s3 h3]|] eqn:HM in Hd; [|done].
  apply (MaybeRequest_sink _ _ k2) in HM as (Hw & m & k3 & Hr3 & Hk3); [|done].
  unfold put_stream, upd_conn in Hd. injection Hd as <-. cbn.
  exists s3, k3. rewrite lookup_insert_eq. split_and!; try done.
  exists (h_tick h), m, k1, k2. split_and!; try done.
  rewrite (Push_appends _ _ _ _ Hwf1 HP). by rewrite firstn_all.
Qed.

(** C25: a client that stays within its credit never overflows the ring.  A data
    packet of at most [outstanding] bytes is accepted whole: all its bytes are
    appended to the stream's ring, in order, behind what the render thread has left
    of it (the thread may run before and after), and the stream's write index counts
    them; and the server queues nothing but REQUESTs, in particular no OVERFLOW -
    because buffered bytes and outstanding credit together never exceed [tlength]. *)
Theorem within_credit_no_overflow env channel flags data s h :
  conn_ok (h_conn h) → c_streams (h_conn h) !! channel = Some s → channel ≠ CHANNEL_COMMAND →
  Z.of_nat (length data) ≤ ABSOLUTE_MAX_BUFFER →
  Z.of_nat (length data) ≤ st_outstanding s →
  ∃ h' ps s' k k', HandlePacket env channel flags data h = Some (true, h') ∧
    c_out (h_conn h') = c_out (h_conn h) ++ frames ps ∧ Forall is_request ps ∧
    c_streams (h_conn h') !! channel = Some s' ∧ st_sink s = Some k ∧ st_sink s' = Some k' ∧
    accepted env k data k' ∧
    st_writeIndex s' = u64 (st_writeIndex s + Z.of_nat (length data)).
Proof.
  intros Hok Hs Hne Hlen Hcr. unfold HandlePacket. apply Z.eqb_neq in Hne. rewrite Hne. cbn [negb].
  destruct (wp_Some _ _ _ (wp_HandleStreamData env channel flags data h Hok Hlen))
    as ([] & h' & Hd & [_ _ (ps & H1 & _ & H3)]).
  destruct (ok_streams _ Hok _ _ Hs) as (_ & _ & _ & _ & _ & k & Hk & _).
  destruct (data_accepted env channel flags data s k h h' Hok Hs Hk Hcr Hd) as (s' & k' & Hs' & Hk' & Hacc).
  exists h', ps, s', k, k'. unfold bind. rewrite Hd. split_and!; try done; [by apply (H3 s)|apply Hacc..].
Qed.

Lemma within_credit_no_overflow_witness :
  ∃ h' ps s' k', HandlePacket quiet_env 0 0 (replicate 32 9) demo_playing = Some (true, h') ∧
    c_out (h_conn h') = c_out (h_conn demo_playing) ++ frames ps ∧ Forall is_request ps ∧
    c_streams (h_conn h') !! 0 = Some s' ∧ st_sink s' = Some k' ∧
    ∃ k, accepted quiet_env k (replicate 32 9) k'.
Proof.
  remember (c_streams (h_conn demo_playing) !! 0) as r eqn:Hr. vm_compute in Hr.
  destruct r as [s|]; [|discriminate Hr].
  destruct (within_credit_no_overflow quiet_env 0 0 (replicate 32 9) s demo_playing demo_playing_ok)
    as (h' & ps & s' & k & k' & H1 & H2 & H3 & H4 & _ & H5 & H6 & _);
    [|discriminate|by vm_compute| |].
  - injection Hr as ->. vm_compute. reflexivity.
  - injection Hr as ->. by vm_compute.
  - exists h', ps, s', k'. exact (conj H1 (conj H2 (conj H3 (conj H4 (conj H5 (ex_intro _ k H6)))))).
Defined.

(** C18: the stream never stalls.  After [PumpSinks], every stream of every client
    has been granted all the credit it may have: buffered bytes plus outstanding
    credit exceed [tlength - minreq].  In particular a client whose buffered audio
    has all been played holds credit for at least one byte, so client and server
    cannot wait for each other. *)
Theorem pump_never_stalls env sv :
  server_ok sv →
  ∃ sv', PumpSinks env sv = Some sv' ∧
    ∀ fd c ch s, sv_conns sv' !! fd = Some c → c_streams c !! ch = Some s →
      ∃ k, st_sink s = Some k ∧
        tlength (st_attr s) - minreq (st_attr s)
          < st_outstanding s + Z.of_nat (Buffered k) ≤ tlength (st_attr s) ∧
        (Buffered k = 0%nat → 0 < st_outstanding s).
Proof.
  intros Hok. destruct (PumpSinks_ok env sv Hok) as (sv' & Hp & Hok' & _ & Hfed).
  exists sv'. split; [done|]. intros fd c ch s Hc Hs.
  destruct (so_conns _ Hok' _ _ Hc) as [Hcok _ _].
  destruct (ok_streams _ Hcok _ _ Hs) as (_ & _ & _ & _ & Ha & k & Hk & _ & Hfl).
  destruct (Hfed _ _ Hc _ _ Hs) as (k' & Hk' & Hlt).
  rewrite Hk in Hk'. injection Hk' as <-.
  exists k. split; [done|]. destruct Hfl as [Hup _]. destruct Ha as (? & ? & _). lia.
Qed.

(** The demo server after its client has written 32 bytes. *)
Definition pump_server : Server :=
  mkServer 3 4 {[7 := h_conn (after (HandlePacket quiet_env 0 0 (replicate 32 9)) demo_playing)]}
    {[7 := false]} 1 0 0.

Lemma one_client_ok fd c b i j n : client_ok fd c → server_ok (mkServer 3 4 {[fd := c]} {[fd := b]} i j n).
Proof.
  intros Hc. split; simpl; [by apply map_Forall_singleton|]. intros fd'.
  destruct (decide (fd = fd')) as [<-|].
  - rewrite !lookup_singleton_eq. split; eauto.
  - by rewrite !lookup_singleton_ne.
Qed.

Lemma pump_server_ok : server_ok pump_server.
Proof.
  apply one_client_ok. split; [|by vm_compute|vm_compute; constructor].
  apply after_ok; [apply demo_playing_ok|by repeat constructor|by vm_compute].
Qed.

Lemma pump_never_stalls_witness :
  ∃ sv', PumpSinks quiet_env pump_server = Some sv' ∧
    ∀ fd c ch s, sv_conns sv' !! fd = Some c → c_streams c !! ch = Some s →
      ∃ k, st_sink s = Some k ∧
        tlength (st_attr s) - minreq (st_attr s)
          < st_outstanding s + Z.of_nat (Buffered k) ≤ tlength (st_attr s) ∧
        (Buffered k = 0%nat → 0 < st_outstanding s).
Proof. exact (pump_never_stalls quiet_env pump_server pump_server_ok). Defined.

(** ** The protocol *)

(** C23: every command gets exactly one answer.  When a command packet is accepted
    (the connection stays open), the server has queued exactly one REPLY or ERROR
    carrying the command's tag, followed by at most one REQUEST - except for a
    DRAIN of an existing stream, which queues nothing and leaves the stream
    waiting to acknowledge that very tag.  When the packet is malformed nothing is
    queued, and the connection is closed. *)
Theorem command_answered_once env command tag r h :
  conn_ok (h_conn h) → rd_ok r →
  ∃ b h' ps, HandleCommand env command tag r h = Some (b, h') ∧ conn_ok (h_conn h') ∧
    c_out (h_conn h') = c_out (h_conn h) ++ frames ps ∧
    if b then answered tag ps ∨ (ps = [] ∧ deferred tag (h_conn h')) else ps = [].
Proof.
  intros Hok Hr.
  destruct (wp_Some _ _ _ (wp_HandleCommand env command tag r h Hok Hr))
    as (b & h' & Hc & [H1 _ (ps & H2 & H3 & _)]).
  exists b, h', ps. done.
Qed.

(** LATENCY on the demo stream. *)
Definition latency_args : bytes := [] .> PutU32 0 .> PutTimeval 1 2.

Lemma command_answered_once_witness :
  ∃ b h' ps,
    HandleCommand quiet_env (Command_code COMMAND_GET_PLAYBACK_LATENCY) 77
      (TagReader_new latency_args) demo_playing = Some (b, h') ∧ conn_ok (h_conn h') ∧
    c_out (h_conn h') = c_out (h_conn demo_playing) ++ frames ps ∧
    if b then answered 77 ps ∨ (ps = [] ∧ deferred 77 (h_conn h')) else ps = [].
Proof.
  apply (command_answered_once quiet_env _ 77 (TagReader_new latency_args) demo_playing
    demo_playing_ok).
  split; [unfold reader_ok; vm_compute; lia|by apply packet_bytes_ok; vm_compute].
Defined.

(** C32: without AUTH a client can do nothing.  On a connection that is not
    authorised, every command other than AUTH gets ERR_ACCESS and changes nothing
    else, and stream data is ignored. *)
Theorem unauthorised_is_inert env h :
  conn_ok (h_conn h) → c_authorized (h_conn h) = false →
  (∀ command tag r, command ≠ Command_code COMMAND_AUTH →
     HandleCommand env command tag r h
     = Some (true, mkHState
               (with_out (c_out (h_conn h)
                            ++ frame CHANNEL_COMMAND (error_payload tag ERR_ACCESS) 0) (h_conn h))
               (h_nextStreamIndex h) (h_nextClientIndex h) (h_tick h))) ∧
  (∀ channel flags data, channel ≠ CHANNEL_COMMAND →
     HandlePacket env channel flags data h = Some (true, h)).
Proof.
  intros Hok Hau. split.
  - intros command tag r Hne. unfold HandleCommand, bind, get_conn.
    rewrite Hau. apply Z.eqb_neq in Hne. by rewrite Hne.
  - intros channel flags data Hne. unfold HandlePacket. apply Z.eqb_neq in Hne. rewrite Hne.
    unfold HandleStreamData, FindStream, bind, get_conn. cbn [negb].
    rewrite (ok_auth _ Hok Hau). done.
Qed.

Lemma unauthorised_is_inert_witness :
  HandlePacket quiet_env 0 0 [1; 2; 3] demo_new = Some (true, demo_new).
Proof.
  exact (proj2 (unauthorised_is_inert quiet_env demo_new (conn_ok_new 7) eq_refl) 0 0 [1; 2; 3]
    ltac:(discriminate)).
Defined.

(** C31: framing.  However the byte stream arrives - with part of a packet already
    in the input buffer and part of the next one at its end - one [ReadFrom]
    handles exactly the packets the bytes are the frames of, in order, with their
    channel, flags and payload as [Send] framed them, and keeps the incomplete
    tail for the next call. *)
Theorem read_from_frames env ps tail h :
  Forall pk_ok ps → incomplete tail →
  let chunk := read_loop (e_reads env (h_tick h)) (c_in (h_conn h)) in
  chunk = (true, wire ps ++ tail) →
  ReadFrom env h
  = match handle_packets env ps
            (mkHState (with_in (wire ps ++ tail) (h_conn h)) (h_nextStreamIndex h)
               (h_nextClientIndex h) (S (h_tick h))) with
    | Some (true, h') =>
        Some (true, mkHState (with_in tail (h_conn h')) (h_nextStreamIndex h')
                      (h_nextClientIndex h') (h_tick h'))
    | Some (false, h') => Some (false, h')
    | None => None
    end.
Proof.
  intros Hps Hinc chunk Hch. unfold ReadFrom, bind, tick, get_conn, upd_conn. cbn [h_conn h_tick].
  change (read_loop _ _) with chunk. rewrite Hch. cbn [fst snd negb].
  set (h1 := mkHState (with_in (wire ps ++ tail) (h_conn h)) _ _ _).
  pose proof (packet_loop_frames env ps (length (wire ps ++ tail)) [] tail h1 Hps Hinc
    (Nat.le_refl _)) as Hl.
  simpl in Hl. cbv iota beta. cbn [h_conn h_nextStreamIndex h_nextClientIndex h_tick]. fold h1.
  rewrite Hl. destruct (handle_packets env ps h1) as [[[] h2]|]; [|done|done].
  by rewrite drop_app_length.
Qed.

(** An AUTH cut in the middle of its descriptor, the rest arriving later. *)
Definition auth_wire : Packet := mkPacket CHANNEL_COMMAND 0 auth_packet.
Definition split_env : Env :=
  mkEnv (λ _, [RdErr EINTR; RdData (drop 7 (pk_bytes auth_wire) ++ [0; 0])]) (λ _, []) (λ _, [])
    (λ _, []) (λ _, true) (λ _, None) (λ _, (0, 0)).
Definition split_h : HState :=
  mkHState (with_in (take 7 (pk_bytes auth_wire)) (Connection_new 7)) 0 0 0.

Lemma read_from_frames_witness :
  ∃ h', ReadFrom split_env split_h = Some (true, h') ∧ c_in (h_conn h') = [0; 0] ∧
    c_authorized (h_conn h') = true.
Proof.
  eexists. split.
  - rewrite (read_from_frames split_env [auth_wire] [0; 0] split_h);
      [vm_compute; reflexivity|by repeat constructor|left; vm_compute; lia|reflexivity].
  - split; reflexivity.
Defined.

(** Creating a stream grants its first credit.  When CREATE_PLAYBACK_STREAM
    succeeds, the new stream is in the table under the next channel number with
    the normalised attributes and an empty, well-formed ring of [maxlength] bytes,
    and the REPLY that is queued announces to the client that channel and exactly
    the credit the server has booked as outstanding. *)
Theorem create_grants_credit env tag r rq r' h :
  conn_ok (h_conn h) → c_authorized (h_conn h) = true → rd_ok r →
  get_create r = ROk rq r' → Valid (rq_ss rq) = true →
  let attr := fix_attr (rq_ss rq) (rq_attr rq) in
  fst (Open (e_created env (h_tick h)) (rq_ss rq) (Z.to_nat (maxlength attr))
         (Sink_new (B := Ring))) = true →
  let ch := c_nextChannel (h_conn h) in
  ∃ h' s k rest, HandleCreatePlayback env tag r h = Some (true, h') ∧
    c_streams (h_conn h') = <[ch := s]> (c_streams (h_conn h)) ∧
    stream_ok ch s ∧ st_attr s = attr ∧ st_outstanding s = tlength attr ∧
    st_sink s = Some k ∧ Buffered k = 0%nat ∧ sk_corked k = rq_corked rq ∧
    c_out (h_conn h')
      = c_out (h_conn h)
        ++ frame CHANNEL_COMMAND
             ((SendReplyHeader tag [] .> PutU32 ch .> PutU32 (st_index s) .> PutU32 (tlength attr))
                ++ rest) 0.
Proof.
  intros Hok Hau Hr Hg HV attr HO ch.
  pose proof (rspec_get_create r (proj1 Hr) (proj2 Hr)) as Hrq. rewrite Hg in Hrq.
  destruct Hrq as ((Hss & Hcm & Hu) & _).
  pose proof (fix_attr_ok _ _ HV Hu : attr_ok _ attr) as Ha.
  destruct (Open _ _ _ _) as [opened k0] eqn:HOp. simpl in HO. subst opened.
  destruct (Open_sink_ok _ _ _ _ Ha HOp) as [Hk0 Hb0].
  assert (wp (HandleCreatePlayback env tag r) (λ b h', b = true ∧
    ∃ s k rest, c_streams (h_conn h') = <[ch := s]> (c_streams (h_conn h)) ∧
      stream_ok ch s ∧ st_attr s = attr ∧ st_outstanding s = tlength attr ∧
      st_sink s = Some k ∧ Buffered k = 0%nat ∧ sk_corked k = rq_corked rq ∧
      c_out (h_conn h') = c_out (h_conn h) ++ frame CHANNEL_COMMAND
        ((SendReplyHeader tag [] .> PutU32 ch .> PutU32 (st_index s) .> PutU32 (tlength attr))
           ++ rest) 0) h) as Hwp.
  2: { destruct (wp_Some _ _ _ Hwp) as (b & h' & -> & -> & s & k & rest & H). by exists h', s, k, rest. }
  unfold HandleCreatePlayback, parse. rewrite Hg HV. cbn [negb].
  apply swp_bind. unfold wp at 1, tick. fold attr. rewrite HOp. cbn [fst snd negb].
  set (h1 := mkHState (h_conn h) _ _ _). unfold create_opened. apply swp_bind.
  eapply wp_preempt; [exact Hk0|]. intros k h2 Hk Hb [He2 _].
  rewrite with_out_nil in He2. apply swp_bind. unfold wp at 1, get_conn. rewrite He2. fold ch.
  apply swp_bind. unfold wp at 1, upd_conn. apply swp_bind. unfold wp at 1, next_stream_index.
  cbn [h_conn h_nextStreamIndex h_nextClientIndex h_tick]. rewrite He2.
  set (h3 := mkHState _ _ _ _). apply swp_bind, wp_NowUsec. intros now h4 [He4 _].
  rewrite with_out_nil in He4. set (s := mkStream _ _ _ _ _ _ _ _ _ _ _ _ _ _).
  assert (flow_ok attr (tlength attr) (SetCorked (rq_corked rq) k)) as Hfl.
  { unfold flow_ok. change (Buffered (SetCorked (rq_corked rq) k)) with (Buffered k).
    destruct Ha as (? & ? & ? & ?). lia. }
  assert (stream_ok ch (with_outstanding (tlength attr) s)) as Hsok.
  { repeat split; try done; try apply (ok_next _ Hok); try apply Ha; try apply Hcm.
    eexists. split; [done|]. split; [exact Hk|exact Hfl]. }
  apply swp_bind. unfold sink_latency. apply swp_bind, wp_tick. intros n h5 [He5 _].
  rewrite with_out_nil in He5. simpl st_sink. cbv iota. apply swp_ret, swp_bind.
  edestruct (create_reply_prefix tag s) as (t & Ht & [rest Hrest]); [exact Hcm|].
  eapply wp_of_option; [exact Ht|]. apply swp_bind, wp_SendTag. intros h6 [He6 _].
  apply swp_bind, wp_put_stream. intros h7 Hup _ _. apply swp_ret. split; [done|].
  exists (with_outstanding (tlength attr) s), (SetCorked (rq_corked rq) k), rest.
  rewrite Hup He6 He5 He4. split_and!; try done.
  - change (Buffered (SetCorked (rq_corked rq) k)) with (Buffered k). lia.
  - cbn [with_streams with_out c_out h_conn h3 with_nextChannel]. rewrite Hrest.
    unfold frames. cbn [fmap list_fmap concat]. by rewrite app_nil_r.
Qed.

Lemma create_grants_credit_witness :
  ∃ h' s k rest,
    HandleCreatePlayback quiet_env 1 (with_off (TagReader_new create_packet) 10) demo_authorised
      = Some (true, h') ∧
    c_streams (h_conn h') = <[0 := s]> (c_streams (h_conn demo_authorised)) ∧
    st_outstanding s = 32 ∧ st_sink s = Some k ∧ Buffered k = 0%nat ∧
    c_out (h_conn h')
      = c_out (h_conn demo_authorised)
        ++ frame CHANNEL_COMMAND
             ((SendReplyHeader 1 [] .> PutU32 0 .> PutU32 (st_index s) .> PutU32 32) ++ rest) 0.
Proof.
  remember (get_create (with_off (TagReader_new create_packet) 10)) as g eqn:Hg.
  vm_compute in Hg. destruct g as [rq r'|r'|]; [|discriminate Hg|discriminate Hg].
  edestruct (create_grants_credit quiet_env 1 (with_off (TagReader_new create_packet) 10) rq r'
    demo_authorised) as (h' & s & k & rest & H1 & H2 & _ & _ & H5 & H6 & H7 & _ & H9).
  - apply after_ok; [apply conn_ok_new|by apply packet_bytes_ok; vm_compute|by vm_compute].
  - reflexivity.
  - split; [unfold reader_ok; vm_compute; lia|by apply packet_bytes_ok; vm_compute].
  - rewrite Hg. vm_compute. reflexivity.
  - injection Hg as -> ->. reflexivity.
  - injection Hg as -> ->. reflexivity.
  - exists h', s, k, rest. injection Hg as -> ->.
    split; [exact H1|]. split; [exact H2|]. split; [exact H5|]. split; [exact H6|].
    split; [exact H7|exact H9].
Defined.
