(* ===== verification/Gralloc.v ===== *)
(** * Buffer allocation (x86_general/hardware/display/src/display_gralloc)

    [Allocator] (allocator.{h,cpp}), [DrmAllocator] (drm_allocator.cpp),
    [AllocatorManager] (allocator_manager.cpp) and the VDI entry points
    (display_buffer_vdi_impl.cpp).

    The kernel is a small state - the live GEM handles, the open descriptors and
    the mappings of the process - together with the answers of its calls, which
    are arguments ([KernelAnswers]).  The enumerators of [PixelFormat] and the
    error codes are the ones the source names; their values belong to OpenHarmony
    headers and are not needed.  The [HBM_USE_*] masks are variables. *)

From S2P Require Import Prelude.
Set Warnings "-rewrite-rw,-clear-no-such-hyp".

Inductive DispError :=
| DISPLAY_SUCCESS | DISPLAY_FAILURE | DISPLAY_NOT_SUPPORT | DISPLAY_NULL_PTR
| DISPLAY_PARAM_ERR | DISPLAY_SYS_BUSY | DISPLAY_NOMEM.
#[export] Instance DispError_eq_dec : EqDecision DispError.
Proof. solve_decision. Defined.

Inductive PixelFormat :=
| PIXEL_FMT_CLUT8 | PIXEL_FMT_RGB_565 | PIXEL_FMT_BGR_565
| PIXEL_FMT_RGBX_4444 | PIXEL_FMT_RGBA_4444 | PIXEL_FMT_BGRX_4444 | PIXEL_FMT_BGRA_4444
| PIXEL_FMT_BGRX_5551 | PIXEL_FMT_BGRA_5551 | PIXEL_FMT_RGB_888
| PIXEL_FMT_RGBX_8888 | PIXEL_FMT_RGBA_8888 | PIXEL_FMT_BGRX_8888 | PIXEL_FMT_BGRA_8888
| PIXEL_FMT_YUV_422_I | PIXEL_FMT_YCBCR_422_SP | PIXEL_FMT_YCRCB_422_SP
| PIXEL_FMT_YCBCR_420_SP | PIXEL_FMT_YCRCB_420_SP | PIXEL_FMT_YCBCR_422_P
| PIXEL_FMT_YCRCB_422_P | PIXEL_FMT_YCBCR_420_P | PIXEL_FMT_YCRCB_420_P
| PIXEL_FMT_YUYV_422_PKG | PIXEL_FMT_UYVY_422_PKG | PIXEL_FMT_YVYU_422_PKG
| PIXEL_FMT_VYUY_422_PKG
| PIXEL_FMT_BUTT                     (* the default member value *)
| PIXEL_FMT_UNKNOWN (code : Z).      (* any other value of the enum *)
#[export] Instance PixelFormat_eq_dec : EqDecision PixelFormat.
Proof. solve_decision. Defined.

(** ** Sizes *)

(** [AlignUp<uint32_t>] and [DivRoundUp<uint32_t>]. *)
Definition AlignUp (value align : Z) : Z :=
  if align =? 0 then 0 else u32 (u32 (value + align - 1) / align * align).
Definition DivRoundUp (numerator denominator : Z) : Z :=
  if denominator =? 0 then 0 else u32 (numerator + denominator - 1) / denominator.

Definition BITS_PER_BYTES : Z := 8.
Definition HEIGHT_ALIGN : Z := 64.
Definition HEIGHT_ALIGN_YUV : Z := 16.
Definition WIDTH_ALIGN : Z := 64.

Record AllocInfo := mkAllocInfo
  { ai_width : Z; ai_height : Z; ai_usage : Z; ai_format : PixelFormat }.

Record BufferInfo := mkBufferInfo {
  bi_width : Z; bi_height : Z; bi_widthStride : Z; bi_heightStride : Z;
  bi_bitsPerPixel : Z; bi_bytesPerPixel : Z; bi_size : Z; bi_usage : Z;
  bi_format : PixelFormat }.
Definition BufferInfo_new : BufferInfo := mkBufferInfo 0 0 0 0 0 0 0 0 PIXEL_FMT_BUTT.

Definition IsYuv (format : PixelFormat) : bool :=
  match format with
  | PIXEL_FMT_YCBCR_420_P | PIXEL_FMT_YUV_422_I | PIXEL_FMT_YCBCR_422_SP
  | PIXEL_FMT_YCRCB_422_SP | PIXEL_FMT_YCBCR_420_SP | PIXEL_FMT_YCRCB_420_SP
  | PIXEL_FMT_YCBCR_422_P | PIXEL_FMT_YCRCB_422_P | PIXEL_FMT_YCRCB_420_P
  | PIXEL_FMT_YUYV_422_PKG | PIXEL_FMT_UYVY_422_PKG | PIXEL_FMT_YVYU_422_PKG
  | PIXEL_FMT_VYUY_422_PKG => true
  | _ => false
  end.

(** The two switches of [UpdatePixelInfo]; [None] is the default case. *)
Definition bits_per_pixel (format : PixelFormat) : option Z :=
  if IsYuv format then Some 8
  else
    match format with
    | PIXEL_FMT_RGBX_8888 | PIXEL_FMT_RGBA_8888 | PIXEL_FMT_BGRX_8888
    | PIXEL_FMT_BGRA_8888 => Some 32
    | PIXEL_FMT_RGB_888 => Some 24
    | PIXEL_FMT_RGB_565 | PIXEL_FMT_BGR_565 | PIXEL_FMT_BGRX_4444 | PIXEL_FMT_BGRA_4444
    | PIXEL_FMT_RGBA_4444 | PIXEL_FMT_RGBX_4444 | PIXEL_FMT_BGRX_5551
    | PIXEL_FMT_BGRA_5551 => Some 16
    | PIXEL_FMT_CLUT8 => Some 8
    | _ => None
    end.

Definition UpdatePixelInfo (b : BufferInfo) : DispError * BufferInfo :=
  match bits_per_pixel (bi_format b) with
  | None => (DISPLAY_NOT_SUPPORT, b)
  | Some bpp =>
      (DISPLAY_SUCCESS,
       mkBufferInfo (bi_width b) (bi_height b) (bi_widthStride b) (bi_heightStride b) bpp
         (bpp / BITS_PER_BYTES) (bi_size b) (bi_usage b) (bi_format b))
  end.

Definition with_strides (ws hs size : Z) (b : BufferInfo) : BufferInfo :=
  mkBufferInfo (bi_width b) (bi_height b) ws hs (bi_bitsPerPixel b) (bi_bytesPerPixel b) size
    (bi_usage b) (bi_format b).

Definition UpdateRGBStrideAndSize (b : BufferInfo) : DispError * BufferInfo :=
  let ws := AlignUp (bi_width b) WIDTH_ALIGN in
  let hs := AlignUp (bi_height b) HEIGHT_ALIGN in
  (DISPLAY_SUCCESS, with_strides ws hs (u32 (u32 (ws * hs) * bi_bytesPerPixel b)) b).

Definition UV_DIV_420 : Z := 2.

Definition UpdateYuvStrideAndSize (b : BufferInfo) : DispError * BufferInfo :=
  let ws := AlignUp (bi_width b) WIDTH_ALIGN in
  let hs := AlignUp (bi_height b) HEIGHT_ALIGN_YUV in
  match bi_format b with
  | PIXEL_FMT_YCBCR_420_SP | PIXEL_FMT_YCRCB_420_SP | PIXEL_FMT_YCBCR_420_P
  | PIXEL_FMT_YCRCB_420_P =>
      (DISPLAY_SUCCESS, with_strides ws hs (u32 (u32 (ws * hs) * 3) / UV_DIV_420) b)
  | PIXEL_FMT_YCBCR_422_SP | PIXEL_FMT_YCRCB_422_SP | PIXEL_FMT_YCBCR_422_P
  | PIXEL_FMT_YCRCB_422_P =>
      (DISPLAY_SUCCESS, with_strides ws hs (u32 (u32 (ws * hs) * UV_DIV_420)) b)
  | _ => (DISPLAY_NOT_SUPPORT, with_strides ws hs (bi_size b) b)
  end.

Definition UpdateStrideAndSize (b : BufferInfo) : DispError * BufferInfo :=
  if IsYuv (bi_format b) then UpdateYuvStrideAndSize b else UpdateRGBStrideAndSize b.

Definition ConvertToBufferInfo (info : AllocInfo) (b : BufferInfo) : DispError * BufferInfo :=
  let b := mkBufferInfo (ai_width info) (ai_height info) (bi_widthStride b) (bi_heightStride b)
             (bi_bitsPerPixel b) (bi_bytesPerPixel b) (bi_size b) (ai_usage info)
             (ai_format info) in
  let '(ret, b) := UpdatePixelInfo b in
  if bool_decide (ret ≠ DISPLAY_SUCCESS) then (DISPLAY_NOT_SUPPORT, b)
  else
    let '(ret, b) := UpdateStrideAndSize b in
    if bool_decide (ret ≠ DISPLAY_SUCCESS) then (DISPLAY_NOT_SUPPORT, b)
    else (DISPLAY_SUCCESS, b).

(** ** Buffers and the kernel *)

Record BufferHandle := mkBufferHandle {
  bh_fd : Z; bh_width : Z; bh_stride : Z; bh_height : Z; bh_size : Z;
  bh_format : PixelFormat; bh_usage : Z; bh_virAddr : option Z; bh_reserve : list Z;
  bh_phyAddr : Z }.

Record Kernel := mkKernel {
  k_gem : gset Z;                     (* live GEM handles of the DRM file *)
  k_fds : gset Z;                     (* open descriptors of the process *)
  k_maps : gmap Z Z;                  (* mappings: address to length *)
}.

(** What the kernel answers to the calls of one allocation: CREATE_DUMB gives
    a handle and a size, [drmPrimeHandleToFD] a descriptor. *)
Record KernelAnswers := mkKernelAnswers {
  ka_dumb : option (Z * Z);
  ka_prime : option Z;
  ka_destroy : bool;
}.

Definition with_gem (x : gset Z) (k : Kernel) : Kernel := mkKernel x (k_fds k) (k_maps k).
Definition with_fds (x : gset Z) (k : Kernel) : Kernel := mkKernel (k_gem k) x (k_maps k).
Definition with_maps (x : gmap Z Z) (k : Kernel) : Kernel := mkKernel (k_gem k) (k_fds k) x.

Definition close_fd (fd : Z) (k : Kernel) : Kernel := with_fds (k_fds k ∖ {[fd]}) k.

Section Gralloc.
Context (HBM_USE_MEM_FB HBM_USE_CPU_WRITE HBM_USE_CPU_READ : Z).

(** [DrmAllocator::Allocate]: the result, the handle and the kernel. *)
Definition Allocate (ka : KernelAnswers) (b : BufferInfo) (h : BufferHandle) (k : Kernel)
    : DispError * BufferHandle * Kernel :=
  match ka_dumb ka with
  | None => (DISPLAY_FAILURE, h, k)
  | Some (gem, size) =>
      let k := with_gem ({[gem]} ∪ k_gem k) k in
      match ka_prime ka with
      | None => (DISPLAY_FAILURE, h, k)
      | Some fd =>
          let k := with_fds ({[fd]} ∪ k_fds k) k in
          let format := if negb (Z.land (bh_usage h) HBM_USE_MEM_FB =? 0)
                        then PIXEL_FMT_BGRX_8888 else bh_format h in
          let h := mkBufferHandle fd (bh_width h) (bh_stride h) (bh_height h) (s32 size) format
                     (bh_usage h) (bh_virAddr h) (bh_reserve h) (bh_phyAddr h) in
          let k := if ka_destroy ka then with_gem (k_gem k ∖ {[gem]}) k else k in
          (DISPLAY_SUCCESS, h, k)
      end
  end.

(** The arguments of DRM_IOCTL_MODE_CREATE_DUMB. *)
Record DumbArgs := mkDumbArgs { dumb_width : Z; dumb_height : Z; dumb_bpp : Z }.
Definition dumb_args (b : BufferInfo) : DumbArgs :=
  mkDumbArgs (bi_widthStride b) (bi_heightStride b) (bi_bitsPerPixel b).

(** [Allocator::AllocMem] with [DrmAllocator]'s [Allocate]; [malloced] is whether
    [malloc] gave memory. *)
Definition AllocMem (malloced : bool) (ka : KernelAnswers) (info : AllocInfo) (k : Kernel)
    : DispError * option BufferHandle * Kernel :=
  let '(ret, b) := ConvertToBufferInfo info BufferInfo_new in
  if bool_decide (ret ≠ DISPLAY_SUCCESS) then (DISPLAY_NOT_SUPPORT, None, k)
  else if negb malloced then (DISPLAY_NOT_SUPPORT, None, k)
  else
    let h := mkBufferHandle (-1) (s32 (bi_width b))
               (s32 (u32 (bi_widthStride b * bi_bytesPerPixel b))) (s32 (bi_height b))
               (s32 (bi_size b)) (bi_format b) (bi_usage b) None [] 0 in
    let '(ret, h, k) := Allocate ka b h k in
    if bool_decide (ret ≠ DISPLAY_SUCCESS) then (ret, None, k) else (DISPLAY_SUCCESS, Some h, k).

(** [Allocator::FreeMem]; the handle is gone afterwards. *)
Definition FreeMem (h : option BufferHandle) (k : Kernel) : DispError * Kernel :=
  match h with
  | None => (DISPLAY_NULL_PTR, k)
  | Some h =>
      let k := if 0 <=? bh_fd h then close_fd (bh_fd h) k else k in
      (DISPLAY_SUCCESS,
       foldl (λ k fd, if 0 <=? fd then close_fd fd k else k) k (bh_reserve h))
  end.

(** *** Cache maintenance *)

(** linux/dma-buf.h. *)
Definition DMA_BUF_SYNC_READ : Z := 1.
Definition DMA_BUF_SYNC_WRITE : Z := 2.
Definition DMA_BUF_SYNC_START : Z := 0.
Definition DMA_BUF_SYNC_END : Z := 4.
Definition errno_EAGAIN : Z := 11.
Definition errno_EINTR : Z := 4.

(** The retry loop: the [ioctl] results of one call, [retryMaxCount] at most;
    the result is [retryCount]. *)
Definition retryMaxCount : nat := 6.
Fixpoint sync_retries (rets : nat → Z) (budget count : nat) : nat :=
  match budget with
  | O => count
  | S budget =>
      if negb (rets count =? - errno_EAGAIN) && negb (rets count =? - errno_EINTR) then count
      else sync_retries rets budget (S count)
  end.

(** [DmaBufferSync]: the flags given to DMA_BUF_IOCTL_SYNC (if it is called) and
    the result. *)
Definition DmaBufferSync (rets : nat → Z) (h : BufferHandle) (flag : Z) : option Z * DispError :=
  if bh_fd h <? 0 then (None, DISPLAY_SUCCESS)
  else
    let flags := if negb (Z.land (bh_usage h) HBM_USE_CPU_WRITE =? 0)
                 then Z.lor 0 DMA_BUF_SYNC_WRITE else 0 in
    let flags := if negb (Z.land (bh_usage h) HBM_USE_CPU_READ =? 0)
                 then Z.lor flags DMA_BUF_SYNC_READ else flags in
    (Some flags,
     if (retryMaxCount <=? sync_retries rets retryMaxCount 0)%nat then DISPLAY_SYS_BUSY
     else DISPLAY_SUCCESS).

Definition InvalidateCache (rets : nat → Z) (h : BufferHandle) : option Z * DispError :=
  DmaBufferSync rets h DMA_BUF_SYNC_END.
Definition FlushCache (rets : nat → Z) (h : BufferHandle) : option Z * DispError :=
  DmaBufferSync rets h DMA_BUF_SYNC_START.

(** *** Mapping *)

Definition with_virAddr (x : option Z) (h : BufferHandle) : BufferHandle :=
  mkBufferHandle (bh_fd h) (bh_width h) (bh_stride h) (bh_height h) (bh_size h) (bh_format h)
    (bh_usage h) x (bh_reserve h) (bh_phyAddr h).

(** [Mmap]; [mapped] is what [mmap] returns, [None] for MAP_FAILED. *)
Definition Mmap (mapped : option Z) (h : BufferHandle) (k : Kernel)
    : option Z * BufferHandle * Kernel :=
  match bh_virAddr h with
  | Some a => (Some a, h, k)
  | None =>
      match mapped with
      | None => (None, with_virAddr None h, k)
      | Some a => (Some a, with_virAddr (Some a) h, with_maps (<[a := bh_size h]> (k_maps k)) k)
      end
  end.

Definition Unmap (unmapped : bool) (h : BufferHandle) (k : Kernel)
    : DispError * BufferHandle * Kernel :=
  match bh_virAddr h with
  | None => (DISPLAY_PARAM_ERR, h, k)
  | Some a =>
      if negb unmapped then (DISPLAY_FAILURE, h, k)
      else (DISPLAY_SUCCESS, with_virAddr None h, with_maps (delete a (k_maps k)) k)
  end.

(** ** The manager *)

(** An allocator object: the descriptor of the DRM file. *)
Record Manager := mkManager {
  mg_users : nat;
  mg_frameBufferAllocator : option Z;
  mg_allocator : option Z;
}.
Definition Manager_new : Manager := mkManager 0 None None.

(** [DrmAllocator::Init]; [opened] is the result of [open]. *)
Definition DrmAllocator_Init (opened : Z) (k : Kernel) : DispError * Kernel :=
  if opened <? 0 then (DISPLAY_FAILURE, k)
  else (DISPLAY_SUCCESS, with_fds ({[opened]} ∪ k_fds k) k).

Definition Manager_Init (opened : Z) (mg : Manager) (k : Kernel) : DispError * Manager * Kernel :=
  if (0 <? mg_users mg)%nat then
    (DISPLAY_SUCCESS,
     mkManager (S (mg_users mg)) (mg_frameBufferAllocator mg) (mg_allocator mg), k)
  else
    let '(ret, k) := DrmAllocator_Init opened k in
    if bool_decide (ret ≠ DISPLAY_SUCCESS) then (DISPLAY_FAILURE, mg, k)
    else (DISPLAY_SUCCESS, mkManager 1 (Some opened) (Some opened), k).

(** [DeInit]; the last reset runs [~DrmAllocator], which closes the file. *)
Definition Manager_DeInit (mg : Manager) (k : Kernel) : DispError * Manager * Kernel :=
  match mg_users mg with
  | O => (DISPLAY_SUCCESS, mg, k)
  | S users =>
      if (0 <? users)%nat then
        (DISPLAY_SUCCESS, mkManager users (mg_frameBufferAllocator mg) (mg_allocator mg), k)
      else
        (DISPLAY_SUCCESS, mkManager 0 None None,
         match mg_allocator mg with
         | Some fd => if 0 <=? fd then close_fd fd k else k
         | None => k
         end)
  end.

Definition GetAllocator (usage : Z) (mg : Manager) : option Z :=
  if negb (Z.land usage HBM_USE_MEM_FB =? 0) then mg_frameBufferAllocator mg else mg_allocator mg.

(** [DisplayBufferVdiImpl::AllocMem]; [None] is the null allocator dereferenced. *)
Definition Vdi_AllocMem (malloced : bool) (ka : KernelAnswers) (info : AllocInfo) (mg : Manager)
    (k : Kernel) : option (DispError * option BufferHandle * Kernel) :=
  _ ← GetAllocator (ai_usage info) mg; Some (AllocMem malloced ka info k).
Definition Vdi_FreeMem (h : BufferHandle) (mg : Manager) (k : Kernel)
    : option (DispError * Kernel) :=
  _ ← GetAllocator (bh_usage h) mg; Some (FreeMem (Some h) k).
Definition Vdi_Mmap (mapped : option Z) (h : BufferHandle) (mg : Manager) (k : Kernel)
    : option (option Z * BufferHandle * Kernel) :=
  _ ← GetAllocator (bh_usage h) mg; Some (Mmap mapped h k).
Definition Vdi_Unmap (unmapped : bool) (h : BufferHandle) (mg : Manager) (k : Kernel)
    : option (DispError * BufferHandle * Kernel) :=
  _ ← GetAllocator (bh_usage h) mg; Some (Unmap unmapped h k).
Definition Vdi_FlushCache (rets : nat → Z) (h : BufferHandle) (mg : Manager)
    : option (option Z * DispError) :=
  _ ← GetAllocator (bh_usage h) mg; Some (FlushCache rets h).
Definition Vdi_InvalidateCache (rets : nat → Z) (h : BufferHandle) (mg : Manager)
    : option (option Z * DispError) :=
  _ ← GetAllocator (bh_usage h) mg; Some (InvalidateCache rets h).

End Gralloc.

(** ** Size arithmetic *)

Lemma AlignUp_spec value align :
  0 < align ≤ 4096 → 0 ≤ value ≤ 2 ^ 31 →
  AlignUp value align mod align = 0 ∧ value ≤ AlignUp value align < value + align.
Proof.
  intros Ha Hv. unfold AlignUp. destruct (Z.eqb_spec align 0); [lia|].
  rewrite (u32_id (value + align - 1)); [|unfold is_u32; lia].
  set (q := (value + align - 1) / align).
  assert (value ≤ q * align < value + align) as Hq.
  { unfold q. pose proof (Z.div_mod (value + align - 1) align ltac:(lia)).
    pose proof (Z.mod_pos_bound (value + align - 1) align ltac:(lia)). nia. }
  rewrite u32_id; [|unfold is_u32; lia]. split; [apply Z.mod_mul; lia|done].
Qed.

(** The number of bytes a format needs for a plane of [n] aligned pixels. *)
Definition format_bytes (format : PixelFormat) (n : Z) : option Z :=
  match format with
  | PIXEL_FMT_YCBCR_420_SP | PIXEL_FMT_YCRCB_420_SP | PIXEL_FMT_YCBCR_420_P
  | PIXEL_FMT_YCRCB_420_P => Some (n * 3 / 2)
  | PIXEL_FMT_YCBCR_422_SP | PIXEL_FMT_YCRCB_422_SP | PIXEL_FMT_YCBCR_422_P
  | PIXEL_FMT_YCRCB_422_P => Some (n * 2)
  | PIXEL_FMT_YUV_422_I | PIXEL_FMT_YUYV_422_PKG | PIXEL_FMT_UYVY_422_PKG
  | PIXEL_FMT_YVYU_422_PKG | PIXEL_FMT_VYUY_422_PKG => None
  | PIXEL_FMT_RGBX_8888 | PIXEL_FMT_RGBA_8888 | PIXEL_FMT_BGRX_8888 | PIXEL_FMT_BGRA_8888 =>
      Some (n * 4)
  | PIXEL_FMT_RGB_888 => Some (n * 3)
  | PIXEL_FMT_RGB_565 | PIXEL_FMT_BGR_565 | PIXEL_FMT_BGRX_4444 | PIXEL_FMT_BGRA_4444
  | PIXEL_FMT_RGBA_4444 | PIXEL_FMT_RGBX_4444 | PIXEL_FMT_BGRX_5551 | PIXEL_FMT_BGRA_5551 =>
      Some (n * 2)
  | PIXEL_FMT_CLUT8 => Some n
  | _ => None
  end.

Definition height_align (format : PixelFormat) : Z :=
  if IsYuv format then HEIGHT_ALIGN_YUV else HEIGHT_ALIGN.

Definition MAX_DIM : Z := 16384.

Lemma ConvertToBufferInfo_exact info :
  0 < ai_width info ≤ MAX_DIM → 0 < ai_height info ≤ MAX_DIM →
  let ws := AlignUp (ai_width info) WIDTH_ALIGN in
  let hs := AlignUp (ai_height info) (height_align (ai_format info)) in
  match format_bytes (ai_format info) (ws * hs) with
  | None => fst (ConvertToBufferInfo info BufferInfo_new) = DISPLAY_NOT_SUPPORT
  | Some size =>
      0 < size ≤ 2 ^ 30 ∧ ∃ bpp, bits_per_pixel (ai_format info) = Some bpp ∧
      ConvertToBufferInfo info BufferInfo_new
      = (DISPLAY_SUCCESS, mkBufferInfo (ai_width info) (ai_height info) ws hs bpp (bpp / 8) size
                            (ai_usage info) (ai_format info))
  end.
Proof.
  intros Hw Hh ws hs. unfold MAX_DIM in *. destruct info as [w h usage format].
  unfold height_align in hs. cbn [ai_width ai_height ai_usage ai_format] in *.
  assert (0 < ws ≤ 2 ^ 14 ∧ 0 < hs ≤ 2 ^ 14) as [Hws Hhs].
  { destruct (AlignUp_spec w WIDTH_ALIGN) as [H1 H2]; [unfold WIDTH_ALIGN; lia|lia|].
    destruct (AlignUp_spec h (if IsYuv format then HEIGHT_ALIGN_YUV else HEIGHT_ALIGN)) as [H3 H4];
      [unfold HEIGHT_ALIGN_YUV, HEIGHT_ALIGN; case_match; lia|lia|].
    fold ws in H1, H2. fold hs in H3, H4.
    unfold WIDTH_ALIGN, HEIGHT_ALIGN_YUV, HEIGHT_ALIGN in *.
    destruct (IsYuv format); Z.to_euclidean_division_equations; lia. }
  assert (0 < ws * hs ≤ 2 ^ 28) as Hp by nia.
  assert (∀ n, 0 < n ≤ 4 → u32 (u32 (ws * hs) * n) = ws * hs * n) as Hu.
  { intros n Hn. rewrite (u32_id (ws * hs)); [|unfold is_u32; lia].
    apply u32_id. unfold is_u32. nia. }
  assert (u32 (ws * hs * 3) = ws * hs * 3) as H3 by (apply u32_id; unfold is_u32; lia).
  assert (u32 (ws * hs) = ws * hs) as H1 by (apply u32_id; unfold is_u32; lia).
  unfold ConvertToBufferInfo, UpdatePixelInfo, bits_per_pixel, UpdateStrideAndSize,
    UpdateYuvStrideAndSize, UpdateRGBStrideAndSize, with_strides, BITS_PER_BYTES, UV_DIV_420.
  destruct format; cbn [IsYuv format_bytes] in hs |- *; try done;
    (split; [Z.to_euclidean_division_equations; lia|]; eexists; split; [done|];
     cbn -[u32 AlignUp Z.div Z.mul]; fold ws hs; rewrite ?Hu ?H1 ?H3 ?Z.mul_1_r; try lia; done).
Qed.

Lemma alloc_dims info :
  0 < ai_width info ≤ MAX_DIM → 0 < ai_height info ≤ MAX_DIM →
  (ai_width info ≤ AlignUp (ai_width info) WIDTH_ALIGN ≤ MAX_DIM) ∧
  (ai_height info ≤ AlignUp (ai_height info) (height_align (ai_format info)) ≤ MAX_DIM).
Proof.
  unfold MAX_DIM. intros Hw Hh.
  destruct (AlignUp_spec (ai_width info) WIDTH_ALIGN) as [H1 H2]; [unfold WIDTH_ALIGN; lia|lia|].
  destruct (AlignUp_spec (ai_height info) (height_align (ai_format info))) as [H3 H4];
    [unfold height_align, HEIGHT_ALIGN_YUV, HEIGHT_ALIGN; case_match; lia|lia|].
  unfold WIDTH_ALIGN, height_align, HEIGHT_ALIGN_YUV, HEIGHT_ALIGN in *.
  destruct (IsYuv (ai_format info)); Z.to_euclidean_division_equations; lia.
Qed.

(** ** Properties *)

(** C36: size computations do not overflow for any screen-sized buffer.  For a
    supported format and dimensions up to 16384, the strides are the smallest
    multiples of the alignment that hold the image, the size is the exact number
    of bytes the format needs for them and fits [int32_t]; the formats that are
    refused are exactly the packed YUV ones and those not named. *)
Theorem alloc_size_exact info :
  0 < ai_width info ≤ MAX_DIM → 0 < ai_height info ≤ MAX_DIM →
  let ws := AlignUp (ai_width info) WIDTH_ALIGN in
  let hs := AlignUp (ai_height info) (height_align (ai_format info)) in
  ws mod WIDTH_ALIGN = 0 ∧ ai_width info ≤ ws < ai_width info + WIDTH_ALIGN ∧
  hs mod height_align (ai_format info) = 0 ∧
  ai_height info ≤ hs < ai_height info + height_align (ai_format info) ∧
  match format_bytes (ai_format info) (ws * hs) with
  | None => fst (ConvertToBufferInfo info BufferInfo_new) = DISPLAY_NOT_SUPPORT
  | Some size =>
      s32 size = size ∧ ∃ b, ConvertToBufferInfo info BufferInfo_new = (DISPLAY_SUCCESS, b) ∧
        bi_widthStride b = ws ∧ bi_heightStride b = hs ∧ bi_size b = size
  end.
Proof.
  intros Hw Hh ws hs.
  destruct (AlignUp_spec (ai_width info) WIDTH_ALIGN) as [H1 H2];
    [unfold WIDTH_ALIGN; lia|unfold MAX_DIM in *; lia|].
  destruct (AlignUp_spec (ai_height info) (height_align (ai_format info))) as [H3 H4];
    [unfold height_align, HEIGHT_ALIGN_YUV, HEIGHT_ALIGN; case_match; lia
    |unfold MAX_DIM in *; lia|].
  pose proof (ConvertToBufferInfo_exact info Hw Hh) as He. cbv zeta in He. fold ws hs in He, H1, H2, H3, H4.
  split_and!; try done; try apply H2; try apply H4.
  destruct (format_bytes _ _) as [size|]; [|done].
  destruct He as (Hs & bpp & _ & He). split; [width_lia|]. eexists. split; [exact He|done].
Qed.

Lemma alloc_size_exact_witness :
  ∃ b, ConvertToBufferInfo (mkAllocInfo 1080 1920 3 PIXEL_FMT_RGBA_8888) BufferInfo_new
       = (DISPLAY_SUCCESS, b) ∧ bi_widthStride b = 1088 ∧ bi_heightStride b = 1920 ∧
         bi_size b = 8355840.
Proof.
  destruct (alloc_size_exact (mkAllocInfo 1080 1920 3 PIXEL_FMT_RGBA_8888)) as (_ & _ & _ & _ & H);
    [split; reflexivity || discriminate|split; reflexivity || discriminate|].
  exact (proj2 H).
Defined.

(** Planar YUV buffers are allocated too small.  The dumb buffer is asked for
    with the luma plane's dimensions at 8 bits per pixel; whenever the kernel
    grants what was asked for, rounded up to at most a page more, a 4:2:0 buffer
    of at least 8 KiB of luma comes back - with [DISPLAY_SUCCESS] - smaller than
    the size that was computed for it, and that smaller size is what the handle
    advertises. *)
Theorem yuv420_underallocated FB info gem granted fd k :
  ai_format info = PIXEL_FMT_YCBCR_420_SP →
  0 < ai_width info ≤ MAX_DIM → 0 < ai_height info ≤ MAX_DIM →
  8192 ≤ ai_width info * ai_height info →
  let b := snd (ConvertToBufferInfo info BufferInfo_new) in
  let asked := dumb_width (dumb_args b) * dumb_height (dumb_args b) * dumb_bpp (dumb_args b) / 8 in
  asked ≤ granted < asked + 4096 →
  ∃ h k', AllocMem FB true (mkKernelAnswers (Some (gem, granted)) (Some fd) true) info k
          = (DISPLAY_SUCCESS, Some h, k') ∧ bh_size h = granted ∧ bh_size h < bi_size b.
Proof.
  intros Hf Hw Hh Hbig b asked Hgr.
  pose proof (ConvertToBufferInfo_exact info Hw Hh) as He. cbv zeta in He.
  destruct (alloc_dims info Hw Hh) as (Hws & Hhs).
  rewrite Hf in He, Hhs. cbn [format_bytes] in He.
  set (ws := AlignUp (ai_width info) WIDTH_ALIGN) in *.
  set (hs := AlignUp (ai_height info) (height_align PIXEL_FMT_YCBCR_420_SP)) in *.
  destruct He as (Hs & bpp & [= <-] & He).
  subst asked b. unfold dumb_args in *. rewrite He in Hgr |- *. cbn [snd bi_widthStride bi_heightStride bi_bitsPerPixel bi_size dumb_width dumb_height dumb_bpp] in *.
  assert (ai_width info * ai_height info ≤ ws * hs) by nia.
  assert (ws * hs ≤ 2 ^ 28) by (unfold MAX_DIM in *; nia).
  rewrite Z.div_mul in Hgr; [|lia]. clearbody ws hs.
  unfold AllocMem. rewrite He. cbn [fst snd]. rewrite bool_decide_false; [|by intros []].
  cbn [negb]. unfold Allocate. cbn [ka_dumb ka_prime ka_destroy].
  rewrite bool_decide_false; [|by intros []].
  do 2 eexists. split; [done|]. cbn [bh_size].
  assert (s32 granted = granted) as ->; [|split; [done|]].
  - generalize dependent (ws * hs). intros n. intros. width_lia.
  - generalize dependent (ws * hs). intros n. intros. Z.to_euclidean_division_equations; lia.
Qed.

Lemma yuv420_underallocated_witness :
  ∃ h k', AllocMem 1 true (mkKernelAnswers (Some (9, 2088960)) (Some 21) true)
            (mkAllocInfo 1920 1080 0 PIXEL_FMT_YCBCR_420_SP) (mkKernel ∅ ∅ ∅)
          = (DISPLAY_SUCCESS, Some h, k') ∧ bh_size h = 2088960 ∧ bh_size h < 3133440.
Proof.
  apply (yuv420_underallocated 1 (mkAllocInfo 1920 1080 0 PIXEL_FMT_YCBCR_420_SP) 9 2088960 21
    (mkKernel ∅ ∅ ∅)); by vm_compute.
Defined.

(** Descriptors are balanced.  A failed [AllocMem] opens no descriptor; a
    successful one opens exactly the buffer's, hands it to the caller in the
    handle and keeps no GEM handle (when the kernel grants the destroy), and
    [FreeMem] of that handle restores the process's descriptors. *)
Theorem alloc_free_balanced FB malloced ka info k ret oh k' :
  AllocMem FB malloced ka info k = (ret, oh, k') →
  (∀ gem size, ka_dumb ka = Some (gem, size) → gem ∉ k_gem k) →
  (∀ fd, ka_prime ka = Some fd → (fd ∉ k_fds k) ∧ 0 ≤ fd) →
  match oh with
  | None => (ret ≠ DISPLAY_SUCCESS) ∧ k_fds k' = k_fds k
  | Some h =>
      ret = DISPLAY_SUCCESS ∧ k_fds k' = {[bh_fd h]} ∪ k_fds k ∧ (bh_fd h ∉ k_fds k) ∧
      (ka_destroy ka = true → k_gem k' = k_gem k) ∧
      FreeMem (Some h) k' = (DISPLAY_SUCCESS, with_fds (k_fds k) k')
  end.
Proof.
  intros HA Hgem Hfd. unfold AllocMem in HA.
  destruct (ConvertToBufferInfo info BufferInfo_new) as [r b].
  case_bool_decide; [naive_solver|]. destruct malloced; simpl in HA; [|naive_solver].
  unfold Allocate in HA. destruct (ka_dumb ka) as [[gem size]|]; [|naive_solver].
  destruct (ka_prime ka) as [fd|]; [|naive_solver].
  specialize (Hgem gem size eq_refl). destruct (Hfd fd eq_refl) as [Hnew Hpos].
  simplify_eq/=. split; [done|]. split; [by destruct (ka_destroy ka)|]. split; [done|]. split.
  - intros ->. simpl. set_solver.
  - destruct (Z.leb_spec 0 fd); [|lia]. unfold close_fd, with_fds.
    destruct (ka_destroy ka); simpl; do 2 f_equal; set_solver.
Qed.

Lemma alloc_free_balanced_witness :
  ∃ h k', AllocMem 1 true (mkKernelAnswers (Some (9, 8192)) (Some 21) true)
            (mkAllocInfo 32 64 0 PIXEL_FMT_RGBA_8888) (mkKernel {[5]} {[7]} ∅)
          = (DISPLAY_SUCCESS, Some h, k') ∧
          FreeMem (Some h) k' = (DISPLAY_SUCCESS, with_fds {[7]} k').
Proof.
  remember (AllocMem 1 true (mkKernelAnswers (Some (9, 8192)) (Some 21) true)
              (mkAllocInfo 32 64 0 PIXEL_FMT_RGBA_8888) (mkKernel {[5]} {[7]} ∅)) as r eqn:Hr.
  destruct r as [[ret oh] k']. symmetry in Hr.
  pose proof (alloc_free_balanced _ _ _ _ _ _ _ _ Hr) as Hb. cbn [ka_dumb ka_prime k_gem k_fds] in Hb.
  specialize (Hb ltac:(intros ? ? [= <- <-]; set_solver) ltac:(intros ? [= <-]; set_solver by lia)).
  destruct oh as [h|].
  - exists h, k'. split; [|apply Hb]. destruct Hb as [-> _]. reflexivity.
  - vm_compute in Hr. discriminate Hr.
Defined.

(** A failed export leaks the buffer.  When [drmPrimeHandleToFD] fails the
    allocation is reported as failed, but the dumb buffer created for it is never
    destroyed: its GEM handle stays live. *)
Theorem prime_failure_leaks FB gem size destroy info k :
  fst (ConvertToBufferInfo info BufferInfo_new) = DISPLAY_SUCCESS →
  ∃ k', AllocMem FB true (mkKernelAnswers (Some (gem, size)) None destroy) info k
        = (DISPLAY_FAILURE, None, k') ∧ gem ∈ k_gem k'.
Proof.
  intros Hc. unfold AllocMem. destruct (ConvertToBufferInfo _ _) as [r b]. simpl in Hc. subst r.
  eexists. split; [done|]. simpl. set_solver.
Qed.

Lemma prime_failure_leaks_witness :
  ∃ k', AllocMem 1 true (mkKernelAnswers (Some (9, 8192)) None true)
          (mkAllocInfo 32 64 0 PIXEL_FMT_RGB_565) (mkKernel ∅ ∅ ∅)
        = (DISPLAY_FAILURE, None, k') ∧ 9 ∈ k_gem k'.
Proof. apply prime_failure_leaks. reflexivity. Defined.

(** Cache maintenance has no direction.  [FlushCache] and [InvalidateCache]
    issue the same request - the direction they are called with is dropped, and
    the request never carries DMA_BUF_SYNC_END - and a request the kernel refuses
    (the [ioctl] returns -1) is reported as a success. *)
Theorem cache_sync_ignores_direction CPU_WRITE CPU_READ rets h :
  0 ≤ bh_fd h →
  FlushCache CPU_WRITE CPU_READ rets h = InvalidateCache CPU_WRITE CPU_READ rets h ∧
  (∃ flags, fst (InvalidateCache CPU_WRITE CPU_READ rets h) = Some flags ∧
            Z.land flags DMA_BUF_SYNC_END = 0) ∧
  (rets O = -1 → snd (InvalidateCache CPU_WRITE CPU_READ rets h) = DISPLAY_SUCCESS).
Proof.
  intros Hfd. split; [done|]. unfold InvalidateCache, DmaBufferSync.
  destruct (Z.ltb_spec (bh_fd h) 0); [lia|]. split.
  - eexists. split; [done|]. by repeat case_match.
  - intros Hr. unfold retryMaxCount. cbn [sync_retries]. by rewrite Hr.
Qed.

Lemma cache_sync_ignores_direction_witness :
  let h := mkBufferHandle 5 64 256 64 16384 PIXEL_FMT_RGBA_8888 3 None [] 0 in
  FlushCache 1 2 (λ _, -1) h = InvalidateCache 1 2 (λ _, -1) h ∧
  snd (InvalidateCache 1 2 (λ _, -1) h) = DISPLAY_SUCCESS.
Proof.
  destruct (cache_sync_ignores_direction 1 2 (λ _, -1)
    (mkBufferHandle 5 64 256 64 16384 PIXEL_FMT_RGBA_8888 3 None [] 0)) as (H1 & _ & H3);
    [discriminate|].
  split; [exact H1|exact (H3 eq_refl)].
Defined.

(** *** The manager's life time *)

Inductive manager_op := OpInit (opened : Z) | OpDeInit.

Definition manager_exec (op : manager_op) (s : Manager * Kernel) : Manager * Kernel :=
  match op with
  | OpInit opened => let '(_, mg, k) := Manager_Init opened (fst s) (snd s) in (mg, k)
  | OpDeInit => let '(_, mg, k) := Manager_DeInit (fst s) (snd s) in (mg, k)
  end.
Definition manager_run (ops : list manager_op) (s : Manager * Kernel) : Manager * Kernel :=
  foldl (λ s op, manager_exec op s) s ops.

(** While there are users both allocators are the same live object. *)
Definition manager_ok (s : Manager * Kernel) : Prop :=
  match mg_users (fst s) with
  | O => mg_allocator (fst s) = None ∧ mg_frameBufferAllocator (fst s) = None
  | S _ => ∃ fd, mg_allocator (fst s) = Some fd ∧ mg_frameBufferAllocator (fst s) = Some fd ∧
                 0 ≤ fd ∧ fd ∈ k_fds (snd s)
  end.

Lemma manager_exec_ok op s : manager_ok s → manager_ok (manager_exec op s).
Proof.
  destruct s as [mg k]. intros Hok. destruct op as [opened|]; simpl.
  - unfold Manager_Init, DrmAllocator_Init. destruct mg as [[|u] fb al]; simpl in *.
    + destruct (Z.ltb_spec opened 0); simpl; [done|]. exists opened. set_solver.
    + done.
  - unfold Manager_DeInit. destruct mg as [[|[|u]] fb al]; simpl in *; done.
Qed.

Lemma manager_run_ok ops s : manager_ok s → manager_ok (manager_run ops s).
Proof.
  revert s. induction ops as [|op ops IH]; intros s Hok; [done|]. by apply IH, manager_exec_ok.
Qed.

(** The allocators live exactly as long as somebody uses them.  After any
    sequence of [Init] and [DeInit] (of long- and short-lived VDI objects, with
    [open] failing or not) the allocators are there if and only if the user count
    is positive; while it is, every VDI entry point finds a live allocator (no
    null dereference), and when it is zero the DRM file has been closed. *)
Theorem manager_lifetime FB ops k :
  let s := manager_run ops (Manager_new, k) in
  ((0 < mg_users (fst s))%nat ↔ mg_allocator (fst s) ≠ None) ∧
  ((0 < mg_users (fst s))%nat → ∀ malloced ka info k',
     Vdi_AllocMem FB malloced ka info (fst s) k' ≠ None) ∧
  (∀ fd, mg_allocator (fst s) = Some fd → fd ∈ k_fds (snd s) ∧
     (mg_users (fst s) = 1%nat → fd ∉ k_fds (snd (manager_exec OpDeInit s)))).
Proof.
  intros s. assert (manager_ok s) as Hok by (by apply manager_run_ok).
  clearbody s. destruct s as [[users fb al] k0]. unfold manager_ok in Hok. simpl in *.
  destruct users as [|u]; [destruct Hok as [-> ->]|destruct Hok as (fd & -> & -> & Hpos & Hin)].
  - split_and!; [split; [lia|done]|lia|done].
  - split_and!.
    + split; [done|lia].
    + intros _ malloced ka info k'. unfold Vdi_AllocMem, GetAllocator. by case_match.
    + intros fd' [= <-]. split; [done|]. intros [= ->]. unfold Manager_DeInit. simpl.
      destruct (Z.leb_spec 0 fd); [|lia]. simpl. set_solver.
Qed.
