(* ===== verification/DispWorld.v ===== *)
(** * The display process (x86_general/hardware/display/src/display_device)

    Data and primitive effects shared by the models of the display HDI: the layer,
    CRTC, encoder, connector and plane objects with their members, the kernel's
    view of the process (descriptors; GEM handles, framebuffers, property blobs and
    committed atomic requests of the DRM file) and the state-and-fault monad the
    operations are written in.

    C++ objects that are shared by pointer live in the [World] and are named by an
    address (layers) or by their DRM id (CRTCs, encoders, connectors); a dangling or
    null pointer that is dereferenced is a fault ([None]).  [dup] and the other
    calls that open a descriptor take the lowest one that is free, as POSIX
    prescribes, or fail at RLIMIT_NOFILE; what the DRM driver answers to its calls is
    the function [dk_answer], one result and one out value per call. *)

From S2P Require Import Prelude Gralloc.
Set Warnings "-rewrite-rw,-clear-no-such-hyp".

(** ** Data *)

Definition INVALIDE_LAYER_ID : Z := 0xffffffff.
Definition INVALIDE_DISPLAY_ID : Z := 0xffffffff.
Definition INVALID_MODE_ID : Z := -1.
Definition DRM_INVALID_ID : Z := 0xffffffff.
Definition INVALID_DRM_ID : Z := 0.

Inductive LayerType :=
| LAYER_TYPE_GRAPHIC | LAYER_TYPE_OVERLAY | LAYER_TYPE_SIDEBAND | LAYER_TYPE_OTHER (code : Z).
#[export] Instance LayerType_eq_dec : EqDecision LayerType.
Proof. solve_decision. Defined.

Inductive CompositionType :=
| COMPOSITION_CLIENT | COMPOSITION_DEVICE | COMPOSITION_CURSOR | COMPOSITION_VIDEO
| COMPOSITION_OTHER (code : Z).
#[export] Instance CompositionType_eq_dec : EqDecision CompositionType.
Proof. solve_decision. Defined.

Record IRect := mkIRect { rect_x : Z; rect_y : Z; rect_w : Z; rect_h : Z }.
Record LayerAlpha := mkLayerAlpha { enGlobalAlpha : bool; gAlpha : Z }.

Record HdiLayerBuffer := mkHdiLayerBuffer {
  lb_mHandle : BufferHandle; lb_mPhyAddr : Z; lb_mHeight : Z; lb_mWidth : Z;
  lb_mStride : Z; lb_mFormat : PixelFormat; lb_mFd : Z }.

Record DrmGemBuffer := mkDrmGemBuffer {
  gb_mGemHandle : Z; gb_mFdId : Z; gb_mDrmFd : Z; gb_mDrmFormat : Z }.

(** [HdiLayer] with the members [HdiDrmLayer] adds. *)
Record HdiLayer := mkHdiLayer {
  l_mVisible : bool;
  l_mId : Z;
  l_mAcquireFence : Z;  (* HdiFd *)
  l_releaseFences_ : list Z;  (* front first *)
  l_mType : LayerType;
  l_mDisplayRect : IRect;
  l_mCrop : IRect;
  l_mZorder : Z;
  l_mPreMul : bool;
  l_mAlpha : LayerAlpha;
  l_mTransformType : Z;
  l_mCompositionType : CompositionType;
  l_mDeviceSelect : CompositionType;
  l_mBlendType : Z;
  l_mHdiBuffer : option HdiLayerBuffer;  (* unique_ptr *)
  l_mCurrentBuffer : option DrmGemBuffer;  (* of HdiDrmLayer *)
  l_lastBuffer_ : option DrmGemBuffer;  (* of HdiDrmLayer *)
}.
Definition set_l_mVisible (x : bool) (l : HdiLayer) : HdiLayer := mkHdiLayer x (l_mId l)
  (l_mAcquireFence l) (l_releaseFences_ l) (l_mType l) (l_mDisplayRect l) (l_mCrop l) (l_mZorder
  l) (l_mPreMul l) (l_mAlpha l) (l_mTransformType l) (l_mCompositionType l) (l_mDeviceSelect l)
  (l_mBlendType l) (l_mHdiBuffer l) (l_mCurrentBuffer l) (l_lastBuffer_ l).
Definition set_l_mId (x : Z) (l : HdiLayer) : HdiLayer := mkHdiLayer (l_mVisible l) x
  (l_mAcquireFence l) (l_releaseFences_ l) (l_mType l) (l_mDisplayRect l) (l_mCrop l) (l_mZorder
  l) (l_mPreMul l) (l_mAlpha l) (l_mTransformType l) (l_mCompositionType l) (l_mDeviceSelect l)
  (l_mBlendType l) (l_mHdiBuffer l) (l_mCurrentBuffer l) (l_lastBuffer_ l).
Definition set_l_mAcquireFence (x : Z) (l : HdiLayer) : HdiLayer := mkHdiLayer (l_mVisible l)
  (l_mId l) x (l_releaseFences_ l) (l_mType l) (l_mDisplayRect l) (l_mCrop l) (l_mZorder l)
  (l_mPreMul l) (l_mAlpha l) (l_mTransformType l) (l_mCompositionType l) (l_mDeviceSelect l)
  (l_mBlendType l) (l_mHdiBuffer l) (l_mCurrentBuffer l) (l_lastBuffer_ l).
Definition set_l_releaseFences_ (x : list Z) (l : HdiLayer) : HdiLayer := mkHdiLayer (l_mVisible
  l) (l_mId l) (l_mAcquireFence l) x (l_mType l) (l_mDisplayRect l) (l_mCrop l) (l_mZorder l)
  (l_mPreMul l) (l_mAlpha l) (l_mTransformType l) (l_mCompositionType l) (l_mDeviceSelect l)
  (l_mBlendType l) (l_mHdiBuffer l) (l_mCurrentBuffer l) (l_lastBuffer_ l).
Definition set_l_mType (x : LayerType) (l : HdiLayer) : HdiLayer := mkHdiLayer (l_mVisible l)
  (l_mId l) (l_mAcquireFence l) (l_releaseFences_ l) x (l_mDisplayRect l) (l_mCrop l) (l_mZorder
  l) (l_mPreMul l) (l_mAlpha l) (l_mTransformType l) (l_mCompositionType l) (l_mDeviceSelect l)
  (l_mBlendType l) (l_mHdiBuffer l) (l_mCurrentBuffer l) (l_lastBuffer_ l).
Definition set_l_mDisplayRect (x : IRect) (l : HdiLayer) : HdiLayer := mkHdiLayer (l_mVisible l)
  (l_mId l) (l_mAcquireFence l) (l_releaseFences_ l) (l_mType l) x (l_mCrop l) (l_mZorder l)
  (l_mPreMul l) (l_mAlpha l) (l_mTransformType l) (l_mCompositionType l) (l_mDeviceSelect l)
  (l_mBlendType l) (l_mHdiBuffer l) (l_mCurrentBuffer l) (l_lastBuffer_ l).
Definition set_l_mCrop (x : IRect) (l : HdiLayer) : HdiLayer := mkHdiLayer (l_mVisible l) (l_mId
  l) (l_mAcquireFence l) (l_releaseFences_ l) (l_mType l) (l_mDisplayRect l) x (l_mZorder l)
  (l_mPreMul l) (l_mAlpha l) (l_mTransformType l) (l_mCompositionType l) (l_mDeviceSelect l)
  (l_mBlendType l) (l_mHdiBuffer l) (l_mCurrentBuffer l) (l_lastBuffer_ l).
Definition set_l_mZorder (x : Z) (l : HdiLayer) : HdiLayer := mkHdiLayer (l_mVisible l) (l_mId l)
  (l_mAcquireFence l) (l_releaseFences_ l) (l_mType l) (l_mDisplayRect l) (l_mCrop l) x (l_mPreMul
  l) (l_mAlpha l) (l_mTransformType l) (l_mCompositionType l) (l_mDeviceSelect l) (l_mBlendType l)
  (l_mHdiBuffer l) (l_mCurrentBuffer l) (l_lastBuffer_ l).
Definition set_l_mPreMul (x : bool) (l : HdiLayer) : HdiLayer := mkHdiLayer (l_mVisible l) (l_mId
  l) (l_mAcquireFence l) (l_releaseFences_ l) (l_mType l) (l_mDisplayRect l) (l_mCrop l)
  (l_mZorder l) x (l_mAlpha l) (l_mTransformType l) (l_mCompositionType l) (l_mDeviceSelect l)
  (l_mBlendType l) (l_mHdiBuffer l) (l_mCurrentBuffer l) (l_lastBuffer_ l).
Definition set_l_mAlpha (x : LayerAlpha) (l : HdiLayer) : HdiLayer := mkHdiLayer (l_mVisible l)
  (l_mId l) (l_mAcquireFence l) (l_releaseFences_ l) (l_mType l) (l_mDisplayRect l) (l_mCrop l)
  (l_mZorder l) (l_mPreMul l) x (l_mTransformType l) (l_mCompositionType l) (l_mDeviceSelect l)
  (l_mBlendType l) (l_mHdiBuffer l) (l_mCurrentBuffer l) (l_lastBuffer_ l).
Definition set_l_mTransformType (x : Z) (l : HdiLayer) : HdiLayer := mkHdiLayer (l_mVisible l)
  (l_mId l) (l_mAcquireFence l) (l_releaseFences_ l) (l_mType l) (l_mDisplayRect l) (l_mCrop l)
  (l_mZorder l) (l_mPreMul l) (l_mAlpha l) x (l_mCompositionType l) (l_mDeviceSelect l)
  (l_mBlendType l) (l_mHdiBuffer l) (l_mCurrentBuffer l) (l_lastBuffer_ l).
Definition set_l_mCompositionType (x : CompositionType) (l : HdiLayer) : HdiLayer := mkHdiLayer
  (l_mVisible l) (l_mId l) (l_mAcquireFence l) (l_releaseFences_ l) (l_mType l) (l_mDisplayRect l)
  (l_mCrop l) (l_mZorder l) (l_mPreMul l) (l_mAlpha l) (l_mTransformType l) x (l_mDeviceSelect l)
  (l_mBlendType l) (l_mHdiBuffer l) (l_mCurrentBuffer l) (l_lastBuffer_ l).
Definition set_l_mDeviceSelect (x : CompositionType) (l : HdiLayer) : HdiLayer := mkHdiLayer
  (l_mVisible l) (l_mId l) (l_mAcquireFence l) (l_releaseFences_ l) (l_mType l) (l_mDisplayRect l)
  (l_mCrop l) (l_mZorder l) (l_mPreMul l) (l_mAlpha l) (l_mTransformType l) (l_mCompositionType l)
  x (l_mBlendType l) (l_mHdiBuffer l) (l_mCurrentBuffer l) (l_lastBuffer_ l).
Definition set_l_mBlendType (x : Z) (l : HdiLayer) : HdiLayer := mkHdiLayer (l_mVisible l) (l_mId
  l) (l_mAcquireFence l) (l_releaseFences_ l) (l_mType l) (l_mDisplayRect l) (l_mCrop l)
  (l_mZorder l) (l_mPreMul l) (l_mAlpha l) (l_mTransformType l) (l_mCompositionType l)
  (l_mDeviceSelect l) x (l_mHdiBuffer l) (l_mCurrentBuffer l) (l_lastBuffer_ l).
Definition set_l_mHdiBuffer (x : option HdiLayerBuffer) (l : HdiLayer) : HdiLayer := mkHdiLayer
  (l_mVisible l) (l_mId l) (l_mAcquireFence l) (l_releaseFences_ l) (l_mType l) (l_mDisplayRect l)
  (l_mCrop l) (l_mZorder l) (l_mPreMul l) (l_mAlpha l) (l_mTransformType l) (l_mCompositionType l)
  (l_mDeviceSelect l) (l_mBlendType l) x (l_mCurrentBuffer l) (l_lastBuffer_ l).
Definition set_l_mCurrentBuffer (x : option DrmGemBuffer) (l : HdiLayer) : HdiLayer := mkHdiLayer
  (l_mVisible l) (l_mId l) (l_mAcquireFence l) (l_releaseFences_ l) (l_mType l) (l_mDisplayRect l)
  (l_mCrop l) (l_mZorder l) (l_mPreMul l) (l_mAlpha l) (l_mTransformType l) (l_mCompositionType l)
  (l_mDeviceSelect l) (l_mBlendType l) (l_mHdiBuffer l) x (l_lastBuffer_ l).
Definition set_l_lastBuffer_ (x : option DrmGemBuffer) (l : HdiLayer) : HdiLayer := mkHdiLayer
  (l_mVisible l) (l_mId l) (l_mAcquireFence l) (l_releaseFences_ l) (l_mType l) (l_mDisplayRect l)
  (l_mCrop l) (l_mZorder l) (l_mPreMul l) (l_mAlpha l) (l_mTransformType l) (l_mCompositionType l)
  (l_mDeviceSelect l) (l_mBlendType l) (l_mHdiBuffer l) (l_mCurrentBuffer l) x.

(** The members an object has before anything is set; [mTransformType] and
    [mBlendType] have no initialiser and stand at 0 here. *)
Definition HdiLayer_new (type : LayerType) : HdiLayer :=
  mkHdiLayer true 0 (-1) [] type (mkIRect 0 0 0 0) (mkIRect 0 0 0 0) 0xffffffff false
    (mkLayerAlpha false 0) 0 COMPOSITION_CLIENT COMPOSITION_CLIENT 0 None None None.

Record DrmCrtc := mkDrmCrtc {
  crtc_mId : Z;
  crtc_mModePropId : Z;
  crtc_mOutFencePropId : Z;
  crtc_mActivePropId : Z;
  crtc_mDisplayId : Z;
  crtc_mPipe : Z;
  crtc_mActiveModeId : Z;
  crtc_mNeedModeSet : bool;
}.
Definition set_crtc_mDisplayId (x : Z) (c : DrmCrtc) : DrmCrtc := mkDrmCrtc (crtc_mId c)
  (crtc_mModePropId c) (crtc_mOutFencePropId c) (crtc_mActivePropId c) x (crtc_mPipe c)
  (crtc_mActiveModeId c) (crtc_mNeedModeSet c).
Definition set_crtc_mActiveModeId (x : Z) (c : DrmCrtc) : DrmCrtc := mkDrmCrtc (crtc_mId c)
  (crtc_mModePropId c) (crtc_mOutFencePropId c) (crtc_mActivePropId c) (crtc_mDisplayId c)
  (crtc_mPipe c) x (crtc_mNeedModeSet c).
Definition set_crtc_mNeedModeSet (x : bool) (c : DrmCrtc) : DrmCrtc := mkDrmCrtc (crtc_mId c)
  (crtc_mModePropId c) (crtc_mOutFencePropId c) (crtc_mActivePropId c) (crtc_mDisplayId c)
  (crtc_mPipe c) (crtc_mActiveModeId c) x.

Record DrmPlane := mkDrmPlane {
  pl_mId : Z;
  pl_mPossibleCrtcs : Z;
  pl_mPropFbId : Z;
  pl_mPropFenceInId : Z;
  pl_mPropCrtcId : Z;
  pl_mPipe : Z;
  pl_mType : Z;
  pl_mFormats : list Z;
}.
Definition set_pl_mPipe (x : Z) (p : DrmPlane) : DrmPlane := mkDrmPlane (pl_mId p)
  (pl_mPossibleCrtcs p) (pl_mPropFbId p) (pl_mPropFenceInId p) (pl_mPropCrtcId p) x (pl_mType p)
  (pl_mFormats p).

Record DrmEncoder := mkDrmEncoder { enc_mEncoderId : Z; enc_mCrtcId : Z; enc_mPossibleCrtcs : Z }.

Inductive InterfaceType := DISP_INTF_VGA | DISP_INTF_HDMI | DISP_INTF_MIPI | DISP_INTF_BUTT.
Inductive Connection := DRM_MODE_CONNECTED | DRM_MODE_DISCONNECTED | DRM_MODE_UNKNOWNCONNECTION.
#[export] Instance Connection_eq_dec : EqDecision Connection.
Proof. solve_decision. Defined.

(** [drmModeModeInfo]: the members the source reads. *)
Record ModeInfo := mkModeInfo {
  mi_hdisplay : Z; mi_vdisplay : Z; mi_vrefresh : Z; mi_type : Z }.
Record DrmMode := mkDrmMode { mode_mModeInfo : ModeInfo; mode_mId : Z }.

Record DrmConnector := mkDrmConnector {
  conn_mId : Z;
  conn_mType : InterfaceType;
  conn_mPhyWidth : Z;
  conn_mPhyHeight : Z;
  conn_mEncoderId : Z;
  conn_mPossibleEncoders : list Z;
  conn_mName : string;
  conn_mConnectState : Connection;
  conn_mPropDpmsId : Z;
  conn_mDpmsState : Z;
  conn_mPropCrtcId : Z;
  conn_mPropBrightnessId : Z;
  conn_mBrightnessLevel : Z;
  conn_mModes : gmap Z DrmMode;
  conn_mPreferenceId : Z;
}.
Definition set_conn_mConnectState (x : Connection) (c : DrmConnector) : DrmConnector :=
  mkDrmConnector (conn_mId c) (conn_mType c) (conn_mPhyWidth c) (conn_mPhyHeight c)
  (conn_mEncoderId c) (conn_mPossibleEncoders c) (conn_mName c) x (conn_mPropDpmsId c)
  (conn_mDpmsState c) (conn_mPropCrtcId c) (conn_mPropBrightnessId c) (conn_mBrightnessLevel c)
  (conn_mModes c) (conn_mPreferenceId c).
Definition set_conn_mPropDpmsId (x : Z) (c : DrmConnector) : DrmConnector := mkDrmConnector
  (conn_mId c) (conn_mType c) (conn_mPhyWidth c) (conn_mPhyHeight c) (conn_mEncoderId c)
  (conn_mPossibleEncoders c) (conn_mName c) (conn_mConnectState c) x (conn_mDpmsState c)
  (conn_mPropCrtcId c) (conn_mPropBrightnessId c) (conn_mBrightnessLevel c) (conn_mModes c)
  (conn_mPreferenceId c).
Definition set_conn_mDpmsState (x : Z) (c : DrmConnector) : DrmConnector := mkDrmConnector
  (conn_mId c) (conn_mType c) (conn_mPhyWidth c) (conn_mPhyHeight c) (conn_mEncoderId c)
  (conn_mPossibleEncoders c) (conn_mName c) (conn_mConnectState c) (conn_mPropDpmsId c) x
  (conn_mPropCrtcId c) (conn_mPropBrightnessId c) (conn_mBrightnessLevel c) (conn_mModes c)
  (conn_mPreferenceId c).
Definition set_conn_mPropCrtcId (x : Z) (c : DrmConnector) : DrmConnector := mkDrmConnector
  (conn_mId c) (conn_mType c) (conn_mPhyWidth c) (conn_mPhyHeight c) (conn_mEncoderId c)
  (conn_mPossibleEncoders c) (conn_mName c) (conn_mConnectState c) (conn_mPropDpmsId c)
  (conn_mDpmsState c) x (conn_mPropBrightnessId c) (conn_mBrightnessLevel c) (conn_mModes c)
  (conn_mPreferenceId c).
Definition set_conn_mPropBrightnessId (x : Z) (c : DrmConnector) : DrmConnector := mkDrmConnector
  (conn_mId c) (conn_mType c) (conn_mPhyWidth c) (conn_mPhyHeight c) (conn_mEncoderId c)
  (conn_mPossibleEncoders c) (conn_mName c) (conn_mConnectState c) (conn_mPropDpmsId c)
  (conn_mDpmsState c) (conn_mPropCrtcId c) x (conn_mBrightnessLevel c) (conn_mModes c)
  (conn_mPreferenceId c).
Definition set_conn_mBrightnessLevel (x : Z) (c : DrmConnector) : DrmConnector := mkDrmConnector
  (conn_mId c) (conn_mType c) (conn_mPhyWidth c) (conn_mPhyHeight c) (conn_mEncoderId c)
  (conn_mPossibleEncoders c) (conn_mName c) (conn_mConnectState c) (conn_mPropDpmsId c)
  (conn_mDpmsState c) (conn_mPropCrtcId c) (conn_mPropBrightnessId c) x (conn_mModes c)
  (conn_mPreferenceId c).
Definition set_conn_mModes (x : gmap Z DrmMode) (c : DrmConnector) : DrmConnector :=
  mkDrmConnector (conn_mId c) (conn_mType c) (conn_mPhyWidth c) (conn_mPhyHeight c)
  (conn_mEncoderId c) (conn_mPossibleEncoders c) (conn_mName c) (conn_mConnectState c)
  (conn_mPropDpmsId c) (conn_mDpmsState c) (conn_mPropCrtcId c) (conn_mPropBrightnessId c)
  (conn_mBrightnessLevel c) x (conn_mPreferenceId c).
Definition set_conn_mPreferenceId (x : Z) (c : DrmConnector) : DrmConnector := mkDrmConnector
  (conn_mId c) (conn_mType c) (conn_mPhyWidth c) (conn_mPhyHeight c) (conn_mEncoderId c)
  (conn_mPossibleEncoders c) (conn_mName c) (conn_mConnectState c) (conn_mPropDpmsId c)
  (conn_mDpmsState c) (conn_mPropCrtcId c) (conn_mPropBrightnessId c) (conn_mBrightnessLevel c)
  (conn_mModes c) x.

(** ** The kernel and the process *)

(** The calls to the driver. *)
Inductive DrmCall :=
| PrimeFDToHandle | AddFB2 | RmFB (fb : Z) | GemClose (handle : Z)
| CreatePropertyBlob | DestroyPropertyBlob (blob : Z) | AtomicAlloc
| AtomicAddProperty (obj prop value : Z) | AtomicCommit | ConnectorSetProperty (obj prop value : Z)
| WaitVBlank.

(** An atomic request: (object, property, value) in the order added. *)
Abbreviation AtomicReq := (list (Z * Z * Z)).

Record DrmKernel := mkDrmKernel {
  dk_fd : option Z;  (* DrmDevice::mDrmFd *)
  dk_calls : nat;  (* calls made so far *)
  dk_answer : nat → DrmCall → Z * Z;  (* result and out value of each call *)
  dk_gem : gset Z;  (* imported GEM handles *)
  dk_fbs : gset Z;  (* framebuffers *)
  dk_blobs : gset Z;  (* property blobs *)
  dk_commits : list AtomicReq;  (* committed requests, oldest first *)
}.
Definition set_dk_calls (x : nat) (k : DrmKernel) : DrmKernel := mkDrmKernel (dk_fd k) x
  (dk_answer k) (dk_gem k) (dk_fbs k) (dk_blobs k) (dk_commits k).
Definition set_dk_gem (x : gset Z) (k : DrmKernel) : DrmKernel := mkDrmKernel (dk_fd k) (dk_calls
  k) (dk_answer k) x (dk_fbs k) (dk_blobs k) (dk_commits k).
Definition set_dk_fbs (x : gset Z) (k : DrmKernel) : DrmKernel := mkDrmKernel (dk_fd k) (dk_calls
  k) (dk_answer k) (dk_gem k) x (dk_blobs k) (dk_commits k).
Definition set_dk_blobs (x : gset Z) (k : DrmKernel) : DrmKernel := mkDrmKernel (dk_fd k)
  (dk_calls k) (dk_answer k) (dk_gem k) (dk_fbs k) x (dk_commits k).
Definition set_dk_commits (x : list AtomicReq) (k : DrmKernel) : DrmKernel := mkDrmKernel (dk_fd
  k) (dk_calls k) (dk_answer k) (dk_gem k) (dk_fbs k) (dk_blobs k) x.

Record IdPool := mkIdPool { pool_mIdleId : Z; pool_mIdSets : gset Z }.

Record World := mkWorld {
  w_layers : gmap Z HdiLayer;  (* the layer objects, by address *)
  w_nextptr : Z;  (* the next address operator new gives *)
  w_layer_ids : IdPool;  (* HdiLayer::mIdleId and mIdSets *)
  w_display_ids : IdPool;  (* HdiDisplay::mIdleId and mIdSets *)
  w_kern : Kernel;  (* descriptors, mappings and the allocator's GEM handles *)
  w_nofile : Z;  (* RLIMIT_NOFILE *)
  w_drm : DrmKernel;  (* the display's DRM file *)
  w_crtcs : gmap Z DrmCrtc;  (* DrmDevice::mCrtcs *)
  w_encoders : gmap Z DrmEncoder;  (* DrmDevice::mEncoders *)
  w_connectors : gmap Z DrmConnector;  (* DrmDevice::mConnectors *)
  w_planes : list DrmPlane;  (* DrmDevice::mPlanes *)
  w_manager : Manager;  (* the buffer allocator's manager *)
}.
Definition set_w_layers (x : gmap Z HdiLayer) (w : World) : World := mkWorld x (w_nextptr w)
  (w_layer_ids w) (w_display_ids w) (w_kern w) (w_nofile w) (w_drm w) (w_crtcs w) (w_encoders w)
  (w_connectors w) (w_planes w) (w_manager w).
Definition set_w_nextptr (x : Z) (w : World) : World := mkWorld (w_layers w) x (w_layer_ids w)
  (w_display_ids w) (w_kern w) (w_nofile w) (w_drm w) (w_crtcs w) (w_encoders w) (w_connectors w)
  (w_planes w) (w_manager w).
Definition set_w_layer_ids (x : IdPool) (w : World) : World := mkWorld (w_layers w) (w_nextptr w)
  x (w_display_ids w) (w_kern w) (w_nofile w) (w_drm w) (w_crtcs w) (w_encoders w) (w_connectors
  w) (w_planes w) (w_manager w).
Definition set_w_display_ids (x : IdPool) (w : World) : World := mkWorld (w_layers w) (w_nextptr
  w) (w_layer_ids w) x (w_kern w) (w_nofile w) (w_drm w) (w_crtcs w) (w_encoders w) (w_connectors
  w) (w_planes w) (w_manager w).
Definition set_w_kern (x : Kernel) (w : World) : World := mkWorld (w_layers w) (w_nextptr w)
  (w_layer_ids w) (w_display_ids w) x (w_nofile w) (w_drm w) (w_crtcs w) (w_encoders w)
  (w_connectors w) (w_planes w) (w_manager w).
Definition set_w_nofile (x : Z) (w : World) : World := mkWorld (w_layers w) (w_nextptr w)
  (w_layer_ids w) (w_display_ids w) (w_kern w) x (w_drm w) (w_crtcs w) (w_encoders w)
  (w_connectors w) (w_planes w) (w_manager w).
Definition set_w_drm (x : DrmKernel) (w : World) : World := mkWorld (w_layers w) (w_nextptr w)
  (w_layer_ids w) (w_display_ids w) (w_kern w) (w_nofile w) x (w_crtcs w) (w_encoders w)
  (w_connectors w) (w_planes w) (w_manager w).
Definition set_w_crtcs (x : gmap Z DrmCrtc) (w : World) : World := mkWorld (w_layers w) (w_nextptr
  w) (w_layer_ids w) (w_display_ids w) (w_kern w) (w_nofile w) (w_drm w) x (w_encoders w)
  (w_connectors w) (w_planes w) (w_manager w).
Definition set_w_encoders (x : gmap Z DrmEncoder) (w : World) : World := mkWorld (w_layers w)
  (w_nextptr w) (w_layer_ids w) (w_display_ids w) (w_kern w) (w_nofile w) (w_drm w) (w_crtcs w) x
  (w_connectors w) (w_planes w) (w_manager w).
Definition set_w_connectors (x : gmap Z DrmConnector) (w : World) : World := mkWorld (w_layers w)
  (w_nextptr w) (w_layer_ids w) (w_display_ids w) (w_kern w) (w_nofile w) (w_drm w) (w_crtcs w)
  (w_encoders w) x (w_planes w) (w_manager w).
Definition set_w_planes (x : list DrmPlane) (w : World) : World := mkWorld (w_layers w) (w_nextptr
  w) (w_layer_ids w) (w_display_ids w) (w_kern w) (w_nofile w) (w_drm w) (w_crtcs w) (w_encoders
  w) (w_connectors w) x (w_manager w).
Definition set_w_manager (x : Manager) (w : World) : World := mkWorld (w_layers w) (w_nextptr w)
  (w_layer_ids w) (w_display_ids w) (w_kern w) (w_nofile w) (w_drm w) (w_crtcs w) (w_encoders w)
  (w_connectors w) (w_planes w) x.

(** ** The monad: state, and a fault for undefined behaviour *)

Definition D (A : Type) := World → option (A * World).
Definition dret {A} (a : A) : D A := λ w, Some (a, w).
Definition dbind {A B} (m : D A) (k : A → D B) : D B := λ w,
  match m w with Some (a, w) => k a w | None => None end.
Definition dfault {A} : D A := λ _, None.
Definition dget : D World := λ w, Some (w, w).
Definition dmod (f : World → World) : D unit := λ w, Some (tt, f w).

Declare Scope disp_scope.
Delimit Scope disp_scope with disp.
#[global] Open Scope disp_scope.
Notation "'let!' x ':=' m 'in' k" := (dbind m (λ x, k))
  (at level 10, x pattern, m at level 100, k at level 200) : disp_scope.
Notation "'do!' m 'in' k" := (dbind m (λ _, k))
  (at level 10, m at level 100, k at level 200) : disp_scope.

(** A loop over the elements of a container. *)
Fixpoint dfor {A} (l : list A) (f : A → D unit) : D unit :=
  match l with [] => dret tt | a :: l => do! f a in dfor l f end.

(** ** Primitive effects *)

(** The lowest descriptor that is not open. *)
Fixpoint free_from (fuel : nat) (n : Z) (X : gset Z) : Z :=
  match fuel with
  | O => n
  | S fuel => if bool_decide (n ∈ X) then free_from fuel (n + 1) X else n
  end.
Definition lowest_free (X : gset Z) : Z := free_from (size X) 0 X.

Definition fds (w : World) : gset Z := k_fds (w_kern w).
Definition set_fds (X : gset Z) (w : World) : World := set_w_kern (with_fds X (w_kern w)) w.

(** A new descriptor, or -1 at the limit. *)
Definition open_fd : D Z := λ w,
  let fd := lowest_free (fds w) in
  if fd <? w_nofile w then Some (fd, set_fds ({[fd]} ∪ fds w) w) else Some (-1, w).
Definition dup (fd : Z) : D Z := λ w,
  if bool_decide (fd ∈ fds w) then open_fd w else Some (-1, w).
Definition close (fd : Z) : D unit := λ w, Some (tt, set_fds (fds w ∖ {[fd]}) w).
Definition close_if_open (fd : Z) : D unit := if 0 <=? fd then close fd else dret tt.

Definition drm_mod (f : DrmKernel → DrmKernel) : D unit :=
  dmod (λ w, set_w_drm (f (w_drm w)) w).
(** The next answer of the driver. *)
Definition drm_call (c : DrmCall) : D (Z * Z) := λ w,
  Some (dk_answer (w_drm w) (dk_calls (w_drm w)) c,
        set_w_drm (set_dk_calls (S (dk_calls (w_drm w))) (w_drm w)) w).

Definition drmPrimeFDToHandle : D (Z * Z) :=
  let! r := drm_call PrimeFDToHandle in
  if r.1 =? 0 then do! drm_mod (λ k, set_dk_gem ({[r.2]} ∪ dk_gem k) k) in dret r
  else dret r.
Definition drmModeAddFB2 : D (Z * Z) :=
  let! r := drm_call AddFB2 in
  if r.1 =? 0 then do! drm_mod (λ k, set_dk_fbs ({[r.2]} ∪ dk_fbs k) k) in dret r
  else dret r.
Definition drmModeRmFB (fb : Z) : D Z :=
  let! r := drm_call (RmFB fb) in
  if r.1 =? 0 then do! drm_mod (λ k, set_dk_fbs (dk_fbs k ∖ {[fb]}) k) in dret r.1
  else dret r.1.
Definition gem_close (handle : Z) : D Z :=
  let! r := drm_call (GemClose handle) in
  if r.1 =? 0 then do! drm_mod (λ k, set_dk_gem (dk_gem k ∖ {[handle]}) k) in dret r.1
  else dret r.1.
Definition drmModeCreatePropertyBlob : D (Z * Z) :=
  let! r := drm_call CreatePropertyBlob in
  if r.1 =? 0 then do! drm_mod (λ k, set_dk_blobs ({[r.2]} ∪ dk_blobs k) k) in dret r
  else dret r.
Definition drmModeDestroyPropertyBlob (blob : Z) : D Z :=
  let! r := drm_call (DestroyPropertyBlob blob) in
  if r.1 =? 0 then do! drm_mod (λ k, set_dk_blobs (dk_blobs k ∖ {[blob]}) k) in dret r.1
  else dret r.1.
(** The request is a local of the caller; a failed call leaves it as it was. *)
Definition drmModeAtomicAddProperty (req : AtomicReq) (obj prop value : Z) : D (Z * AtomicReq) :=
  let! r := drm_call (AtomicAddProperty obj prop value) in
  dret (r.1, if 0 <=? r.1 then req ++ [(obj, prop, value)] else req).
(** A commit that is granted opens the out-fence's descriptor. *)
Definition drmModeAtomicCommit (req : AtomicReq) : D (Z * Z) :=
  let! r := drm_call AtomicCommit in
  if r.1 =? 0 then
    let! fd := open_fd in
    if fd <? 0 then dret (-1, -1)
    else do! drm_mod (λ k, set_dk_commits (dk_commits k ++ [req]) k) in dret (0, fd)
  else dret (r.1, -1).

Definition GetDrmFd : D Z := λ w,
  Some (match dk_fd (w_drm w) with Some fd => fd | None => -1 end, w).

(** ** Pointers to layers *)

Definition deref (p : Z) : D HdiLayer := λ w,
  match w_layers w !! p with Some l => Some (l, w) | None => None end.
Definition update (p : Z) (f : HdiLayer → HdiLayer) : D unit := λ w,
  match w_layers w !! p with
  | Some l => Some (tt, set_w_layers (<[p := f l]> (w_layers w)) w)
  | None => None
  end.


(** ** Reasoning: total weakest preconditions *)

(** [m] runs without a fault from [w] and ends in a state satisfying [Q]. *)
Definition wp {A} (m : D A) (Q : A → World → Prop) (w : World) : Prop :=
  ∃ a w', m w = Some (a, w') ∧ Q a w'.

Lemma wp_ret {A} (a : A) Q w : Q a w → wp (dret a) Q w.
Proof. intros H. by exists a, w. Qed.
Lemma wp_bind {A B} (m : D A) (k : A → D B) Q w :
  wp m (λ a w', wp (k a) Q w') w → wp (dbind m k) Q w.
Proof.
  intros (a & w' & Hm & b & w'' & Hk & HQ). exists b, w''. unfold dbind. by rewrite Hm.
Qed.
Lemma wp_mono {A} (m : D A) (P Q : A → World → Prop) w :
  wp m P w → (∀ a w', P a w' → Q a w') → wp m Q w.
Proof. intros (a & w' & Hm & HP) HPQ. exists a, w'. eauto. Qed.
Lemma wp_run {A} (m : D A) Q w : wp m Q w → ∀ a w', m w = Some (a, w') → Q a w'.
Proof. intros (a & w' & Hm & HQ) a' w'' Hm'. by simplify_eq. Qed.
Lemma wp_dmod f (Q : unit → World → Prop) w : Q tt (f w) → wp (dmod f) Q w.
Proof. intros H. by exists tt, (f w). Qed.
Lemma wp_dget (Q : World → World → Prop) w : Q w w → wp dget Q w.
Proof. intros H. by exists w, w. Qed.
Lemma wp_if {A} (b : bool) (m1 m2 : D A) Q w :
  (b = true → wp m1 Q w) → (b = false → wp m2 Q w) → wp (if b then m1 else m2) Q w.
Proof. destruct b; auto. Qed.
Lemma wp_for {A} (I : list A → World → Prop) (l : list A) (f : A → D unit) Q w :
  I l w → (∀ a l w, I (a :: l) w → wp (f a) (λ _ w', I l w') w) →
  (∀ w', I [] w' → Q tt w') → wp (dfor l f) Q w.
Proof.
  intros HI Hstep HQ. revert w HI. induction l as [|a l IH]; intros w HI; simpl.
  - apply wp_ret. auto.
  - apply wp_bind. eapply wp_mono; [by apply Hstep|]. intros ? w' HI'. by apply IH.
Qed.

(** The continuation after a primitive whose result is known. *)
Lemma wp_step {A B} (m : D A) (k : A → D B) Q w a w' :
  m w = Some (a, w') → wp (k a) Q w' → wp (dbind m k) Q w.
Proof. intros Hm Hk. apply wp_bind. by exists a, w'. Qed.

Lemma wp_deref p l (Q : HdiLayer → World → Prop) w :
  w_layers w !! p = Some l → Q l w → wp (deref p) Q w.
Proof. intros Hp HQ. exists l, w. unfold deref. by rewrite Hp. Qed.
Lemma wp_update p f l (Q : unit → World → Prop) w :
  w_layers w !! p = Some l → Q tt (set_w_layers (<[p := f l]> (w_layers w)) w) →
  wp (update p f) Q w.
Proof. intros Hp HQ. exists tt. eexists. unfold update. by rewrite Hp. Qed.

(** Partial correctness: what holds if [m] does not fault. *)
Definition wlp {A} (m : D A) (Q : A → World → Prop) (w : World) : Prop :=
  ∀ a w', m w = Some (a, w') → Q a w'.
Lemma wlp_wp {A} (m : D A) Q w : wp m Q w → wlp m Q w.
Proof. intros H. exact (wp_run m Q w H). Qed.
Lemma wlp_ret {A} (a : A) Q w : Q a w → wlp (dret a) Q w.
Proof. intros H b w' [= <- <-]. done. Qed.
Lemma wlp_fault {A} Q w : wlp (@dfault A) Q w.
Proof. by intros a w'. Qed.
Lemma wlp_bind {A B} (m : D A) (k : A → D B) Q w :
  wlp m (λ a w', wlp (k a) Q w') w → wlp (dbind m k) Q w.
Proof.
  intros Hm b w'. unfold dbind. destruct (m w) as [[a w1]|] eqn:E; [|done]. by apply Hm.
Qed.
Lemma wlp_mono {A} (m : D A) (P Q : A → World → Prop) w :
  wlp m P w → (∀ a w', P a w' → Q a w') → wlp m Q w.
Proof. intros Hm HPQ a w' H. eauto. Qed.
Lemma wlp_any {A B} (m : D A) (k : A → D B) Q w :
  (∀ a w', wlp (k a) Q w') → wlp (dbind m k) Q w.
Proof. intros H. apply wlp_bind. intros a w' _. apply H. Qed.

(** ** Preservation: a relation every step of a computation respects *)

Definition keeps (R : World → World → Prop) {A} (m : D A) : Prop :=
  ∀ w a w', m w = Some (a, w') → R w w'.

Section keeps.
Context (R : World → World → Prop) `{!PreOrder R}.

Lemma keeps_ret {A} (a : A) : keeps R (dret a).
Proof. intros w b w' [= <- <-]. reflexivity. Qed.
Lemma keeps_fault {A} : keeps R (@dfault A).
Proof. by intros w b w'. Qed.
Lemma keeps_bind {A B} (m : D A) (k : A → D B) :
  keeps R m → (∀ a, keeps R (k a)) → keeps R (dbind m k).
Proof.
  intros Hm Hk w b w'. unfold dbind. destruct (m w) as [[a w1]|] eqn:E; [|done].
  intros H. etrans; [by eapply Hm|by eapply Hk].
Qed.
Lemma keeps_for {A} (l : list A) (f : A → D unit) :
  (∀ a, keeps R (f a)) → keeps R (dfor l f).
Proof. intros Hf. induction l; simpl; [apply keeps_ret|by apply keeps_bind]. Qed.
Lemma keeps_get : keeps R dget.
Proof. intros w b w' [= <- <-]. reflexivity. Qed.
Lemma keeps_deref p : keeps R (deref p).
Proof. intros w l w'. unfold deref. case_match; [|done]. intros [= <- <-]. reflexivity. Qed.
Lemma keeps_if {A} (b : bool) (m1 m2 : D A) :
  keeps R m1 → keeps R m2 → keeps R (if b then m1 else m2).
Proof. by destruct b. Qed.
End keeps.

Lemma keeps_mod (R : World → World → Prop) f : (∀ w, R w (f w)) → keeps R (dmod f).
Proof. intros Hf w a w' [= <- <-]. apply Hf. Qed.
Lemma keeps_weaken (R S : World → World → Prop) {A} (m : D A) :
  keeps R m → (∀ w w', R w w' → S w w') → keeps S m.
Proof. intros Hm HRS w a w' H. eauto. Qed.

Lemma wlp_keeps {A} R (m : D A) w : keeps R m → wlp m (λ _ w', R w w') w.
Proof. intros Hm a w' H. eauto. Qed.

(** ** Search in a finite set *)

(** Among [size X + 1] distinct values one is not in [X]. *)
Lemma pigeon (X : gset Z) (f : nat → Z) :
  (∀ i j, (i ≤ size X)%nat → (j ≤ size X)%nat → f i = f j → i = j) →
  ∃ k, (k ≤ size X)%nat ∧ f k ∉ X.
Proof.
  intros Hinj. destruct (decide (Exists (λ k, f k ∉ X) (seq 0 (S (size X))))) as [He|Hn].
  - apply Exists_exists in He as (k & Hk & HX). apply list_elem_of_In, in_seq in Hk.
    exists k. split; [lia|done].
  - exfalso. apply not_Exists_Forall in Hn; [|apply _].
    assert (list_to_set (f <$> seq 0 (S (size X))) ⊆ X) as Hsub.
    { intros x Hx. apply elem_of_list_to_set, list_elem_of_fmap in Hx as (k & -> & Hk).
      rewrite Forall_forall in Hn. specialize (Hn k Hk). by apply dec_stable. }
    apply subseteq_size in Hsub. rewrite size_list_to_set in Hsub.
    + rewrite length_fmap length_seq in Hsub. lia.
    + apply NoDup_fmap_2_strong; [|apply NoDup_ListNoDup, List.seq_NoDup].
      intros i j Hi Hj. apply list_elem_of_In, in_seq in Hi, Hj. apply Hinj; lia.
Qed.

Lemma free_from_spec fuel n X :
  (∃ k : nat, (k ≤ fuel)%nat ∧ (n + Z.of_nat k ∉ X)) → n ≤ free_from fuel n X ∧ free_from fuel n X ∉ X.
Proof.
  revert n. induction fuel as [|fuel IH]; intros n (k & Hk & HX); simpl.
  - assert (k = O) as -> by lia. rewrite Z.add_0_r in HX. split; [lia|done].
  - case_bool_decide as Hn; [|split; [lia|done]].
    destruct k as [|k]; [by rewrite Z.add_0_r in HX|].
    destruct (IH (n + 1)) as [H1 H2]; [|split; [lia|done]].
    exists k. split; [lia|]. by replace (n + 1 + Z.of_nat k) with (n + Z.of_nat (S k)) by lia.
Qed.
Lemma lowest_free_spec X : 0 ≤ lowest_free X ∧ lowest_free X ∉ X.
Proof.
  apply free_from_spec. destruct (pigeon X (λ k, Z.of_nat k)) as (k & Hk & HX); [lia|].
  exists k. split; [done|]. by rewrite Z.add_0_l.
Qed.

(** ** Descriptors *)

Lemma wp_open_fd (Q : Z → World → Prop) w :
  (∀ fd, 0 ≤ fd → fd ∉ fds w → Q fd (set_fds ({[fd]} ∪ fds w) w)) → Q (-1) w →
  wp open_fd Q w.
Proof.
  intros Hok Hfail. unfold open_fd. destruct (lowest_free_spec (fds w)) as [H0 Hn].
  destruct (lowest_free (fds w) <? w_nofile w) eqn:E.
  - exists (lowest_free (fds w)). eexists. rewrite E. eauto.
  - exists (-1), w. rewrite E. eauto.
Qed.
Lemma wp_dup fd (Q : Z → World → Prop) w :
  (∀ fd', 0 ≤ fd' → fd' ∉ fds w → Q fd' (set_fds ({[fd']} ∪ fds w) w)) → Q (-1) w →
  wp (dup fd) Q w.
Proof.
  intros Hok Hfail. unfold dup. destruct (decide (fd ∈ fds w)).
  - destruct (wp_open_fd Q w Hok Hfail) as (a & w' & H & HQ). exists a, w'.
    by rewrite bool_decide_true.
  - exists (-1), w. by rewrite bool_decide_false.
Qed.
Lemma wp_close fd (Q : unit → World → Prop) w :
  Q tt (set_fds (fds w ∖ {[fd]}) w) → wp (close fd) Q w.
Proof. intros H. by eexists _, _. Qed.
Lemma wp_close_if_open fd (Q : unit → World → Prop) w :
  Q tt (if 0 <=? fd then set_fds (fds w ∖ {[fd]}) w else w) → wp (close_if_open fd) Q w.
Proof. unfold close_if_open. destruct (0 <=? fd); intros H; [by apply wp_close|by apply wp_ret]. Qed.

Lemma fds_set_fds X w : fds (set_fds X w) = X.
Proof. done. Qed.
