(* ===== verification/HdiLayer.v ===== *)
(** * Layers (display_device/core/hdi_layer.{h,cpp}, core/hdi_fd.h, drm/hdi_drm_layer.{h,cpp})

    The id pools of layers and displays, [HdiLayer] and [HdiDrmLayer] with the
    descriptors and framebuffers they own, and the pixel writer.  The dump helpers
    [GetFileName] and [DumpLayerBuffer] are only named by commented-out code and are
    left out. *)

From S2P Require Import Prelude Gralloc DispWorld.
Set Warnings "-rewrite-rw,-clear-no-such-hyp".

(** ** Ids *)

(** The do-while loop of [GetIdleId]: the id found and the new [mIdleId];
    [INVALIDE_LAYER_ID] when the search has come round.  [size ids + 1] turns are
    enough for it to end whenever it ends at all. *)
Fixpoint idle_loop (fuel : nat) (oldIdleId mIdleId : Z) (ids : gset Z) : option (Z * Z) :=
  match fuel with
  | O => None
  | S fuel =>
      if bool_decide (mIdleId ∉ ids) then Some (mIdleId, mIdleId)
      else
        let mIdleId := (mIdleId + 1) mod INVALIDE_LAYER_ID in
        if oldIdleId =? mIdleId then Some (INVALIDE_LAYER_ID, mIdleId)
        else idle_loop fuel oldIdleId mIdleId ids
  end.

Definition pool_GetIdleId (p : IdPool) : option (Z * IdPool) :=
  match idle_loop (S (size (pool_mIdSets p))) (pool_mIdleId p)
          (pool_mIdleId p mod INVALIDE_LAYER_ID) (pool_mIdSets p) with
  | None => None
  | Some (id, idle) => Some (id, mkIdPool (u32 (idle + 1)) ({[id]} ∪ pool_mIdSets p))
  end.

(** [HdiLayer::GetIdleId] and [HdiDisplay::GetIdleId], on their own statics. *)
Definition GetIdleId : D Z := λ w,
  match pool_GetIdleId (w_layer_ids w) with
  | Some (id, p) => Some (id, set_w_layer_ids p w)
  | None => None
  end.
Definition Display_GetIdleId : D Z := λ w,
  match pool_GetIdleId (w_display_ids w) with
  | Some (id, p) => Some (id, set_w_display_ids p w)
  | None => None
  end.

(** ** Buffers of a layer *)

Definition HdiLayerBuffer_make (hdl : BufferHandle) : D HdiLayerBuffer :=
  let! fd := dup (bh_fd hdl) in
  dret (mkHdiLayerBuffer hdl (bh_phyAddr hdl) (bh_height hdl) (bh_width hdl) (bh_stride hdl)
          (bh_format hdl) fd).
Definition HdiLayerBuffer_destroy (b : HdiLayerBuffer) : D unit := close_if_open (lb_mFd b).
(** [operator =]: takes another handle over, except for [mHandle]. *)
Definition HdiLayerBuffer_assign (b : HdiLayerBuffer) (right : BufferHandle) : D HdiLayerBuffer :=
  do! close_if_open (lb_mFd b) in
  let! fd := dup (bh_fd right) in
  dret (mkHdiLayerBuffer (lb_mHandle b) (bh_phyAddr right) (bh_height right) (bh_width right)
          (bh_stride right) (bh_format right) fd).
Definition GetMemHandle (b : HdiLayerBuffer) : Z :=
  if lb_mPhyAddr b =? 0 then u64 (lb_mFd b) else lb_mPhyAddr b.

(** [DrmDevice::ConvertToDrmFormat]; fourcc codes of drm_fourcc.h. *)
Definition fourcc (s : string) : Z :=
  match bytes_of_string s with
  | [a; b; c; d] =>
      Z.lor (Z.lor (Z.lor a (Z.shiftl b 8)) (Z.shiftl c 16)) (Z.shiftl d 24)
  | _ => 0
  end.
Definition convertTable : list (Z * PixelFormat) :=
  [ (fourcc "XB24", PIXEL_FMT_RGBX_8888); (fourcc "AB24", PIXEL_FMT_RGBA_8888);
    (fourcc "RG24", PIXEL_FMT_RGB_888); (fourcc "RG16", PIXEL_FMT_BGR_565);
    (fourcc "BX12", PIXEL_FMT_BGRX_4444); (fourcc "BA12", PIXEL_FMT_BGRA_4444);
    (fourcc "RA12", PIXEL_FMT_RGBA_4444); (fourcc "RX12", PIXEL_FMT_RGBX_4444);
    (fourcc "BX15", PIXEL_FMT_BGRX_5551); (fourcc "BA15", PIXEL_FMT_BGRA_5551);
    (fourcc "XR24", PIXEL_FMT_BGRX_8888); (fourcc "AR24", PIXEL_FMT_BGRA_8888);
    (fourcc "NV12", PIXEL_FMT_YCBCR_420_SP); (fourcc "NV21", PIXEL_FMT_YCRCB_420_SP);
    (fourcc "YU12", PIXEL_FMT_YCBCR_420_P); (fourcc "YV12", PIXEL_FMT_YCRCB_420_P);
    (fourcc "NV16", PIXEL_FMT_YCBCR_422_SP); (fourcc "NV61", PIXEL_FMT_YCRCB_422_SP);
    (fourcc "YU16", PIXEL_FMT_YCBCR_422_P); (fourcc "YV16", PIXEL_FMT_YCRCB_422_P) ].
(** The loop does not stop at the first match: the last entry wins. *)
Definition ConvertToDrmFormat (fmtIn : PixelFormat) : Z :=
  foldl (λ fmtOut e, if bool_decide (e.2 = fmtIn) then e.1 else fmtOut) 0 convertTable.

(** [DrmGemBuffer]: constructor with [Init], destructor, [IsValid]. *)
Definition DrmGemBuffer_make (drmFd : Z) (hdl : HdiLayerBuffer) : D DrmGemBuffer :=
  if drmFd <? 0 then dret (mkDrmGemBuffer 0 0 drmFd 0)
  else
    let fmt := ConvertToDrmFormat (lb_mFormat hdl) in
    let! r := drmPrimeFDToHandle in
    if negb (r.1 =? 0) then dret (mkDrmGemBuffer 0 0 drmFd fmt)
    else
      let! f := drmModeAddFB2 in
      if negb (f.1 =? 0) then dret (mkDrmGemBuffer r.2 0 drmFd fmt)
      else dret (mkDrmGemBuffer r.2 f.2 drmFd fmt).
Definition DrmGemBuffer_destroy (g : DrmGemBuffer) : D unit :=
  do! (if negb (gb_mFdId g =? 0) then do! drmModeRmFB (gb_mFdId g) in dret tt else dret tt) in
  (if negb (gb_mGemHandle g =? 0) then do! gem_close (gb_mGemHandle g) in dret tt else dret tt).
Definition gem_IsValid (g : DrmGemBuffer) : bool :=
  negb (gb_mGemHandle g =? INVALID_DRM_ID) && negb (gb_mFdId g =? INVALID_DRM_ID).
Definition gem_destroy_opt (g : option DrmGemBuffer) : D unit :=
  match g with Some g => DrmGemBuffer_destroy g | None => dret tt end.

(** ** [HdiLayer] *)

(** [make_unique<HdiLayer>(type)] and [delete]: the derived destructor, the body
    of [~HdiLayer], then the members in reverse order. *)
Definition new_layer (type : LayerType) : D Z := λ w,
  Some (w_nextptr w, set_w_nextptr (w_nextptr w + 1)
                       (set_w_layers (<[w_nextptr w := HdiLayer_new type]> (w_layers w)) w)).
Definition delete_layer (p : Z) : D unit :=
  let! l := deref p in
  do! gem_destroy_opt (l_lastBuffer_ l) in
  do! gem_destroy_opt (l_mCurrentBuffer l) in
  do! dmod (λ w, set_w_layer_ids (mkIdPool (pool_mIdleId (w_layer_ids w))
                                    (pool_mIdSets (w_layer_ids w) ∖ {[l_mId l]})) w) in
  do! dfor (l_releaseFences_ l) close in
  do! match l_mHdiBuffer l with Some b => HdiLayerBuffer_destroy b | None => dret tt end in
  do! close_if_open (l_mAcquireFence l) in
  dmod (λ w, set_w_layers (delete p (w_layers w)) w).

Definition Layer_Init (p : Z) : D DispError :=
  let! id := GetIdleId in
  if id =? INVALIDE_LAYER_ID then dret DISPLAY_FAILURE
  else do! update p (set_l_mId id) in dret DISPLAY_SUCCESS.

Definition GetReleaseFenceFd (p : Z) : D Z :=
  let! l := deref p in
  match l_releaseFences_ l with
  | [] => dret (-1)
  | fd :: rest => do! update p (set_l_releaseFences_ rest) in dret fd
  end.
Definition SetReleaseFence (p fd : Z) : D unit :=
  update p (λ l, set_l_releaseFences_ (l_releaseFences_ l ++ [fd]) l).

(** The setters; a null pointer argument is [None]. *)
Definition SetLayerRegion (p : Z) (rect : option IRect) : D DispError :=
  match rect with
  | None => dret DISPLAY_NULL_PTR
  | Some r => do! update p (set_l_mDisplayRect r) in dret DISPLAY_SUCCESS
  end.
Definition SetLayerCrop (p : Z) (rect : option IRect) : D DispError :=
  match rect with
  | None => dret DISPLAY_NULL_PTR
  | Some r => do! update p (set_l_mCrop r) in dret DISPLAY_SUCCESS
  end.
Definition Layer_SetLayerZorder (p zorder : Z) : D unit := update p (set_l_mZorder zorder).
Definition SetLayerPreMulti (p : Z) (preMul : bool) : D DispError :=
  do! update p (set_l_mPreMul preMul) in dret DISPLAY_SUCCESS.
Definition SetLayerAlpha (p : Z) (alpha : option LayerAlpha) : D DispError :=
  match alpha with
  | None => dret DISPLAY_NULL_PTR
  | Some a => do! update p (set_l_mAlpha a) in dret DISPLAY_SUCCESS
  end.
Definition SetLayerTransformMode (p type : Z) : D DispError :=
  do! update p (set_l_mTransformType type) in dret DISPLAY_SUCCESS.
(** The region is only logged (with the layer's id). *)
Definition SetLayerDirtyRegion (p : Z) (region : option IRect) : D DispError :=
  match region with
  | None => dret DISPLAY_FAILURE
  | Some _ => do! deref p in dret DISPLAY_SUCCESS
  end.
(** [rect] is read before any check. *)
Definition SetLayerVisibleRegion (p num : Z) (rect : option IRect) : D DispError :=
  match rect with
  | None => dfault
  | Some _ => do! deref p in dret DISPLAY_SUCCESS
  end.
Definition SetLayerCompositionType (p : Z) (type : CompositionType) : D DispError :=
  do! update p (set_l_mCompositionType type) in dret DISPLAY_SUCCESS.
Definition SetLayerBlendType (p type : Z) : D DispError :=
  do! update p (set_l_mBlendType type) in dret DISPLAY_SUCCESS.
Definition SetLayerVisible (p : Z) (visible : bool) : D DispError :=
  do! update p (set_l_mVisible visible) in dret DISPLAY_SUCCESS.
Definition SetDeviceSelect (p : Z) (type : CompositionType) : D unit :=
  update p (set_l_mDeviceSelect type).

(** [mAcquireFence = fd]: [HdiFd::operator =]. *)
Definition assign_acquire_fence (p fd : Z) : D unit :=
  let! l := deref p in
  do! close_if_open (l_mAcquireFence l) in update p (set_l_mAcquireFence fd).

(** [mHdiBuffer = std::move(layerbuffer)]: the old buffer is deleted. *)
Definition swap_buffer (p : Z) (b : HdiLayerBuffer) : D unit :=
  let! l := deref p in
  do! update p (set_l_mHdiBuffer (Some b)) in
  match l_mHdiBuffer l with Some old => HdiLayerBuffer_destroy old | None => dret tt end.

Definition SetLayerBuffer (p : Z) (buffer : option BufferHandle) (fence : Z) : D DispError :=
  match buffer with
  | None => dret DISPLAY_NULL_PTR
  | Some hdl =>
      let! b := HdiLayerBuffer_make hdl in
      do! swap_buffer p b in
      do! (if -1 <? fence then
             let! fd := dup fence in assign_acquire_fence p fd
           else dret tt) in
      dret DISPLAY_SUCCESS
  end.

(** [HdiDrmLayer::GetGemBuffer]: a framebuffer for the current buffer; the one
    before the last is dropped. *)
Definition GetGemBuffer (p : Z) : D DrmGemBuffer :=
  let! drmFd := GetDrmFd in
  let! l := deref p in
  match l_mHdiBuffer l with
  | None => dfault
  | Some hdl =>
      let! g := DrmGemBuffer_make drmFd hdl in
      do! update p (λ l, set_l_mCurrentBuffer None (set_l_lastBuffer_ (l_mCurrentBuffer l) l)) in
      do! gem_destroy_opt (l_lastBuffer_ l) in
      do! update p (set_l_mCurrentBuffer (Some g)) in
      dret g
  end.

(** ** Pixels *)

(** [SetPixel]: the byte offset written and the colour, if anything is written.
    The check of the position against the size only logs. *)
Definition SetPixel (handle : BufferHandle) (x y color : Z) : option (Z * Z) :=
  if bool_decide (bh_virAddr handle = None) then None
  else if (x <? 0) || (bh_width handle <=? x) then None
  else if (y <? 0) || (bh_height handle <=? y) then None
  else Some (4 * (y * bh_width handle + x), color).
Definition ClearColor (handle : BufferHandle) (color : Z) : list (Z * Z) :=
  x ← seqZ 0 (bh_width handle); y ← seqZ 0 (bh_height handle);
  match SetPixel handle x y color with Some a => [a] | None => [] end.

(** ** Facts on ids *)

Lemma idle_loop_fresh fuel old i ids :
  0 ≤ i < INVALIDE_LAYER_ID →
  (∃ k : nat, (k < fuel)%nat ∧ ((i + Z.of_nat k) mod INVALIDE_LAYER_ID ∉ ids)) →
  (∀ k : nat, (1 ≤ k < fuel)%nat → (i + Z.of_nat k) mod INVALIDE_LAYER_ID ≠ old) →
  ∃ id, idle_loop fuel old i ids = Some (id, id) ∧ (id ∉ ids) ∧ 0 ≤ id < INVALIDE_LAYER_ID.
Proof.
  revert i. induction fuel as [|fuel IH]; intros i Hi (k & Hk & Hfree) Hold; [lia|]. simpl.
  case_bool_decide as Hin; [by exists i|].
  destruct k as [|k].
  { rewrite Z.add_0_r Z.mod_small in Hfree; [done|lia]. }
  assert (∀ j : nat, ((i + 1) mod INVALIDE_LAYER_ID + Z.of_nat j) mod INVALIDE_LAYER_ID
                     = (i + Z.of_nat (S j)) mod INVALIDE_LAYER_ID) as Hshift.
  { intros j. rewrite Zplus_mod_idemp_l. f_equal. lia. }
  destruct (Z.eqb_spec old ((i + 1) mod INVALIDE_LAYER_ID)) as [->|_].
  { exfalso. apply (Hold 1%nat); [lia|]. done. }
  apply IH.
  - apply Z.mod_pos_bound. done.
  - exists k. rewrite Hshift. split; [lia|done].
  - intros j Hj. rewrite Hshift. apply Hold. lia.
Qed.

Definition pool_ok (p : IdPool) : Prop :=
  is_u32 (pool_mIdleId p) ∧ Z.of_nat (size (pool_mIdSets p)) < INVALIDE_LAYER_ID.

Lemma pool_GetIdleId_fresh p :
  pool_ok p →
  ∃ id, pool_GetIdleId p = Some (id, mkIdPool (id + 1) ({[id]} ∪ pool_mIdSets p)) ∧
        (id ∉ pool_mIdSets p) ∧ 0 ≤ id < INVALIDE_LAYER_ID.
Proof.
  intros [Hu Hsize]. unfold pool_GetIdleId. set (ids := pool_mIdSets p) in *.
  set (old := pool_mIdleId p) in *. set (i := old mod INVALIDE_LAYER_ID).
  assert (0 ≤ i < INVALIDE_LAYER_ID) as Hi by (apply Z.mod_pos_bound; done).
  destruct (pigeon ids (λ k, (i + Z.of_nat k) mod INVALIDE_LAYER_ID)) as (k & Hk & Hfree).
  { intros a b Ha Hb Heq. unfold INVALIDE_LAYER_ID in *.
    Z.to_euclidean_division_equations; lia. }
  destruct (idle_loop_fresh (S (size ids)) old i ids) as (id & -> & Hnew & Hid).
  - done.
  - exists k. split; [lia|done].
  - intros j Hj Heq. unfold i, INVALIDE_LAYER_ID, is_u32 in *.
    Z.to_euclidean_division_equations; lia.
  - exists id. rewrite u32_id; [done|]. unfold is_u32, INVALIDE_LAYER_ID in *. lia.
Qed.

(** ** Descriptors owned by layers *)

Definition pos_fd (fd : Z) : list Z := if 0 <=? fd then [fd] else [].
Definition buffer_fds (b : option HdiLayerBuffer) : list Z :=
  match b with Some b => pos_fd (lb_mFd b) | None => [] end.
(** The descriptors a layer object has to close. *)
Definition layer_fds (l : HdiLayer) : list Z :=
  pos_fd (l_mAcquireFence l) ++ buffer_fds (l_mHdiBuffer l) ++ (l_releaseFences_ l ≫= pos_fd).

(** [own] says which descriptors each object owns: all open, none of them
    foreign ([ext]) or owned twice, and nothing else is open. *)
Record own_ok (ext : gset Z) (own : gmap Z (list Z)) (F : gset Z) : Prop := {
  own_nodup : ∀ p L, own !! p = Some L → NoDup L;
  own_open : ∀ p L x, own !! p = Some L → x ∈ L → x ∈ F ∧ (x ∉ ext);
  own_once : ∀ p q L L' x, own !! p = Some L → own !! q = Some L' → x ∈ L → x ∈ L' → p = q;
  own_ext : ext ⊆ F;
  own_all : ∀ x, x ∈ F → x ∈ ext ∨ ∃ p L, own !! p = Some L ∧ x ∈ L;
}.

Definition fd_ok (ext : gset Z) (w : World) : Prop :=
  own_ok ext (layer_fds <$> w_layers w) (fds w).

Lemma own_update ext own F p L L' F' :
  own_ok ext own F → own !! p = Some L ∨ (own !! p = None ∧ L = []) → NoDup L' →
  (∀ x, x ∈ L' → x ∈ L ∨ (x ∉ F)) →
  (∀ x, x ∈ F' ↔ (x ∈ F ∧ x ∉ L) ∨ x ∈ L') →
  own_ok ext (<[p := L']> own) F'.
Proof.
  intros [Hnd Hop Hon Hex Hal] Hp HL' Hnew HF'.
  assert (∀ q L0 x, p ≠ q → own !! q = Some L0 → x ∈ L0 → (x ∉ L) ∧ (x ∉ L')) as Hother.
  { intros q L0 x Hne Hq Hx. destruct (Hop q L0 x Hq Hx) as [HxF _].
    assert (x ∉ L); [|naive_solver]. intros HxL. destruct Hp as [Hp|[_ ->]]; [|set_solver].
    by apply Hne, (Hon p q L L0 x). }
  assert (∀ x, x ∈ L → x ∈ F ∧ (x ∉ ext)) as HLF.
  { intros x Hx. destruct Hp as [Hp|[_ ->]]; [eauto|set_solver]. }
  split.
  - intros q L0. rewrite lookup_insert_Some. naive_solver.
  - intros q L0 x. rewrite lookup_insert_Some. intros [[-> <-]|[Hne Hq]] Hx; rewrite HF'.
    + split; [by right|]. destruct (Hnew x Hx) as [Hx'|Hx']; [naive_solver|set_solver].
    + destruct (Hother q L0 x Hne Hq Hx), (Hop q L0 x Hq Hx). naive_solver.
  - intros q1 q2 L1 L2 x. rewrite !lookup_insert_Some.
    intros [[-> <-]|[Hne Hq]] [[? <-]|[Hne' Hq']] Hx Hx'; subst; try done.
    + by destruct (Hother q2 L2 x Hne' Hq' Hx').
    + by destruct (Hother q1 L1 x Hne Hq Hx).
    + eauto.
  - intros x Hx. rewrite HF'. left. split; [by apply Hex|]. intros HxL. by destruct (HLF x HxL).
  - intros x. rewrite HF'. intros [[Hx HxL]|Hx].
    + destruct (Hal x Hx) as [?|(q & L0 & Hq & HxL0)]; [by left|]. right.
      exists q, L0. split; [|done]. rewrite lookup_insert_ne; [done|].
      intros <-. destruct Hp as [Hp|[Hp _]]; naive_solver.
    + right. exists p, L'. by rewrite lookup_insert_eq.
Qed.

Lemma own_delete ext own F p L F' :
  own_ok ext own F → own !! p = Some L → (∀ x, x ∈ F' ↔ x ∈ F ∧ x ∉ L) →
  own_ok ext (delete p own) F'.
Proof.
  intros Hok Hp HF'.
  pose proof (own_update ext own F p L [] F' Hok (or_introl Hp) (NoDup_nil_2)) as Hu.
  destruct Hu as [Hnd Hop Hon Hex Hal]; [set_solver|set_solver|].
  assert (∀ q L0, delete p own !! q = Some L0 → <[p:=[]]> own !! q = Some L0) as Hd.
  { intros q L0. rewrite lookup_delete_Some lookup_insert_Some. naive_solver. }
  split; [naive_solver..|].
  intros x Hx. destruct (Hal x Hx) as [?|(q & L0 & Hq & HL0)]; [by left|right].
  apply lookup_insert_Some in Hq as [[_ <-]|[Hne Hq]]; [set_solver|].
  exists q, L0. by rewrite lookup_delete_ne.
Qed.

(** A descriptor that is handed to the caller becomes foreign. *)
Lemma own_give ext own F p fd L L' :
  own_ok ext own F → own !! p = Some L → L ≡ₚ fd :: L' →
  own_ok ({[fd]} ∪ ext) (<[p := L']> own) F.
Proof.
  intros [Hnd Hop Hon Hex Hal] Hp HL.
  assert (NoDup (fd :: L')) as [Hfd HL']%NoDup_cons by (rewrite -HL; eauto).
  assert (∀ x, x ∈ L' → x ∈ L) as Hsub by (intros x; rewrite HL; set_solver).
  assert (fd ∈ L) as HfdL by (rewrite HL; set_solver).
  split.
  - intros q L0. rewrite lookup_insert_Some. naive_solver.
  - intros q L0 x. rewrite lookup_insert_Some. intros [[-> <-]|[Hne Hq]] Hx.
    + destruct (Hop q L x Hp (Hsub x Hx)). split; [done|]. set_solver.
    + destruct (Hop q L0 x Hq Hx). split; [done|]. apply not_elem_of_union. split; [|done].
      apply not_elem_of_singleton. intros ->. by apply Hne, (Hon p q L L0 fd).
  - intros q1 q2 L1 L2 x. rewrite !lookup_insert_Some. naive_solver.
  - intros x. rewrite elem_of_union elem_of_singleton. intros [->|Hx]; [|by apply Hex].
    by destruct (Hop p L fd Hp HfdL).
  - intros x Hx. destruct (Hal x Hx) as [?|(q & L0 & Hq & HL0)]; [set_solver|].
    destruct (decide (p = q)) as [<-|Hne].
    + simplify_eq. rewrite HL in HL0. apply elem_of_cons in HL0 as [->|HL0]; [set_solver|].
      right. exists p, L'. by rewrite lookup_insert_eq.
    + right. exists q, L0. by rewrite lookup_insert_ne.
Qed.

(** Everything of the world but the layers and the open descriptors. *)
Definition rest (w : World) : World := set_fds ∅ (set_w_layers ∅ w).
(** What buffers and fences do not touch of a layer. *)
Definition bare (l : HdiLayer) : HdiLayer :=
  set_l_mAcquireFence 0 (set_l_mHdiBuffer None (set_l_releaseFences_ [] l)).

Lemma fd_ok_replace ext w w' p l l' old new R :
  fd_ok ext w → w_layers w !! p = Some l → w_layers w' = <[p := l']> (w_layers w) →
  layer_fds l ≡ₚ old ++ R → layer_fds l' ≡ₚ new ++ R →
  (new = [] ∨ ∃ x, new = [x] ∧ (x ∉ fds w)) →
  (∀ x, x ∈ fds w' ↔ (x ∈ fds w ∧ x ∉ old) ∨ x ∈ new) →
  fd_ok ext w'.
Proof.
  intros Hok Hp Hl' HL HL' Hnew HF. unfold fd_ok. rewrite Hl' fmap_insert.
  assert ((layer_fds <$> w_layers w) !! p = Some (layer_fds l)) as Hp'
    by (by rewrite lookup_fmap Hp).
  assert (∀ x, x ∈ layer_fds l → x ∈ fds w) as Hopen
    by (intros x Hx; by destruct (own_open _ _ _ Hok p _ x Hp' Hx)).
  assert (NoDup (old ++ R)) as Hnd by (rewrite -HL; by eapply own_nodup).
  apply NoDup_app in Hnd as (Ho & HoR & HR).
  apply (own_update ext _ (fds w) p (layer_fds l)); [done|by left|..].
  - rewrite HL'. apply NoDup_app. split_and!; [..|done].
    + destruct Hnew as [->|(x & -> & _)]; [constructor|apply NoDup_singleton].
    + intros x Hx HxR. destruct Hnew as [->|(y & -> & Hy)]; [set_solver|].
      apply list_elem_of_singleton in Hx as ->. apply Hy, Hopen. rewrite HL. set_solver.
  - intros x. rewrite HL' HL. destruct Hnew as [->|(y & -> & Hy)]; set_solver.
  - intros x. rewrite HF HL HL'. rewrite !elem_of_app.
    destruct (decide (x ∈ R)) as [HxR|HxR].
    + assert (x ∈ fds w) by (apply Hopen; rewrite HL; set_solver).
      assert (x ∉ old) by set_solver. naive_solver.
    + naive_solver.
Qed.

Lemma pos_fd_spec x fd : x ∈ pos_fd fd ↔ x = fd ∧ 0 ≤ fd.
Proof. unfold pos_fd. destruct (Z.leb_spec 0 fd); set_solver by lia. Qed.
Lemma pos_fd_cases fd : pos_fd fd = [fd] ∨ pos_fd fd = [].
Proof. unfold pos_fd. case_match; auto. Qed.
Lemma pos_fd_new (fd : Z) (F : gset Z) :
  fd ∉ F → pos_fd fd = [] ∨ ∃ x, pos_fd fd = [x] ∧ (x ∉ F).
Proof. intros H. unfold pos_fd. case_match; eauto. Qed.

(** The two halves of [SetLayerBuffer]: the buffer, then the acquire fence.  A
    duplicated descriptor is new, or -1. *)
Lemma fd_ok_set_buffer ext w w' p l b :
  fd_ok ext w → w_layers w !! p = Some l → (lb_mFd b = -1 ∨ lb_mFd b ∉ fds w) →
  w_layers w' = <[p := set_l_mHdiBuffer (Some b) l]> (w_layers w) →
  (∀ x, x ∈ fds w' ↔ (x ∈ fds w ∨ x ∈ pos_fd (lb_mFd b)) ∧ x ∉ buffer_fds (l_mHdiBuffer l)) →
  fd_ok ext w'.
Proof.
  intros Hok Hp Hb Hl HF.
  assert (∀ x, x ∈ buffer_fds (l_mHdiBuffer l) → x ∈ fds w) as Hold.
  { intros x Hx. eapply (own_open _ _ _ Hok p); [by rewrite lookup_fmap Hp|].
    unfold layer_fds. set_solver. }
  apply (fd_ok_replace ext w w' p l (set_l_mHdiBuffer (Some b) l) (buffer_fds (l_mHdiBuffer l)) (pos_fd (lb_mFd b))
    (pos_fd (l_mAcquireFence l) ++ (l_releaseFences_ l ≫= pos_fd))); [done..| | | |].
  - unfold layer_fds. by rewrite Permutation_app_swap_app.
  - unfold layer_fds. cbn [l_mAcquireFence l_mHdiBuffer l_releaseFences_ set_l_mHdiBuffer buffer_fds].
    by rewrite Permutation_app_swap_app.
  - destruct Hb as [->|Hb]; [by left|by apply pos_fd_new].
  - intros x. rewrite HF. split; [naive_solver|]. intros [?|Hx]; [naive_solver|].
    split; [by right|]. intros Hx'. apply pos_fd_spec in Hx as [-> Hx].
    destruct Hb as [Hb|Hb]; [lia|]. by apply Hb, Hold.
Qed.

Lemma fd_ok_set_fence ext w w' p l fd :
  fd_ok ext w → w_layers w !! p = Some l → (fd = -1 ∨ fd ∉ fds w) →
  w_layers w' = <[p := set_l_mAcquireFence fd l]> (w_layers w) →
  (∀ x, x ∈ fds w' ↔ (x ∈ fds w ∨ x ∈ pos_fd fd) ∧ x ∉ pos_fd (l_mAcquireFence l)) →
  fd_ok ext w'.
Proof.
  intros Hok Hp Hb Hl HF.
  assert (∀ x, x ∈ pos_fd (l_mAcquireFence l) → x ∈ fds w) as Hold.
  { intros x Hx. eapply (own_open _ _ _ Hok p); [by rewrite lookup_fmap Hp|].
    unfold layer_fds. set_solver. }
  apply (fd_ok_replace ext w w' p l (set_l_mAcquireFence fd l) (pos_fd (l_mAcquireFence l)) (pos_fd fd)
    (buffer_fds (l_mHdiBuffer l) ++ (l_releaseFences_ l ≫= pos_fd))); [done..| |].
  - destruct Hb as [->|Hb]; [by left|by apply pos_fd_new].
  - intros x. rewrite HF. split; [naive_solver|]. intros [?|Hx]; [naive_solver|].
    split; [by right|]. intros Hx'. apply pos_fd_spec in Hx as [-> Hx].
    destruct Hb as [Hb|Hb]; [lia|]. by apply Hb, Hold.
Qed.

Lemma fd_ok_push_fence ext w w' p l fd :
  fd_ok ext w → w_layers w !! p = Some l → (fd = -1 ∨ fd ∉ fds w) →
  w_layers w' = <[p := set_l_releaseFences_ (l_releaseFences_ l ++ [fd]) l]> (w_layers w) →
  (∀ x, x ∈ fds w' ↔ x ∈ fds w ∨ x ∈ pos_fd fd) → fd_ok ext w'.
Proof.
  intros Hok Hp Hb Hl HF.
  apply (fd_ok_replace ext w w' p l (set_l_releaseFences_ (l_releaseFences_ l ++ [fd]) l) [] (pos_fd fd) (layer_fds l)); [done..| | |].
  - unfold layer_fds. cbn [l_mAcquireFence l_mHdiBuffer l_releaseFences_ set_l_releaseFences_].
    rewrite bind_app. cbn [mbind list_bind]. 
    by rewrite app_nil_r (Permutation_app_comm (pos_fd fd)) -!app_assoc.
  - destruct Hb as [->|Hb]; [by left|by apply pos_fd_new].
  - intros x. rewrite HF. set_solver.
Qed.

(** ** Framebuffers owned by layers *)

Definition gem_fbs (g : option DrmGemBuffer) : list Z :=
  match g with Some g => if gb_mFdId g =? 0 then [] else [gb_mFdId g] | None => [] end.
Definition layer_fbs (l : HdiLayer) : list Z :=
  gem_fbs (l_mCurrentBuffer l) ++ gem_fbs (l_lastBuffer_ l).

(** The driver grants the removal of framebuffers and of property blobs, and gives
    no blob the id that marks an invalid one. *)
Definition releases_granted (k : DrmKernel) : Prop :=
  ∀ n x, (dk_answer k n (RmFB x)).1 = 0 ∧ (dk_answer k n (DestroyPropertyBlob x)).1 = 0 ∧
         (dk_answer k n CreatePropertyBlob).2 ≠ DRM_INVALID_ID.

(** What making and dropping framebuffers leaves alone. *)
Definition drm_frame (k k' : DrmKernel) : Prop :=
  dk_fd k' = dk_fd k ∧ dk_answer k' = dk_answer k ∧ dk_commits k' = dk_commits k ∧
  dk_blobs k' = dk_blobs k.
#[export] Instance drm_frame_preorder : PreOrder drm_frame.
Proof. split; [done|]. unfold drm_frame. intros x y z. naive_solver congruence. Qed.

Lemma drm_frame_granted k k' : drm_frame k k' → releases_granted k → releases_granted k'.
Proof. intros (_ & Ha & _) H n x. rewrite Ha. apply H. Qed.

Lemma wp_drmModeRmFB fb (Q : Z → World → Prop) w :
  (∀ r k', drm_frame (w_drm w) k' →
     (releases_granted (w_drm w) → dk_fbs k' = dk_fbs (w_drm w) ∖ {[fb]}) →
     dk_fbs k' ⊆ dk_fbs (w_drm w) → Q r (set_w_drm k' w)) →
  wp (drmModeRmFB fb) Q w.
Proof.
  intros HQ. unfold drmModeRmFB. eapply wp_step; [done|].
  destruct (dk_answer _ _ _) as [r v] eqn:E. simpl. destruct (Z.eqb_spec r 0) as [->|Hr].
  - eapply wp_step; [done|]. apply wp_ret, HQ; [done|done|set_solver].
  - apply wp_ret, HQ; [done| |done]. intros Hg. destruct (Hg (dk_calls (w_drm w)) fb) as [Hg' _].
    rewrite E in Hg'. simpl in Hg'. lia.
Qed.
Lemma wp_gem_close h (Q : Z → World → Prop) w :
  (∀ r k', drm_frame (w_drm w) k' → dk_fbs k' = dk_fbs (w_drm w) → Q r (set_w_drm k' w)) →
  wp (gem_close h) Q w.
Proof.
  intros HQ. unfold gem_close. eapply wp_step; [done|]. simpl. case_match.
  - eapply wp_step; [done|]. by apply wp_ret, HQ.
  - by apply wp_ret, HQ.
Qed.

Lemma wp_gem_destroy_opt g (Q : unit → World → Prop) w :
  (∀ k', drm_frame (w_drm w) k' →
     (releases_granted (w_drm w) → ∀ x, x ∈ dk_fbs k' ↔ x ∈ dk_fbs (w_drm w) ∧ x ∉ gem_fbs g) →
     dk_fbs k' ⊆ dk_fbs (w_drm w) → Q tt (set_w_drm k' w)) →
  wp (gem_destroy_opt g) Q w.
Proof.
  intros HQ. destruct g as [g|]; simpl.
  2:{ apply wp_ret. replace w with (set_w_drm (w_drm w) w) by by destruct w.
      apply HQ; [done|set_solver|done]. }
  unfold DrmGemBuffer_destroy. apply wp_bind. destruct (gb_mFdId g =? 0) eqn:Ef; simpl.
  - apply wp_ret. apply wp_if; intros _.
    + apply wp_bind, wp_gem_close. intros r k' Hf Hb. apply wp_ret, HQ; [done| |by rewrite Hb].
      intros _ x. unfold gem_fbs. rewrite Ef Hb. set_solver.
    + apply wp_ret. replace w with (set_w_drm (w_drm w) w) by by destruct w.
      apply HQ; [done| |done]. intros _ x. unfold gem_fbs. rewrite Ef. set_solver.
  - apply wp_bind, wp_drmModeRmFB. intros r k1 Hf1 Hb1 Hs1. apply wp_ret. apply wp_if; intros _.
    + apply wp_bind, wp_gem_close. intros r2 k2 Hf2 Hb2. cbn [w_drm set_w_drm] in *.
      apply wp_ret. apply (HQ k2); [by etrans| |by rewrite Hb2].
      intros Hg x. unfold gem_fbs. rewrite Ef Hb2 (Hb1 Hg). set_solver.
    + apply wp_ret. apply HQ; [done| |done]. intros Hg x. unfold gem_fbs.
      rewrite Ef (Hb1 Hg). set_solver.
Qed.

Lemma wp_DrmGemBuffer_make fd hdl (Q : DrmGemBuffer → World → Prop) w :
  (∀ g k', drm_frame (w_drm w) k' →
     (∀ x, x ∈ dk_fbs k' → x ∈ dk_fbs (w_drm w) ∨ x = 0 ∨ x ∈ gem_fbs (Some g)) →
     Q g (set_w_drm k' w)) →
  wp (DrmGemBuffer_make fd hdl) Q w.
Proof.
  intros HQ. unfold DrmGemBuffer_make. apply wp_if; intros _.
  { apply wp_ret. replace w with (set_w_drm (w_drm w) w) by by destruct w. apply HQ; [done|auto]. }
  unfold drmPrimeFDToHandle, drmModeAddFB2. apply wp_bind. eapply wp_step; [done|].
  destruct (dk_answer _ _ PrimeFDToHandle) as [r h]. simpl. destruct (r =? 0) eqn:E1; simpl.
  2:{ apply wp_ret. simpl. rewrite E1. apply wp_ret, HQ; [done|auto]. }
  eapply wp_step; [done|]. apply wp_ret. simpl. rewrite E1. simpl. apply wp_bind.
  eapply wp_step; [done|]. cbn [w_drm set_w_drm dk_answer set_dk_calls dk_calls set_dk_gem].
  destruct (dk_answer _ _ AddFB2) as [r2 fb]. simpl. destruct (r2 =? 0) eqn:E2; simpl.
  - eapply wp_step; [done|]. apply wp_ret. simpl. rewrite E2. simpl. apply wp_ret, HQ; [done|].
    simpl. intros x. rewrite elem_of_union elem_of_singleton. intros [->|?]; [right|by left].
    destruct (Z.eqb_spec fb 0); set_solver.
  - apply wp_ret. simpl. rewrite E2. simpl. apply wp_ret, HQ; [done|]. simpl. auto.
Qed.

(** Every framebuffer is one of [fb0] or owned by a layer. *)
Definition fb_ok (fb0 : gset Z) (layers : gmap Z HdiLayer) (fbs : gset Z) : Prop :=
  ∀ x, x ∈ fbs → x ∈ fb0 ∨ ∃ p l, layers !! p = Some l ∧ x ∈ layer_fbs l.

Lemma fb_ok_update fb0 layers fbs fbs' p l l' :
  fb_ok fb0 layers fbs → layers !! p = Some l →
  (∀ x, x ∈ fbs' → (x ∈ fbs ∧ (x ∈ layer_fbs l → x ∈ fb0 ∨ x ∈ layer_fbs l')) ∨
                   x ∈ fb0 ∨ x ∈ layer_fbs l') →
  fb_ok fb0 (<[p := l']> layers) fbs'.
Proof.
  intros Hok Hp Hx x Hx'.
  assert (x ∈ layer_fbs l' → ∃ q l0, <[p:=l']> layers !! q = Some l0 ∧ x ∈ layer_fbs l0) as Hin.
  { intros H. exists p, l'. by rewrite lookup_insert_eq. }
  destruct (Hx x Hx') as [[Hf Hl]|[?|?]]; [|by left|by auto].
  destruct (Hok x Hf) as [?|(q & l0 & Hq & Hl0)]; [by left|].
  destruct (decide (p = q)) as [<-|Hne]; [simplify_eq; naive_solver|].
  right. exists q, l0. by rewrite lookup_insert_ne.
Qed.

(** *** [SetLayerBuffer] *)

(** The descriptor [fd] has just been opened, or is -1. *)
Definition with_new_fd (fd : Z) (w : World) : World :=
  set_fds (list_to_set (pos_fd fd) ∪ fds w) w.

Lemma set_fds_id w : set_fds (fds w) w = w.
Proof. by destruct w as [? ? ? ? [? ? ?] ? ? ? ? ? ? ?]. Qed.
Lemma elem_with_new_fd x fd w : x ∈ fds (with_new_fd fd w) ↔ x ∈ fds w ∨ x ∈ pos_fd fd.
Proof. unfold with_new_fd. rewrite fds_set_fds. set_solver. Qed.
Lemma with_new_fd_pos fd w : 0 ≤ fd → with_new_fd fd w = set_fds ({[fd]} ∪ fds w) w.
Proof.
  intros Hpos. unfold with_new_fd, pos_fd. destruct (Z.leb_spec 0 fd); [|lia]. simpl.
  by rewrite union_empty_r_L.
Qed.
Lemma with_new_fd_neg w : with_new_fd (-1) w = w.
Proof. unfold with_new_fd. simpl. by rewrite union_empty_l_L set_fds_id. Qed.

Lemma wp_dup_new fd0 (Q : Z → World → Prop) w :
  (∀ fd, fd = -1 ∨ fd ∉ fds w → Q fd (with_new_fd fd w)) → wp (dup fd0) Q w.
Proof.
  intros HQ. apply wp_dup.
  - intros fd Hpos Hnew. rewrite -with_new_fd_pos //. auto.
  - rewrite -{1}(with_new_fd_neg w). auto.
Qed.
Lemma wp_open_fd_new (Q : Z → World → Prop) w :
  (∀ fd, fd = -1 ∨ (0 ≤ fd ∧ fd ∉ fds w) → Q fd (with_new_fd fd w)) → wp open_fd Q w.
Proof.
  intros HQ. apply wp_open_fd.
  - intros fd Hpos Hnew. rewrite -with_new_fd_pos //. auto.
  - rewrite -{1}(with_new_fd_neg w). auto.
Qed.

(** Closing what [pos_fd] holds. *)
Lemma wp_close_pos fd (Q : unit → World → Prop) w :
  (∀ w', w_layers w' = w_layers w → rest w' = rest w →
     (∀ x, x ∈ fds w' ↔ x ∈ fds w ∧ x ∉ pos_fd fd) → Q tt w') →
  wp (close_if_open fd) Q w.
Proof.
  intros HQ. apply wp_close_if_open. apply HQ.
  - by destruct (0 <=? fd).
  - by destruct (0 <=? fd).
  - intros x. unfold pos_fd. destruct (0 <=? fd); rewrite ?fds_set_fds; set_solver.
Qed.

Lemma wp_assign_acquire_fence ext p fd l (Q : unit → World → Prop) w :
  fd_ok ext w → w_layers w !! p = Some l → (fd = -1 ∨ fd ∉ fds w) →
  (∀ w', fd_ok ext w' → rest w' = rest w →
     w_layers w' = <[p := set_l_mAcquireFence fd l]> (w_layers w) → Q tt w') →
  wp (assign_acquire_fence p fd) Q (with_new_fd fd w).
Proof.
  intros Hok Hp Hfd HQ. unfold assign_acquire_fence. eapply wp_bind, wp_deref; [done|].
  apply wp_bind, wp_close_pos. intros wc Hl Hr HF.
  eapply wp_update; [by rewrite Hl|]. rewrite Hl. apply HQ; [|exact Hr|done].
  apply (fd_ok_set_fence ext w _ p l fd); try done.
  intros x. cbn [fds w_kern set_w_layers]. rewrite -elem_with_new_fd. apply HF.
Qed.

Lemma wp_swap_buffer ext p b l (Q : unit → World → Prop) w :
  fd_ok ext w → w_layers w !! p = Some l → (lb_mFd b = -1 ∨ lb_mFd b ∉ fds w) →
  (∀ w', fd_ok ext w' → rest w' = rest w →
     w_layers w' = <[p := set_l_mHdiBuffer (Some b) l]> (w_layers w) → Q tt w') →
  wp (swap_buffer p b) Q (with_new_fd (lb_mFd b) w).
Proof.
  intros Hok Hp Hfd HQ. unfold swap_buffer. eapply wp_bind, wp_deref; [done|].
  eapply wp_bind, wp_update; [done|]. set (w1 := set_w_layers _ _).
  assert (∀ w2, w_layers w2 = w_layers w1 → rest w2 = rest w1 →
    (∀ x, x ∈ fds w2 ↔ x ∈ fds w1 ∧ x ∉ buffer_fds (l_mHdiBuffer l)) → Q tt w2) as Hfin.
  { intros w2 Hl Hr HF. apply HQ; [|by rewrite Hr|by rewrite Hl].
    apply (fd_ok_set_buffer ext w w2 p l b); [done..|].
    intros x. rewrite HF -elem_with_new_fd. done. }
  destruct (l_mHdiBuffer l) as [old|]; simpl.
  - apply wp_close_pos. done.
  - apply wp_ret, Hfin; [done..|]. set_solver.
Qed.

Lemma wp_SetLayerBuffer ext p buffer fence l (Q : DispError → World → Prop) w :
  fd_ok ext w → w_layers w !! p = Some l →
  (∀ r w' l', fd_ok ext w' → rest w' = rest w → w_layers w' = <[p := l']> (w_layers w) →
     bare l' = bare l → l_releaseFences_ l' = l_releaseFences_ l →
     (match buffer with
      | Some _ => r = DISPLAY_SUCCESS ∧ is_Some (l_mHdiBuffer l')
      | None => r = DISPLAY_NULL_PTR ∧ l' = l end) → Q r w') →
  wp (SetLayerBuffer p buffer fence) Q w.
Proof.
  intros Hok Hp HQ. unfold SetLayerBuffer. destruct buffer as [hdl|].
  2:{ apply wp_ret, (HQ _ w l); try done. by rewrite insert_id. }
  unfold HdiLayerBuffer_make. apply wp_bind, wp_bind, wp_dup_new. intros fd Hfd. apply wp_ret.
  set (b := mkHdiLayerBuffer _ _ _ _ _ _ _). apply wp_bind.
  eapply (wp_swap_buffer ext p b); [done..|]. intros w2 Hok2 Hr2 Hl2. apply wp_bind.
  assert (w_layers w2 !! p = Some (set_l_mHdiBuffer (Some b) l)) as Hp2
    by (by rewrite Hl2 lookup_insert_eq).
  apply wp_if; intros _.
  - apply wp_bind, wp_dup_new. intros fd' Hfd'.
    eapply wp_assign_acquire_fence; [exact Hok2|exact Hp2|done|].
    intros w' Hok' Hr' Hl'. apply wp_ret.
    apply (HQ _ _ (set_l_mAcquireFence fd' (set_l_mHdiBuffer (Some b) l))); try done.
    + by rewrite Hr'.
    + by rewrite Hl' Hl2 insert_insert_eq.
  - apply wp_ret, wp_ret. by apply (HQ _ _ (set_l_mHdiBuffer (Some b) l)).
Qed.

(** *** Release fences *)

(** A fence that is popped is the caller's. *)
Lemma wp_GetReleaseFenceFd ext p l (Q : Z → World → Prop) w :
  fd_ok ext w → w_layers w !! p = Some l →
  (let fd := default (-1) (head (l_releaseFences_ l)) in
   let w' := set_w_layers (<[p := set_l_releaseFences_ (tail (l_releaseFences_ l)) l]>
               (w_layers w)) w in
   fd_ok (list_to_set (pos_fd fd) ∪ ext) w' → Q fd w') →
  wp (GetReleaseFenceFd p) Q w.
Proof.
  intros Hok Hp HQ. unfold GetReleaseFenceFd. eapply wp_bind, wp_deref; [done|].
  destruct (l_releaseFences_ l) as [|fd fences] eqn:El; simpl in HQ.
  - apply wp_ret. rewrite union_empty_l_L in HQ.
    assert (set_l_releaseFences_ [] l = l) as E by (rewrite -El; by destruct l).
    rewrite E insert_id // in HQ. replace (set_w_layers (w_layers w) w) with w in HQ
      by by destruct w. auto.
  - eapply wp_bind, wp_update; [done|]. apply wp_ret, HQ.
    unfold fd_ok. cbn [fds w_kern w_layers set_w_layers]. rewrite fmap_insert.
    assert (layer_fds l = pos_fd (l_mAcquireFence l) ++ buffer_fds (l_mHdiBuffer l) ++
              pos_fd fd ++ (fences ≫= pos_fd)) as Hfds by (unfold layer_fds; by rewrite El).
    assert ((layer_fds <$> w_layers w) !! p = Some (layer_fds l)) as Hp' by (by rewrite lookup_fmap Hp).
    destruct (pos_fd_cases fd) as [E|E]; rewrite E; simpl.
    + rewrite union_empty_r_L. eapply own_give; [exact Hok|exact Hp'|].
      rewrite Hfds E. unfold layer_fds. simpl. by rewrite !app_assoc -Permutation_middle.
    + rewrite union_empty_l_L.
      assert (layer_fds (set_l_releaseFences_ fences l) = layer_fds l) as Heq by by rewrite Hfds E.
      apply (own_update ext _ (fds w) p (layer_fds l)); [exact Hok|by left|..]; rewrite Heq.
      * eapply own_nodup; [exact Hok|exact Hp'].
      * auto.
      * intros x. destruct (decide (x ∈ layer_fds l)); [|naive_solver].
        assert (x ∈ fds w ∧ (x ∉ ext)); [|naive_solver].
        eapply own_open; [exact Hok|exact Hp'|done].
Qed.

Lemma wp_SetReleaseFence ext p l fd (Q : unit → World → Prop) w :
  fd_ok ext w → w_layers w !! p = Some l → (fd = -1 ∨ fd ∉ fds w) →
  (∀ w', fd_ok ext w' → rest w' = rest w →
     w_layers w' = <[p := set_l_releaseFences_ (l_releaseFences_ l ++ [fd]) l]> (w_layers w) →
     (∀ x, x ∈ fds w' ↔ x ∈ fds w ∨ x ∈ pos_fd fd) → Q tt w') →
  wp (SetReleaseFence p fd) Q (with_new_fd fd w).
Proof.
  intros Hok Hp Hfd HQ. eapply wp_update; [done|].
  assert (∀ x, x ∈ fds (set_w_layers (<[p:=set_l_releaseFences_ (l_releaseFences_ l ++ [fd]) l]>
      (w_layers (with_new_fd fd w))) (with_new_fd fd w)) ↔ x ∈ fds w ∨ x ∈ pos_fd fd) as HF
    by (intros x; apply elem_with_new_fd).
  apply HQ; [|done|done|exact HF]. by apply (fd_ok_push_fence ext w _ p l fd).
Qed.

(** *** Construction and destruction *)

Lemma wp_new_layer ext fb0 type (Q : Z → World → Prop) w :
  fd_ok ext w → fb_ok fb0 (w_layers w) (dk_fbs (w_drm w)) →
  w_layers w !! w_nextptr w = None →
  (let w' := set_w_nextptr (w_nextptr w + 1)
               (set_w_layers (<[w_nextptr w := HdiLayer_new type]> (w_layers w)) w) in
   fd_ok ext w' → fb_ok fb0 (w_layers w') (dk_fbs (w_drm w')) → Q (w_nextptr w) w') →
  wp (new_layer type) Q w.
Proof.
  intros Hok Hfb Hp HQ. do 2 eexists. split; [done|]. apply HQ.
  - unfold fd_ok. cbn [fds w_kern w_layers set_w_layers set_w_nextptr]. rewrite fmap_insert.
    eapply own_update; [exact Hok| |apply NoDup_nil_2|..]; [right; by rewrite lookup_fmap Hp|..];
      cbn; set_solver.
  - cbn. intros x Hx. destruct (Hfb x Hx) as [?|(q & l & Hq & Hl)]; [by left|right].
    exists q, l. split; [|done]. rewrite lookup_insert_ne; [done|]. intros E. by rewrite E Hq in Hp.
Qed.

Lemma wp_close_list (L : list Z) (Q : unit → World → Prop) w :
  (∀ w', w_layers w' = w_layers w → rest w' = rest w →
     (∀ x, x ∈ fds w' ↔ x ∈ fds w ∧ x ∉ L) → Q tt w') →
  wp (dfor L close) Q w.
Proof.
  revert w. induction L as [|fd L IH]; intros w HQ; simpl.
  - apply wp_ret, HQ; [done..|set_solver].
  - apply wp_bind, wp_close, IH. intros w' Hl Hr HF. apply HQ; [done..|].
    intros x. rewrite HF fds_set_fds. set_solver.
Qed.

(** Deleting a layer closes exactly what it owned. *)
Lemma wp_delete_layer ext fb0 p l (Q : unit → World → Prop) w :
  fd_ok ext w → (∀ fd, fd ∈ fds w → 0 ≤ fd) → w_layers w !! p = Some l →
  (∀ w' k', drm_frame (w_drm w) k' →
     rest w' = set_w_drm k' (set_w_layer_ids
       (mkIdPool (pool_mIdleId (w_layer_ids w)) (pool_mIdSets (w_layer_ids w) ∖ {[l_mId l]}))
       (rest w)) →
     w_layers w' = delete p (w_layers w) → fd_ok ext w' →
     (∀ x, x ∈ fds w' ↔ x ∈ fds w ∧ x ∉ layer_fds l) →
     (releases_granted (w_drm w) → fb_ok fb0 (w_layers w) (dk_fbs (w_drm w)) →
        fb_ok fb0 (w_layers w') (dk_fbs k')) → Q tt w') →
  wp (delete_layer p) Q w.
Proof.
  intros Hok Hpos Hp HQ. unfold delete_layer. eapply wp_bind, wp_deref; [done|].
  apply wp_bind, wp_gem_destroy_opt. intros k1 Hf1 Hg1 Hs1.
  apply wp_bind, wp_gem_destroy_opt. cbn [w_drm set_w_drm]. intros k2 Hf2 Hg2 Hs2.
  apply wp_bind, wp_dmod. apply wp_bind, wp_close_list. intros w3 Hl3 Hr3 HF3.
  apply wp_bind.
  assert (wp (match l_mHdiBuffer l with
              | Some b => HdiLayerBuffer_destroy b | None => dret tt end)
    (λ _ w4, w_layers w4 = w_layers w3 ∧ rest w4 = rest w3 ∧
             ∀ x, x ∈ fds w4 ↔ x ∈ fds w3 ∧ x ∉ buffer_fds (l_mHdiBuffer l)) w3) as Hb.
  { destruct (l_mHdiBuffer l); simpl; [by apply wp_close_pos|].
    apply wp_ret. split_and!; [done..|set_solver]. }
  eapply wp_mono; [exact Hb|]. cbn beta. intros _ w4 (Hl4 & Hr4 & HF4).
  apply wp_bind, wp_close_pos. intros w5 Hl5 Hr5 HF5. apply wp_dmod.
  assert (∀ x, x ∈ fds w5 ↔ x ∈ fds w ∧ x ∉ layer_fds l) as HF.
  { intros x. rewrite HF5 HF4 HF3. cbn [fds w_kern set_w_layer_ids set_w_drm]. unfold layer_fds.
    rewrite !not_elem_of_app.
    assert (x ∈ fds w → (x ∉ l_releaseFences_ l) ↔ (x ∉ l_releaseFences_ l ≫= pos_fd)) as Hrel.
    { intros Hx. apply not_iff_compat. rewrite list_elem_of_bind. setoid_rewrite pos_fd_spec.
      specialize (Hpos x Hx). naive_solver. }
    change (k_fds (w_kern w)) with (fds w). naive_solver. }
  eapply (HQ _ k2).
  - by etrans.
  - change (rest (set_w_layers (delete p (w_layers w5)) w5)) with (rest w5).
    rewrite Hr5 Hr4 Hr3. done.
  - cbn [w_layers set_w_layers]. by rewrite Hl5 Hl4 Hl3.
  - unfold fd_ok. cbn [w_layers set_w_layers]. rewrite Hl5 Hl4 Hl3 fmap_delete.
    eapply own_delete; [exact Hok|by rewrite lookup_fmap Hp|exact HF].
  - exact HF.
  - intros Hgr Hfb. cbn [w_layers set_w_layers]. rewrite Hl5 Hl4 Hl3.
    specialize (Hg1 Hgr). specialize (Hg2 (drm_frame_granted _ _ Hf1 Hgr)).
    intros x Hx. apply Hg2 in Hx as [[Hx Hlast]%Hg1 Hcur].
    destruct (Hfb x Hx) as [?|(q & l0 & Hq & Hl0)]; [by left|right].
    exists q, l0. split; [|done]. rewrite lookup_delete_ne; [done|].
    intros ->. simplify_eq. unfold layer_fbs in Hl0. set_solver.
Qed.

(** *** Framebuffers of the layer on the screen *)

Lemma wp_GetGemBuffer fb0 p l hdl (Q : DrmGemBuffer → World → Prop) w :
  w_layers w !! p = Some l → l_mHdiBuffer l = Some hdl →
  (∀ g k',
     let l' := set_l_mCurrentBuffer (Some g) (set_l_lastBuffer_ (l_mCurrentBuffer l) l) in
     drm_frame (w_drm w) k' →
     (releases_granted (w_drm w) → 0 ∈ fb0 → fb_ok fb0 (w_layers w) (dk_fbs (w_drm w)) →
        fb_ok fb0 (<[p := l']> (w_layers w)) (dk_fbs k')) →
     Q g (set_w_drm k' (set_w_layers (<[p := l']> (w_layers w)) w))) →
  wp (GetGemBuffer p) Q w.
Proof.
  intros Hp Hb HQ. unfold GetGemBuffer. eapply wp_step; [done|].
  eapply wp_bind, wp_deref; [done|]. rewrite Hb.
  apply wp_bind, wp_DrmGemBuffer_make. intros g k1 Hf1 Hs1.
  eapply wp_bind, wp_update; [done|]. apply wp_bind, wp_gem_destroy_opt.
  cbn [w_drm set_w_drm set_w_layers]. intros k2 Hf2 Hg2 Hs2.
  eapply wp_bind, wp_update; [cbn; by rewrite lookup_insert_eq|]. apply wp_ret.
  pose proof (HQ g k2) as HQ2. cbn in HQ2 |- *. rewrite insert_insert_eq. apply HQ2.
  - by etrans.
  - intros Hgr H0 Hfb. specialize (Hg2 (drm_frame_granted _ _ Hf1 Hgr)).
    eapply fb_ok_update; [done|done|]. intros x Hx. apply Hg2 in Hx as [Hx Hlast].
    assert (x ∈ gem_fbs (Some g) ∨ x ∈ gem_fbs (l_mCurrentBuffer l) →
            x ∈ layer_fbs (set_l_mCurrentBuffer (Some g)
                  (set_l_lastBuffer_ (l_mCurrentBuffer l) l))) as Hin.
    { unfold layer_fbs. set_solver. }
    destruct (Hs1 x Hx) as [Hx'|[->|Hx']]; [left|by auto|by auto].
    split; [done|]. unfold layer_fbs at 1. rewrite elem_of_app. naive_solver.
Qed.

(** ** Properties *)

(** A new layer never gets the id of a live one.  As long as fewer than
    2^32 - 1 ids are in use [GetIdleId] ends, and returns a valid id that is not in
    use, however the counter stands (it may be [INVALIDE_LAYER_ID] itself, or have
    wrapped round); the id is marked as used and no other id is. *)
Theorem idle_id_fresh w :
  pool_ok (w_layer_ids w) →
  ∃ id w', GetIdleId w = Some (id, w') ∧
    (id ∉ pool_mIdSets (w_layer_ids w)) ∧ 0 ≤ id < INVALIDE_LAYER_ID ∧
    pool_mIdSets (w_layer_ids w') = {[id]} ∪ pool_mIdSets (w_layer_ids w) ∧
    is_u32 (pool_mIdleId (w_layer_ids w')).
Proof.
  intros Hok. destruct (pool_GetIdleId_fresh _ Hok) as (id & Hid & Hnew & Hr).
  unfold GetIdleId. rewrite Hid. do 2 eexists. split; [done|]. split_and!; try done; try lia.
  unfold is_u32, INVALIDE_LAYER_ID in *. simpl. lia.
Qed.

Definition DrmKernel_new (fd : option Z) (answer : nat → DrmCall → Z * Z) : DrmKernel :=
  mkDrmKernel fd 0 answer ∅ ∅ ∅ [].
Definition World_new (kern : Kernel) (nofile : Z) (drm : DrmKernel) : World :=
  mkWorld ∅ 1 (mkIdPool 0 ∅) (mkIdPool 0 ∅) kern nofile drm ∅ ∅ ∅ [] Manager_new.

Lemma idle_id_fresh_witness :
  let w := set_w_layer_ids (mkIdPool 0xffffffff {[0; 1; 3]})
             (World_new (mkKernel ∅ ∅ ∅) 64 (DrmKernel_new None (λ _ _, (0, 0)))) in
  ∃ id w', GetIdleId w = Some (id, w') ∧ (id ∉ pool_mIdSets (w_layer_ids w)).
Proof.
  destruct (idle_id_fresh (set_w_layer_ids (mkIdPool 0xffffffff {[0; 1; 3]})
    (World_new (mkKernel ∅ ∅ ∅) 64 (DrmKernel_new None (λ _ _, (0, 0))))))
    as (id & w' & H1 & H2 & _).
  - split; [split; [by vm_compute|reflexivity]|reflexivity].
  - by exists id, w'.
Defined.
