(* ===== verification/HdiDisplay.v ===== *)
(** * Displays and the composer (core/hdi_display.{h,cpp}, composer/hdi_composer.{h,cpp})

    [HdiComposition] is the interface between a display and the compositions that
    put its layers on the screen; [HdiCompositionLaws] states what the display relies
    on: a composition does not add, remove, rename or reorder layers.  The display's
    theorems are proved against it; Composition.v and DrmDisplay.v give the
    instances.

    [mLayersMap] maps ids to layer addresses, [mLayers] is the multiset in iteration
    order (ascending z, an insertion after the equal ones).  The pointer arguments
    that are only tested for null are booleans. *)

From S2P Require Import Prelude Gralloc DispWorld HdiLayer.
Set Warnings "-rewrite-rw,-clear-no-such-hyp".

(** ** The interface *)

Class HdiComposition (C : Type) := {
  comp_SetLayers : list Z → Z → C → D (DispError * C);
  comp_Apply : bool → C → D (DispError * C);
}.

(** What of the layers a composition leaves alone: which there are, their ids,
    z-orders and visibility. *)
Definition layer_key (l : HdiLayer) : Z * Z * bool := (l_mId l, l_mZorder l, l_mVisible l).
Definition shape (w w' : World) : Prop :=
  layer_key <$> w_layers w' = layer_key <$> w_layers w ∧ w_nextptr w' = w_nextptr w ∧
  w_layer_ids w' = w_layer_ids w.
Definition live (w : World) (p : Z) : Prop := is_Some (w_layers w !! p).

(** The resources of the process are accounted for: every open descriptor is
    foreign ([ext]) or owned by exactly one layer, every framebuffer is in [fb0] or
    owned by a layer, every property blob is in [bl0]. *)
Record res_ok (ext fb0 bl0 : gset Z) (w : World) : Prop := {
  res_fds : fd_ok ext w;
  res_pos : ∀ fd, fd ∈ ext → 0 ≤ fd;
  res_granted : releases_granted (w_drm w);
  res_zero : 0 ∈ fb0;
  res_fbs : fb_ok fb0 (w_layers w) (dk_fbs (w_drm w));
  res_blobs : dk_blobs (w_drm w) ⊆ bl0;
}.

(** A step that keeps the layers' shape and loses track of nothing. *)
Definition steady (w w' : World) : Prop :=
  shape w w' ∧ ∀ ext fb0 bl0, res_ok ext fb0 bl0 w → res_ok ext fb0 bl0 w'.

Class HdiCompositionLaws (C : Type) `{!HdiComposition C} := {
  SetLayers_steady : ∀ c layers client w, Forall (live w) layers → live w client →
    wp (comp_SetLayers layers client c) (λ _ w', steady w w') w;
  Apply_steady : ∀ c modeSet, keeps steady (comp_Apply modeSet c);
}.

(** ** The composer *)

Record HdiComposer (C : Type) := mkHdiComposer { preComp_ : list C; postComp_ : list C }.
Arguments mkHdiComposer {C}.
Arguments preComp_ {C}.
Arguments postComp_ {C}.

(** The composer works for any composition; the display for those it owns. *)
Section HdiComposer.
Context {C : Type}.

(** A loop over compositions that stops at the first failure. *)
Fixpoint comp_loop (f : C → D (DispError * C)) (l : list C) : D (DispError * list C) :=
  match l with
  | [] => dret (DISPLAY_SUCCESS, [])
  | c :: l =>
      let! r := f c in
      if bool_decide (r.1 ≠ DISPLAY_SUCCESS) then dret (DISPLAY_FAILURE, r.2 :: l)
      else let! r' := comp_loop f l in dret (r'.1, r.2 :: r'.2)
  end.

Definition Composer_Prepare `{!HdiComposition C} (layers : list Z) (client : Z)
    (m : HdiComposer C) : D (DispError * HdiComposer C) :=
  let! post := comp_loop (comp_SetLayers layers client) (postComp_ m) in
  if bool_decide (post.1 ≠ DISPLAY_SUCCESS)
  then dret (DISPLAY_FAILURE, mkHdiComposer (preComp_ m) post.2)
  else
    let! pre := comp_loop (comp_SetLayers layers client) (preComp_ m) in
    dret (pre.1, mkHdiComposer pre.2 post.2).

Definition Composer_Commit `{!HdiComposition C} (modeSet : bool)
    (m : HdiComposer C) : D (DispError * HdiComposer C) :=
  let! pre := comp_loop (comp_Apply modeSet) (preComp_ m) in
  if bool_decide (pre.1 ≠ DISPLAY_SUCCESS)
  then dret (DISPLAY_FAILURE, mkHdiComposer pre.2 (postComp_ m))
  else
    let! post := comp_loop (comp_Apply modeSet) (postComp_ m) in
    dret (post.1, mkHdiComposer pre.2 post.2).

Definition GetPostCompostion (index : nat) (m : HdiComposer C) : option C := postComp_ m !! index.
Definition GetPreCompostion (index : nat) (m : HdiComposer C) : option C := preComp_ m !! index.
Definition AddPostComp (post : C) (m : HdiComposer C) : HdiComposer C :=
  mkHdiComposer (preComp_ m) (postComp_ m ++ [post]).

End HdiComposer.

(** ** The display *)

Record HdiDisplay (C : Type) := mkHdiDisplay {
  d_mId : Z;
  d_mLayersMap : gmap Z Z;
  d_mLayers : list Z;
  d_mClientLayer : option Z;
  d_mChangeLayers : list Z;
  d_mComposer : option (HdiComposer C);
}.
Arguments mkHdiDisplay {C}.
Arguments d_mId {C}.
Arguments d_mLayersMap {C}.
Arguments d_mLayers {C}.
Arguments d_mClientLayer {C}.
Arguments d_mChangeLayers {C}.
Arguments d_mComposer {C}.

Definition HdiDisplay_new (C : Type) : HdiDisplay C :=
  mkHdiDisplay INVALIDE_DISPLAY_ID ∅ [] None [] None.

Section HdiDisplay.
Context {C : Type}.

Definition with_layers (m : gmap Z Z) (ls : list Z) (d : HdiDisplay C) : HdiDisplay C :=
  mkHdiDisplay (d_mId d) m ls (d_mClientLayer d) (d_mChangeLayers d) (d_mComposer d).
Definition with_change (ls : list Z) (d : HdiDisplay C) : HdiDisplay C :=
  mkHdiDisplay (d_mId d) (d_mLayersMap d) (d_mLayers d) (d_mClientLayer d) ls (d_mComposer d).
Definition with_composer (m : option (HdiComposer C)) (d : HdiDisplay C) : HdiDisplay C :=
  mkHdiDisplay (d_mId d) (d_mLayersMap d) (d_mLayers d) (d_mClientLayer d) (d_mChangeLayers d) m.

(** A pointer member that is dereferenced. *)
Definition nonnull {A} (o : option A) : D A := match o with Some a => dret a | None => dfault end.

Definition Display_Init (d : HdiDisplay C) : D (DispError * HdiDisplay C) :=
  let! id := Display_GetIdleId in
  if id =? INVALIDE_DISPLAY_ID then dret (DISPLAY_FAILURE, d)
  else
    let! layer := new_layer LAYER_TYPE_GRAPHIC in
    dret (DISPLAY_SUCCESS,
          mkHdiDisplay id (d_mLayersMap d) (d_mLayers d) (Some layer) (d_mChangeLayers d)
            (d_mComposer d)).

(** [multiset::insert] and the search for a layer in its [equal_range]. *)
Fixpoint mset_insert (p z : Z) (l : list Z) : D (list Z) :=
  match l with
  | [] => dret [p]
  | q :: l' =>
      let! lq := deref q in
      if z <? l_mZorder lq then dret (p :: q :: l')
      else let! l'' := mset_insert p z l' in dret (q :: l'')
  end.
Fixpoint mset_erase (p z : Z) (l : list Z) : D (list Z) :=
  match l with
  | [] => dret []
  | q :: l' =>
      let! lq := deref q in
      if (l_mZorder lq =? z) && (q =? p) then dret l'
      else let! l'' := mset_erase p z l' in dret (q :: l'')
  end.

Definition SetLayerZorder (layerId zorder : Z) (d : HdiDisplay C) : D (DispError * HdiDisplay C) :=
  match d_mLayersMap d !! layerId with
  | None => dret (DISPLAY_FAILURE, d)
  | Some layer =>
      let! l := deref layer in
      if l_mZorder l =? zorder then dret (DISPLAY_SUCCESS, d)
      else
        let! ls := mset_erase layer (l_mZorder l) (d_mLayers d) in
        do! Layer_SetLayerZorder layer zorder in
        let! ls := mset_insert layer zorder ls in
        dret (DISPLAY_SUCCESS, with_layers (d_mLayersMap d) ls d)
  end.

(** [CreateLayer]; a null [layerInfo] is [None]; the id is the out value. *)
Definition CreateLayer (layerInfo : option LayerType) (layerId : bool) (d : HdiDisplay C)
    : D (DispError * option Z * HdiDisplay C) :=
  match layerInfo with
  | None => dret (DISPLAY_PARAM_ERR, None, d)
  | Some type =>
      if negb layerId then dret (DISPLAY_PARAM_ERR, None, d)
      else
        let! layer := new_layer type in
        let! ret := Layer_Init layer in
        if bool_decide (ret ≠ DISPLAY_SUCCESS) then
          do! delete_layer layer in dret (DISPLAY_FAILURE, None, d)
        else
          let! l := deref layer in
          let! ls := mset_insert layer (l_mZorder l) (d_mLayers d) in
          match d_mLayersMap d !! l_mId l with
          | Some _ =>                             (* emplace does nothing; the object dies *)
              do! delete_layer layer in
              dret (DISPLAY_SUCCESS, Some (l_mId l), with_layers (d_mLayersMap d) ls d)
          | None =>
              dret (DISPLAY_SUCCESS, Some (l_mId l),
                    with_layers (<[l_mId l := layer]> (d_mLayersMap d)) ls d)
          end
  end.

Definition DestroyLayer (layerId : Z) (d : HdiDisplay C) : D (DispError * HdiDisplay C) :=
  match d_mLayersMap d !! layerId with
  | None => dret (DISPLAY_FAILURE, d)
  | Some layer =>
      let! l := deref layer in
      let! ls := mset_erase layer (l_mZorder l) (d_mLayers d) in
      do! delete_layer layer in
      dret (DISPLAY_SUCCESS, with_layers (delete layerId (d_mLayersMap d)) ls d)
  end.

(** The out values: [*num], and the entries written to [layers] and [type]. *)
Fixpoint comp_changes (layers type : bool) (ls : list Z) : D (list Z * list CompositionType) :=
  match ls with
  | [] => dret ([], [])
  | p :: ls =>
      let! l := deref p in
      let! r := comp_changes layers type ls in
      dret (if layers then l_mId l :: r.1 else r.1,
            if type then l_mCompositionType l :: r.2 else r.2)
  end.
Definition GetDisplayCompChange (num layers type : bool) (d : HdiDisplay C)
    : D (DispError * Z * (list Z * list CompositionType)) :=
  if negb num then dret (DISPLAY_FAILURE, 0, ([], []))
  else
    let n := Z.of_nat (length (d_mChangeLayers d)) in
    if negb layers && negb type then dret (DISPLAY_SUCCESS, n, ([], []))
    else let! r := comp_changes layers type (d_mChangeLayers d) in dret (DISPLAY_SUCCESS, n, r).

(** The log statement at the end of each turn evaluates [GetReleaseFenceFd] again
    (DISPLAY_DEBUG_ENABLE is 1). *)
Fixpoint release_fences (layers fences : bool) (ls : list Z) : D (list Z * list Z) :=
  match ls with
  | [] => dret ([], [])
  | p :: ls =>
      let! l := deref p in
      let! fd := (if fences then let! fd := GetReleaseFenceFd p in dret [fd] else dret []) in
      let! _ := GetReleaseFenceFd p in
      let! r := release_fences layers fences ls in
      dret (if layers then l_mId l :: r.1 else r.1, fd ++ r.2)
  end.
Definition GetDisplayReleaseFence (num layers fences : bool) (d : HdiDisplay C)
    : D (DispError * Z * (list Z * list Z)) :=
  if negb num then dret (DISPLAY_FAILURE, 0, ([], []))
  else
    let n := Z.of_nat (length (d_mLayers d)) in
    if negb layers && negb fences then dret (DISPLAY_SUCCESS, n, ([], []))
    else let! r := release_fences layers fences (d_mLayers d) in dret (DISPLAY_SUCCESS, n, r).

Fixpoint visible_layers (ls : list Z) : D (list Z) :=
  match ls with
  | [] => dret []
  | p :: ls =>
      let! l := deref p in
      let! r := visible_layers ls in
      dret (if l_mVisible l then p :: r else r)
  end.
Fixpoint collect_changes (ls : list Z) : D (list Z) :=
  match ls with
  | [] => dret []
  | p :: ls =>
      let! l := deref p in
      if bool_decide (l_mDeviceSelect l ≠ l_mCompositionType l) then
        do! SetLayerCompositionType p (l_mDeviceSelect l) in
        let! r := collect_changes ls in dret (p :: r)
      else collect_changes ls
  end.

(** The result of [mComposer->Prepare] is ignored; [needFlushFb] is always set. *)
Definition PrepareDisplayLayers `{!HdiComposition C} (d : HdiDisplay C) : D (DispError * HdiDisplay C) :=
  let! layers := visible_layers (d_mLayers d) in
  let! m := nonnull (d_mComposer d) in
  let! client := nonnull (d_mClientLayer d) in
  let! r := Composer_Prepare layers client m in
  let! changes := collect_changes layers in
  dret (DISPLAY_SUCCESS, with_change changes (with_composer (Some r.2) d)).

(** The result of [mComposer->Commit] is ignored; the fence is the out value. *)
Definition Display_Commit `{!HdiComposition C} (d : HdiDisplay C) : D (DispError * Z * HdiDisplay C) :=
  let! m := nonnull (d_mComposer d) in
  let! r := Composer_Commit false m in
  let! client := nonnull (d_mClientLayer d) in
  let! fence := GetReleaseFenceFd client in
  dret (DISPLAY_SUCCESS, fence, with_composer (Some r.2) d).

Definition SetDisplayClientBuffer (buffer : option BufferHandle) (fence : Z) (d : HdiDisplay C)
    : D DispError :=
  let! client := nonnull (d_mClientLayer d) in
  do! SetLayerBuffer client buffer fence in dret DISPLAY_SUCCESS.

Definition GetHdiLayer (id : Z) (d : HdiDisplay C) : option Z := d_mLayersMap d !! id.

End HdiDisplay.

(** ** Shape and resources *)

#[export] Instance shape_preorder : PreOrder shape.
Proof.
  split; [done|]. intros w1 w2 w3 (H1 & H2 & H3) (H4 & H5 & H6). unfold shape.
  split_and!; congruence.
Qed.
#[export] Instance steady_preorder : PreOrder steady.
Proof.
  split; [split; [reflexivity|done]|]. intros w1 w2 w3 [H1 H2] [H3 H4].
  split; [by etrans|auto].
Qed.

Lemma shape_lookup w w' p l :
  shape w w' → w_layers w !! p = Some l →
  ∃ l', w_layers w' !! p = Some l' ∧ layer_key l' = layer_key l.
Proof.
  intros (Hk & _) Hp. assert ((layer_key <$> w_layers w') !! p = Some (layer_key l)) as H
    by (by rewrite Hk lookup_fmap Hp).
  rewrite lookup_fmap fmap_Some in H. destruct H as (l' & -> & ->). eauto.
Qed.
Lemma shape_sym w w' : shape w w' → shape w' w.
Proof. by intros (? & ? & ?). Qed.
Lemma shape_live w w' p : shape w w' → live w p → live w' p.
Proof. intros Hs [l Hl]. destruct (shape_lookup w w' p l Hs Hl) as (l' & H & _). by exists l'. Qed.

(** A change of a layer's other members is steady. *)
Definition inert (f : HdiLayer → HdiLayer) : Prop :=
  ∀ l, layer_key (f l) = layer_key l ∧ layer_fds (f l) = layer_fds l ∧ layer_fbs (f l) = layer_fbs l.

Lemma fmap_insert_id {A B} (f : A → B) (m : gmap Z A) p a b :
  m !! p = Some a → f b = f a → f <$> <[p := b]> m = f <$> m.
Proof.
  intros Hp Hf. rewrite fmap_insert Hf. apply insert_id. by rewrite lookup_fmap Hp.
Qed.

Lemma res_ok_insert ext fb0 bl0 w p l l' :
  res_ok ext fb0 bl0 w → w_layers w !! p = Some l →
  layer_fds l' = layer_fds l → layer_fbs l' = layer_fbs l →
  res_ok ext fb0 bl0 (set_w_layers (<[p := l']> (w_layers w)) w).
Proof.
  intros [Hf Hp Hg H0 Hb Hbl] Hl E1 E2. split; try done.
  - unfold fd_ok. cbn [w_layers set_w_layers fds w_kern]. by rewrite (fmap_insert_id layer_fds _ p l).
  - cbn [w_layers set_w_layers w_drm]. eapply fb_ok_update; [done|done|]. rewrite E2. auto.
Qed.

Lemma steady_update p f : inert f → keeps steady (update p f).
Proof.
  intros Hf w a w'. unfold update. destruct (w_layers w !! p) as [l|] eqn:Hp; [|done].
  intros [= <- <-]. destruct (Hf l) as (H1 & H2 & H3). split.
  - unfold shape. cbn [w_layers set_w_layers w_nextptr w_layer_ids].
    by rewrite (fmap_insert_id layer_key _ p l).
  - intros ext fb0 bl0 Hok. by apply (res_ok_insert _ _ _ w p l).
Qed.
Lemma wp_update_steady p f w : live w p → inert f → wp (update p f) (λ _ w', steady w w') w.
Proof.
  intros [l Hp] Hf. eapply wp_update; [done|].
  eapply (steady_update p f Hf w tt). unfold update. by rewrite Hp.
Qed.

(** ** The multiset *)

Definition zord (w : World) (p : Z) : Z := from_option l_mZorder 0 (w_layers w !! p).
Definition zle (w : World) (p q : Z) : Prop := zord w p ≤ zord w q.

Lemma zord_lookup w p l : w_layers w !! p = Some l → zord w p = l_mZorder l.
Proof. intros H. unfold zord. by rewrite H. Qed.
Lemma zord_shape w w' p : shape w w' → zord w' p = zord w p.
Proof.
  intros Hs. unfold zord. destruct (w_layers w !! p) as [l|] eqn:Hp.
  - destruct (shape_lookup w w' p l Hs Hp) as (l' & -> & Hk). by injection Hk.
  - destruct (w_layers w' !! p) as [l'|] eqn:Hp'; [|done].
    destruct (shape_lookup w' w p l' (shape_sym _ _ Hs) Hp') as (l & Hl & _). congruence.
Qed.

Lemma StronglySorted_ext {A} (R S : A → A → Prop) l :
  (∀ a b, a ∈ l → b ∈ l → R a b → S a b) → StronglySorted R l → StronglySorted S l.
Proof.
  intros HRS. induction 1 as [|a l Hl IH Ha]; constructor.
  - apply IH. intros x y Hx Hy. apply HRS; set_solver.
  - rewrite !Forall_forall in Ha |- *. intros x Hx. apply HRS; [set_solver..|auto].
Qed.

Lemma mset_insert_spec p z l w :
  Forall (live w) l →
  ∃ l', mset_insert p z l w = Some (l', w) ∧ l' ≡ₚ p :: l ∧
        (zord w p = z → StronglySorted (zle w) l → StronglySorted (zle w) l').
Proof.
  induction 1 as [|q l [lq Hq] Hl IH]; simpl.
  - exists [p]. split_and!; [done..|]. intros _ _. by repeat constructor.
  - unfold dbind, deref. rewrite Hq. pose proof (zord_lookup w q lq Hq) as Hz.
    destruct (Z.ltb_spec z (l_mZorder lq)) as [Hlt|Hge].
    + eexists. split_and!; [done..|]. intros Hp Hs. constructor; [done|].
      inversion Hs as [|? ? Hs' Hq']; simplify_eq. constructor; [unfold zle; lia|].
      eapply Forall_impl; [exact Hq'|]. unfold zle. simpl. lia.
    + destruct IH as (l' & -> & Hperm & Hsort). exists (q :: l'). split; [done|].
      split; [by rewrite Hperm Permutation_swap|]. intros Hp Hs.
      inversion Hs as [|? ? Hs' Hq']; simplify_eq. constructor; [auto|].
      rewrite Hperm. constructor; [unfold zle; lia|done].
Qed.

Lemma mset_erase_spec p l w :
  Forall (live w) l → p ∈ l →
  ∃ l', mset_erase p (zord w p) l w = Some (l', w) ∧ l ≡ₚ p :: l' ∧
        (StronglySorted (zle w) l → StronglySorted (zle w) l').
Proof.
  induction 1 as [|q l [lq Hq] Hl IH]; simpl; intros Hp; [set_solver|].
  unfold dbind, deref. rewrite Hq. pose proof (zord_lookup w q lq Hq) as Hz.
  destruct (Z.eqb_spec q p) as [->|Hne].
  - rewrite -Hz Z.eqb_refl. simpl. exists l. split_and!; [done..|]. by inversion 1.
  - rewrite andb_false_r. destruct IH as (l' & -> & Hperm & Hsort); [set_solver|].
    exists (q :: l'). split; [done|]. split; [by rewrite Hperm Permutation_swap|].
    intros Hs. inversion Hs as [|? ? Hs' Hq']; simplify_eq. constructor; [auto|].
    rewrite Hperm in Hq'. by inversion Hq'.
Qed.

(** ** The display's invariant *)

(** [mLayers] lists exactly the layers of the map, each once, in ascending z-order;
    every layer is filed under its own id, which is marked as used; the client layer
    is none of them; addresses are fresh. *)
Record disp_ok {C} (d : HdiDisplay C) (w : World) : Prop := {
  dok_sorted : StronglySorted (zle w) (d_mLayers d);
  dok_nodup : NoDup (d_mLayers d);
  dok_map : ∀ id p, d_mLayersMap d !! id = Some p → ∃ l, w_layers w !! p = Some l ∧ l_mId l = id;
  dok_perm : ∀ p, p ∈ d_mLayers d ↔ ∃ id, d_mLayersMap d !! id = Some p;
  dok_ids : ∀ id, is_Some (d_mLayersMap d !! id) → id ∈ pool_mIdSets (w_layer_ids w);
  dok_fresh : ∀ p, live w p → p < w_nextptr w;
  dok_client : ∀ c, d_mClientLayer d = Some c → live w c ∧ (c ∉ d_mLayers d);
}.

Section invariant.
Context {C : Type}.
Implicit Types (d : HdiDisplay C) (w : World).

Lemma disp_ok_live d w : disp_ok d w → Forall (live w) (d_mLayers d).
Proof.
  intros Hok. apply Forall_forall. intros p Hp. apply (dok_perm _ _ Hok) in Hp as [id Hid].
  destruct (dok_map _ _ Hok id p Hid) as (l & Hl & _). by exists l.
Qed.

Lemma disp_ok_shape d w w' : shape w w' → disp_ok d w → disp_ok d w'.
Proof.
  intros Hs [H1 H2 H3 H4 H5 H6 H7]. pose proof Hs as (_ & Hn & Hi). split.
  - eapply StronglySorted_ext; [|exact H1]. unfold zle. intros a b _ _. by rewrite !(zord_shape w w').
  - done.
  - intros id p Hp. destruct (H3 id p Hp) as (l & Hl & Hid).
    destruct (shape_lookup w w' p l Hs Hl) as (l' & Hl' & Hk). exists l'.
    split; [done|]. injection Hk. congruence.
  - done.
  - by rewrite Hi.
  - intros p Hp. rewrite Hn. apply H6. by eapply shape_live; [apply shape_sym|].
  - intros c Hc. destruct (H7 c Hc). split; [by eapply shape_live|done].
Qed.

(** Only the members the invariant speaks of matter. *)
Lemma disp_ok_ext d d' w :
  d_mLayers d' = d_mLayers d → d_mLayersMap d' = d_mLayersMap d →
  d_mClientLayer d' = d_mClientLayer d → disp_ok d w → disp_ok d' w.
Proof.
  intros E1 E2 E3 [H1 H2 H3 H4 H5 H6 H7]. split; rewrite ?E1 ?E2 ?E3; auto.
Qed.

Lemma disp_ok_inj d w id id' p :
  disp_ok d w → d_mLayersMap d !! id = Some p → d_mLayersMap d !! id' = Some p → id = id'.
Proof.
  intros Hok H H'. destruct (dok_map _ _ Hok _ _ H) as (l & Hl & <-).
  destruct (dok_map _ _ Hok _ _ H') as (l' & Hl' & <-). congruence.
Qed.

Lemma res_fds_pos ext fb0 bl0 w : res_ok ext fb0 bl0 w → ∀ fd, fd ∈ fds w → 0 ≤ fd.
Proof.
  intros Hok fd Hfd. destruct (own_all _ _ _ (res_fds _ _ _ _ Hok) fd Hfd) as [He|(p & L & HL & Hx)].
  - by eapply res_pos.
  - rewrite lookup_fmap fmap_Some in HL. destruct HL as (l & _ & ->). unfold layer_fds in Hx.
    rewrite !elem_of_app in Hx. destruct Hx as [Hx|[Hx|Hx]].
    + by apply pos_fd_spec in Hx as [-> ?].
    + unfold buffer_fds in Hx. case_match; [|set_solver]. by apply pos_fd_spec in Hx as [-> ?].
    + apply list_elem_of_bind in Hx as (y & Hy & _). by apply pos_fd_spec in Hy as [-> ?].
Qed.

Lemma bare_key l l' : bare l' = bare l → layer_key l' = layer_key l ∧ layer_fbs l' = layer_fbs l.
Proof.
  destruct l, l'. unfold bare. cbn. intros [=]. subst. done.
Qed.

(** What a descriptor-level step on one layer does to the invariants. *)
Lemma res_ok_layer ext ext' fb0 bl0 w w' p l l' :
  res_ok ext fb0 bl0 w → w_layers w !! p = Some l → fd_ok ext' w' →
  (∀ fd, fd ∈ ext' → 0 ≤ fd) → rest w' = rest w →
  w_layers w' = <[p := l']> (w_layers w) → bare l' = bare l →
  res_ok ext' fb0 bl0 w' ∧ shape w w'.
Proof.
  intros [Hf Hp Hg H0 Hb Hbl] Hl Hfd Hpos Hr Hls Hbare.
  destruct (bare_key l l' Hbare) as [Hk Hfb].
  pose proof (f_equal w_drm Hr) as Hdrm. pose proof (f_equal w_nextptr Hr) as Hn.
  pose proof (f_equal w_layer_ids Hr) as Hi. cbn in Hdrm, Hn, Hi. split.
  - split; rewrite ?Hdrm; try done. rewrite Hls. eapply fb_ok_update; [done|done|]. rewrite Hfb. auto.
  - unfold shape. split_and!; [|done|done]. rewrite Hls. by apply (fmap_insert_id layer_key _ p l).
Qed.

Lemma wp_SetLayerBuffer_ok ext fb0 bl0 p buffer fence w :
  res_ok ext fb0 bl0 w → live w p →
  wp (SetLayerBuffer p buffer fence) (λ _ w', res_ok ext fb0 bl0 w' ∧ shape w w') w.
Proof.
  intros Hres [l Hl]. eapply wp_SetLayerBuffer; [by eapply res_fds|done|].
  intros r w' l' Hfd Hr Hls Hbare _ _.
  eapply res_ok_layer; [exact Hres|exact Hl|done| |done|done|done]. by eapply res_pos.
Qed.

Lemma wp_GetReleaseFenceFd_ok ext fb0 bl0 p w :
  res_ok ext fb0 bl0 w → live w p →
  wp (GetReleaseFenceFd p)
    (λ fd w', res_ok (list_to_set (pos_fd fd) ∪ ext) fb0 bl0 w' ∧ shape w w') w.
Proof.
  intros Hres [l Hl]. eapply wp_GetReleaseFenceFd; [by eapply res_fds|done|].
  intros fd w' Hfd. eapply res_ok_layer; [exact Hres|exact Hl|exact Hfd| |done|done|done].
  intros x. rewrite elem_of_union elem_of_list_to_set pos_fd_spec.
  intros [[-> ?]|?]; [done|by eapply res_pos].
Qed.

(** *** The operations *)

(** Room for one more id. *)
Definition room (w : World) : Prop := pool_ok (w_layer_ids w).

Lemma zord_insert_ne w p q l' :
  p ≠ q → zord (set_w_layers (<[p := l']> (w_layers w)) w) q = zord w q.
Proof. intros Hne. unfold zord. cbn [w_layers set_w_layers]. by rewrite lookup_insert_ne. Qed.

Lemma live_insert w p q l' : live w p → live (set_w_layers (<[p := l']> (w_layers w)) w) q ↔ live w q.
Proof.
  intros Hp. unfold live. cbn [w_layers set_w_layers]. rewrite lookup_insert_is_Some. 
  destruct (decide (p = q)) as [->|?]; naive_solver.
Qed.

Lemma wp_SetLayerZorder ext fb0 bl0 id z d w :
  disp_ok d w → res_ok ext fb0 bl0 w →
  wp (SetLayerZorder id z d)
    (λ r w', disp_ok r.2 w' ∧ res_ok ext fb0 bl0 w' ∧ w_layer_ids w' = w_layer_ids w ∧
       (r.1 = DISPLAY_SUCCESS ↔ is_Some (d_mLayersMap d !! id)) ∧
       d_mLayersMap r.2 = d_mLayersMap d ∧
       (∀ p, d_mLayersMap d !! id = Some p → zord w' p = z)) w.
Proof.
  intros Hok Hres. unfold SetLayerZorder. destruct (d_mLayersMap d !! id) as [p|] eqn:Hid.
  2:{ apply wp_ret. split_and!; done. }
  destruct (dok_map _ _ Hok id p Hid) as (l & Hl & Hlid). eapply wp_bind, wp_deref; [done|].
  destruct (Z.eqb_spec (l_mZorder l) z) as [Hz|Hz].
  { apply wp_ret. split_and!; try done. intros q [= <-]. by rewrite (zord_lookup w p l). }
  assert (p ∈ d_mLayers d) as Hp by (apply (dok_perm _ _ Hok); eauto).
  destruct (mset_erase_spec p (d_mLayers d) w (disp_ok_live d w Hok) Hp) as (ls & He & Hperm & Hs).
  rewrite (zord_lookup w p l Hl) in He. eapply wp_step; [exact He|].
  pose proof (dok_nodup _ _ Hok) as Hnd. rewrite Hperm in Hnd. apply NoDup_cons in Hnd as [Hpls Hnd].
  eapply wp_bind, wp_update; [done|]. set (w' := set_w_layers _ _).
  assert (live w p) as Hlp by by exists l.
  assert (zord w' p = z) as Hzp.
  { unfold zord, w'. cbn [w_layers set_w_layers]. by rewrite lookup_insert_eq. }
  destruct (mset_insert_spec p z ls w') as (ls' & Hi & Hperm' & Hs').
  { pose proof (disp_ok_live d w Hok) as H. rewrite Hperm in H. apply Forall_cons in H as [_ H].
    eapply Forall_impl; [exact H|]. intros q Hq. by apply live_insert. }
  eapply wp_step; [exact Hi|]. apply wp_ret.
  assert (ls' ≡ₚ d_mLayers d) as Hall by (by rewrite Hperm' Hperm).
  assert (res_ok ext fb0 bl0 w') as Hres' by (by apply (res_ok_insert _ _ _ w p l)).
  split_and!; [split|done|done|done|done|by intros q [= <-]]; cbn [snd d_mLayers d_mLayersMap d_mClientLayer with_layers].
  - apply Hs'; [done|]. eapply StronglySorted_ext; [|apply Hs, (dok_sorted _ _ Hok)].
    intros a b Ha Hb. unfold zle, w'. rewrite !zord_insert_ne; [done|set_solver..].
  - rewrite Hall. apply (dok_nodup _ _ Hok).
  - intros id' q Hq. destruct (dok_map _ _ Hok id' q Hq) as (lq & Hlq & Hidq).
    unfold w'. cbn [w_layers set_w_layers]. destruct (decide (p = q)) as [<-|Hne].
    + rewrite lookup_insert_eq. simplify_eq. by eexists.
    + rewrite lookup_insert_ne; [by eexists|done].
  - intros q. rewrite Hall. apply (dok_perm _ _ Hok).
  - apply (dok_ids _ _ Hok).
  - intros q Hq. apply (dok_fresh _ _ Hok). by apply (live_insert w p) in Hq.
  - intros c Hc. destruct (dok_client _ _ Hok c Hc). rewrite Hall. split; [|done].
    by apply live_insert.
Qed.

(** The world after [new_layer] and [Layer_Init] have succeeded. *)
Definition created (type : LayerType) (id : Z) (w : World) : World :=
  set_w_layer_ids (mkIdPool (id + 1) ({[id]} ∪ pool_mIdSets (w_layer_ids w)))
    (set_w_nextptr (w_nextptr w + 1)
      (set_w_layers (<[w_nextptr w := set_l_mId id (HdiLayer_new type)]> (w_layers w)) w)).

Lemma res_ok_created ext fb0 bl0 type id w :
  res_ok ext fb0 bl0 w → w_layers w !! w_nextptr w = None →
  res_ok ext fb0 bl0 (created type id w).
Proof.
  intros Hres Hn. destruct (wp_new_layer ext fb0 type
    (λ p w', p = w_nextptr w ∧ w' = set_w_nextptr (w_nextptr w + 1)
       (set_w_layers (<[w_nextptr w := HdiLayer_new type]> (w_layers w)) w) ∧
       fd_ok ext w' ∧ fb_ok fb0 (w_layers w') (dk_fbs (w_drm w'))) w)
    as (p & w' & _ & -> & -> & Hfd & Hfb).
  { by eapply res_fds. }
  { by eapply res_fbs. }
  { done. }
  { intros w' H1 H2. done. }
  destruct Hres as [_ Hp Hg H0 _ Hbl]. split; try done.
  - unfold fd_ok, created in *. cbn in Hfd |- *. by rewrite !fmap_insert in Hfd |- *.
  - intros x Hx. destruct (Hfb x Hx) as [?|(q & l & Hq & Hl)]; [by left|right].
    cbn in Hq. unfold created. cbn. destruct (decide (w_nextptr w = q)) as [<-|Hne].
    + rewrite lookup_insert_eq in Hq. simplify_eq. cbn in Hl. set_solver.
    + rewrite lookup_insert_ne in Hq; [|done]. exists q, l. by rewrite lookup_insert_ne.
Qed.

Lemma zord_created type id w q :
  q ≠ w_nextptr w → zord (created type id w) q = zord w q.
Proof. intros Hne. unfold zord, created. cbn. by rewrite lookup_insert_ne. Qed.

Lemma disp_ok_created type id d w ls :
  disp_ok d w → (id ∉ pool_mIdSets (w_layer_ids w)) → ls ≡ₚ w_nextptr w :: d_mLayers d →
  (zord (created type id w) (w_nextptr w) = l_mZorder (HdiLayer_new type) →
   StronglySorted (zle (created type id w)) (d_mLayers d) →
   StronglySorted (zle (created type id w)) ls) →
  disp_ok (with_layers (<[id := w_nextptr w]> (d_mLayersMap d)) ls d) (created type id w).
Proof.
  intros Hok Hnew Hperm Hs. set (p := w_nextptr w) in *.
  assert (∀ q, live w q → q ≠ p) as Hlp by (intros q Hq%(dok_fresh _ _ Hok); unfold p; lia).
  pose proof (disp_ok_live d w Hok) as Hlive. rewrite Forall_forall in Hlive.
  assert (d_mLayersMap d !! id = None) as Hid.
  { apply eq_None_not_Some. intros Hid'. by apply Hnew, (dok_ids _ _ Hok). }
  split; cbn [d_mLayers d_mLayersMap d_mClientLayer with_layers].
  - apply Hs.
    + unfold zord, created. cbn. by rewrite lookup_insert_eq.
    + eapply StronglySorted_ext; [|apply (dok_sorted _ _ Hok)].
      intros a b Ha Hb. unfold zle. rewrite !zord_created; eauto.
  - rewrite Hperm. apply NoDup_cons. split; [|apply (dok_nodup _ _ Hok)].
    intros Hp. by apply (Hlp p (Hlive p Hp)).
  - intros id' q. rewrite lookup_insert_Some. unfold created. cbn.
    intros [[<- <-]|[Hne Hq]]; [rewrite lookup_insert_eq; by eexists|].
    destruct (dok_map _ _ Hok id' q Hq) as (lq & Hlq & Hidq).
    rewrite lookup_insert_ne; [by eexists|]. intros E. by apply (Hlp q); [exists lq|].
  - intros q. rewrite Hperm elem_of_cons (dok_perm _ _ Hok q). setoid_rewrite lookup_insert_Some.
    split; [intros [->|[id' Hq]]|intros [id' [[_ <-]|[_ Hq]]]]; [by eauto|..|by auto|by eauto].
    exists id'. right. split; [|done]. intros ->. congruence.
  - intros id'. rewrite lookup_insert_is_Some'. unfold created. cbn.
    intros [<-|H]; [set_solver|]. apply elem_of_union_r. by apply (dok_ids _ _ Hok).
  - intros q. unfold live, created. cbn. rewrite lookup_insert_is_Some'. fold p.
    intros [<-|H]; [lia|]. apply (dok_fresh _ _ Hok) in H. unfold p. lia.
  - intros c Hc. destruct (dok_client _ _ Hok c Hc) as [Hlc Hc']. split.
    + unfold live, created. cbn. apply lookup_insert_is_Some'. by right.
    + rewrite Hperm. apply not_elem_of_cons. split; [by apply Hlp|done].
Qed.

Lemma wp_CreateLayer ext fb0 bl0 type d w :
  disp_ok d w → res_ok ext fb0 bl0 w → room w →
  wp (CreateLayer (Some type) true d)
    (λ r w', disp_ok r.2 w' ∧ res_ok ext fb0 bl0 w' ∧
       ∃ id, r.1 = (DISPLAY_SUCCESS, Some id) ∧ w' = created type id w ∧
         (id ∉ pool_mIdSets (w_layer_ids w)) ∧ 0 ≤ id < INVALIDE_LAYER_ID ∧
         d_mLayersMap r.2 = <[id := w_nextptr w]> (d_mLayersMap d)) w.
Proof.
  intros Hok Hres Hroom. unfold CreateLayer. cbn [negb]. set (p := w_nextptr w).
  assert (¬ live w p) as Hdead by (intros Hl%(dok_fresh _ _ Hok); unfold p in Hl; lia).
  assert (w_layers w !! p = None) as Hn by by apply eq_None_not_Some.
  eapply wp_step; [done|]. destruct (pool_GetIdleId_fresh _ Hroom) as (id & Hid & Hnew & Hr).
  unfold Layer_Init, GetIdleId. apply wp_bind. eapply wp_step; [cbn; by rewrite Hid|].
  destruct (Z.eqb_spec id INVALIDE_LAYER_ID); [lia|].
  eapply wp_bind, wp_update; [cbn; apply lookup_insert_eq|]. apply wp_ret. simpl.
  fold p. rewrite insert_insert_eq.
  assert (∀ w0, w0 = created type id w → wp (let! l := deref p in
     let! ls := mset_insert p (l_mZorder l) (d_mLayers d) in
     match d_mLayersMap d !! l_mId l with
     | Some _ => do! delete_layer p in
         dret (DISPLAY_SUCCESS, Some (l_mId l), with_layers (d_mLayersMap d) ls d)
     | None => dret (DISPLAY_SUCCESS, Some (l_mId l),
                     with_layers (<[l_mId l := p]> (d_mLayersMap d)) ls d)
     end) (λ r w', disp_ok r.2 w' ∧ res_ok ext fb0 bl0 w' ∧
       ∃ id, r.1 = (DISPLAY_SUCCESS, Some id) ∧ w' = created type id w ∧
         (id ∉ pool_mIdSets (w_layer_ids w)) ∧ 0 ≤ id < INVALIDE_LAYER_ID ∧
         d_mLayersMap r.2 = <[id := p]> (d_mLayersMap d)) w0) as H; [|by apply H].
  intros w0 ->. eapply wp_bind, wp_deref; [apply lookup_insert_eq|]. cbn [l_mZorder l_mId set_l_mId].
  destruct (mset_insert_spec p (l_mZorder (HdiLayer_new type)) (d_mLayers d) (created type id w))
    as (ls & Hi & Hperm & Hs).
  { eapply Forall_impl; [by apply disp_ok_live|]. intros q [lq Hq]. unfold live, created. cbn.
    apply lookup_insert_is_Some'. right. by exists lq. }
  eapply wp_step; [exact Hi|].
  assert (d_mLayersMap d !! id = None) as ->.
  { apply eq_None_not_Some. intros Hid'. by apply Hnew, (dok_ids _ _ Hok). }
  apply wp_ret. split_and!; [|by apply res_ok_created|by exists id].
  by apply disp_ok_created.
Qed.

Lemma disp_ok_destroyed id p l d w w' ls :
  disp_ok d w → d_mLayersMap d !! id = Some p → w_layers w !! p = Some l →
  d_mLayers d ≡ₚ p :: ls →
  (StronglySorted (zle w) (d_mLayers d) → StronglySorted (zle w) ls) →
  w_layers w' = delete p (w_layers w) → w_nextptr w' = w_nextptr w →
  pool_mIdSets (w_layer_ids w') = pool_mIdSets (w_layer_ids w) ∖ {[l_mId l]} →
  disp_ok (with_layers (delete id (d_mLayersMap d)) ls d) w'.
Proof.
  intros Hok Hid Hl Hperm Hs Hls Hn Hids.
  destruct (dok_map _ _ Hok id p Hid) as (l0 & Hl0 & Hlid). simplify_eq.
  pose proof (dok_nodup _ _ Hok) as Hnd. rewrite Hperm in Hnd. apply NoDup_cons in Hnd as [Hp Hnd].
  assert (∀ q, q ≠ p → w_layers w' !! q = w_layers w !! q) as Hother
    by (intros q Hq; rewrite Hls lookup_delete_ne //).
  assert (∀ q, q ≠ p → zord w' q = zord w q) as Hz by (intros q Hq; unfold zord; by rewrite Hother).
  split; cbn [d_mLayers d_mLayersMap d_mClientLayer with_layers].
  - eapply StronglySorted_ext; [|apply Hs, (dok_sorted _ _ Hok)].
    intros a b Ha Hb. unfold zle. rewrite !Hz; [done|set_solver..].
  - done.
  - intros id' q. rewrite lookup_delete_Some. intros [Hne Hq].
    destruct (dok_map _ _ Hok id' q Hq) as (lq & Hlq & Hidq). exists lq. split; [|done].
    rewrite Hother; [done|]. intros ->. congruence.
  - intros q. setoid_rewrite lookup_delete_Some. split.
    + intros Hq. assert (q ∈ d_mLayers d) as Hq' by (rewrite Hperm; set_solver).
      apply (dok_perm _ _ Hok) in Hq' as [id' Hid']. exists id'. split; [|done].
      intros <-. assert (q = p) as -> by congruence. done.
    + intros (id' & Hne & Hq). assert (q ∈ d_mLayers d) as Hq' by (apply (dok_perm _ _ Hok); eauto).
      rewrite Hperm in Hq'. apply elem_of_cons in Hq' as [->|?]; [|done].
      exfalso. apply Hne. by eapply disp_ok_inj.
  - intros id'. rewrite lookup_delete_is_Some Hids. intros [Hne Hin].
    apply elem_of_difference. split; [by apply (dok_ids _ _ Hok)|set_solver].
  - intros q. unfold live. rewrite Hls Hn lookup_delete_is_Some. intros [_ H]. by apply (dok_fresh _ _ Hok).
  - intros c Hc. destruct (dok_client _ _ Hok c Hc) as [Hlc Hc']. rewrite Hperm in Hc'.
    apply not_elem_of_cons in Hc' as [Hcp Hc']. split; [|done]. unfold live. by rewrite Hother.
Qed.

Lemma wp_DestroyLayer ext fb0 bl0 id d w :
  disp_ok d w → res_ok ext fb0 bl0 w →
  wp (DestroyLayer id d)
    (λ r w', disp_ok r.2 w' ∧ res_ok ext fb0 bl0 w' ∧
       pool_mIdleId (w_layer_ids w') = pool_mIdleId (w_layer_ids w) ∧
       pool_mIdSets (w_layer_ids w') ⊆ pool_mIdSets (w_layer_ids w) ∧
       (r.1 = DISPLAY_SUCCESS ↔ is_Some (d_mLayersMap d !! id)) ∧
       d_mLayersMap r.2 = delete id (d_mLayersMap d) ∧
       (∀ p l, d_mLayersMap d !! id = Some p → w_layers w !! p = Some l →
          w_layers w' = delete p (w_layers w) ∧
          ∀ x, x ∈ fds w' ↔ x ∈ fds w ∧ x ∉ layer_fds l)) w.
Proof.
  intros Hok Hres. unfold DestroyLayer. destruct (d_mLayersMap d !! id) as [p|] eqn:Hid.
  2:{ apply wp_ret. split_and!; try done. by rewrite delete_id. }
  destruct (dok_map _ _ Hok id p Hid) as (l & Hl & Hlid). eapply wp_bind, wp_deref; [done|].
  assert (p ∈ d_mLayers d) as Hp by (apply (dok_perm _ _ Hok); eauto).
  destruct (mset_erase_spec p (d_mLayers d) w (disp_ok_live d w Hok) Hp) as (ls & He & Hperm & Hs).
  rewrite (zord_lookup w p l Hl) in He. eapply wp_step; [exact He|].
  apply wp_bind. eapply wp_delete_layer;
    [by eapply res_fds|by eapply res_fds_pos|done|].
  intros w' k' Hf Hr Hls Hfd HF Hfb. apply wp_ret. cbn [fst snd].
  pose proof (f_equal w_drm Hr) as Hdrm. pose proof (f_equal w_nextptr Hr) as Hn.
  pose proof (f_equal w_layer_ids Hr) as Hi. cbn in Hdrm, Hn, Hi.
  split; [|split; [|split; [by rewrite Hi|split; [rewrite Hi; cbn; set_solver|split;
    [done|split; [done|]]]]]].
  - eapply disp_ok_destroyed; [done..|]. by rewrite Hi.
  - destruct Hres as [H1 H2 H3 H4 H5 H6]. split; rewrite ?Hdrm; try done.
    + by apply (drm_frame_granted (w_drm w)).
    + by apply Hfb.
    + destruct Hf as (_ & _ & _ & ->). done.
  - intros p' l' [= <-] Hl'. simplify_eq. done.
Qed.

(** *** Preparing and committing *)

Lemma visible_layers_spec ls w :
  Forall (live w) ls →
  visible_layers ls w =
    Some (filter (λ p, from_option l_mVisible false (w_layers w !! p) = true) ls, w).
Proof.
  induction 1 as [|p ls [l Hp] _ IH]; [done|]. simpl. unfold dbind, deref. rewrite Hp IH.
  unfold dret. destruct (l_mVisible l) eqn:E.
  - rewrite filter_cons_True; [done|]. by rewrite Hp.
  - rewrite filter_cons_False; [done|]. rewrite Hp. simpl. by rewrite E.
Qed.

Lemma inert_composition_type t : inert (set_l_mCompositionType t).
Proof. by intros l. Qed.
Lemma inert_device_select t : inert (set_l_mDeviceSelect t).
Proof. by intros l. Qed.

(** The layers whose composition type the device changed, in the order given; the
    types are taken over. *)
Definition changed (w : World) (p : Z) : Prop :=
  from_option (λ l, l_mDeviceSelect l ≠ l_mCompositionType l) False (w_layers w !! p).
#[global] Instance changed_dec w p : Decision (changed w p).
Proof. unfold changed. destruct (w_layers w !! p); apply _. Defined.

Lemma filter_ext_in {A} (P Q : A → Prop) `{!∀ x, Decision (P x), !∀ x, Decision (Q x)} (l : list A) :
  (∀ x, x ∈ l → P x ↔ Q x) → filter P l = filter Q l.
Proof.
  induction l as [|x l IH]; intros HPQ; [done|]. rewrite !filter_cons.
  rewrite IH; [|set_solver]. apply decide_ext, HPQ. set_solver.
Qed.

Lemma wp_collect_changes ls w :
  Forall (live w) ls → NoDup ls →
  wp (collect_changes ls)
    (λ r w', steady w w' ∧ r = filter (changed w) ls ∧
       ∀ p l, w_layers w !! p = Some l →
         w_layers w' !! p = Some (if decide (p ∈ ls)
                                  then set_l_mCompositionType (l_mDeviceSelect l) l else l)) w.
Proof.
  revert w. induction ls as [|p ls IH]; intros w Hl Hnd; cbn [collect_changes].
  { apply wp_ret. split_and!; [reflexivity|done|]. intros p l Hp. case_decide; [set_solver|done]. }
  apply Forall_cons in Hl as [[l Hp] Hls]. apply NoDup_cons in Hnd as [Hpls Hnd].
  eapply wp_bind, wp_deref; [done|].
  assert (changed w p ↔ l_mDeviceSelect l ≠ l_mCompositionType l) as Hch
    by (unfold changed; by rewrite Hp).
  case_bool_decide as Hc.
  - unfold SetLayerCompositionType. apply wp_bind, wp_bind.
    eapply wp_update; [done|]. apply wp_ret, wp_bind. set (w1 := set_w_layers _ _).
    assert (steady w w1) as Hst.
    { eapply (steady_update p _ (inert_composition_type (l_mDeviceSelect l)) w tt).
      unfold update. by rewrite Hp. }
    assert (∀ q, q ≠ p → w_layers w1 !! q = w_layers w !! q) as Hne
      by (intros q Hq; unfold w1; cbn [w_layers set_w_layers]; by rewrite lookup_insert_ne).
    eapply wp_mono; [apply IH; [|done]|].
    { eapply Forall_impl; [done|]. intros q. apply shape_live, Hst. }
    cbn beta. intros r w' (Hs' & -> & Hw'). apply wp_ret. split_and!.
    + by etrans.
    + rewrite filter_cons_True; [|by apply Hch]. f_equal. apply filter_ext_in.
      intros q Hq. unfold changed. rewrite Hne; [done|set_solver].
    + intros q lq Hq. destruct (decide (q = p)) as [->|Hqp].
      * rewrite (Hw' p (set_l_mCompositionType (l_mDeviceSelect l) l)).
        -- rewrite decide_False // decide_True; [by simplify_eq|set_solver].
        -- unfold w1. cbn [w_layers set_w_layers]. by rewrite lookup_insert_eq.
      * rewrite (Hw' q lq); [|by rewrite Hne]. f_equal. apply decide_ext. set_solver.
  - eapply wp_mono; [by apply IH|]. cbn beta. intros r w' (Hs' & -> & Hw').
    assert (¬ changed w p) as Hnc by (intros H%Hch; naive_solver).
    split_and!; [done|by rewrite filter_cons_False|].
    intros q lq Hq. rewrite (Hw' q lq Hq). destruct (decide (q = p)) as [->|Hqp].
    + rewrite decide_False // decide_True; [|set_solver].
      assert (lq = l) as -> by congruence.
      assert (l_mDeviceSelect l = l_mCompositionType l) as ->
        by (destruct (decide (l_mDeviceSelect l = l_mCompositionType l)); naive_solver).
      by destruct l.
    + f_equal. apply decide_ext. set_solver.
Qed.

Context `{!HdiComposition C, !HdiCompositionLaws C}.

Lemma comp_loop_SetLayers layers client (cs : list C) w :
  Forall (live w) layers → live w client →
  wp (comp_loop (comp_SetLayers layers client) cs) (λ _ w', steady w w') w.
Proof.
  revert w. induction cs as [|c cs IH]; intros w Hl Hc; simpl; [by apply wp_ret|].
  apply wp_bind. eapply wp_mono; [by apply SetLayers_steady|]. cbn beta. intros r w' Hs.
  case_bool_decide; [by apply wp_ret|]. apply wp_bind. eapply wp_mono; [apply IH|].
  - eapply Forall_impl; [done|]. intros q. apply shape_live, Hs.
  - eapply shape_live; [apply Hs|done].
  - cbn beta. intros r' w'' Hs'. apply wp_ret. by etrans.
Qed.

Lemma comp_loop_Apply b (cs : list C) : keeps steady (comp_loop (comp_Apply b) cs).
Proof.
  induction cs as [|c cs IH]; simpl; [apply keeps_ret, _|].
  apply keeps_bind; [apply _|apply Apply_steady|]. intros r. apply keeps_if; [apply keeps_ret, _|].
  apply keeps_bind; [apply _|done|]. intros r'. apply keeps_ret, _.
Qed.

Lemma wp_Composer_Prepare layers client (m : HdiComposer C) w :
  Forall (live w) layers → live w client →
  wp (Composer_Prepare layers client m) (λ _ w', steady w w') w.
Proof.
  intros Hl Hc. unfold Composer_Prepare. apply wp_bind.
  eapply wp_mono; [by apply comp_loop_SetLayers|]. cbn beta. intros post w' Hs.
  case_bool_decide; [by apply wp_ret|]. apply wp_bind. eapply wp_mono; [apply comp_loop_SetLayers|].
  - eapply Forall_impl; [done|]. intros q. apply shape_live, Hs.
  - eapply shape_live; [apply Hs|done].
  - cbn beta. intros r' w'' Hs'. apply wp_ret. by etrans.
Qed.

Lemma Composer_Commit_steady b (m : HdiComposer C) : keeps steady (Composer_Commit b m).
Proof.
  unfold Composer_Commit. apply keeps_bind; [apply _|apply comp_loop_Apply|]. intros pre.
  apply keeps_if; [apply keeps_ret, _|]. apply keeps_bind; [apply _|apply comp_loop_Apply|].
  intros post. apply keeps_ret, _.
Qed.

(** [PrepareDisplayLayers] does not fault on a display that has been initialised. *)
Lemma wp_PrepareDisplayLayers d w m client :
  disp_ok d w → d_mComposer d = Some m → d_mClientLayer d = Some client →
  wp (PrepareDisplayLayers d)
    (λ r w', steady w w' ∧ disp_ok r.2 w' ∧ r.1 = DISPLAY_SUCCESS ∧
       is_Some (d_mComposer r.2) ∧ d_mClientLayer r.2 = Some client ∧
       Forall (live w') (d_mChangeLayers r.2)) w.
Proof.
  intros Hok Hm Hc. unfold PrepareDisplayLayers.
  eapply wp_step; [by apply visible_layers_spec, disp_ok_live|]. set (vs := filter _ _).
  rewrite Hm Hc. apply wp_bind, wp_ret, wp_bind, wp_ret, wp_bind.
  assert (Forall (live w) vs) as Hvs.
  { unfold vs. pose proof (disp_ok_live d w Hok) as H. rewrite Forall_forall in H.
    apply Forall_forall. intros p [_ Hp]%list_elem_of_filter. auto. }
  eapply wp_mono; [apply wp_Composer_Prepare; [done|by apply (dok_client _ _ Hok)]|].
  cbn beta. intros r w1 Hs1.
  assert (Forall (live w1) vs) as Hvs1 by (eapply Forall_impl; [done|]; intros q; apply shape_live, Hs1).
  apply wp_bind. eapply wp_mono; [apply wp_collect_changes; [done|]|].
  { apply NoDup_filter, (dok_nodup _ _ Hok). }
  cbn beta. intros ch w2 (Hs2 & -> & _). apply wp_ret.
  assert (steady w w2) as Hs by by etrans.
  split_and!; [done| |done|done|done|].
  - apply (disp_ok_ext d); [done..|]. eapply disp_ok_shape; [apply Hs|done].
  - cbn [d_mChangeLayers with_change snd]. apply Forall_forall. intros p [_ Hp]%list_elem_of_filter.
    eapply shape_live; [apply Hs2|]. rewrite Forall_forall in Hvs1. auto.
Qed.

Lemma Display_Commit_ok ext fb0 bl0 d w r w' :
  disp_ok d w → res_ok ext fb0 bl0 w → Display_Commit d w = Some (r, w') →
  disp_ok r.2 w' ∧ res_ok (list_to_set (pos_fd r.1.2) ∪ ext) fb0 bl0 w' ∧ shape w w' ∧
  r.1.1 = DISPLAY_SUCCESS ∧ d_mChangeLayers r.2 = d_mChangeLayers d.
Proof.
  intros Hok Hres. unfold Display_Commit, nonnull, dbind.
  destruct (d_mComposer d) as [m|]; [|done]. simpl.
  destruct (Composer_Commit false m w) as [[rm w1]|] eqn:E1; [|done].
  destruct (d_mClientLayer d) as [client|] eqn:Ec; [|done]. simpl.
  pose proof (Composer_Commit_steady false m _ _ _ E1) as [Hs1 Hr1].
  destruct (GetReleaseFenceFd client w1) as [[fd w2]|] eqn:E2; [|done]. intros [= <- <-].
  assert (live w1 client) as Hlc by (eapply shape_live; [done|by apply (dok_client _ _ Hok)]).
  destruct (wp_run _ _ _ (wp_GetReleaseFenceFd_ok ext fb0 bl0 client w1 (Hr1 _ _ _ Hres) Hlc)
    _ _ E2) as [Hr2 Hs2].
  assert (shape w w2) as Hs by by etrans. split_and!; try done.
  apply (disp_ok_ext d); [done..|]. by eapply disp_ok_shape.
Qed.

(** ** Sequences of operations *)

(** The calls a client of the display makes (layer functions go through
    [GetHdiLayer], as in [CallLayerFunction]). *)
Inductive display_op :=
| OpCreate (type : LayerType) | OpDestroy (id : Z) | OpZorder (id z : Z)
| OpBuffer (id : Z) (buffer : option BufferHandle) (fence : Z)
| OpClientBuffer (buffer : option BufferHandle) (fence : Z)
| OpVisible (id : Z) (visible : bool) | OpCompositionType (id : Z) (type : CompositionType)
| OpPrepare | OpCommit | OpCompChange | OpReleaseFences.
#[export] Instance display_op_is_commit op : Decision (op = OpCommit).
Proof. destruct op; solve [by left|by right]. Defined.
#[export] Instance display_op_is_compchange op : Decision (op = OpCompChange).
Proof. destruct op; solve [by left|by right]. Defined.

Definition CallLayerFunction (id : Z) (f : Z → D DispError) (d : HdiDisplay C) : D DispError :=
  match GetHdiLayer id d with None => dret DISPLAY_FAILURE | Some p => f p end.

(** The descriptors handed to the caller, and the display. *)
Definition exec (op : display_op) (d : HdiDisplay C) : D (list Z * HdiDisplay C) :=
  match op with
  | OpCreate type => let! r := CreateLayer (Some type) true d in dret ([], r.2)
  | OpDestroy id => let! r := DestroyLayer id d in dret ([], r.2)
  | OpZorder id z => let! r := SetLayerZorder id z d in dret ([], r.2)
  | OpBuffer id b f => do! CallLayerFunction id (λ p, SetLayerBuffer p b f) d in dret ([], d)
  | OpClientBuffer b f => do! SetDisplayClientBuffer b f d in dret ([], d)
  | OpVisible id v => do! CallLayerFunction id (λ p, SetLayerVisible p v) d in dret ([], d)
  | OpCompositionType id t =>
      do! CallLayerFunction id (λ p, SetLayerCompositionType p t) d in dret ([], d)
  | OpPrepare => let! r := PrepareDisplayLayers d in dret ([], r.2)
  | OpCommit => let! r := Display_Commit d in dret ([r.1.2], r.2)
  | OpCompChange => do! GetDisplayCompChange true true true d in dret ([], d)
  | OpReleaseFences => let! r := GetDisplayReleaseFence true true true d in dret (r.2.2, d)
  end.
Fixpoint run (ops : list display_op) (d : HdiDisplay C) : D (list Z * HdiDisplay C) :=
  match ops with
  | [] => dret ([], d)
  | op :: ops =>
      let! r := exec op d in
      let! r' := run ops r.2 in dret (r.1 ++ r'.1, r'.2)
  end.

(** The fence the log statement of [GetDisplayReleaseFence] pops after one was taken
    for the client: the second of the layer's queue. *)
Definition second_fence (w : World) (p : Z) : list Z :=
  from_option (λ l, from_option pos_fd [] (l_releaseFences_ l !! 1%nat)) [] (w_layers w !! p).
(** What a call drops: neither returned, nor closed, nor kept. *)
Definition drops (op : display_op) (d : HdiDisplay C) (w : World) : list Z :=
  match op with OpReleaseFences => d_mLayers d ≫= second_fence w | _ => [] end.
Fixpoint dropped (ops : list display_op) (d : HdiDisplay C) (w : World) : list Z :=
  match ops with
  | [] => []
  | op :: ops => drops op d w ++ match exec op d w with
                                 | Some (r, w') => dropped ops r.2 w'
                                 | None => []
                                 end
  end.

(** What every operation establishes: the descriptors that are nobody's afterwards are
    those of before, those returned and those dropped. *)
Definition step_ok (op : display_op) (ext fb0 bl0 : gset Z) (d : HdiDisplay C) (w : World)
    (r : list Z * HdiDisplay C) (w' : World) : Prop :=
  disp_ok r.2 w' ∧
  res_ok (list_to_set ((r.1 ≫= pos_fd) ++ drops op d w) ∪ ext) fb0 bl0 w' ∧
  is_u32 (pool_mIdleId (w_layer_ids w')) ∧
  (size (pool_mIdSets (w_layer_ids w')) ≤ S (size (pool_mIdSets (w_layer_ids w))))%nat.

Lemma drops_none op d w : op ≠ OpReleaseFences → drops op d w = [].
Proof. by destruct op. Qed.

Lemma step_ok_quiet op ext fb0 bl0 d0 d w w' :
  op ≠ OpReleaseFences →
  disp_ok d w' → res_ok ext fb0 bl0 w' → room w → w_layer_ids w' = w_layer_ids w →
  step_ok op ext fb0 bl0 d0 w ([], d) w'.
Proof.
  intros Hop Hok Hres [Hu _] Hi. split; [done|]. rewrite Hi drops_none //.
  split; [|split; [done|lia]]. simpl. by rewrite union_empty_l_L.
Qed.

Lemma wp_layer_call ext fb0 bl0 id f d w :
  disp_ok d w → res_ok ext fb0 bl0 w →
  (∀ p, live w p → wp (f p) (λ _ w', res_ok ext fb0 bl0 w' ∧ disp_ok d w' ∧
                                     w_layer_ids w' = w_layer_ids w) w) →
  wp (CallLayerFunction id f d)
    (λ _ w', res_ok ext fb0 bl0 w' ∧ disp_ok d w' ∧ w_layer_ids w' = w_layer_ids w) w.
Proof.
  intros Hok Hres Hf. unfold CallLayerFunction, GetHdiLayer.
  destruct (d_mLayersMap d !! id) as [p|] eqn:E; [|by apply wp_ret].
  apply Hf. destruct (dok_map _ _ Hok id p E) as (l & Hl & _). by exists l.
Qed.

Lemma disp_ok_visible d w p l v :
  disp_ok d w → w_layers w !! p = Some l →
  disp_ok d (set_w_layers (<[p := set_l_mVisible v l]> (w_layers w)) w).
Proof.
  intros [H1 H2 H3 H4 H5 H6 H7] Hl. assert (live w p) as Hp by by exists l.
  assert (∀ q, zord (set_w_layers (<[p := set_l_mVisible v l]> (w_layers w)) w) q = zord w q) as Hz.
  { intros q. destruct (decide (p = q)) as [<-|?]; [|by apply zord_insert_ne].
    unfold zord. cbn [w_layers set_w_layers]. by rewrite lookup_insert_eq Hl. }
  split; try done.
  - eapply StronglySorted_ext; [|exact H1]. unfold zle. intros a b _ _. by rewrite !Hz.
  - intros id q Hq. destruct (H3 id q Hq) as (lq & Hlq & Hidq). cbn [w_layers set_w_layers].
    destruct (decide (p = q)) as [<-|?].
    + rewrite lookup_insert_eq. simplify_eq. by eexists.
    + rewrite lookup_insert_ne; [by eexists|done].
  - intros q Hq. apply H6. by apply (live_insert w p) in Hq.
  - intros c Hc. destruct (H7 c Hc). split; [by apply live_insert|done].
Qed.

(** One pop: the head of the queue, and the rest of the queue remains. *)
Definition popped (p : Z) (l : HdiLayer) (w : World) : World :=
  set_w_layers (<[p := set_l_releaseFences_ (tail (l_releaseFences_ l)) l]> (w_layers w)) w.
Lemma wp_pop ext fb0 bl0 p l w :
  res_ok ext fb0 bl0 w → w_layers w !! p = Some l →
  wp (GetReleaseFenceFd p)
    (λ fd w', fd = default (-1) (head (l_releaseFences_ l)) ∧ w' = popped p l w ∧
       res_ok (list_to_set (pos_fd fd) ∪ ext) fb0 bl0 w' ∧ shape w w') w.
Proof.
  intros Hres Hl. eapply wp_GetReleaseFenceFd; [by eapply res_fds|done|].
  intros fd w' Hfd. split; [done|]. split; [done|].
  eapply res_ok_layer; [exact Hres|exact Hl|exact Hfd| |done|done|done].
  intros x. rewrite elem_of_union elem_of_list_to_set pos_fd_spec.
  intros [[-> ?]|?]; [done|by eapply res_pos].
Qed.

Lemma popped_ne p l q w : p ≠ q → w_layers (popped p l w) !! q = w_layers w !! q.
Proof. intros ?. by apply lookup_insert_ne. Qed.
Lemma popped_eq p l w :
  w_layers (popped p l w) !! p = Some (set_l_releaseFences_ (tail (l_releaseFences_ l)) l).
Proof. apply lookup_insert_eq. Qed.

(** The second fence is the head of what the first pop leaves. *)
Lemma second_is_head p l w :
  w_layers w !! p = Some l →
  second_fence w p = pos_fd (default (-1) (head (tail (l_releaseFences_ l)))).
Proof. intros Hl. unfold second_fence. rewrite Hl. simpl. by destruct (l_releaseFences_ l) as [|? []]. Qed.

Lemma wp_release_fences layers ls ext fb0 bl0 w :
  res_ok ext fb0 bl0 w → NoDup ls → Forall (live w) ls →
  wp (release_fences layers true ls)
    (λ r w', shape w w' ∧
       res_ok (list_to_set ((r.2 ≫= pos_fd) ++ (ls ≫= second_fence w)) ∪ ext) fb0 bl0 w') w.
Proof.
  intros Hres Hnd. revert ext w Hres.
  induction Hnd as [|p ls Hp _ IH]; intros ext w Hres Hl; simpl.
  { apply wp_ret. split; [reflexivity|]. simpl. by rewrite union_empty_l_L. }
  apply Forall_cons in Hl as [[l Hpl] Hls].
  eapply wp_bind, wp_deref; [done|]. apply wp_bind, wp_bind.
  eapply wp_mono; [by apply wp_pop|]. cbn beta. intros fd w1 (Hfd & Hw1 & Hr1 & Hs1).
  apply wp_ret, wp_bind.
  assert (w_layers w1 !! p = Some (set_l_releaseFences_ (tail (l_releaseFences_ l)) l)) as Hp1
    by (rewrite Hw1; apply popped_eq).
  eapply wp_mono; [exact (wp_pop _ _ _ p _ w1 Hr1 Hp1)|].
  cbn beta. intros fd2 w2 (Hfd2 & Hw2 & Hr2 & Hs2). apply wp_bind.
  assert (∀ q, q ∈ ls → w_layers w2 !! q = w_layers w !! q) as Hsame.
  { intros q Hq. assert (p ≠ q) by congruence. by rewrite Hw2 popped_ne // Hw1 popped_ne. }
  eapply wp_mono; [eapply IH; [exact Hr2|]|].
  { eapply Forall_impl; [done|]. intros q Hq. eapply shape_live; [exact Hs2|].
    by eapply shape_live. }
  cbn beta. intros r w3 (Hs3 & Hr3). apply wp_ret. split.
  { etrans; [exact Hs1|]. by etrans. }
  assert (ls ≫= second_fence w2 = ls ≫= second_fence w) as Heq.
  { clear -Hsame. induction ls as [|q ls IH]; [done|]. simpl. f_equal.
    - unfold second_fence. rewrite Hsame //. by apply list_elem_of_here.
    - apply IH. intros q' Hq'. apply Hsame. by apply list_elem_of_further. }
  rewrite Heq in Hr3. rewrite (second_is_head p l w Hpl).
  cbn [l_releaseFences_ set_l_releaseFences_] in Hfd2. rewrite -Hfd2. simpl in Hr3 |- *.
  revert Hr3. rewrite !list_to_set_app_L. match goal with |- res_ok ?A _ _ _ → res_ok ?B _ _ _ =>
    replace B with A by set_solver end. done.
Qed.

Lemma step_create type ext fb0 bl0 d w :
  disp_ok d w → res_ok ext fb0 bl0 w → room w →
  wp (exec (OpCreate type) d) (step_ok (OpCreate type) ext fb0 bl0 d w) w.
Proof.
  intros Hok Hres Hroom. apply wp_bind.
  eapply wp_mono; [by apply (wp_CreateLayer ext fb0 bl0)|]. cbn beta.
  intros r w' (Hok' & Hres' & id & _ & -> & Hnew & Hid & _). apply wp_ret. split; [done|].
  split; [simpl; by rewrite union_empty_l_L|]. unfold created. cbn.
  split; [unfold is_u32, INVALIDE_LAYER_ID in *; lia|].
  rewrite size_union; [rewrite size_singleton; lia|set_solver].
Qed.
Lemma step_destroy id ext fb0 bl0 d w :
  disp_ok d w → res_ok ext fb0 bl0 w → room w →
  wp (exec (OpDestroy id) d) (step_ok (OpDestroy id) ext fb0 bl0 d w) w.
Proof.
  intros Hok Hres Hroom. apply wp_bind.
  eapply wp_mono; [by apply (wp_DestroyLayer ext fb0 bl0)|]. cbn beta.
  intros r w' (Hok' & Hres' & Hidle & Hids & _). apply wp_ret. split; [done|].
  split; [simpl; by rewrite union_empty_l_L|]. rewrite Hidle.
  apply subseteq_size in Hids. split; [apply Hroom|lia].
Qed.
Lemma step_layer_call op id f ext fb0 bl0 d w :
  op ≠ OpReleaseFences →
  disp_ok d w → res_ok ext fb0 bl0 w → room w →
  (∀ p, live w p → wp (f p) (λ _ w', res_ok ext fb0 bl0 w' ∧ disp_ok d w' ∧
                                     w_layer_ids w' = w_layer_ids w) w) →
  wp (do! CallLayerFunction id f d in dret ([], d)) (step_ok op ext fb0 bl0 d w) w.
Proof.
  intros Hop Hok Hres Hroom Hf. apply wp_bind.
  eapply wp_mono; [by apply (wp_layer_call ext fb0 bl0)|]. cbn beta.
  intros _ w' (? & ? & ?). by apply wp_ret, step_ok_quiet.
Qed.
Lemma step_client_buffer b f c ext fb0 bl0 d w :
  disp_ok d w → res_ok ext fb0 bl0 w → room w → d_mClientLayer d = Some c →
  wp (exec (OpClientBuffer b f) d) (step_ok (OpClientBuffer b f) ext fb0 bl0 d w) w.
Proof.
  intros Hok Hres Hroom Hc. apply wp_bind. unfold SetDisplayClientBuffer, nonnull. rewrite Hc.
  apply wp_bind, wp_ret, wp_bind.
  eapply wp_mono; [apply wp_SetLayerBuffer_ok; [done|by apply (dok_client _ _ Hok)]|].
  cbn beta. intros _ w' [Hr Hs]. apply wp_ret, wp_ret, step_ok_quiet; try done; [|apply Hs].
  by eapply disp_ok_shape.
Qed.
Lemma step_release_fences ext fb0 bl0 d w :
  disp_ok d w → res_ok ext fb0 bl0 w → room w →
  wp (exec OpReleaseFences d) (step_ok OpReleaseFences ext fb0 bl0 d w) w.
Proof.
  intros Hok Hres Hroom. apply wp_bind. unfold GetDisplayReleaseFence. simpl. apply wp_bind.
  eapply wp_mono; [apply wp_release_fences; [exact Hres|apply Hok|by apply disp_ok_live]|].
  cbn beta. intros r w' (Hs & Hr). apply wp_ret, wp_ret. split.
  { by eapply disp_ok_shape. }
  destruct Hs as (_ & _ & ->). destruct Hroom. split; [done|]. split; [done|lia].
Qed.

(** Every operation but [Commit] and [GetDisplayCompChange] runs without a fault. *)
Definition initialised (d : HdiDisplay C) : Prop :=
  is_Some (d_mComposer d) ∧ is_Some (d_mClientLayer d).
Definition faultless (op : display_op) : Prop := op ≠ OpCommit ∧ op ≠ OpCompChange.

Lemma step_faultless op ext fb0 bl0 d w :
  disp_ok d w → res_ok ext fb0 bl0 w → room w → initialised d → faultless op →
  wp (exec op d) (step_ok op ext fb0 bl0 d w) w.
Proof.
  intros Hok Hres Hroom [[m Hm] [c Hc]] [Hnc Hncc].
  destruct op as [type|id|id z|id b f|b f|id v|id t| | | |].
  - by apply step_create.
  - by apply step_destroy.
  - apply wp_bind. eapply wp_mono; [by apply (wp_SetLayerZorder ext fb0 bl0)|]. cbn beta.
    intros r w' (Hok' & Hres' & Hi & _). by apply wp_ret, step_ok_quiet.
  - apply step_layer_call; [done..|]. intros p Hp.
    eapply wp_mono; [by apply wp_SetLayerBuffer_ok|]. cbn beta.
    intros _ w' [Hr Hs]. split; [done|]. split; [by eapply disp_ok_shape|apply Hs].
  - by eapply step_client_buffer.
  - apply step_layer_call; [done..|]. intros p [l Hl]. apply wp_bind. eapply wp_update; [done|].
    apply wp_ret. split_and!; [by eapply res_ok_insert|by apply disp_ok_visible|done].
  - apply step_layer_call; [done..|]. intros p Hp. apply wp_bind.
    eapply wp_mono; [by apply wp_update_steady, inert_composition_type|]. cbn beta.
    intros _ w' [Hs Hr]. apply wp_ret. split_and!; [auto|by eapply disp_ok_shape|apply Hs].
  - apply wp_bind. eapply wp_mono; [by eapply wp_PrepareDisplayLayers|]. cbn beta.
    intros r w' (Hs & Hok' & _). apply wp_ret, step_ok_quiet; [done|done|by apply Hs|done|apply Hs].
  - done.
  - done.
  - by apply step_release_fences.
Qed.

Lemma exec_members op d w :
  wlp (exec op d) (λ r _, d_mClientLayer r.2 = d_mClientLayer d ∧
                          (is_Some (d_mComposer d) → is_Some (d_mComposer r.2))) w.
Proof.
  destruct op; simpl; try (apply wlp_any; intros; by apply wlp_ret).
  - apply wlp_bind. unfold CreateLayer. simpl. do 2 (apply wlp_any; intros). case_bool_decide.
    + apply wlp_any; intros. by apply wlp_ret, wlp_ret.
    + do 2 (apply wlp_any; intros). case_match.
      * apply wlp_any; intros. by apply wlp_ret, wlp_ret.
      * by apply wlp_ret, wlp_ret.
  - apply wlp_bind. unfold DestroyLayer. case_match; [|by apply wlp_ret, wlp_ret].
    do 3 (apply wlp_any; intros). by apply wlp_ret, wlp_ret.
  - apply wlp_bind. unfold SetLayerZorder. case_match; [|by apply wlp_ret, wlp_ret].
    apply wlp_any; intros. case_match; [by apply wlp_ret, wlp_ret|].
    do 3 (apply wlp_any; intros). by apply wlp_ret, wlp_ret.
  - apply wlp_bind. unfold PrepareDisplayLayers. do 5 (apply wlp_any; intros).
    by apply wlp_ret, wlp_ret.
  - apply wlp_bind. unfold Display_Commit. do 4 (apply wlp_any; intros).
    by apply wlp_ret, wlp_ret.
Qed.

Lemma comp_changes_keeps ls : keeps eq (comp_changes true true ls).
Proof.
  induction ls as [|p ls IH]; simpl; [apply keeps_ret, _|].
  apply keeps_bind; [apply _|apply keeps_deref, _|]. intros l.
  apply keeps_bind; [apply _|done|]. intros r. apply keeps_ret, _.
Qed.

(** Every operation that returns keeps the invariants. *)
Lemma exec_ok op ext fb0 bl0 d w :
  disp_ok d w → res_ok ext fb0 bl0 w → room w → initialised d →
  wlp (exec op d) (step_ok op ext fb0 bl0 d w) w.
Proof.
  intros Hok Hres Hroom Hini.
  destruct (decide (op = OpCommit)) as [->|?]; [|destruct (decide (op = OpCompChange)) as [->|?]].
  - apply wlp_bind. intros r w' Hr.
    destruct (Display_Commit_ok ext fb0 bl0 d w r w' Hok Hres Hr) as (Hok' & Hres' & Hs & _).
    apply wlp_ret. split; [done|]. simpl. rewrite !app_nil_r. split; [done|].
    destruct Hs as (_ & _ & ->). destruct Hroom. split; [done|lia].
  - apply wlp_bind. unfold GetDisplayCompChange. simpl. apply wlp_bind. intros r w' Hr.
    apply comp_changes_keeps in Hr as <-. by apply wlp_ret, wlp_ret, step_ok_quiet.
  - by apply wlp_wp, step_faultless.
Qed.

Lemma run_ok ops ext fb0 bl0 d w :
  disp_ok d w → res_ok ext fb0 bl0 w → initialised d →
  is_u32 (pool_mIdleId (w_layer_ids w)) →
  Z.of_nat (size (pool_mIdSets (w_layer_ids w)) + length ops) < INVALIDE_LAYER_ID →
  wlp (run ops d) (λ r w', disp_ok r.2 w' ∧
    res_ok (list_to_set ((r.1 ≫= pos_fd) ++ dropped ops d w) ∪ ext) fb0 bl0 w') w.
Proof.
  revert ext d w. induction ops as [|op ops IH]; intros ext d w Hok Hres Hini Hu Hsize; simpl.
  { apply wlp_ret. split; [done|]. simpl. by rewrite union_empty_l_L. }
  simpl in Hsize. apply wlp_bind. intros r w1 Hr.
  assert (room w) as Hroom by (split; [done|lia]).
  destruct (exec_ok op ext fb0 bl0 d w Hok Hres Hroom Hini r w1 Hr) as (Hok1 & Hres1 & Hu1 & Hsize1).
  destruct (exec_members op d w r w1 Hr) as [Hc Hm]. apply wlp_bind. rewrite Hr.
  eapply wlp_mono; [eapply IH; [done|exact Hres1|..]; try done; [|lia]|].
  { destruct Hini. split; [auto|by rewrite Hc]. }
  cbn beta. intros r' w2 (Hok2 & Hres2). apply wlp_ret. split; [done|]. simpl.
  rewrite bind_app. rewrite ->!list_to_set_app_L in *.
  match type of Hres2 with res_ok ?A _ _ _ => match goal with |- res_ok ?B _ _ _ =>
    replace B with A by set_solver end end. done.
Qed.

Lemma dropped_none ops d w : OpReleaseFences ∉ ops → dropped ops d w = [].
Proof.
  revert d w. induction ops as [|op ops IH]; intros d w Hn; [done|].
  apply not_elem_of_cons in Hn as [Hop Hn]. simpl. rewrite drops_none //.
  destruct (exec op d w) as [[r w']|]; [by apply IH|done].
Qed.

Lemma run_faultless ops ext fb0 bl0 d w :
  disp_ok d w → res_ok ext fb0 bl0 w → initialised d → Forall faultless ops →
  is_u32 (pool_mIdleId (w_layer_ids w)) →
  Z.of_nat (size (pool_mIdSets (w_layer_ids w)) + length ops) < INVALIDE_LAYER_ID →
  is_Some (run ops d w).
Proof.
  intros Hok Hres Hini Hops. revert ext d w Hok Hres Hini.
  induction Hops as [|op ops Hop Hops IH]; intros ext d w Hok Hres Hini Hu Hsize; simpl; [done|].
  simpl in Hsize. assert (room w) as Hroom by (split; [done|lia]).
  destruct (step_faultless op ext fb0 bl0 d w Hok Hres Hroom Hini Hop)
    as (r & w1 & Hr & Hok1 & Hres1 & Hu1 & Hsize1).
  destruct (exec_members op d w r w1 Hr) as [Hc Hm]. unfold dbind. rewrite Hr.
  destruct (IH _ r.2 w1 Hok1 Hres1) as [[r' w2] ->]; try done; [|lia].
  destruct Hini. split; [auto|by rewrite Hc].
Qed.
End invariant.

(** The base class's own [SetLayers] and [Apply] do nothing. *)
Inductive BaseComposition := Base.
#[export] Instance base_composition : HdiComposition BaseComposition := {
  comp_SetLayers _ _ c := dret (DISPLAY_SUCCESS, c);
  comp_Apply _ c := dret (DISPLAY_SUCCESS, c);
}.
#[export] Instance base_composition_laws : HdiCompositionLaws BaseComposition.
Proof.
  split.
  - intros c layers client w _ _. apply wp_ret. reflexivity.
  - intros c b. apply keeps_ret, _.
Qed.

(** ** Properties *)

(** C2: the display's books stay straight.  For every sequence of client calls -
    layers created, destroyed, moved in z, given buffers, hidden, prepared, committed,
    queried - with any composition that keeps to the interface's laws: [mLayers]
    remains the z-sorted list of exactly the layers of the map, each filed under its
    id; and every open descriptor is one the process had before, one the calls
    returned, owned by exactly one layer, or one of exactly the fences [dropped] that
    the log statement of [GetDisplayReleaseFence] popped after the one it returned
    (those leak; without that call there are none).  Every framebuffer and property
    blob is accounted for. *)
Theorem display_run_ok {C} `{HdiCompositionLaws C} ops ext fb0 bl0 (d : HdiDisplay C) w r w' :
  disp_ok d w → res_ok ext fb0 bl0 w → initialised d →
  is_u32 (pool_mIdleId (w_layer_ids w)) →
  Z.of_nat (size (pool_mIdSets (w_layer_ids w)) + length ops) < INVALIDE_LAYER_ID →
  run ops d w = Some (r, w') →
  disp_ok r.2 w' ∧
  res_ok (list_to_set ((r.1 ≫= pos_fd) ++ dropped ops d w) ∪ ext) fb0 bl0 w' ∧
  (OpReleaseFences ∉ ops → dropped ops d w = []).
Proof.
  intros Hok Hres Hini Hu Hsize Hr.
  destruct (run_ok ops ext fb0 bl0 d w Hok Hres Hini Hu Hsize r w' Hr).
  split_and!; [done..|apply dropped_none].
Qed.

(** C20: no call faults but the two that read what an earlier call left.  On an
    initialised display every sequence of calls without [Commit] and
    [GetDisplayCompChange] runs to its end, whatever ids, handles and fences it is
    given: no dangling or null pointer is dereferenced. *)
Theorem display_no_fault {C} `{HdiCompositionLaws C} ops ext fb0 bl0 (d : HdiDisplay C) w :
  disp_ok d w → res_ok ext fb0 bl0 w → initialised d → Forall faultless ops →
  is_u32 (pool_mIdleId (w_layer_ids w)) →
  Z.of_nat (size (pool_mIdSets (w_layer_ids w)) + length ops) < INVALIDE_LAYER_ID →
  run ops d w ≠ None.
Proof.
  intros Hok Hres Hini Hops Hu Hsize. destruct (run_faultless ops ext fb0 bl0 d w) as [r ->]; done.
Qed.

(** A process with standard descriptors, a buffer (7) and a fence (8) of the client
    and one initialised display. *)
Definition demo_world : World :=
  set_w_nextptr 2 (set_w_layers {[1 := HdiLayer_new LAYER_TYPE_GRAPHIC]}
    (World_new (mkKernel ∅ {[0; 1; 2; 7; 8]} ∅) 64 (DrmKernel_new (Some 2) (λ _ _, (0, 5))))).
Definition demo_display : HdiDisplay BaseComposition :=
  mkHdiDisplay 0 ∅ [] (Some 1) [] (Some (mkHdiComposer [Base] [Base])).
Definition demo_buffer : BufferHandle :=
  mkBufferHandle 7 64 256 64 16384 PIXEL_FMT_RGBA_8888 0 None [] 0.

Lemma demo_disp_ok : disp_ok demo_display demo_world.
Proof.
  split; simpl.
  - constructor.
  - constructor.
  - intros id p. by rewrite lookup_empty.
  - intros p. split; [set_solver|]. intros [id Hid]. by rewrite lookup_empty in Hid.
  - intros id [p Hp]. by rewrite lookup_empty in Hp.
  - intros p [l Hl]. unfold demo_world in Hl. simpl in Hl.
    apply lookup_singleton_Some in Hl as [<- _]. unfold demo_world. simpl. lia.
  - intros c [= <-]. split; [by eexists|set_solver].
Qed.
Lemma demo_res_ok : res_ok {[0; 1; 2; 7; 8]} {[0]} ∅ demo_world.
Proof.
  assert (∀ p L, (layer_fds <$> w_layers demo_world) !! p = Some L → L = []) as Hnil.
  { intros p L. unfold demo_world. simpl. rewrite lookup_fmap fmap_Some.
    intros (l & Hl & ->). by apply lookup_singleton_Some in Hl as [<- <-]. }
  split.
  - split.
    + intros p L ->%Hnil. constructor.
    + intros p L x ->%Hnil. set_solver.
    + intros p q L L' x ->%Hnil _. set_solver.
    + done.
    + intros x Hx. by left.
  - intros fd. set_solver by lia.
  - done.
  - set_solver.
  - intros x Hx. unfold demo_world in Hx. simpl in Hx. set_solver.
  - done.
Qed.

Definition demo_ops : list display_op :=
  [OpCreate LAYER_TYPE_GRAPHIC; OpZorder 0 5; OpCreate LAYER_TYPE_OVERLAY; OpZorder 1 2;
   OpBuffer 0 (Some demo_buffer) 8; OpClientBuffer (Some demo_buffer) (-1); OpVisible 1 false;
   OpPrepare; OpCommit; OpDestroy 1].

Lemma display_run_ok_witness :
  ∃ r w', run demo_ops demo_display demo_world = Some (r, w') ∧ disp_ok r.2 w'.
Proof.
  remember (run demo_ops demo_display demo_world) as o eqn:Ho. symmetry in Ho.
  destruct o as [[r w']|]; [|vm_compute in Ho; discriminate Ho].
  exists r, w'. split; [reflexivity|].
  refine (proj1 (display_run_ok demo_ops {[0; 1; 2; 7; 8]} {[0]} ∅ demo_display demo_world r w'
    demo_disp_ok demo_res_ok _ _ _ Ho)).
  - split; by eexists.
  - split; [by vm_compute|reflexivity].
  - reflexivity.
Defined.

Lemma display_no_fault_witness :
  run [OpCreate LAYER_TYPE_GRAPHIC; OpBuffer 0 (Some demo_buffer) 8; OpPrepare; OpDestroy 0]
    demo_display demo_world ≠ None.
Proof.
  apply (display_no_fault _ {[0; 1; 2; 7; 8]} {[0]} ∅ demo_display demo_world
    demo_disp_ok demo_res_ok).
  - split; by eexists.
  - repeat (constructor; [by split|]). constructor.
  - split; [by vm_compute|reflexivity].
  - reflexivity.
Defined.

Lemma comp_changes_dangling ls p w :
  p ∈ ls → ¬ live w p → comp_changes true true ls w = None.
Proof.
  intros Hp Hd. induction ls as [|q ls IH]; [set_solver|]. simpl. unfold dbind, deref.
  destruct (w_layers w !! q) as [l|] eqn:E; [|done].
  destruct (decide (q = p)) as [->|?]; [exfalso; apply Hd; by exists l|].
  by rewrite IH; [|set_solver].
Qed.

(** A destroyed layer stays on the change list.  [DestroyLayer] takes the layer
    out of [mLayers] and the map but not out of [mChangeLayers]: if the last
    [PrepareDisplayLayers] changed its composition type, the next
    [GetDisplayCompChange] reads the deleted object. *)
Theorem change_list_dangles {C} `{HdiCompositionLaws C} ext fb0 bl0 (d : HdiDisplay C) w id p r w' :
  disp_ok d w → res_ok ext fb0 bl0 w →
  d_mLayersMap d !! id = Some p → p ∈ d_mChangeLayers d →
  DestroyLayer id d w = Some (r, w') →
  r.1 = DISPLAY_SUCCESS ∧ GetDisplayCompChange true true true r.2 w' = None.
Proof.
  intros Hok Hres Hid Hp Hd.
  destruct (wp_run _ _ _ (wp_DestroyLayer ext fb0 bl0 id d w Hok Hres) _ _ Hd)
    as (_ & _ & _ & _ & Hret & _ & Hgone).
  destruct (dok_map _ _ Hok id p Hid) as (l & Hl & _). destruct (Hgone p l Hid Hl) as [Hls _].
  assert (d_mChangeLayers r.2 = d_mChangeLayers d) as Hch.
  { revert r w' Hd Hret Hgone Hls. enough (wlp (DestroyLayer id d)
      (λ r _, d_mChangeLayers r.2 = d_mChangeLayers d) w) as Hw by (intros; by eapply Hw).
    unfold DestroyLayer. rewrite Hid. do 3 (apply wlp_any; intros). by apply wlp_ret. }
  split; [apply Hret; by rewrite Hid|]. unfold GetDisplayCompChange. simpl. unfold dbind.
  rewrite (comp_changes_dangling _ p); [done|by rewrite Hch|].
  unfold live. rewrite Hls lookup_delete_eq. by intros [].
Qed.

Lemma change_list_dangles_witness :
  ∃ r w', DestroyLayer 0 (mkHdiDisplay 0 {[0 := 2]} [2] (Some 1) [2]
            (Some (mkHdiComposer [Base] [Base])))
            (created LAYER_TYPE_GRAPHIC 0 (set_w_nextptr 2 demo_world)) = Some (r, w') ∧
          GetDisplayCompChange true true true r.2 w' = None.
Proof.
  set (d := mkHdiDisplay 0 {[0 := 2]} [2] (Some 1) [2] _).
  set (w := created LAYER_TYPE_GRAPHIC 0 _).
  assert (disp_ok d w) as Hok.
  { apply (disp_ok_ext (with_layers (<[0 := 2]> ∅) [2] demo_display)); [done..|].
    apply (disp_ok_created LAYER_TYPE_GRAPHIC 0 demo_display demo_world [2]).
    - exact demo_disp_ok.
    - set_solver.
    - done.
    - intros _ _. by repeat constructor. }
  assert (res_ok {[0; 1; 2; 7; 8]} {[0]} ∅ w) as Hres.
  { by apply res_ok_created; [apply demo_res_ok|]. }
  remember (DestroyLayer 0 d w) as o eqn:Ho. symmetry in Ho.
  destruct o as [[r w']|]; [|vm_compute in Ho; discriminate Ho].
  exists r, w'. split; [reflexivity|].
  refine (proj2 (change_list_dangles _ _ _ d w 0 2 r w' Hok Hres _ _ Ho)); [reflexivity|].
  by apply list_elem_of_here.
Defined.

(** Logging eats release fences.  The log line of [GetDisplayReleaseFence] pops
    the queue a second time: of two fences a layer holds the first is returned, the
    second is neither returned nor closed nor owned by any layer - its descriptor
    leaks, and the client never waits on it. *)
Theorem release_fence_dropped {C} ext (d : HdiDisplay C) w p l a b q :
  fd_ok ext w → d_mLayers d = [p] → w_layers w !! p = Some l →
  l_releaseFences_ l = a :: b :: q → 0 ≤ b →
  ∃ w', GetDisplayReleaseFence true true true d w
        = Some (DISPLAY_SUCCESS, 1, ([l_mId l], [a]), w') ∧
    b ∈ fds w' ∧ (b ∉ ext) ∧ ∀ p' l', w_layers w' !! p' = Some l' → b ∉ layer_fds l'.
Proof.
  intros Hok Hls Hp Hq Hb. unfold GetDisplayReleaseFence. rewrite Hls. simpl.
  unfold GetReleaseFenceFd, dbind, deref, update. rewrite Hp. simpl. rewrite Hp Hq. simpl.
  rewrite Hp. simpl. rewrite lookup_insert_eq. simpl. rewrite lookup_insert_eq. simpl.
  rewrite insert_insert_eq. eexists. split; [done|].
  assert ((layer_fds <$> w_layers w) !! p = Some (layer_fds l)) as Hp' by by rewrite lookup_fmap Hp.
  assert (layer_fds l ≡ₚ b :: layer_fds (set_l_releaseFences_ q l) ++ pos_fd a) as Hperm.
  { unfold layer_fds. rewrite Hq. cbn [l_mAcquireFence l_mHdiBuffer l_releaseFences_
      set_l_releaseFences_ mbind list_bind].
    assert (pos_fd b = [b]) as -> by (unfold pos_fd; destruct (Z.leb_spec 0 b); [done|lia]).
    rewrite -!app_assoc (Permutation_app_comm _ (pos_fd a)). simpl. solve_Permutation. }
  assert (b ∈ layer_fds l) as Hbl by (rewrite Hperm; set_solver).
  destruct (own_open _ _ _ Hok p _ b Hp' Hbl) as [Hbf Hbe]. split_and!; [exact Hbf|done|].
  intros p' l'. cbn [w_layers set_w_layers]. rewrite lookup_insert_Some.
  intros [[<- <-]|[Hne Hl']] Hin.
  - pose proof (own_nodup _ _ _ Hok p _ Hp') as Hnd. rewrite Hperm in Hnd.
    apply NoDup_cons in Hnd as [Hnd _]. apply Hnd, elem_of_app. left. exact Hin.
  - apply Hne. eapply (own_once _ _ _ Hok p p'); [exact Hp'|by rewrite lookup_fmap Hl'|done|done].
Qed.

Lemma release_fence_dropped_witness :
  let w := set_w_nextptr 3 (set_w_layers
             (<[2 := set_l_releaseFences_ [9; 10] (HdiLayer_new LAYER_TYPE_GRAPHIC)]>
                (w_layers demo_world)) (set_fds {[0; 1; 2; 7; 8; 9; 10]} demo_world)) in
  ∃ w', GetDisplayReleaseFence true true true
          (mkHdiDisplay 0 {[0 := 2]} [2] (Some 1) [] (Some (mkHdiComposer [Base] [Base]))) w
        = Some (DISPLAY_SUCCESS, 1, ([0], [9]), w') ∧ 10 ∈ fds w' ∧
        ∀ p' l', w_layers w' !! p' = Some l' → 10 ∉ layer_fds l'.
Proof.
  intros w.
  assert (fd_ok {[0; 1; 2; 7; 8]} w) as Hok.
  { unfold fd_ok, w. cbn [w_layers set_w_layers set_w_nextptr fds w_kern]. rewrite fmap_insert.
    apply (own_update _ _ {[0; 1; 2; 7; 8]} 2 []).
    - exact (res_fds _ _ _ _ demo_res_ok).
    - by right.
    - apply (bool_decide_unpack _). by vm_compute.
    - intros x. change (layer_fds _) with [9; 10]. set_solver by lia.
    - intros x. change (layer_fds _) with [9; 10]. set_solver by lia. }
  destruct (release_fence_dropped {[0; 1; 2; 7; 8]}
    (mkHdiDisplay 0 {[0 := 2]} [2] (Some 1) [] (Some (mkHdiComposer [Base] [Base]))) w 2
    (set_l_releaseFences_ [9; 10] (HdiLayer_new LAYER_TYPE_GRAPHIC)) 9 10 [] Hok)
    as (w' & H1 & H2 & _ & H3); [reflexivity|reflexivity|reflexivity|discriminate|].
  exists w'. exact (conj H1 (conj H2 H3)).
Defined.
