(* ===== verification/Composition.v ===== *)
(** * Compositions (composer/hdi_gfx_composition.{h,cpp}, composer/hdi_video_composition.{h,cpp})

    [HdiGfxComposition] decides which layers the 2D accelerator draws into the client
    buffer and draws them; [HdiVideoComposition] forwards video layers to a separate
    output.  The accelerator ([GfxFuncs]), the video output ([LayerFuncs]) and the
    dynamic loader are not part of the repository: what they answer is an argument or
    a function of the state.  Both are instances of the interface of HdiDisplay.v. *)

From S2P Require Import Prelude Gralloc DispWorld HdiLayer HdiDisplay.
Set Warnings "-rewrite-rw,-clear-no-such-hyp".

(** ** The 2D accelerator *)

Record ISurface := mkISurface {
  sf_width : Z; sf_height : Z; sf_phyAddr : Z; sf_enColorFmt : PixelFormat; sf_stride : Z;
  sf_bAlphaExt1555 : bool; sf_bAlphaMax255 : bool; sf_alpha0 : Z; sf_alpha1 : Z }.
Record GfxOpt := mkGfxOpt {
  opt_blendType : Z; opt_enPixelAlpha : bool; opt_enableScale : bool; opt_enGlobalAlpha : bool;
  opt_rotateType : Z }.
(** The accelerator's functions, by the results they give. *)
Record GfxFuncs := mkGfxFuncs {
  gfx_InitGfx : DispError;
  gfx_Blit : ISurface → IRect → ISurface → IRect → GfxOpt → DispError;
  gfx_FillRect : ISurface → IRect → Z → DispError;
}.

(** A [dlopen] handle: null, open, or closed while the pointer is kept. *)
Inductive ModuleHandle := ModNull | ModOpen | ModClosed.
(** What the loader answers to [GfxModuleInit]: whether the library is loaded
    already, whether it can be loaded, and the init function with its result. *)
Record LoaderAnswers := mkLoaderAnswers {
  ld_loaded : bool; ld_loads : bool; ld_init : option (DispError * option GfxFuncs) }.

Record HdiGfxComposition := mkHdiGfxComposition {
  gc_mGfxModule : ModuleHandle;
  gc_mGfxFuncs : option GfxFuncs;
  gc_valid_ : bool;
  gc_mCompLayers : list Z;
  gc_mClientLayer : option Z;
}.
Definition HdiGfxComposition_new : HdiGfxComposition :=
  mkHdiGfxComposition ModNull None false [] None.

Definition GfxModuleInit (ld : LoaderAnswers) (c : HdiGfxComposition)
    : DispError * HdiGfxComposition :=
  let with_module m f := mkHdiGfxComposition m f (gc_valid_ c) (gc_mCompLayers c)
                           (gc_mClientLayer c) in
  if negb (ld_loaded ld) && negb (ld_loads ld)
  then (DISPLAY_FAILURE, with_module ModNull (gc_mGfxFuncs c))
  else match ld_init ld with
       | None => (DISPLAY_FAILURE, with_module ModClosed (gc_mGfxFuncs c))
       | Some (ret, funcs) => (ret, with_module ModOpen funcs)
       end.

Definition Gfx_Init (ld : LoaderAnswers) (c : HdiGfxComposition) : DispError * HdiGfxComposition :=
  let '(ret, c) := GfxModuleInit ld c in
  match gc_mGfxFuncs c with
  | None => (DISPLAY_SUCCESS, c)
  | Some f =>
      if bool_decide (ret ≠ DISPLAY_SUCCESS) then (DISPLAY_SUCCESS, c)
      else if bool_decide (gfx_InitGfx f ≠ DISPLAY_SUCCESS) then (DISPLAY_FAILURE, c)
      else (DISPLAY_SUCCESS, mkHdiGfxComposition (gc_mGfxModule c) (gc_mGfxFuncs c) true
                               (gc_mCompLayers c) (gc_mClientLayer c))
  end.

(** [GfxModuleDeinit], run by the destructor: the test is for a null handle, so an
    open module is left as it is.  [deinit] is the function [dlsym] finds, by its
    result. *)
Definition GfxModuleDeinit (deinit : option DispError) (c : HdiGfxComposition)
    : DispError * HdiGfxComposition :=
  match gc_mGfxModule c with
  | ModNull => (default DISPLAY_SUCCESS deinit, c)
  | _ => (DISPLAY_SUCCESS, c)
  end.

Definition Gfx_CanHandle (c : HdiGfxComposition) (p : Z) : bool := gc_valid_ c.

(** What [SetLayers] selects for a layer of a given type. *)
Definition device_choice (valid : bool) (t : CompositionType) : CompositionType :=
  if valid then
    match t with
    | COMPOSITION_VIDEO | COMPOSITION_CURSOR => t
    | _ => COMPOSITION_DEVICE
    end
  else COMPOSITION_CLIENT.

Fixpoint gfx_select (c : HdiGfxComposition) (layers : list Z) : D (list Z) :=
  match layers with
  | [] => dret []
  | p :: layers =>
      if Gfx_CanHandle c p then
        let! l := deref p in
        do! (if bool_decide (l_mCompositionType l ≠ COMPOSITION_VIDEO) &&
                bool_decide (l_mCompositionType l ≠ COMPOSITION_CURSOR)
             then SetDeviceSelect p COMPOSITION_DEVICE
             else SetDeviceSelect p (l_mCompositionType l)) in
        let! r := gfx_select c layers in dret (p :: r)
      else
        do! SetDeviceSelect p COMPOSITION_CLIENT in gfx_select c layers
  end.
Definition Gfx_SetLayers (layers : list Z) (client : Z) (c : HdiGfxComposition)
    : D (DispError * HdiGfxComposition) :=
  let! ls := gfx_select c layers in
  dret (DISPLAY_SUCCESS,
        mkHdiGfxComposition (gc_mGfxModule c) (gc_mGfxFuncs c) (gc_valid_ c) ls (Some client)).

Definition InitGfxSurface (b : HdiLayerBuffer) : ISurface :=
  mkISurface (lb_mWidth b) (lb_mHeight b) (GetMemHandle b) (lb_mFormat b) (lb_mStride b)
    true true 0xff 0xff.
Definition set_alpha0 (a : Z) (s : ISurface) : ISurface :=
  mkISurface (sf_width s) (sf_height s) (sf_phyAddr s) (sf_enColorFmt s) (sf_stride s)
    (sf_bAlphaExt1555 s) (sf_bAlphaMax255 s) a (sf_alpha1 s).

Definition BlitLayer (c : HdiGfxComposition) (src dst : HdiLayer) : DispError :=
  match l_mHdiBuffer src with
  | None => DISPLAY_NULL_PTR
  | Some srcBuffer =>
      match l_mHdiBuffer dst with
      | None => DISPLAY_FAILURE
      | Some dstBuffer =>
          let srcSurface := InitGfxSurface srcBuffer in
          let srcSurface := if enGlobalAlpha (l_mAlpha src)
                            then set_alpha0 (gAlpha (l_mAlpha src)) srcSurface else srcSurface in
          let opt := mkGfxOpt (l_mBlendType src) true true (enGlobalAlpha (l_mAlpha src))
                       (l_mTransformType src) in
          match gc_mGfxFuncs c with
          | None => DISPLAY_FAILURE
          | Some f => gfx_Blit f srcSurface (l_mCrop src) (InitGfxSurface dstBuffer)
                        (l_mDisplayRect src) opt
          end
      end
  end.
Definition ClearRect (c : HdiGfxComposition) (src dst : HdiLayer) : DispError :=
  match l_mHdiBuffer dst with
  | None => DISPLAY_FAILURE
  | Some dstBuffer =>
      match gc_mGfxFuncs c with
      | None => DISPLAY_FAILURE
      | Some f => gfx_FillRect f (InitGfxSurface dstBuffer) (l_mDisplayRect src) 0
      end
  end.

Fixpoint gfx_apply (c : HdiGfxComposition) (layers : list Z) : D DispError :=
  match layers with
  | [] => dret DISPLAY_SUCCESS
  | p :: layers =>
      let! l := deref p in
      match l_mDeviceSelect l with
      | COMPOSITION_VIDEO | COMPOSITION_DEVICE =>
          let! client := nonnull (gc_mClientLayer c) in
          let! cl := deref client in
          let ret := if bool_decide (l_mDeviceSelect l = COMPOSITION_VIDEO)
                     then ClearRect c l cl else BlitLayer c l cl in
          if bool_decide (ret ≠ DISPLAY_SUCCESS) then dret DISPLAY_FAILURE
          else gfx_apply c layers
      | _ => gfx_apply c layers
      end
  end.
Definition Gfx_Apply (modeSet : bool) (c : HdiGfxComposition) : D (DispError * HdiGfxComposition) :=
  let! ret := gfx_apply c (gc_mCompLayers c) in dret (ret, c).

#[export] Instance gfx_composition : HdiComposition HdiGfxComposition := {
  comp_SetLayers := Gfx_SetLayers;
  comp_Apply := Gfx_Apply;
}.

Lemma gfx_choice l c p :
  (if Gfx_CanHandle c p
   then if bool_decide (l_mCompositionType l ≠ COMPOSITION_VIDEO) &&
           bool_decide (l_mCompositionType l ≠ COMPOSITION_CURSOR)
        then COMPOSITION_DEVICE else l_mCompositionType l
   else COMPOSITION_CLIENT) = device_choice (gc_valid_ c) (l_mCompositionType l).
Proof.
  unfold Gfx_CanHandle, device_choice. destruct (gc_valid_ c); [|done].
  by destruct (l_mCompositionType l).
Qed.

(** [SetLayers] records the choice for every layer and touches nothing else. *)
Lemma wp_gfx_select c layers w :
  Forall (live w) layers → NoDup layers →
  wp (gfx_select c layers)
    (λ _ w', steady w w' ∧ ∀ p l, w_layers w !! p = Some l →
       w_layers w' !! p = Some (if decide (p ∈ layers)
         then set_l_mDeviceSelect (device_choice (gc_valid_ c) (l_mCompositionType l)) l else l)) w.
Proof.
  revert w. induction layers as [|p layers IH]; intros w Hl Hnd; cbn [gfx_select].
  { apply wp_ret. split; [reflexivity|]. intros p l Hp. case_decide; [set_solver|done]. }
  apply Forall_cons in Hl as [[l Hp] Hls]. apply NoDup_cons in Hnd as [Hpls Hnd].
  pose proof (gfx_choice l c p) as Hch.
  assert (∀ t (m : D (list Z)), t = device_choice (gc_valid_ c) (l_mCompositionType l) →
    (∀ w1 Q, wp (gfx_select c layers) (λ _, Q) w1 → wp m (λ _, Q) w1) →
    wp (do! SetDeviceSelect p t in m)
      (λ _ w', steady w w' ∧ ∀ q lq, w_layers w !! q = Some lq →
         w_layers w' !! q = Some (if decide (q ∈ p :: layers)
           then set_l_mDeviceSelect (device_choice (gc_valid_ c) (l_mCompositionType lq)) lq
           else lq)) w) as Hstep.
  { intros t m -> Hm. eapply wp_bind, wp_update; [done|]. apply Hm. set (w1 := set_w_layers _ _).
    assert (steady w w1) as Hst.
    { eapply (steady_update p _ (inert_device_select _) w tt). unfold update. by rewrite Hp. }
    eapply wp_mono; [apply IH; [|done]|].
    { eapply Forall_impl; [done|]. intros q. apply shape_live, Hst. }
    cbn beta. intros _ w' [Hs Hw']. split; [by etrans|]. intros q lq Hq.
    destruct (decide (q = p)) as [->|Hqp].
    - rewrite decide_True; [|set_solver]. assert (lq = l) as -> by congruence.
      rewrite (Hw' p (set_l_mDeviceSelect (device_choice (gc_valid_ c) (l_mCompositionType l)) l)).
      + by rewrite decide_False.
      + unfold w1. cbn [w_layers set_w_layers]. by rewrite lookup_insert_eq.
    - rewrite (Hw' q lq); [f_equal; apply decide_ext; set_solver|].
      unfold w1. cbn [w_layers set_w_layers]. by rewrite lookup_insert_ne. }
  destruct (Gfx_CanHandle c p).
  - eapply wp_bind, wp_deref; [done|].
    assert (∀ w1 (Q : World → Prop), wp (gfx_select c layers) (λ _, Q) w1 →
      wp (let! r := gfx_select c layers in dret (p :: r)) (λ _, Q) w1) as Hret.
    { intros w1 Q HQ. apply wp_bind. eapply wp_mono; [exact HQ|]. intros. by apply wp_ret. }
    case_match; by apply Hstep.
  - apply Hstep; [done|]. auto.
Qed.

#[export] Instance gfx_composition_laws : HdiCompositionLaws HdiGfxComposition.
Proof.
  split.
  - intros c layers client w Hl Hc. cbn. unfold Gfx_SetLayers. apply wp_bind.
    enough (wp (gfx_select c layers) (λ _ w', steady w w') w) as H.
    { eapply wp_mono; [exact H|]. cbn beta. intros. by apply wp_ret. }
    clear client Hc. revert w Hl. induction layers as [|p layers IH]; intros w Hl; cbn [gfx_select].
    { by apply wp_ret. }
    apply Forall_cons in Hl as [Hp Hls].
    assert (∀ t (m : D (list Z)), (∀ w1 Q, wp (gfx_select c layers) (λ _, Q) w1 →
              wp m (λ _, Q) w1) →
      wp (do! SetDeviceSelect p t in m) (λ _ w', steady w w') w) as Hstep.
    { intros t m Hm. apply wp_bind.
      eapply wp_mono; [by apply wp_update_steady, inert_device_select|]. cbn beta. intros _ w1 Hs.
      apply Hm. eapply wp_mono; [apply IH|cbn beta; intros; by etrans].
      eapply Forall_impl; [done|]. intros q. apply shape_live, Hs. }
    destruct (Gfx_CanHandle c p).
    + destruct Hp as [l Hp]. eapply wp_bind, wp_deref; [done|].
      assert (∀ w1 (Q : World → Prop), wp (gfx_select c layers) (λ _, Q) w1 →
        wp (let! r := gfx_select c layers in dret (p :: r)) (λ _, Q) w1) as Hret.
      { intros w1 Q HQ. apply wp_bind. eapply wp_mono; [exact HQ|]. intros. by apply wp_ret. }
      case_match; by apply Hstep.
    + apply Hstep. auto.
  - intros c b. cbn. unfold Gfx_Apply. apply keeps_bind; [apply _| |intros; apply keeps_ret, _].
    induction (gc_mCompLayers c) as [|p layers IH]; cbn [gfx_apply]; [apply keeps_ret, _|].
    apply keeps_bind; [apply _|apply keeps_deref, _|]. intros l.
    assert (∀ ret, keeps steady (let! client := nonnull (gc_mClientLayer c) in
      let! cl := deref client in
      if bool_decide (ret cl ≠ DISPLAY_SUCCESS) then dret DISPLAY_FAILURE
      else gfx_apply c layers)) as Hdraw.
    { intros ret. apply keeps_bind; [apply _|unfold nonnull; case_match;
        [apply keeps_ret, _|apply keeps_fault]|]. intros client.
      apply keeps_bind; [apply _|apply keeps_deref, _|]. intros cl.
      apply keeps_if; [apply keeps_ret, _|done]. }
    destruct (l_mDeviceSelect l); try done; apply Hdraw.
Qed.

(** ** Video layers *)

(** The calls made to the video output's [LayerFuncs]. *)
Inductive VoCall :=
| VoCreateLayer (width height : Z) | VoCloseLayer (id : Z) | VoSetLayerSize (id : Z) (rect : IRect)
| VoSetLayerCrop (id : Z) (rect : IRect) | VoSetLayerZorder (id z : Z)
| VoSetTransformMode (id mode : Z) | VoSetLayerBuffer (id : Z) (handle : BufferHandle) (fence : Z).

(** [vc_create] is what the output answers to each [CreateLayer]; [vc_log] the calls
    made, oldest first. *)
Record HdiVideoComposition := mkHdiVideoComposition {
  vc_layerMaps_ : gmap Z Z;
  vc_layerFuncs_ : bool;
  vc_videoModule_ : ModuleHandle;
  vc_mCompLayers : list Z;
  vc_create : nat → DispError * Z;
  vc_log : list VoCall;
}.

Definition vc_with (m : gmap Z Z) (log : list VoCall) (c : HdiVideoComposition) : HdiVideoComposition :=
  mkHdiVideoComposition m (vc_layerFuncs_ c) (vc_videoModule_ c) (vc_mCompLayers c) (vc_create c) log.
Definition vc_call (x : VoCall) (c : HdiVideoComposition) : HdiVideoComposition :=
  vc_with (vc_layerMaps_ c) (vc_log c ++ [x]) c.
Definition vc_with_comp (ls : list Z) (c : HdiVideoComposition) : HdiVideoComposition :=
  mkHdiVideoComposition (vc_layerMaps_ c) (vc_layerFuncs_ c) (vc_videoModule_ c) ls (vc_create c)
    (vc_log c).

(** [ld_init] is read as the init function's result and whether it gave a table. *)
Definition VideoModuleInit (ld : LoaderAnswers) (c : HdiVideoComposition)
    : DispError * HdiVideoComposition :=
  let with_module m f := mkHdiVideoComposition (vc_layerMaps_ c) f m (vc_mCompLayers c)
                           (vc_create c) (vc_log c) in
  if negb (ld_loaded ld) && negb (ld_loads ld)
  then (DISPLAY_FAILURE, with_module ModNull (vc_layerFuncs_ c))
  else match ld_init ld with
       | None => (DISPLAY_FAILURE, with_module ModNull (vc_layerFuncs_ c))
       | Some (ret, funcs) => (ret, with_module ModOpen (bool_decide (is_Some funcs)))
       end.
Definition Video_Init (ld : LoaderAnswers) (c : HdiVideoComposition) : DispError * HdiVideoComposition :=
  let '(ret, c) := VideoModuleInit ld c in
  if bool_decide (ret ≠ DISPLAY_SUCCESS) || negb (vc_layerFuncs_ c) then (DISPLAY_FAILURE, c)
  else (DISPLAY_SUCCESS, c).

(** The number of layers created so far selects the answer. *)
Definition vo_creates (log : list VoCall) : nat :=
  length (filter (λ x, match x with VoCreateLayer _ _ => true | _ => false end = true) log).
Definition CreateVideoLayerForHdiLayer (l : HdiLayer) (c : HdiVideoComposition)
    : Z * HdiVideoComposition :=
  let '(ret, id) := vc_create c (vo_creates (vc_log c)) in
  let c := vc_call (VoCreateLayer (rect_w (l_mDisplayRect l)) (rect_h (l_mDisplayRect l))) c in
  if bool_decide (ret ≠ DISPLAY_SUCCESS) || (id =? INVALIDE_LAYER_ID) then (INVALIDE_LAYER_ID, c)
  else (id, vc_with (<[l_mId l := id]> (vc_layerMaps_ c)) (vc_log c) c).
Definition GetVoLayerId (l : HdiLayer) (c : HdiVideoComposition) : Z :=
  default INVALIDE_LAYER_ID (vc_layerMaps_ c !! l_mId l).

Definition Video_CanHandle (l : HdiLayer) : bool :=
  if bool_decide (l_mType l = LAYER_TYPE_SIDEBAND) then false
  else match l_mHdiBuffer l with
       | None => false
       | Some b =>
           match lb_mFormat b with
           | PIXEL_FMT_YUV_422_I | PIXEL_FMT_YCBCR_422_SP | PIXEL_FMT_YCRCB_422_SP
           | PIXEL_FMT_YCBCR_420_SP | PIXEL_FMT_YCRCB_420_SP | PIXEL_FMT_YCBCR_422_P
           | PIXEL_FMT_YCRCB_422_P | PIXEL_FMT_YCBCR_420_P | PIXEL_FMT_YCRCB_420_P
           | PIXEL_FMT_YUYV_422_PKG | PIXEL_FMT_UYVY_422_PKG | PIXEL_FMT_YVYU_422_PKG
           | PIXEL_FMT_VYUY_422_PKG => true
           | _ => false
           end
       end.

Section HdiVideoComposition.
(** The iteration order of [std::unordered_map]. *)
Context (hash_order : gmap Z Z → list (Z * Z)).

(** The outer loop of [CLoseUnUsedLayer] breaks after the first unused layer. *)
Fixpoint first_unused (ids : list Z) (entries : list (Z * Z)) : option (Z * Z) :=
  match entries with
  | [] => None
  | e :: entries => if bool_decide (e.1 ∈ ids) then first_unused ids entries else Some e
  end.
Definition CLoseUnUsedLayer (ids : list Z) (c : HdiVideoComposition) : HdiVideoComposition :=
  match first_unused ids (hash_order (vc_layerMaps_ c)) with
  | None => c
  | Some (id, vo) =>
      let c := vc_call (VoCloseLayer vo) c in
      vc_with (delete id (vc_layerMaps_ c)) (vc_log c) c
  end.

Fixpoint matched_layers (layers : list Z) : D (list (Z * HdiLayer)) :=
  match layers with
  | [] => dret []
  | p :: layers =>
      let! l := deref p in
      let! r := matched_layers layers in
      dret (if Video_CanHandle l then (p, l) :: r else r)
  end.
Fixpoint video_assign (matched : list (Z * HdiLayer)) (c : HdiVideoComposition)
    : D HdiVideoComposition :=
  match matched with
  | [] => dret c
  | (p, l) :: matched =>
      let '(id, c) := if GetVoLayerId l c =? INVALIDE_LAYER_ID
                      then CreateVideoLayerForHdiLayer l c else (GetVoLayerId l c, c) in
      if id =? INVALIDE_LAYER_ID then video_assign matched c
      else
        do! SetLayerCompositionType p COMPOSITION_VIDEO in
        video_assign matched (vc_with_comp (vc_mCompLayers c ++ [p]) c)
  end.
Definition Video_SetLayers (layers : list Z) (client : Z) (c : HdiVideoComposition)
    : D (DispError * HdiVideoComposition) :=
  let! matched := matched_layers layers in
  let c := CLoseUnUsedLayer (l_mId ∘ snd <$> matched) (vc_with_comp [] c) in
  let! c := video_assign matched c in dret (DISPLAY_SUCCESS, c).

Fixpoint video_apply (layers : list Z) (c : HdiVideoComposition) : D HdiVideoComposition :=
  match layers with
  | [] => dret c
  | p :: layers =>
      let! l := deref p in
      let id := GetVoLayerId l c in
      let c := vc_call (VoSetLayerSize id (l_mDisplayRect l)) c in
      let c := vc_call (VoSetLayerCrop id (l_mCrop l)) c in
      let c := vc_call (VoSetLayerZorder id (l_mZorder l)) c in
      let c := vc_call (VoSetTransformMode id (l_mTransformType l)) c in
      let! b := nonnull (l_mHdiBuffer l) in
      let c := vc_call (VoSetLayerBuffer id (lb_mHandle b) (l_mAcquireFence l)) c in
      do! SetReleaseFence p (-1) in
      video_apply layers c
  end.
Definition Video_Apply (modeSet : bool) (c : HdiVideoComposition)
    : D (DispError * HdiVideoComposition) :=
  let! c := video_apply (vc_mCompLayers c) c in dret (DISPLAY_SUCCESS, c).

(** *** The interface's laws hold for video layers too *)

#[local] Instance video_composition : HdiComposition HdiVideoComposition := {
  comp_SetLayers := Video_SetLayers;
  comp_Apply := Video_Apply;
}.

Lemma matched_layers_spec layers w :
  Forall (live w) layers →
  ∃ ms, matched_layers layers w = Some (ms, w) ∧ Forall (λ m, live w m.1) ms.
Proof.
  induction 1 as [|p layers [l Hp] _ IH]; [by exists []|]. cbn. unfold dbind, deref. rewrite Hp.
  destruct IH as (ms & -> & Hms). eexists. split; [done|].
  destruct (Video_CanHandle l); [|done]. constructor; [by exists l|done].
Qed.

Lemma wp_video_assign ms c w :
  Forall (λ m, live w m.1) ms → wp (video_assign ms c) (λ _ w', steady w w') w.
Proof.
  revert c w. induction ms as [|[p l] ms IH]; intros c w Hl; cbn [video_assign]; [by apply wp_ret|].
  apply Forall_cons in Hl as [Hp Hms]. destruct (if _ =? _ then _ else _) as [id c'].
  apply wp_if; intros _; [by apply IH|]. unfold SetLayerCompositionType. apply wp_bind, wp_bind.
  eapply wp_mono; [by apply wp_update_steady, inert_composition_type|]. cbn beta. intros _ w1 Hs.
  apply wp_ret. eapply wp_mono; [apply IH|cbn beta; intros; by etrans].
  eapply Forall_impl; [done|]. intros m. apply shape_live, Hs.
Qed.

Lemma inert_push_nofence : inert (λ l, set_l_releaseFences_ (l_releaseFences_ l ++ [-1]) l).
Proof.
  intros l. split_and!; [done| |done]. unfold layer_fds.
  cbn [l_mAcquireFence l_mHdiBuffer l_releaseFences_ set_l_releaseFences_].
  rewrite bind_app. cbn. by rewrite app_nil_r.
Qed.

Lemma video_composition_laws : HdiCompositionLaws HdiVideoComposition.
Proof.
  split.
  - intros c layers client w Hl _. cbn. unfold Video_SetLayers.
    destruct (matched_layers_spec layers w Hl) as (ms & Hm & Hms).
    eapply wp_step; [exact Hm|]. apply wp_bind.
    eapply wp_mono; [by apply wp_video_assign|]. cbn beta. intros. by apply wp_ret.
  - intros c b. cbn. unfold Video_Apply. apply keeps_bind; [apply _| |intros; apply keeps_ret, _].
    generalize (vc_mCompLayers c). intros layers. revert c.
    induction layers as [|p layers IH]; intros c; cbn [video_apply]; [apply keeps_ret, _|].
    apply keeps_bind; [apply _|apply keeps_deref, _|]. intros l.
    apply keeps_bind; [apply _|unfold nonnull; case_match; [apply keeps_ret, _|apply keeps_fault]|].
    intros bf. apply keeps_bind; [apply _|apply steady_update, inert_push_nofence|]. intros _. apply IH.
Qed.

(** *** Unused video layers *)

Lemma first_unused_spec ids entries e :
  first_unused ids entries = Some e → e ∈ entries ∧ (e.1 ∉ ids).
Proof.
  induction entries as [|e' es IH]; [done|]. simpl. case_bool_decide; [set_solver|].
  intros [= <-]. set_solver.
Qed.
Lemma first_unused_None ids entries :
  first_unused ids entries = None → ∀ e, e ∈ entries → e.1 ∈ ids.
Proof.
  induction entries as [|e' es IH]; [set_solver|]. simpl. case_bool_decide; [|done]. set_solver.
Qed.

End HdiVideoComposition.

(** Only one stale video layer is closed per frame.  Whatever the iteration order
    of the map, [CLoseUnUsedLayer] closes exactly one output layer when any is
    unused, and none otherwise: with two or more unused ones, all but one stay open
    and stay in the map. *)
Theorem one_video_layer_closed (hash_order : gmap Z Z → list (Z * Z)) ids c :
  (∀ m, hash_order m ≡ₚ map_to_list m) →
  let unused := filter (λ e : Z * Z, e.1 ∉ ids) (vc_layerMaps_ c) in
  let c' := CLoseUnUsedLayer hash_order ids c in
  size (filter (λ e : Z * Z, e.1 ∉ ids) (vc_layerMaps_ c')) = (size unused - 1)%nat ∧
  (∀ id, id ∈ ids → vc_layerMaps_ c' !! id = vc_layerMaps_ c !! id) ∧
  (unused = ∅ → c' = c) ∧
  (unused ≠ ∅ → ∃ id vo, vc_layerMaps_ c !! id = Some vo ∧ (id ∉ ids) ∧
     vc_log c' = vc_log c ++ [VoCloseLayer vo] ∧ vc_layerMaps_ c' = delete id (vc_layerMaps_ c)).
Proof.
  intros Hperm unused c'. unfold c', CLoseUnUsedLayer.
  destruct (first_unused ids (hash_order (vc_layerMaps_ c))) as [[id vo]|] eqn:E.
  - apply first_unused_spec in E as [Hin Hid]. rewrite Hperm elem_of_map_to_list in Hin. simpl in Hid.
    assert (unused !! id = Some vo) as Hu by (by apply map_lookup_filter_Some).
    cbn [vc_layerMaps_ vc_with vc_call vc_log]. split_and!.
    + rewrite map_filter_delete. fold unused. rewrite map_size_delete Hu. cbn. lia.
    + intros id' Hid'. rewrite lookup_delete_ne; [done|]. by intros ->.
    + intros Hempty. by rewrite Hempty lookup_empty in Hu.
    + intros _. by exists id, vo.
  - assert (unused = ∅) as Hu.
    { apply map_empty. intros id. apply eq_None_not_Some. intros [vo Hvo].
      apply map_lookup_filter_Some in Hvo as [Hvo Hid]. apply Hid.
      apply (first_unused_None ids _ E (id, vo)). by rewrite Hperm elem_of_map_to_list. }
    split_and!; [|done|done|done]. fold unused. by rewrite Hu.
Qed.

Lemma one_video_layer_closed_witness :
  let c := mkHdiVideoComposition {[1 := 11; 2 := 12; 3 := 13]} true ModOpen []
             (λ _, (DISPLAY_SUCCESS, 0)) [] in
  size (filter (λ e : Z * Z, e.1 ∉ [2]) (vc_layerMaps_ (CLoseUnUsedLayer map_to_list [2] c))) = 1%nat.
Proof.
  intros c. refine (eq_trans (proj1 (one_video_layer_closed map_to_list [2] c
    (λ m, Permutation_refl (map_to_list m)))) _).
  reflexivity.
Defined.
