(* ===== verification/Drm.v ===== *)
(** * DRM objects (drm/drm_crtc, drm_plane, drm_encoder, drm_connector, drm_device)

    The display device's CRTCs, planes, encoders and connectors: how they are read
    from the driver, how a connector finds a CRTC, how planes are handed out, and the
    modes of a connector.  What the driver reports is data: the property tables of its
    objects ([props]) and its resource lists.  The iteration order of the
    [unordered_map]s is the variable [hash_order]. *)

From S2P Require Import Prelude Gralloc DispWorld HdiLayer.
Set Warnings "-rewrite-rw,-clear-no-such-hyp".

(** xf86drmMode.h / drm_mode.h. *)
Definition DRM_PLANE_TYPE_OVERLAY : Z := 0.
Definition DRM_PLANE_TYPE_PRIMARY : Z := 1.
Definition DRM_PLANE_TYPE_CURSOR : Z := 2.
Definition DRM_MODE_TYPE_PREFERRED : Z := 8.
Inductive ObjectType := DRM_MODE_OBJECT_CRTC | DRM_MODE_OBJECT_CONNECTOR | DRM_MODE_OBJECT_PLANE.

Record DrmProperty := mkDrmProperty { prop_propId : Z; prop_value : Z }.

(** The property table of an object: [None] when the driver refuses it; each entry is
    the property's id and name ([None] if [drmModeGetProperty] fails) and its value. *)
Abbreviation PropTable := (option (list (option (Z * string) * Z))).

(** The loop of [GetProperty]: the last property of that name wins; the result is
    [None] where the code reads through a null pointer. *)
Fixpoint prop_loop (name : string) (found : bool) (prop : DrmProperty)
    (tbl : list (option (Z * string) * Z)) : option (bool * DrmProperty) :=
  match tbl with
  | [] => Some (found, prop)
  | (None, _) :: _ => None
  | (Some (id, n), v) :: tbl =>
      if bool_decide (n = name) then prop_loop name true (mkDrmProperty id v) tbl
      else prop_loop name found prop tbl
  end.
Definition GetProperty (tbl : PropTable) (name : string) (prop : DrmProperty)
    : option (DispError * DrmProperty) :=
  match tbl with
  | None => Some (DISPLAY_FAILURE, prop)
  | Some tbl =>
      match prop_loop name false prop tbl with
      | None => None
      | Some (found, prop) => Some (if found then DISPLAY_SUCCESS else DISPLAY_NOT_SUPPORT, prop)
      end
  end.

Section Drm.
(** The driver's property tables, and what an uninitialised [DrmProperty] holds. *)
Context (props : Z → ObjectType → PropTable) (garbage : DrmProperty).
Context (hash_order : ∀ A, gmap Z A → list (Z * A)).

(** ** CRTCs *)

Definition DrmCrtc_make (id pipe : Z) : DrmCrtc :=
  mkDrmCrtc id 0 0 0 INVALIDE_DISPLAY_ID pipe INVALID_MODE_ID false.
Definition Crtc_Init (c : DrmCrtc) : option (DispError * DrmCrtc) :=
  let tbl := props (crtc_mId c) DRM_MODE_OBJECT_CRTC in
  '(ret, prop) ← GetProperty tbl "MODE_ID" garbage;
  let c := mkDrmCrtc (crtc_mId c) (prop_propId prop) (crtc_mOutFencePropId c)
             (crtc_mActivePropId c) (crtc_mDisplayId c) (crtc_mPipe c) (crtc_mActiveModeId c)
             (crtc_mNeedModeSet c) in
  if bool_decide (ret ≠ DISPLAY_SUCCESS) then Some (DISPLAY_FAILURE, c)
  else
    '(ret, prop) ← GetProperty tbl "OUT_FENCE_PTR" prop;
    if bool_decide (ret ≠ DISPLAY_SUCCESS) then Some (DISPLAY_FAILURE, c)
    else
      let outFence := prop_propId prop in
      '(ret, prop) ← GetProperty tbl "ACTIVE" prop;
      let c' active := mkDrmCrtc (crtc_mId c) (crtc_mModePropId c) outFence active
                         (crtc_mDisplayId c) (crtc_mPipe c) (crtc_mActiveModeId c)
                         (crtc_mNeedModeSet c) in
      if bool_decide (ret ≠ DISPLAY_SUCCESS) then Some (DISPLAY_FAILURE, c' (crtc_mActivePropId c))
      else Some (DISPLAY_SUCCESS, c' (prop_propId prop)).

Definition BindToDisplay (id : Z) (c : DrmCrtc) : DispError * DrmCrtc :=
  if negb (crtc_mDisplayId c =? INVALIDE_DISPLAY_ID) then (DISPLAY_FAILURE, c)
  else (DISPLAY_SUCCESS, set_crtc_mDisplayId id c).
Definition UnBindDisplay (id : Z) (c : DrmCrtc) : DrmCrtc :=
  if crtc_mDisplayId c =? id then set_crtc_mDisplayId INVALIDE_DISPLAY_ID c else c.
Definition CanBind (c : DrmCrtc) : bool := crtc_mDisplayId c =? INVALIDE_DISPLAY_ID.
(** The mode id is an [int32_t]. *)
Definition SetActivieMode (id : Z) (c : DrmCrtc) : DispError * DrmCrtc :=
  if 0 <? id then (DISPLAY_PARAM_ERR, c)
  else
    let c := if negb (crtc_mActiveModeId c =? id) then set_crtc_mNeedModeSet true c else c in
    (DISPLAY_SUCCESS, set_crtc_mActiveModeId id c).

(** ** Planes *)

Definition DrmPlane_make (id possibleCrtcs : Z) (formats : list Z) : DrmPlane :=
  mkDrmPlane id possibleCrtcs 0 0 0 0 0 formats.
Definition Plane_Init (p : DrmPlane) : option (DispError * DrmPlane) :=
  let tbl := props (pl_mId p) DRM_MODE_OBJECT_PLANE in
  let mk fb fence crtc type := mkDrmPlane (pl_mId p) (pl_mPossibleCrtcs p) fb fence crtc
                                 (pl_mPipe p) type (pl_mFormats p) in
  '(ret, prop) ← GetProperty tbl "FB_ID" garbage;
  let fb := prop_propId prop in
  if bool_decide (ret ≠ DISPLAY_SUCCESS)
  then Some (DISPLAY_FAILURE, mk fb (pl_mPropFenceInId p) (pl_mPropCrtcId p) (pl_mType p))
  else
    '(ret, prop) ← GetProperty tbl "IN_FENCE_FD" prop;
    if bool_decide (ret ≠ DISPLAY_SUCCESS)
    then Some (DISPLAY_FAILURE, mk fb (pl_mPropFenceInId p) (pl_mPropCrtcId p) (pl_mType p))
    else
      let fence := prop_propId prop in
      '(ret, prop) ← GetProperty tbl "CRTC_ID" prop;
      if bool_decide (ret ≠ DISPLAY_SUCCESS)
      then Some (DISPLAY_FAILURE, mk fb fence (pl_mPropCrtcId p) (pl_mType p))
      else
        let crtc := prop_propId prop in
        '(ret, prop) ← GetProperty tbl "type" prop;
        if bool_decide (ret ≠ DISPLAY_SUCCESS)
        then Some (DISPLAY_FAILURE, mk fb fence crtc (pl_mType p))
        else
          let v := prop_value prop in
          if (v =? DRM_PLANE_TYPE_OVERLAY) || (v =? DRM_PLANE_TYPE_PRIMARY)
             || (v =? DRM_PLANE_TYPE_CURSOR)
          then Some (DISPLAY_SUCCESS, mk fb fence crtc (u32 v))
          else Some (DISPLAY_FAILURE, mk fb fence crtc (pl_mType p)).
Definition BindToPipe (pipe : Z) (p : DrmPlane) : DrmPlane := set_pl_mPipe pipe p.
Definition UnBindPipe (p : DrmPlane) : DrmPlane := set_pl_mPipe 0 p.
Definition IsIdle (p : DrmPlane) : bool := pl_mPipe p =? 0.

(** [(1 << pipe) & possible]. *)
Definition pipe_allowed (pipe possible : Z) : bool :=
  negb (Z.land (Z.shiftl 1 pipe) possible =? 0).

(** [DrmDevice::GetDrmPlane]: the planes handed out, by their index in [mPlanes]. *)
Fixpoint take_planes (pipe type : Z) (i : nat) (planes : list DrmPlane)
    : list nat * list DrmPlane :=
  match planes with
  | [] => ([], [])
  | p :: planes =>
      let '(taken, planes) := take_planes pipe type (S i) planes in
      if IsIdle p && pipe_allowed pipe (pl_mPossibleCrtcs p) && (type =? pl_mType p)
      then (i :: taken, BindToPipe pipe p :: planes)
      else (taken, p :: planes)
  end.
Definition GetDrmPlane (pipe type : Z) : D (list nat) := λ w,
  let '(taken, planes) := take_planes pipe type 0 (w_planes w) in
  Some (taken, set_w_planes planes w).

(** ** Encoders *)

(** The scan for another CRTC: the last one in iteration order that can be bound. *)
Definition pick_possible (possible : Z) (crtcs : list (Z * DrmCrtc)) : option DrmCrtc :=
  foldl (λ found e, if CanBind e.2 && pipe_allowed (crtc_mPipe e.2) possible
                    then Some e.2 else found) None crtcs.
Definition Encoder_PickIdleCrtcId (crtcs : gmap Z DrmCrtc) (e : DrmEncoder) : option Z :=
  let first := match crtcs !! enc_mCrtcId e with
               | Some c => Some c
               | None => snd <$> head (hash_order _ crtcs)
               end in
  match first with
  | None => None
  | Some crtc =>
      let crtc := if CanBind crtc then Some crtc
                  else pick_possible (enc_mPossibleCrtcs e) (hash_order _ crtcs) in
      crtc_mId <$> crtc
  end.

(** ** Connectors *)

(** [drmModeConnector]: what the driver reports. *)
Record ConnectorRes := mkConnectorRes {
  cr_connector_id : Z; cr_connector_type : Z; cr_mmWidth : Z; cr_mmHeight : Z;
  cr_encoder_id : Z; cr_connection : Connection; cr_encoders : list Z; cr_modes : list ModeInfo }.

Definition ConvertToHdiType (type : Z) : InterfaceType :=
  if type =? 1 then DISP_INTF_VGA            (* DRM_MODE_CONNECTOR_VGA *)
  else if type =? 16 then DISP_INTF_MIPI     (* DRM_MODE_CONNECTOR_DSI *)
  else if (type =? 11) || (type =? 12) then DISP_INTF_HDMI   (* HDMIA, HDMIB *)
  else DISP_INTF_BUTT.
Definition ConvertTypeToName (type : InterfaceType) : string :=
  match type with
  | DISP_INTF_VGA => "VGA" | DISP_INTF_HDMI => "HDMI" | DISP_INTF_MIPI => "MIPI"
  | DISP_INTF_BUTT => "Unknown"
  end.

Fixpoint modes_loop (i : Z) (modes : list ModeInfo) (pref : Z) (m : gmap Z DrmMode)
    : Z * gmap Z DrmMode :=
  match modes with
  | [] => (pref, m)
  | mode :: modes =>
      let pref := if (pref =? INVALID_MODE_ID) &&
                     negb (Z.land (mi_type mode) DRM_MODE_TYPE_PREFERRED =? 0)
                  then i else pref in
      modes_loop (i + 1) modes pref (<[i := mkDrmMode mode i]> m)
  end.
Definition InitModes (modes : list ModeInfo) (c : DrmConnector) : DrmConnector :=
  let '(pref, m) := modes_loop 0 modes INVALID_MODE_ID ∅ in
  set_conn_mPreferenceId pref (set_conn_mModes m c).

Definition DrmConnector_make (c : ConnectorRes) : DrmConnector :=
  let type := ConvertToHdiType (cr_connector_type c) in
  InitModes (cr_modes c)
    (mkDrmConnector (cr_connector_id c) type (cr_mmWidth c) (cr_mmHeight c) (cr_encoder_id c)
       (cr_encoders c) (ConvertTypeToName type) (cr_connection c) DRM_INVALID_ID 0 DRM_INVALID_ID
       DRM_INVALID_ID 0 ∅ INVALID_MODE_ID).

(** [fd] is [mDrmFdPtr]'s descriptor, [None] for a null pointer. *)
Definition Connector_Init (fd : option Z) (c : DrmConnector) : option (DispError * DrmConnector) :=
  match fd with
  | None => Some (DISPLAY_FAILURE, c)
  | Some fd =>
      if fd =? -1 then Some (DISPLAY_FAILURE, c)
      else
        let tbl := props (conn_mId c) DRM_MODE_OBJECT_CONNECTOR in
        '(ret, prop) ← GetProperty tbl "DPMS" garbage;
        if bool_decide (ret ≠ DISPLAY_SUCCESS) then Some (DISPLAY_FAILURE, c)
        else
          let c := set_conn_mDpmsState (prop_value prop) (set_conn_mPropDpmsId (prop_propId prop) c) in
          '(ret, prop) ← GetProperty tbl "CRTC_ID" prop;
          if bool_decide (ret ≠ DISPLAY_SUCCESS) then Some (DISPLAY_FAILURE, c)
          else
            let c := set_conn_mPropCrtcId (prop_propId prop) c in
            '(ret, prop) ← GetProperty tbl "brightness" prop;
            if bool_decide (ret = DISPLAY_SUCCESS)
            then Some (DISPLAY_SUCCESS, set_conn_mBrightnessLevel (u32 (prop_value prop))
                                          (set_conn_mPropBrightnessId (prop_propId prop) c))
            else Some (DISPLAY_SUCCESS, c)
  end.

Definition GetBrightness (c : DrmConnector) : DispError * option Z :=
  if conn_mPropBrightnessId c =? DRM_INVALID_ID then (DISPLAY_NOT_SUPPORT, None)
  else (DISPLAY_SUCCESS, Some (conn_mBrightnessLevel c)).
Definition conn_update (id : Z) (f : DrmConnector → DrmConnector) : D unit :=
  dmod (λ w, set_w_connectors (alter f id (w_connectors w)) w).
Definition SetBrightness (level : Z) (c : DrmConnector) : D DispError :=
  if conn_mPropBrightnessId c =? DRM_INVALID_ID then dret DISPLAY_NOT_SUPPORT
  else
    let! r := drm_call (ConnectorSetProperty (conn_mId c) (conn_mPropBrightnessId c) level) in
    if negb (r.1 =? 0) then dret DISPLAY_FAILURE
    else do! conn_update (conn_mId c) (set_conn_mBrightnessLevel level) in dret DISPLAY_SUCCESS.
Definition SetDpmsState (dpms : Z) (c : DrmConnector) : D DispError :=
  let! r := drm_call (ConnectorSetProperty (conn_mId c) (conn_mPropDpmsId c) dpms) in
  if negb (r.1 =? 0) then dret DISPLAY_FAILURE
  else do! conn_update (conn_mId c) (set_conn_mDpmsState dpms) in dret DISPLAY_SUCCESS.
Definition Connector_IsConnected (c : DrmConnector) : bool :=
  bool_decide (conn_mConnectState c = DRM_MODE_CONNECTED).

Definition TryPickEncoder (encoders : gmap Z DrmEncoder) (encoderId : Z) (crtcs : gmap Z DrmCrtc)
    : option Z :=
  match encoders !! encoderId with
  | None => None
  | Some e => Encoder_PickIdleCrtcId crtcs e
  end.
Fixpoint try_encoders (encoders : gmap Z DrmEncoder) (ids : list Z) (crtcs : gmap Z DrmCrtc)
    : option Z :=
  match ids with
  | [] => None
  | id :: ids =>
      match TryPickEncoder encoders id crtcs with
      | Some crtc => Some crtc
      | None => try_encoders encoders ids crtcs
      end
  end.
Definition PickIdleCrtcId (encoders : gmap Z DrmEncoder) (crtcs : gmap Z DrmCrtc)
    (c : DrmConnector) : option Z :=
  match TryPickEncoder encoders (conn_mEncoderId c) crtcs with
  | Some crtc => Some crtc
  | None => try_encoders encoders (conn_mPossibleEncoders c) crtcs
  end.

(** [answer] is what [drmModeGetConnector] returns. *)
Definition UpdateModes (answer : option ConnectorRes) (c : DrmConnector) : DispError * DrmConnector :=
  match answer with
  | None => (DISPLAY_FAILURE, c)
  | Some r => (DISPLAY_SUCCESS, InitModes (cr_modes r) (set_conn_mConnectState (cr_connection r) c))
  end.

Record DisplayModeInfo := mkDisplayModeInfo {
  dm_width : Z; dm_height : Z; dm_freshRate : Z; dm_id : Z }.
Definition ConvertToHdiMode (m : DrmMode) : DisplayModeInfo :=
  mkDisplayModeInfo (mi_hdisplay (mode_mModeInfo m)) (mi_vdisplay (mode_mModeInfo m))
    (mi_vrefresh (mode_mModeInfo m)) (mode_mId m).
Definition GetDisplaySupportedModes (c : DrmConnector) : DispError * Z * list DisplayModeInfo :=
  (DISPLAY_SUCCESS, Z.of_nat (size (conn_mModes c)),
   ConvertToHdiMode ∘ snd <$> hash_order _ (conn_mModes c)).
Definition GetModeFromId (id : Z) (c : DrmConnector) : option DrmMode := conn_mModes c !! id.

(** [DrmModeBlock]: the blob id, [DRM_INVALID_ID] if there is none. *)
Definition ModeBlock_make : D Z :=
  let! fd := GetDrmFd in
  if fd <? 0 then dret DRM_INVALID_ID
  else
    let! r := drmModeCreatePropertyBlob in
    if negb (r.1 =? 0) then dret DRM_INVALID_ID else dret r.2.
Definition ModeBlock_destroy (blob : Z) : D unit :=
  let! fd := GetDrmFd in
  if negb (blob =? DRM_INVALID_ID) && (0 <=? fd)
  then do! drmModeDestroyPropertyBlob blob in dret tt else dret tt.
Definition GetModeBlockFromId (id : Z) (c : DrmConnector) : D (option Z) :=
  match conn_mModes c !! id with
  | None => dret None
  | Some _ => let! b := ModeBlock_make in dret (Some b)
  end.

(** ** Discovery *)

(** What the driver lists; an entry the driver then refuses is [None]. *)
Record DrmRes := mkDrmRes {
  res_crtcs : list (option Z);
  res_encoders : list (option DrmEncoder);
  res_connectors : list (option ConnectorRes);
  res_planes : option (list (option (Z * Z * list Z)));
}.

(** [emplace] keeps an entry that is there. *)
Definition emplace {A} (k : Z) (a : A) (m : gmap Z A) : gmap Z A :=
  match m !! k with Some _ => m | None => <[k := a]> m end.

Fixpoint find_crtcs (i : Z) (l : list (option Z)) (m : gmap Z DrmCrtc) : option (gmap Z DrmCrtc) :=
  match l with
  | [] => Some m
  | None :: l => find_crtcs (i + 1) l m
  | Some id :: l =>
      '(ret, c) ← Crtc_Init (DrmCrtc_make id i);
      find_crtcs (i + 1) l (if bool_decide (ret ≠ DISPLAY_SUCCESS) then m else emplace id c m)
  end.
Definition FindAllCrtc (res : DrmRes) : option (gmap Z DrmCrtc) := find_crtcs 0 (res_crtcs res) ∅.
Definition FindAllEncoder (res : DrmRes) : gmap Z DrmEncoder :=
  foldl (λ m e, match e with Some e => emplace (enc_mEncoderId e) e m | None => m end)
    ∅ (res_encoders res).
Fixpoint find_connectors (fd : option Z) (l : list (option ConnectorRes)) (m : gmap Z DrmConnector)
    : option (gmap Z DrmConnector) :=
  match l with
  | [] => Some m
  | None :: l => find_connectors fd l m
  | Some r :: l =>
      if bool_decide (cr_connection r ≠ DRM_MODE_CONNECTED) &&
         bool_decide (cr_connection r ≠ DRM_MODE_UNKNOWNCONNECTION)
      then find_connectors fd l m
      else
        '(ret, c) ← Connector_Init fd (DrmConnector_make r);
        find_connectors fd l
          (if bool_decide (ret ≠ DISPLAY_SUCCESS) then m else emplace (conn_mId c) c m)
  end.
Definition FindAllConnector (fd : option Z) (res : DrmRes) : option (gmap Z DrmConnector) :=
  find_connectors fd (res_connectors res) ∅.
Fixpoint find_planes (l : list (option (Z * Z * list Z))) : option (list DrmPlane) :=
  match l with
  | [] => Some []
  | None :: l => find_planes l
  | Some (id, possible, formats) :: l =>
      '(ret, p) ← Plane_Init (DrmPlane_make id possible formats);
      ps ← find_planes l;
      Some (if bool_decide (ret ≠ DISPLAY_SUCCESS) then ps else p :: ps)
  end.
Definition FindAllPlane (res : DrmRes) : option (list DrmPlane) :=
  match res_planes res with None => Some [] | Some l => find_planes l end.

(** The first half of [DiscoveryDisplay]. *)
Definition discover (res : DrmRes) : D unit := λ w,
  match FindAllCrtc res, FindAllConnector (dk_fd (w_drm w)) res, FindAllPlane res with
  | Some crtcs, Some connectors, Some planes =>
      Some (tt, set_w_crtcs crtcs (set_w_encoders (FindAllEncoder res)
                  (set_w_connectors connectors (set_w_planes planes w))))
  | _, _, _ => None
  end.

End Drm.
