(* ===== verification/DrmComposition.v ===== *)
(** * The DRM composition (drm/hdi_drm_composition.{h,cpp})

    [HdiDrmComposition] puts the client layer on the primary plane of its CRTC with
    one atomic request per frame.  It is an instance of the interface of
    HdiDisplay.v; its laws say that it never loses a descriptor, a framebuffer or a
    mode blob, whatever the driver answers. *)

From S2P Require Import Prelude Gralloc DispWorld HdiLayer HdiDisplay Drm.
Set Warnings "-rewrite-rw,-clear-no-such-hyp".

(** [mCrtc] and [mConnector] are the ids of the shared objects, [None] for a null
    pointer; planes are indices into [DrmDevice::mPlanes]. *)
Record HdiDrmComposition := mkHdiDrmComposition {
  dc_mConnector : option Z;
  dc_mCrtc : option Z;
  dc_mPrimPlanes : list nat;
  dc_mOverlayPlanes : list nat;
  dc_mPlanes : list nat;
  dc_mCompLayers : list Z;
}.
Definition HdiDrmComposition_new (connector crtc : Z) : HdiDrmComposition :=
  mkHdiDrmComposition (Some connector) (Some crtc) [] [] [] [].

Definition deref_crtc (id : Z) : D DrmCrtc := λ w,
  match w_crtcs w !! id with Some c => Some (c, w) | None => None end.
Definition deref_connector (id : Z) : D DrmConnector := λ w,
  match w_connectors w !! id with Some c => Some (c, w) | None => None end.
Definition deref_plane (i : nat) : D DrmPlane := λ w,
  match w_planes w !! i with Some p => Some (p, w) | None => None end.

Definition DrmComp_Init (c : HdiDrmComposition) : D (DispError * HdiDrmComposition) :=
  let none := mkHdiDrmComposition (dc_mConnector c) (dc_mCrtc c) [] [] [] (dc_mCompLayers c) in
  match dc_mCrtc c, dc_mConnector c with
  | None, _ | _, None => dret (DISPLAY_FAILURE, none)
  | Some crtcId, Some connId =>
      let! crtc := deref_crtc crtcId in
      let! prim := GetDrmPlane (crtc_mPipe crtc) DRM_PLANE_TYPE_PRIMARY in
      let! overlay := GetDrmPlane (crtc_mPipe crtc) DRM_PLANE_TYPE_OVERLAY in
      match prim with
      | [] => dret (DISPLAY_FAILURE, mkHdiDrmComposition (Some connId) (Some crtcId) prim overlay []
                                       (dc_mCompLayers c))
      | _ => dret (DISPLAY_SUCCESS, mkHdiDrmComposition (Some connId) (Some crtcId) prim overlay
                                      (prim ++ overlay) (dc_mCompLayers c))
      end
  end.

Definition DrmComp_SetLayers (layers : list Z) (client : Z) (c : HdiDrmComposition)
    : D (DispError * HdiDrmComposition) :=
  dret (DISPLAY_SUCCESS, mkHdiDrmComposition (dc_mConnector c) (dc_mCrtc c) (dc_mPrimPlanes c)
                           (dc_mOverlayPlanes c) (dc_mPlanes c) [client]).

(** [ApplyPlane]: the result and the request so far. *)
Definition ApplyPlane (crtcId : Z) (p : Z) (plane : DrmPlane) (req : AtomicReq)
    : D (DispError * AtomicReq) :=
  let! l := deref p in
  let! r := (if negb (pl_mPropFenceInId plane =? 0) && (0 <=? l_mAcquireFence l)
             then drmModeAtomicAddProperty req (pl_mId plane) (pl_mPropFenceInId plane)
                    (l_mAcquireFence l)
             else dret (0, req)) in
  if r.1 <? 0 then dret (DISPLAY_FAILURE, r.2)
  else
    let! g := GetGemBuffer p in
    if negb (gem_IsValid g) then dret (DISPLAY_FAILURE, r.2)
    else
      let! r := drmModeAtomicAddProperty r.2 (pl_mId plane) (pl_mPropFbId plane) (gb_mFdId g) in
      if r.1 <? 0 then dret (DISPLAY_FAILURE, r.2)
      else
        let! r := drmModeAtomicAddProperty r.2 (pl_mId plane) (pl_mPropCrtcId plane) crtcId in
        if r.1 <? 0 then dret (DISPLAY_FAILURE, r.2) else dret (DISPLAY_SUCCESS, r.2).

(** The loop over the layers; a failure ends it, and only it. *)
Fixpoint apply_planes (crtcId : Z) (layers : list Z) (planes : list nat) (req : AtomicReq)
    : D AtomicReq :=
  match layers, planes with
  | p :: layers, i :: planes =>
      let! plane := deref_plane i in
      let! r := ApplyPlane crtcId p plane req in
      if bool_decide (r.1 ≠ DISPLAY_SUCCESS) then dret r.2
      else apply_planes crtcId layers planes r.2
  | _, _ => dret req
  end.

(** [UpdateMode]: the result, the mode block (for the caller to delete) and the
    request. *)
Definition UpdateMode (crtc : DrmCrtc) (conn : DrmConnector) (req : AtomicReq)
    : D (DispError * option Z * AtomicReq) :=
  if negb (crtc_mNeedModeSet crtc) then dret (DISPLAY_SUCCESS, None, req)
  else
    let! block := GetModeBlockFromId (crtc_mActiveModeId crtc) conn in
    match block with
    | None => dret (DISPLAY_SUCCESS, None, req)
    | Some b =>
        if b =? DRM_INVALID_ID then dret (DISPLAY_SUCCESS, Some b, req)
        else
          let! r := drmModeAtomicAddProperty req (crtc_mId crtc) (crtc_mActivePropId crtc) 1 in
          if r.1 <? 0 then dret (DISPLAY_FAILURE, Some b, r.2)
          else
            let! r := drmModeAtomicAddProperty r.2 (crtc_mId crtc) (crtc_mModePropId crtc) b in
            if r.1 <? 0 then dret (DISPLAY_FAILURE, Some b, r.2)
            else
              let! r := drmModeAtomicAddProperty r.2 (conn_mId conn) (conn_mPropCrtcId conn)
                          (crtc_mId crtc) in
              if r.1 <? 0 then dret (DISPLAY_FAILURE, Some b, r.2)
              else dret (DISPLAY_SUCCESS, Some b, r.2)
    end.

Definition delete_block (b : option Z) : D unit :=
  match b with Some b => ModeBlock_destroy b | None => dret tt end.

(** The commit and, if it is granted, the release fences: a duplicate of the
    out-fence for every layer. *)
Definition publish_fences (layers : list Z) (fence : Z) : D unit :=
  do! dfor layers (λ p, let! fd := dup fence in SetReleaseFence p fd) in close fence.
Definition commit_request (layers : list Z) (req : AtomicReq) : D DispError :=
  let! r := drmModeAtomicCommit req in
  if negb (r.1 =? 0) then dret DISPLAY_FAILURE
  else do! publish_fences layers r.2 in dret DISPLAY_SUCCESS.

(** The address of the local [crtcOutFence], where the driver writes the fence. *)
Definition OUT_FENCE_ADDR : Z := 0.

Definition DrmComp_Apply (modeSet : bool) (c : HdiDrmComposition)
    : D (DispError * HdiDrmComposition) :=
  if (length (dc_mPlanes c) <? length (dc_mCompLayers c))%nat then dret (DISPLAY_FAILURE, c)
  else
    let! a := drm_call AtomicAlloc in
    if negb (a.1 =? 0) then dret (DISPLAY_NULL_PTR, c)
    else
      let! crtcId := nonnull (dc_mCrtc c) in
      let! crtc := deref_crtc crtcId in
      let! r := drmModeAtomicAddProperty [] (crtc_mId crtc) (crtc_mOutFencePropId crtc)
                  OUT_FENCE_ADDR in
      if r.1 <? 0 then dret (DISPLAY_FAILURE, c)
      else
        let! req := apply_planes (crtc_mId crtc) (dc_mCompLayers c) (dc_mPlanes c) r.2 in
        let! connId := nonnull (dc_mConnector c) in
        let! conn := deref_connector connId in
        let! u := UpdateMode crtc conn req in
        let! ret := (if bool_decide (u.1.1 ≠ DISPLAY_SUCCESS) then dret DISPLAY_FAILURE
                     else commit_request (dc_mCompLayers c) u.2) in
        do! delete_block u.1.2 in dret (ret, c).

#[export] Instance drm_composition : HdiComposition HdiDrmComposition := {
  comp_SetLayers := DrmComp_SetLayers;
  comp_Apply := DrmComp_Apply;
}.

(** ** What the steps leave alone *)

(** The driver's file never changes. *)
Definition same_fd (w w' : World) : Prop := dk_fd (w_drm w') = dk_fd (w_drm w).
#[export] Instance same_fd_preorder : PreOrder same_fd.
Proof. split; [done|]. unfold same_fd. congruence. Qed.

(** Walks through binds, branches and loops, leaving the primitive steps. *)
Ltac keeps_walk :=
  repeat lazymatch goal with
  | |- keeps _ (dret _) => apply keeps_ret; apply _
  | |- keeps _ dfault => apply keeps_fault
  | |- keeps _ dget => apply keeps_get; apply _
  | |- keeps _ (deref _) => apply keeps_deref; apply _
  | |- keeps _ (dbind _ _) => apply keeps_bind; [apply _| |intros ?]
  | |- keeps _ (dfor _ _) => apply keeps_for; [apply _|intros ?]
  | |- keeps _ (match _ with _ => _ end) => case_match
  end.

Section frame.
(** A relation that neither descriptors, nor the driver's counters and sets, nor
    layers' buffers, fences and framebuffers matter to. *)
Context (R : World → World → Prop) `{!PreOrder R}.
Context (R_fds : ∀ X w, R w (set_fds X w)).
Context (R_drm : ∀ k w, dk_fd k = dk_fd (w_drm w) → R w (set_w_drm k w)).
Context (R_layer : ∀ p l l' w, w_layers w !! p = Some l → layer_key l' = layer_key l →
  R w (set_w_layers (<[p := l']> (w_layers w)) w)).

Lemma frame_open_fd : keeps R open_fd.
Proof. intros w a w'. unfold open_fd. case_match; intros [= <- <-]; [apply R_fds|reflexivity]. Qed.
Lemma frame_dup fd : keeps R (dup fd).
Proof.
  intros w a w'. unfold dup. case_match; [apply frame_open_fd|]. intros [= <- <-]. reflexivity.
Qed.
Lemma frame_close fd : keeps R (close fd).
Proof. intros w a w' [= <- <-]. apply R_fds. Qed.
Lemma frame_drm_call c : keeps R (drm_call c).
Proof. intros w a w' [= <- <-]. by apply R_drm. Qed.
Lemma frame_drm_mod f : (∀ k, dk_fd (f k) = dk_fd k) → keeps R (drm_mod f).
Proof. intros Hf. apply keeps_mod. intros w. by apply R_drm. Qed.
Lemma frame_update p f : (∀ l, layer_key (f l) = layer_key l) → keeps R (update p f).
Proof.
  intros Hf w a w'. unfold update. destruct (w_layers w !! p) as [l|] eqn:Hp; [|done].
  intros [= <- <-]. by apply (R_layer p l).
Qed.
Lemma frame_GetDrmFd : keeps R GetDrmFd.
Proof. intros w a w' [= <- <-]. reflexivity. Qed.

Lemma frame_commit_request layers req : keeps R (commit_request layers req).
Proof.
  unfold commit_request, drmModeAtomicCommit, publish_fences, SetReleaseFence.
  keeps_walk; auto using frame_drm_call, frame_open_fd, frame_close, frame_dup.
  - by apply frame_drm_mod.
  - by apply frame_update.
Qed.
Lemma frame_AddProperty req o p v : keeps R (drmModeAtomicAddProperty req o p v).
Proof. unfold drmModeAtomicAddProperty. keeps_walk. apply frame_drm_call. Qed.
Lemma frame_UpdateMode crtc conn req : keeps R (UpdateMode crtc conn req).
Proof.
  unfold UpdateMode, GetModeBlockFromId, ModeBlock_make, drmModeCreatePropertyBlob.
  keeps_walk; auto using frame_AddProperty, frame_drm_call, frame_GetDrmFd.
  by apply frame_drm_mod.
Qed.
Lemma frame_delete_block b : keeps R (delete_block b).
Proof.
  unfold delete_block, ModeBlock_destroy, drmModeDestroyPropertyBlob.
  keeps_walk; auto using frame_drm_call, frame_GetDrmFd. by apply frame_drm_mod.
Qed.
End frame.

Lemma shape_layer p l l' w :
  w_layers w !! p = Some l → layer_key l' = layer_key l →
  shape w (set_w_layers (<[p := l']> (w_layers w)) w).
Proof.
  intros Hp Hk. unfold shape. cbn [w_layers set_w_layers w_nextptr w_layer_ids].
  by rewrite (fmap_insert_id layer_key _ p l).
Qed.
Lemma shape_commit_request layers req : keeps shape (commit_request layers req).
Proof. apply frame_commit_request; [apply _|done|done|apply shape_layer]. Qed.
Lemma shape_UpdateMode crtc conn req : keeps shape (UpdateMode crtc conn req).
Proof. by apply frame_UpdateMode; [apply _|]. Qed.
Lemma shape_delete_block b : keeps shape (delete_block b).
Proof. by apply frame_delete_block; [apply _|]. Qed.
Lemma same_fd_commit_request layers req : keeps same_fd (commit_request layers req).
Proof. apply frame_commit_request; [apply _|done|done|done]. Qed.

(** *** Steady steps *)

Lemma steady_drm k w :
  drm_frame (w_drm w) k ∨ (dk_answer k = dk_answer (w_drm w) ∧ dk_blobs k = dk_blobs (w_drm w)) →
  dk_fbs k = dk_fbs (w_drm w) → steady w (set_w_drm k w).
Proof.
  intros Hf Hb. split; [done|]. intros ext fb0 bl0 [H1 H2 H3 H4 H5 H6].
  assert (dk_answer k = dk_answer (w_drm w) ∧ dk_blobs k = dk_blobs (w_drm w)) as [Ha Hbl]
    by (destruct Hf as [(_ & ? & _ & ?)|?]; done).
  split; try done.
  - intros n x. cbn [w_drm set_w_drm]. rewrite Ha. apply H3.
  - cbn [w_drm set_w_drm w_layers]. by rewrite Hb.
  - cbn [w_drm set_w_drm]. by rewrite Hbl.
Qed.
Lemma steady_drm_call c : keeps steady (drm_call c).
Proof. intros w a w' [= <- <-]. apply steady_drm; [by right|done]. Qed.
Lemma steady_AddProperty req o p v : keeps steady (drmModeAtomicAddProperty req o p v).
Proof. unfold drmModeAtomicAddProperty. keeps_walk. apply steady_drm_call. Qed.

Lemma steady_GetGemBuffer p : keeps steady (GetGemBuffer p).
Proof.
  intros w g w' Hrun. pose proof Hrun as Hrun'.
  unfold GetGemBuffer, dbind, GetDrmFd, deref in Hrun'.
  destruct (w_layers w !! p) as [l|] eqn:Hp; [|done].
  destruct (l_mHdiBuffer l) as [hdl|] eqn:Hb; [|done]. clear Hrun'.
  assert (∀ fb0, wp (GetGemBuffer p) (λ _ w', shape w w' ∧ ∃ k' l', drm_frame (w_drm w) k' ∧
     w' = set_w_drm k' (set_w_layers (<[p := l']> (w_layers w)) w) ∧
     layer_fds l' = layer_fds l ∧
     (releases_granted (w_drm w) → 0 ∈ fb0 → fb_ok fb0 (w_layers w) (dk_fbs (w_drm w)) →
        fb_ok fb0 (<[p := l']> (w_layers w)) (dk_fbs k'))) w) as Hwp.
  { intros fb0. eapply wp_GetGemBuffer; [done|done|]. intros g0 k' l' Hf Hfb. split.
    - unfold shape. cbn [w_layers set_w_layers set_w_drm w_nextptr w_layer_ids].
      by rewrite (fmap_insert_id layer_key _ p l).
    - exists k', l'. done. }
  split; [by destruct (wp_run _ _ _ (Hwp ∅) _ _ Hrun)|].
  intros ext fb0 bl0 [H1 H2 H3 H4 H5 H6].
  destruct (wp_run _ _ _ (Hwp fb0) _ _ Hrun) as (_ & k' & l' & Hf & -> & Hfds & Hfb).
  split; cbn [w_drm set_w_drm w_layers set_w_layers].
  - unfold fd_ok. cbn [w_layers set_w_layers set_w_drm fds w_kern].
    by rewrite (fmap_insert_id layer_fds _ p l).
  - done.
  - by eapply drm_frame_granted.
  - done.
  - by apply Hfb.
  - destruct Hf as (_ & _ & _ & ->). done.
Qed.

Lemma steady_ApplyPlane crtcId p plane req : keeps steady (ApplyPlane crtcId p plane req).
Proof.
  unfold ApplyPlane. keeps_walk; auto using steady_AddProperty, steady_GetGemBuffer.
Qed.
Lemma steady_deref_plane i : keeps steady (deref_plane i).
Proof. intros w a w'. unfold deref_plane. case_match; [|done]. intros [= <- <-]. reflexivity. Qed.
Lemma steady_apply_planes crtcId layers planes req :
  keeps steady (apply_planes crtcId layers planes req).
Proof.
  revert planes req. induction layers as [|p layers IH]; intros planes req; destruct planes; simpl;
    keeps_walk; auto using steady_ApplyPlane, steady_deref_plane.
Qed.

(** *** The commit *)

(** A descriptor that is opened is foreign until it is closed. *)
Lemma own_lend ext own F fd :
  own_ok ext own F → fd ∉ F → own_ok ({[fd]} ∪ ext) own ({[fd]} ∪ F).
Proof.
  intros [Hnd Hop Hon Hex Hal] Hfd. split; [done| |done|set_solver|set_solver].
  intros p L x Hp Hx. destruct (Hop p L x Hp Hx). set_solver.
Qed.
Lemma own_unlend ext own F fd :
  own_ok ({[fd]} ∪ ext) own F → fd ∉ ext → own_ok ext own (F ∖ {[fd]}).
Proof.
  intros [Hnd Hop Hon Hex Hal] Hfd. split; [done| |done|set_solver|].
  - intros p L x Hp Hx. destruct (Hop p L x Hp Hx). set_solver.
  - intros x Hx. destruct (Hal x) as [?|?]; set_solver.
Qed.

Lemma res_lend ext fb0 bl0 fd w :
  res_ok ext fb0 bl0 w → 0 ≤ fd → fd ∉ fds w →
  res_ok ({[fd]} ∪ ext) fb0 bl0 (set_fds ({[fd]} ∪ fds w) w).
Proof.
  intros [H1 H2 H3 H4 H5 H6] H0 Hfd. split; try done; [|set_solver].
  unfold fd_ok. rewrite fds_set_fds. by apply own_lend.
Qed.
Lemma res_unlend ext fb0 bl0 fd w :
  res_ok ({[fd]} ∪ ext) fb0 bl0 w → fd ∉ ext → res_ok ext fb0 bl0 (set_fds (fds w ∖ {[fd]}) w).
Proof.
  intros [H1 H2 H3 H4 H5 H6] Hfd. split; try done; [|set_solver].
  unfold fd_ok. rewrite fds_set_fds. by apply own_unlend.
Qed.

Lemma res_ok_rest ext fb0 bl0 w w' :
  res_ok ext fb0 bl0 w → fd_ok ext w' → w_drm w' = w_drm w →
  layer_fbs <$> w_layers w' = layer_fbs <$> w_layers w → res_ok ext fb0 bl0 w'.
Proof.
  intros [H1 H2 H3 H4 H5 H6] Hfd Hdrm Hl. split; rewrite ?Hdrm; try done.
  intros x Hx. destruct (H5 x Hx) as [?|(p & l & Hp & Hin)]; [by left|right].
  assert ((layer_fbs <$> w_layers w) !! p = Some (layer_fbs l)) as Hp' by (rewrite lookup_fmap Hp //).
  rewrite -Hl lookup_fmap in Hp'. destruct (w_layers w' !! p) as [l'|] eqn:E; [|done].
  simpl in Hp'. injection Hp' as Hp'. exists p, l'. by rewrite Hp'.
Qed.

Lemma wlp_publish_one ext fb0 bl0 fence p w :
  res_ok ext fb0 bl0 w →
  wlp (let! fd := dup fence in SetReleaseFence p fd) (λ _ w', res_ok ext fb0 bl0 w') w.
Proof.
  intros Hok. destruct (w_layers w !! p) as [l|] eqn:Hp.
  - apply wlp_wp, wp_bind, wp_dup_new. intros fd Hfd.
    eapply (wp_SetReleaseFence ext p l fd); [by apply (res_fds _ _ _ _ Hok)|done|done|].
    intros w' Hfd' Hrest Hl _. eapply res_ok_rest; [exact Hok|done| |].
    + apply (f_equal w_drm) in Hrest. exact Hrest.
    + rewrite Hl. by rewrite (fmap_insert_id layer_fbs _ p l).
  - intros a w' Hrun. unfold dbind, dup, open_fd, SetReleaseFence, update in Hrun.
    repeat case_match; simplify_eq; cbn [w_layers set_fds set_w_kern] in *; congruence.
Qed.

Lemma res_commit_request ext fb0 bl0 layers req w :
  res_ok ext fb0 bl0 w → wlp (commit_request layers req) (λ _ w', res_ok ext fb0 bl0 w') w.
Proof.
  intros Hok. unfold commit_request, drmModeAtomicCommit.
  apply wlp_bind. apply wlp_bind. intros a w1 [= <- <-].
  set (w1 := set_w_drm _ w).
  assert (res_ok ext fb0 bl0 w1) as Hok1 by (apply (steady_drm_call AtomicCommit w _ w1 eq_refl); done).
  destruct (_ =? 0) eqn:E; [|apply wlp_ret; cbn [fst snd]; rewrite E; by apply wlp_ret].
  apply wlp_bind, wlp_wp, wp_open_fd; [|by apply wlp_ret, wlp_ret].
  intros fd H0 Hfd. destruct (Z.ltb_spec fd 0); [lia|].
  apply wlp_bind, wlp_wp, wp_dmod, wlp_ret. simpl. unfold publish_fences.
  set (w2 := set_w_drm _ _).
  assert (res_ok ({[fd]} ∪ ext) fb0 bl0 w2) as Hok2.
  { apply steady_drm; [by right|done|]. by apply res_lend. }
  assert (fd ∉ ext) as Hext.
  { intros Hin. apply Hfd. by apply (own_ext _ _ _ (res_fds _ _ _ _ Hok1)). }
  apply wlp_bind, wlp_bind. apply (wlp_mono _ (λ _ w', res_ok ({[fd]} ∪ ext) fb0 bl0 w')); last first.
  { intros _ w' Hok'. apply wlp_wp, wp_close, wlp_ret. by apply res_unlend. }
  clearbody w2. revert w2 Hok2. induction layers as [|p layers IH]; intros w2 Hok2; simpl.
  - by apply wlp_ret.
  - apply wlp_bind. eapply wlp_mono; [by eapply wlp_publish_one|]. intros ? w'. apply IH.
Qed.

Lemma steady_commit_request layers req : keeps steady (commit_request layers req).
Proof.
  intros w a w' Hrun. split; [by eapply shape_commit_request|].
  intros ext fb0 bl0 Hok. by eapply (res_commit_request _ _ _ layers req w Hok).
Qed.

(** *** The mode blob *)

(** Between [UpdateMode] and the deletion of its block the blob is the only one
    that is not accounted for. *)
Definition block_ok (ext fb0 bl0 : gset Z) (b : option Z) (w : World) : Prop :=
  match b with
  | None => res_ok ext fb0 bl0 w
  | Some b => if b =? DRM_INVALID_ID then res_ok ext fb0 bl0 w
              else res_ok ext fb0 ({[b]} ∪ bl0) w ∧ ∃ fd, dk_fd (w_drm w) = Some fd ∧ 0 ≤ fd
  end.
Lemma block_ok_steady ext fb0 bl0 b w w' :
  steady w w' → same_fd w w' → block_ok ext fb0 bl0 b w → block_ok ext fb0 bl0 b w'.
Proof.
  intros [_ Hs] Hfd. unfold block_ok. destruct b as [b|]; [|by apply Hs].
  destruct (b =? _); [by apply Hs|]. unfold same_fd in Hfd. rewrite Hfd. intros [? ?]. auto.
Qed.

Lemma res_blob ext fb0 bl0 b n w :
  res_ok ext fb0 bl0 w →
  res_ok ext fb0 ({[b]} ∪ bl0)
    (set_w_drm (set_dk_blobs ({[b]} ∪ dk_blobs (w_drm w)) (set_dk_calls n (w_drm w))) w).
Proof. intros [H1 H2 H3 H4 H5 H6]. split; try done. cbn. set_solver. Qed.
Lemma res_unblob ext fb0 bl0 b n w :
  res_ok ext fb0 ({[b]} ∪ bl0) w →
  res_ok ext fb0 bl0
    (set_w_drm (set_dk_blobs (dk_blobs (w_drm w) ∖ {[b]}) (set_dk_calls n (w_drm w))) w).
Proof. intros [H1 H2 H3 H4 H5 H6]. split; try done. cbn. set_solver. Qed.

Lemma wlp_GetModeBlockFromId ext fb0 bl0 id conn w :
  res_ok ext fb0 bl0 w →
  wlp (GetModeBlockFromId id conn) (λ b w', block_ok ext fb0 bl0 b w') w.
Proof.
  intros Hok. unfold GetModeBlockFromId. destruct (conn_mModes conn !! id); [|by apply wlp_ret].
  unfold ModeBlock_make, drmModeCreatePropertyBlob. apply wlp_bind, wlp_bind. intros fd w1 [= <- <-].
  destruct (dk_fd (w_drm w)) as [fd|] eqn:Efd; [|by apply wlp_ret, wlp_ret].
  destruct (Z.ltb_spec fd 0); [by apply wlp_ret, wlp_ret|].
  apply wlp_bind, wlp_bind. intros a w1 [= <- <-].
  pose proof (res_granted _ _ _ _ Hok (dk_calls (w_drm w)) 0) as (_ & _ & Hne).
  destruct (dk_answer _ _ _) as [r v] eqn:Ea. cbn [fst snd] in *. destruct (Z.eqb_spec r 0) as [->|Hr].
  - apply wlp_bind, wlp_wp, wp_dmod, wlp_ret. cbn [fst snd]. apply wlp_ret, wlp_ret.
    unfold block_ok. destruct (Z.eqb_spec v DRM_INVALID_ID); [done|]. split; [|by exists fd].
    by apply (res_blob ext fb0 bl0 v (S (dk_calls (w_drm w))) w).
  - apply wlp_ret. cbn [fst snd]. rewrite (proj2 (Z.eqb_neq r 0) Hr). apply wlp_ret, wlp_ret.
    by apply (steady_drm_call CreatePropertyBlob w _ _ eq_refl).
Qed.

Lemma same_fd_AddProperty req o p v : keeps same_fd (drmModeAtomicAddProperty req o p v).
Proof. by apply frame_AddProperty; [apply _|]. Qed.

Lemma wlp_AddProperty ext fb0 bl0 b {B} req o p v (k : Z * AtomicReq → D B) Q w :
  block_ok ext fb0 bl0 b w → (∀ r w', block_ok ext fb0 bl0 b w' → wlp (k r) Q w') →
  wlp (let! r := drmModeAtomicAddProperty req o p v in k r) Q w.
Proof.
  intros Hok Hk. apply wlp_bind. intros r w' Hrun. apply Hk.
  eapply block_ok_steady; [by eapply steady_AddProperty|by eapply same_fd_AddProperty|done].
Qed.

Lemma wlp_UpdateMode ext fb0 bl0 crtc conn req w :
  res_ok ext fb0 bl0 w →
  wlp (UpdateMode crtc conn req) (λ u w', block_ok ext fb0 bl0 u.1.2 w') w.
Proof.
  intros Hok. unfold UpdateMode. destruct (negb _); [by apply wlp_ret|].
  apply wlp_bind. eapply wlp_mono; [by apply wlp_GetModeBlockFromId|]. intros [b|] w1 Hb;
    [|by apply wlp_ret].
  destruct (b =? _) eqn:E; [by apply wlp_ret|].
  do 3 (eapply wlp_AddProperty; [done|]; intros ? ? ?; case_match; [by apply wlp_ret|]).
  by apply wlp_ret.
Qed.

Lemma wlp_delete_block ext fb0 bl0 b w :
  block_ok ext fb0 bl0 b w → wlp (delete_block b) (λ _ w', res_ok ext fb0 bl0 w') w.
Proof.
  unfold block_ok, delete_block, ModeBlock_destroy, drmModeDestroyPropertyBlob.
  destruct b as [b|]; [|by intros; apply wlp_ret].
  destruct (b =? _); [intros Hok; apply wlp_bind; intros fd w1 [= <- <-]; by apply wlp_ret|].
  intros (Hok & fd & Efd & Hpos). apply wlp_bind. intros fd' w1 [= <- <-]. rewrite Efd.
  destruct (Z.leb_spec 0 fd); [|lia]. cbn [negb andb].
  apply wlp_bind, wlp_bind. intros a w1 [= <- <-].
  pose proof (res_granted _ _ _ _ Hok (dk_calls (w_drm w)) b) as (_ & Hg & _).
  destruct (dk_answer _ _ _) as [r v]. cbn [fst snd] in *. subst r. cbn [Z.eqb].
  apply wlp_bind, wlp_wp, wp_dmod, wlp_ret, wlp_ret.
  by apply (res_unblob ext fb0 bl0 b (S (dk_calls (w_drm w))) w).
Qed.

(** ** The laws *)

Lemma wlp_steady {A B} (m : D A) (k : A → D B) ext fb0 bl0 Q w :
  keeps steady m → res_ok ext fb0 bl0 w →
  (∀ a w', res_ok ext fb0 bl0 w' → wlp (k a) Q w') → wlp (dbind m k) Q w.
Proof. intros Hm Hok Hk. apply wlp_bind. intros a w' Hrun. apply Hk. by eapply Hm. Qed.

Lemma steady_deref_crtc id : keeps steady (deref_crtc id).
Proof. intros w a w'. unfold deref_crtc. case_match; [|done]. intros [= <- <-]. reflexivity. Qed.
Lemma steady_deref_connector id : keeps steady (deref_connector id).
Proof.
  intros w a w'. unfold deref_connector. case_match; [|done]. intros [= <- <-]. reflexivity.
Qed.
Lemma steady_nonnull {A} (o : option A) : keeps steady (nonnull o).
Proof. unfold nonnull. keeps_walk. Qed.
Create HintDb steady.
#[export] Hint Resolve steady_drm_call steady_AddProperty steady_ApplyPlane steady_apply_planes
  steady_deref_crtc steady_deref_connector steady_nonnull steady_commit_request : steady.

Lemma shape_steady {A} (m : D A) : keeps steady m → keeps shape m.
Proof. intros Hm. eapply keeps_weaken; [done|]. by intros w w' [? _]. Qed.

Lemma shape_Apply modeSet c : keeps shape (DrmComp_Apply modeSet c).
Proof.
  unfold DrmComp_Apply. keeps_walk; auto using shape_UpdateMode, shape_delete_block;
    apply shape_steady; auto with steady.
Qed.

Lemma res_Apply ext fb0 bl0 modeSet c w :
  res_ok ext fb0 bl0 w → wlp (DrmComp_Apply modeSet c) (λ _ w', res_ok ext fb0 bl0 w') w.
Proof.
  intros Hok. unfold DrmComp_Apply. case_match; [by apply wlp_ret|].
  eapply wlp_steady; [auto with steady|done|]. intros a w1 Hok1. case_match; [by apply wlp_ret|].
  eapply wlp_steady; [auto with steady|done|]. intros crtcId w2 Hok2.
  eapply wlp_steady; [auto with steady|done|]. intros crtc w3 Hok3.
  eapply wlp_steady; [auto with steady|done|]. intros r w4 Hok4. case_match; [by apply wlp_ret|].
  eapply wlp_steady; [auto with steady|done|]. intros req w5 Hok5.
  eapply wlp_steady; [auto with steady|done|]. intros connId w6 Hok6.
  eapply wlp_steady; [auto with steady|done|]. intros conn w7 Hok7.
  apply wlp_bind. eapply wlp_mono; [by apply wlp_UpdateMode|]. intros u w8 Hok8.
  apply wlp_bind. apply (wlp_mono _ (λ _ w', block_ok ext fb0 bl0 u.1.2 w')).
  - case_match; [by apply wlp_ret|]. intros ret w9 Hrun.
    eapply block_ok_steady; [by eapply steady_commit_request|by eapply same_fd_commit_request|done].
  - intros ret w9 Hok9. apply wlp_bind. eapply wlp_mono; [by apply wlp_delete_block|].
    intros ? ? ?. by apply wlp_ret.
Qed.

#[export] Instance drm_composition_laws : HdiCompositionLaws HdiDrmComposition.
Proof.
  split.
  - intros c layers client w _ _. apply wp_ret. reflexivity.
  - intros c modeSet w a w' Hrun. split; [by eapply shape_Apply|].
    intros ext fb0 bl0 Hok. by eapply res_Apply.
Qed.
