(* ===== verification/DrmDisplay.v ===== *)
(** * The DRM display (drm/drm_display.{h,cpp}, DrmDevice::DiscoveryDisplay)

    A display with a GFX composition in front of a DRM composition: its
    initialisation, modes, backlight and power states.  The buffers it allocates for
    its first and its black frame come from the allocator of Gralloc.v; what the
    kernel answers to one such sequence of calls is a [VdiAnswers].  The contents of
    pixel memory are not modelled, so that of [ShowBlackFrame] the allocation, the
    mapping and the frame it shows are, and the clearing of the mapped bytes is not. *)

From S2P Require Import Prelude Gralloc DispWorld HdiLayer HdiDisplay Composition Drm DrmComposition.
Set Warnings "-rewrite-rw,-clear-no-such-hyp".

(** ** The compositions of a display *)

(** The two classes derived from [HdiComposition] that a [DrmDisplay] owns. *)
Inductive DrmDisplayComp := CompGfx (c : HdiGfxComposition) | CompDrm (c : HdiDrmComposition).

Definition lift_comp {A} (f : A → DrmDisplayComp) (m : D (DispError * A))
    : D (DispError * DrmDisplayComp) := let! r := m in dret (r.1, f r.2).

#[export] Instance display_composition : HdiComposition DrmDisplayComp := {
  comp_SetLayers layers client c :=
    match c with
    | CompGfx c => lift_comp CompGfx (comp_SetLayers layers client c)
    | CompDrm c => lift_comp CompDrm (comp_SetLayers layers client c)
    end;
  comp_Apply modeSet c :=
    match c with
    | CompGfx c => lift_comp CompGfx (comp_Apply modeSet c)
    | CompDrm c => lift_comp CompDrm (comp_Apply modeSet c)
    end;
}.

Lemma wp_lift_comp {A} (f : A → DrmDisplayComp) m (Q : World → Prop) w :
  wp m (λ _ w', Q w') w → wp (lift_comp f m) (λ _ w', Q w') w.
Proof. intros H. apply wp_bind. eapply wp_mono; [exact H|]. intros. by apply wp_ret. Qed.
Lemma keeps_lift_comp R `{!PreOrder R} {A} (f : A → DrmDisplayComp) m :
  keeps R m → keeps R (lift_comp f m).
Proof. intros H. apply keeps_bind; [apply _|done|]. intros. apply keeps_ret, _. Qed.

#[export] Instance display_composition_laws : HdiCompositionLaws DrmDisplayComp.
Proof.
  split.
  - intros [c|c] layers client w Hl Hc; apply wp_lift_comp; by apply SetLayers_steady.
  - intros [c|c] modeSet; apply keeps_lift_comp; [apply _| |apply _|]; apply Apply_steady.
Qed.

(** ** Allocating buffers *)

(** What the kernel answers to one construction, allocation, mapping and unmapping. *)
Record VdiAnswers := mkVdiAnswers {
  va_open : Z; va_malloc : bool; va_alloc : KernelAnswers; va_mmap : option Z; va_unmap : bool }.

(** [DisplayBufferVdiImpl()] and its destructor. *)
Definition Vdi_make (va : VdiAnswers) : D unit := λ w,
  let '(_, mg, k) := Manager_Init (va_open va) (w_manager w) (w_kern w) in
  Some (tt, set_w_manager mg (set_w_kern k w)).
Definition Vdi_destroy : D unit := λ w,
  let '(_, mg, k) := Manager_DeInit (w_manager w) (w_kern w) in
  Some (tt, set_w_manager mg (set_w_kern k w)).
(** A method of the object: a function of the manager and the kernel. *)
Definition vdi {A} (f : Manager → Kernel → option (A * Kernel)) : D A := λ w,
  match f (w_manager w) (w_kern w) with
  | Some (a, k) => Some (a, set_w_kern k w)
  | None => None
  end.

(** ** Power *)

Inductive DispPowerStatus :=
| POWER_STATUS_ON | POWER_STATUS_STANDBY | POWER_STATUS_SUSPEND | POWER_STATUS_OFF | POWER_STATUS_BUTT.
#[export] Instance DispPowerStatus_eq_dec : EqDecision DispPowerStatus.
Proof. solve_decision. Defined.

Definition DRM_MODE_DPMS_ON : Z := 0.
Definition DRM_MODE_DPMS_STANDBY : Z := 1.
Definition DRM_MODE_DPMS_SUSPEND : Z := 2.
Definition DRM_MODE_DPMS_OFF : Z := 3.
Definition ConvertToDrmPowerState (s : DispPowerStatus) : option Z :=
  match s with
  | POWER_STATUS_OFF => Some DRM_MODE_DPMS_OFF
  | POWER_STATUS_ON => Some DRM_MODE_DPMS_ON
  | POWER_STATUS_STANDBY => Some DRM_MODE_DPMS_STANDBY
  | POWER_STATUS_SUSPEND => Some DRM_MODE_DPMS_SUSPEND
  | POWER_STATUS_BUTT => None
  end.

(** ** The display *)

Record DrmDisplay := mkDrmDisplay {
  dd_hdi : HdiDisplay DrmDisplayComp;
  dd_mConnector : option Z;
  dd_mCrtc : option Z;
  dd_mDrmDevice : bool;
  dd_mPowerStatus : DispPowerStatus;
  dd_mBlackBuffer : option BufferHandle;
  dd_mBlackLayer : option Z;
}.
Definition DrmDisplay_new (connector crtc : option Z) (device : bool) : DrmDisplay :=
  mkDrmDisplay (HdiDisplay_new _) connector crtc device POWER_STATUS_ON None None.
Definition set_dd_hdi (x : HdiDisplay DrmDisplayComp) (d : DrmDisplay) : DrmDisplay :=
  mkDrmDisplay x (dd_mConnector d) (dd_mCrtc d) (dd_mDrmDevice d) (dd_mPowerStatus d)
    (dd_mBlackBuffer d) (dd_mBlackLayer d).
Definition set_dd_mPowerStatus (x : DispPowerStatus) (d : DrmDisplay) : DrmDisplay :=
  mkDrmDisplay (dd_hdi d) (dd_mConnector d) (dd_mCrtc d) (dd_mDrmDevice d) x (dd_mBlackBuffer d)
    (dd_mBlackLayer d).
Definition set_dd_black (b : option BufferHandle) (l : option Z) (d : DrmDisplay) : DrmDisplay :=
  mkDrmDisplay (dd_hdi d) (dd_mConnector d) (dd_mCrtc d) (dd_mDrmDevice d) (dd_mPowerStatus d) b l.

Section DrmDisplay.
(** The usage bits of the buffer interface. *)
Context (HBM_USE_MEM_FB HBM_USE_MEM_DMA HBM_USE_CPU_READ HBM_USE_CPU_WRITE : Z).

Definition frame_info (mode : DrmMode) (format : PixelFormat) : AllocInfo :=
  mkAllocInfo (mi_hdisplay (mode_mModeInfo mode)) (mi_vdisplay (mode_mModeInfo mode))
    (Z.lor HBM_USE_MEM_DMA (Z.lor HBM_USE_CPU_READ HBM_USE_CPU_WRITE)) format.

Definition GetDisplayMode (d : DrmDisplay) : D (DispError * Z) :=
  let! crtcId := nonnull (dd_mCrtc d) in
  let! crtc := deref_crtc crtcId in
  dret (DISPLAY_SUCCESS, u32 (crtc_mActiveModeId crtc)).
(** [modeId] is a [uint32_t] here and an [int32_t] in [SetActivieMode]. *)
Definition SetDisplayMode (modeId : Z) (d : DrmDisplay) : D DispError :=
  let! crtcId := nonnull (dd_mCrtc d) in
  let! crtc := deref_crtc crtcId in
  let '(ret, crtc) := SetActivieMode (s32 modeId) crtc in
  do! dmod (λ w, set_w_crtcs (<[crtcId := crtc]> (w_crtcs w)) w) in dret ret.
(** The connector's mode for the CRTC's active mode id. *)
Definition active_mode (d : DrmDisplay) : D (option DrmMode) :=
  let! connId := nonnull (dd_mConnector d) in
  let! crtcId := nonnull (dd_mCrtc d) in
  let! conn := deref_connector connId in
  let! crtc := deref_crtc crtcId in
  dret (GetModeFromId (crtc_mActiveModeId crtc) conn).

(** [static_cast<HdiDrmComposition *>(mComposer->GetPostCompostion(0))]; a null
    pointer or an object of another class is dereferenced as if it were one. *)
Definition post_drm (d : DrmDisplay) : D HdiDrmComposition :=
  let! m := nonnull (d_mComposer (dd_hdi d)) in
  match GetPostCompostion 0 m with Some (CompDrm c) => dret c | _ => dfault end.
Definition set_post_drm (c : HdiDrmComposition) (d : DrmDisplay) : DrmDisplay :=
  match d_mComposer (dd_hdi d) with
  | Some m => set_dd_hdi (with_composer (Some (mkHdiComposer (preComp_ m)
                            (<[0%nat := CompDrm c]> (postComp_ m)))) (dd_hdi d)) d
  | None => d
  end.

Definition PushFirstFrame (va : VdiAnswers) (d : DrmDisplay) : D (DispError * DrmDisplay) :=
  do! Vdi_make va in
  let! mode := active_mode d in
  match mode with
  | None => do! Vdi_destroy in dret (DISPLAY_FAILURE, d)
  | Some mode =>
      let! r := vdi (Vdi_AllocMem HBM_USE_MEM_FB (va_malloc va) (va_alloc va)
                       (frame_info mode PIXEL_FMT_BGRA_8888)) in
      if bool_decide (r.1 ≠ DISPLAY_SUCCESS) then do! Vdi_destroy in dret (DISPLAY_FAILURE, d)
      else
        let! client := nonnull (d_mClientLayer (dd_hdi d)) in
        do! SetLayerBuffer client r.2 (-1) in
        let! comp := post_drm d in
        let! s := DrmComp_SetLayers [] client comp in
        let! a := DrmComp_Apply true s.2 in
        do! Vdi_destroy in dret (DISPLAY_SUCCESS, set_post_drm a.2 d)
  end.

(** [num] counts the modes, and [GetDisplaySupportedModes] always succeeds. *)
Definition ChosePreferenceMode (va : VdiAnswers) (d : DrmDisplay) : D (DispError * DrmDisplay) :=
  let! connId := nonnull (dd_mConnector d) in
  let! conn := deref_connector connId in
  let modeId := if conn_mPreferenceId conn =? INVALID_MODE_ID then 0
                else conn_mPreferenceId conn in
  let! ret := SetDisplayMode (u32 modeId) d in
  if bool_decide (ret ≠ DISPLAY_SUCCESS) then dret (DISPLAY_FAILURE, d) else PushFirstFrame va d.

Definition DrmDisplay_Init (ld : LoaderAnswers) (va : VdiAnswers) (d : DrmDisplay)
    : D (DispError * DrmDisplay) :=
  match dd_mCrtc d, dd_mConnector d with
  | None, _ | _, None => dret (DISPLAY_FAILURE, d)
  | Some crtcId, Some connId =>
      if negb (dd_mDrmDevice d) then dret (DISPLAY_FAILURE, d)
      else
        let! r := Display_Init (dd_hdi d) in
        let d := set_dd_hdi r.2 d in
        if bool_decide (r.1 ≠ DISPLAY_SUCCESS) then dret (DISPLAY_FAILURE, d)
        else
          let '(ret, gfx) := Gfx_Init ld HdiGfxComposition_new in
          if bool_decide (ret ≠ DISPLAY_SUCCESS) then dret (DISPLAY_FAILURE, d)
          else
            let! r := DrmComp_Init (HdiDrmComposition_new connId crtcId) in
            if bool_decide (r.1 ≠ DISPLAY_SUCCESS) then dret (DISPLAY_FAILURE, d)
            else
              let d := set_dd_hdi (with_composer
                         (Some (mkHdiComposer [CompGfx gfx] [CompDrm r.2])) (dd_hdi d)) d in
              let! crtc := deref_crtc crtcId in
              let '(ret, crtc) := BindToDisplay (d_mId (dd_hdi d)) crtc in
              do! dmod (λ w, set_w_crtcs (<[crtcId := crtc]> (w_crtcs w)) w) in
              if bool_decide (ret ≠ DISPLAY_SUCCESS) then dret (DISPLAY_FAILURE, d)
              else
                let! r := ChosePreferenceMode va d in
                if bool_decide (r.1 ≠ DISPLAY_SUCCESS) then dret (DISPLAY_FAILURE, r.2)
                else dret (DISPLAY_SUCCESS, r.2)
  end.

(** The loop that closes the black layer's release fences; a fence that could not be
    duplicated (-1) ends it.  [drain_fuel] is enough: every turn takes a fence. *)
Fixpoint drain (fuel : nat) (p : Z) : D bool :=
  match fuel with
  | O => dret false
  | S fuel =>
      let! fd := GetReleaseFenceFd p in
      if 0 <=? fd then do! close fd in drain fuel p else dret true
  end.
Definition drain_fuel (l : HdiLayer) : nat := S (length (l_releaseFences_ l)).

(** The black layer, made at the first use; [None] on failure. *)
Definition make_black (va : VdiAnswers) (d : DrmDisplay) : D (option DrmDisplay) :=
  match dd_mBlackLayer d with
  | Some _ => dret (Some d)
  | None =>
      let! mode := active_mode d in
      match mode with
      | None => dret None
      | Some mode =>
          do! Vdi_make va in
          let! r := vdi (Vdi_AllocMem HBM_USE_MEM_FB (va_malloc va) (va_alloc va)
                           (frame_info mode PIXEL_FMT_BGRX_8888)) in
          if bool_decide (r.1 ≠ DISPLAY_SUCCESS) then do! Vdi_destroy in dret None
          else
            let! buffer := nonnull r.2 in
            let! m := vdi (Vdi_Mmap HBM_USE_MEM_FB (va_mmap va) buffer) in
            match m.1 with
            | None =>
                do! vdi (Vdi_FreeMem HBM_USE_MEM_FB m.2) in do! Vdi_destroy in dret None
            | Some _ =>
                let! u := vdi (Vdi_Unmap HBM_USE_MEM_FB (va_unmap va) m.2) in
                let! layer := new_layer LAYER_TYPE_GRAPHIC in
                do! SetLayerBuffer layer (Some u.2) (-1) in
                do! Vdi_destroy in dret (Some (set_dd_black (Some u.2) (Some layer) d))
            end
      end
  end.

Definition ShowBlackFrame (va : VdiAnswers) (d : DrmDisplay) : D (DispError * DrmDisplay) :=
  let! made := make_black va d in
  match made with
  | None => dret (DISPLAY_FAILURE, d)
  | Some d =>
      let! black := nonnull (dd_mBlackLayer d) in
      let! comp := post_drm d in
      let! s := DrmComp_SetLayers [] black comp in
      let! a := DrmComp_Apply false s.2 in
      let! client := nonnull (d_mClientLayer (dd_hdi d)) in
      let! s := DrmComp_SetLayers [] client a.2 in
      let! l := deref black in
      do! drain (drain_fuel l) black in
      dret (a.1, set_post_drm s.2 d)
  end.

Definition GetDisplayPowerStatus (d : DrmDisplay) : DispError * DispPowerStatus :=
  (DISPLAY_SUCCESS, dd_mPowerStatus d).
Definition SetDisplayPowerStatus (va : VdiAnswers) (status : DispPowerStatus) (d : DrmDisplay)
    : D (DispError * DrmDisplay) :=
  match ConvertToDrmPowerState status with
  | None => dret (DISPLAY_PARAM_ERR, d)
  | Some _ =>
      let! r := (if bool_decide (status ≠ POWER_STATUS_ON) &&
                    bool_decide (dd_mPowerStatus d = POWER_STATUS_ON)
                 then ShowBlackFrame va d else dret (DISPLAY_SUCCESS, d)) in
      dret (DISPLAY_SUCCESS, set_dd_mPowerStatus status r.2)
  end.

(** The fence is the out value; [fence] says that the pointer is not null. *)
Definition DrmDisplay_Commit (fence : bool) (d : DrmDisplay) : D (DispError * Z * DrmDisplay) :=
  if negb fence then dret (DISPLAY_NULL_PTR, -1, d)
  else if bool_decide (dd_mPowerStatus d ≠ POWER_STATUS_ON) then dret (DISPLAY_SUCCESS, -1, d)
  else let! r := Display_Commit (dd_hdi d) in dret (r.1, set_dd_hdi r.2 d).

(** The driver's reply to [drmWaitVBlank] is a time in seconds and microseconds,
    packed here as the out value's quotient and remainder by 10^6. *)
Definition WaitForVBlank (ns : bool) (d : DrmDisplay) : D (DispError * Z) :=
  if negb ns then dret (DISPLAY_NULL_PTR, 0)
  else
    let! r := drm_call WaitVBlank in
    if negb (r.1 =? 0) then dret (DISPLAY_FAILURE, 0)
    else dret (DISPLAY_SUCCESS, u64 (r.2 / 10 ^ 6 * 10 ^ 9 + r.2 mod 10 ^ 6 * 1000)).
Definition IsConnected (d : DrmDisplay) : D bool :=
  let! connId := nonnull (dd_mConnector d) in
  let! conn := deref_connector connId in dret (Connector_IsConnected conn).
Definition GetDisplayBacklight (value : bool) (d : DrmDisplay) : D (DispError * option Z) :=
  if negb value then dret (DISPLAY_NULL_PTR, None)
  else
    let! connId := nonnull (dd_mConnector d) in
    let! conn := deref_connector connId in dret (GetBrightness conn).
Definition SetDisplayBacklight (value : Z) (d : DrmDisplay) : D DispError :=
  let! connId := nonnull (dd_mConnector d) in
  let! conn := deref_connector connId in SetBrightness value conn.

(** [~DrmDisplay] and the body of [~HdiDisplay]. *)
Definition DrmDisplay_destroy (va : VdiAnswers) (d : DrmDisplay) : D unit :=
  do! match dd_mCrtc d with
      | Some crtcId => dmod (λ w, set_w_crtcs (alter (UnBindDisplay (d_mId (dd_hdi d))) crtcId
                                                 (w_crtcs w)) w)
      | None => dret tt
      end in
  do! match dd_mBlackLayer d with Some p => delete_layer p | None => dret tt end in
  do! match dd_mBlackBuffer d with
      | Some b => do! Vdi_make va in do! vdi (Vdi_FreeMem HBM_USE_MEM_FB b) in Vdi_destroy
      | None => dret tt
      end in
  dmod (λ w, set_w_display_ids (mkIdPool (pool_mIdleId (w_display_ids w))
                                  (pool_mIdSets (w_display_ids w) ∖ {[d_mId (dd_hdi d)]})) w).

(** ** Discovery *)

Section Discovery.
Context (props : Z → ObjectType → PropTable) (garbage : DrmProperty).
Context (hash_order : ∀ A, gmap Z A → list (Z * A)).
Context (device : bool).   (* whether [mInstance] is set *)

(** The loop over the connectors; the result of [Init] is ignored.  Each display has
    its own answers of the loader and the allocator. *)
Fixpoint discover_displays (answers : Z → LoaderAnswers * VdiAnswers)
    (connectors : list (Z * DrmConnector)) (displays : gmap Z DrmDisplay) : D (gmap Z DrmDisplay) :=
  match connectors with
  | [] => dret displays
  | (connId, conn) :: connectors =>
      let! w := dget in
      match PickIdleCrtcId hash_order (w_encoders w) (w_crtcs w) conn with
      | None => discover_displays answers connectors displays
      | Some crtcId =>
          match w_crtcs w !! crtcId with
          | None => discover_displays answers connectors displays
          | Some _ =>
              let! r := DrmDisplay_Init (fst (answers connId)) (snd (answers connId))
                          (DrmDisplay_new (Some connId) (Some crtcId) device) in
              discover_displays answers connectors
                (emplace (d_mId (dd_hdi r.2)) r.2 displays)
          end
      end
  end.
Definition DiscoveryDisplay (res : option DrmRes) (answers : Z → LoaderAnswers * VdiAnswers)
    : D (gmap Z DrmDisplay) :=
  match res with
  | None => dret ∅
  | Some res =>
      do! discover props garbage res in
      let! w := dget in
      discover_displays answers (hash_order _ (w_connectors w)) ∅
  end.

End Discovery.
End DrmDisplay.
