(* ===== verification/DrmDisplayProps.v ===== *)
(** * Properties of the DRM display

    Power (no frame reaches the driver while the display is off), the draining of the
    black layer's fences, the preferred mode, displays whose initialisation failed,
    and the request a frame makes. *)

From S2P Require Import Prelude Gralloc DispWorld HdiLayer HdiDisplay Composition Drm DrmComposition DrmDisplay.
Set Warnings "-rewrite-rw,-clear-no-such-hyp".

(** ** Operations that do not commit *)

Definition same_commits (w w' : World) : Prop := dk_commits (w_drm w') = dk_commits (w_drm w).
#[export] Instance same_commits_preorder : PreOrder same_commits.
Proof. split; [done|]. unfold same_commits. congruence. Qed.

Create HintDb commits.

Lemma commits_open_fd : keeps same_commits open_fd.
Proof. intros w a w'. unfold open_fd. case_match; by intros [= <- <-]. Qed.
Lemma commits_dup fd : keeps same_commits (dup fd).
Proof. intros w a w'. unfold dup. case_match; [apply commits_open_fd|]. by intros [= <- <-]. Qed.
Lemma commits_close fd : keeps same_commits (close fd).
Proof. by intros w a w' [= <- <-]. Qed.
Lemma commits_drm_call c : keeps same_commits (drm_call c).
Proof. by intros w a w' [= <- <-]. Qed.
Lemma commits_drm_mod f : (∀ k, dk_commits (f k) = dk_commits k) → keeps same_commits (drm_mod f).
Proof. intros Hf. apply keeps_mod. intros w. unfold same_commits. apply Hf. Qed.
Lemma commits_mod f : (∀ w, w_drm (f w) = w_drm w) → keeps same_commits (dmod f).
Proof. intros Hf. apply keeps_mod. intros w. unfold same_commits. by rewrite Hf. Qed.
Lemma commits_update p f : keeps same_commits (update p f).
Proof. intros w a w'. unfold update. case_match; [|done]. by intros [= <- <-]. Qed.
Lemma commits_GetDrmFd : keeps same_commits GetDrmFd.
Proof. by intros w a w' [= <- <-]. Qed.
Lemma commits_new_layer t : keeps same_commits (new_layer t).
Proof. by intros w a w' [= <- <-]. Qed.
Lemma commits_GetIdleId : keeps same_commits GetIdleId.
Proof. intros w a w'. unfold GetIdleId. case_match; [|done]. case_match. by intros [= <- <-]. Qed.
#[export] Hint Resolve commits_open_fd commits_dup commits_close commits_drm_call commits_update
  commits_GetDrmFd commits_new_layer commits_GetIdleId : commits.
#[export] Hint Extern 1 (keeps same_commits (drm_mod _)) => by apply commits_drm_mod : commits.
#[export] Hint Extern 1 (keeps same_commits (dmod _)) => by apply commits_mod : commits.

(** Walks, and ends with the known steps. *)
Ltac commits_walk := keeps_walk; auto with commits.

Lemma commits_close_if_open fd : keeps same_commits (close_if_open fd).
Proof. unfold close_if_open. commits_walk. Qed.
Lemma commits_nonnull {A} (o : option A) : keeps same_commits (nonnull o).
Proof. unfold nonnull. commits_walk. Qed.
Lemma commits_GetReleaseFenceFd p : keeps same_commits (GetReleaseFenceFd p).
Proof. unfold GetReleaseFenceFd. commits_walk. Qed.
Lemma commits_gem_destroy g : keeps same_commits (gem_destroy_opt g).
Proof.
  unfold gem_destroy_opt, DrmGemBuffer_destroy, drmModeRmFB, gem_close. commits_walk.
Qed.
#[export] Hint Resolve commits_close_if_open commits_nonnull commits_GetReleaseFenceFd
  commits_gem_destroy : commits.
Lemma commits_delete_layer p : keeps same_commits (delete_layer p).
Proof. unfold delete_layer, HdiLayerBuffer_destroy. commits_walk. Qed.
Lemma commits_SetLayerBuffer p b f : keeps same_commits (SetLayerBuffer p b f).
Proof.
  unfold SetLayerBuffer, swap_buffer, assign_acquire_fence, HdiLayerBuffer_make,
    HdiLayerBuffer_destroy. commits_walk.
Qed.
Lemma commits_mset_insert p z l : keeps same_commits (mset_insert p z l).
Proof. induction l; simpl; commits_walk. Qed.
Lemma commits_mset_erase p z l : keeps same_commits (mset_erase p z l).
Proof. induction l; simpl; commits_walk. Qed.
Lemma commits_comp_changes a b ls : keeps same_commits (comp_changes a b ls).
Proof. induction ls; simpl; commits_walk. Qed.
Lemma commits_release_fences a b ls : keeps same_commits (release_fences a b ls).
Proof. induction ls; simpl; commits_walk. Qed.
Lemma commits_visible_layers ls : keeps same_commits (visible_layers ls).
Proof. induction ls; simpl; commits_walk. Qed.
Lemma commits_collect_changes ls : keeps same_commits (collect_changes ls).
Proof. induction ls; simpl; unfold SetLayerCompositionType; commits_walk. Qed.
Lemma commits_gfx_select c ls : keeps same_commits (gfx_select c ls).
Proof. induction ls; simpl; unfold SetDeviceSelect; commits_walk. Qed.
#[export] Hint Resolve commits_delete_layer commits_SetLayerBuffer commits_mset_insert
  commits_mset_erase commits_comp_changes commits_release_fences commits_visible_layers
  commits_collect_changes commits_gfx_select : commits.

Lemma commits_SetLayers layers client (c : DrmDisplayComp) :
  keeps same_commits (comp_SetLayers layers client c).
Proof.
  destruct c as [c|c]; apply keeps_lift_comp; try apply _; cbn.
  - unfold Gfx_SetLayers. commits_walk.
  - unfold DrmComp_SetLayers. commits_walk.
Qed.
Lemma commits_comp_loop {C} f (l : list C) :
  (∀ c, keeps same_commits (f c)) → keeps same_commits (comp_loop f l).
Proof. intros Hf. induction l; simpl; commits_walk. Qed.

Lemma commits_exec op (d : HdiDisplay DrmDisplayComp) :
  op ≠ OpCommit → keeps same_commits (exec op d).
Proof.
  intros Hop. destruct op; [..|done| |]; cbn [exec];
    unfold CreateLayer, DestroyLayer, SetLayerZorder, SetDisplayClientBuffer, CallLayerFunction,
      SetLayerVisible, SetLayerCompositionType, PrepareDisplayLayers, Composer_Prepare,
      GetDisplayCompChange, GetDisplayReleaseFence, Layer_Init, Layer_SetLayerZorder;
    commits_walk; apply commits_comp_loop; intros; apply commits_SetLayers.
Qed.

(** ** Power *)

Section power.
Context (FB DMA CPU_READ CPU_WRITE : Z).

(** The calls on a display, its own [Commit] and power function in place of those
    of the base class. *)
Inductive drm_op := OpHdi (op : display_op) | OpPower (va : VdiAnswers) (status : DispPowerStatus).
Definition drm_exec (op : drm_op) (d : DrmDisplay) : D (list Z * DrmDisplay) :=
  match op with
  | OpHdi OpCommit => let! r := DrmDisplay_Commit true d in dret ([r.1.2], r.2)
  | OpHdi op => let! r := exec op (dd_hdi d) in dret (r.1, set_dd_hdi r.2 d)
  | OpPower va s =>
      let! r := SetDisplayPowerStatus FB DMA CPU_READ CPU_WRITE va s d in dret ([], r.2)
  end.
Fixpoint drm_run (ops : list drm_op) (d : DrmDisplay) : D (list Z * DrmDisplay) :=
  match ops with
  | [] => dret ([], d)
  | op :: ops =>
      let! r := drm_exec op d in
      let! r' := drm_run ops r.2 in dret (r.1 ++ r'.1, r'.2)
  end.

(** The calls while the power stays off: every one but the request to switch it on. *)
Definition stays_off (op : drm_op) : Prop :=
  match op with OpHdi _ => True | OpPower _ s => s ≠ POWER_STATUS_ON end.
(** Those of them that cannot read a dangling change list. *)
Definition off_op (op : drm_op) : Prop :=
  match op with
  | OpHdi op => op ≠ OpCompChange
  | OpPower _ s => s ≠ POWER_STATUS_ON
  end.

Definition off_ok (ext fb0 bl0 : gset Z) (n : nat) (d : DrmDisplay) (w : World) : Prop :=
  dd_mPowerStatus d ≠ POWER_STATUS_ON ∧ disp_ok (dd_hdi d) w ∧ res_ok ext fb0 bl0 w ∧
  initialised (dd_hdi d) ∧ is_u32 (pool_mIdleId (w_layer_ids w)) ∧
  Z.of_nat (size (pool_mIdSets (w_layer_ids w)) + n) < INVALIDE_LAYER_ID.

Lemma off_step op ext fb0 bl0 n d w :
  off_op op → off_ok ext fb0 bl0 (S n) d w →
  wp (drm_exec op d) (λ r w', same_commits w w' ∧ ∃ ext', off_ok ext' fb0 bl0 n r.2 w') w.
Proof.
  intros Hop (Hoff & Hok & Hres & Hini & Hu & Hsize).
  assert (∀ s, s ≠ POWER_STATUS_ON → off_ok ext fb0 bl0 n (set_dd_mPowerStatus s d) w) as Hquiet.
  { intros s Hs. split_and!; try done; [by destruct Hini..|lia]. }
  destruct op as [op|va s].
  - destruct (decide (op = OpCommit)) as [->|Hnc].
    + simpl. unfold DrmDisplay_Commit. rewrite bool_decide_true //. simpl. apply wp_ret.
      split; [done|]. exists ext. replace d with (set_dd_mPowerStatus (dd_mPowerStatus d) d)
        by by destruct d. by apply Hquiet.
    + assert (room w) as Hroom by (split; [done|lia]).
      destruct (step_faultless op ext fb0 bl0 (dd_hdi d) w Hok Hres Hroom Hini)
        as (r & w1 & Hr & Hok1 & Hres1 & Hu1 & Hsize1); [done|].
      destruct (exec_members op (dd_hdi d) w r w1 Hr) as [Hc Hm].
      replace (drm_exec (OpHdi op) d)
        with (let! r := exec op (dd_hdi d) in dret (r.1, set_dd_hdi r.2 d)) by by destruct op.
      eapply wp_step; [exact Hr|]. apply wp_ret. split; [by eapply commits_exec|].
      eexists. destruct Hini as [Hini1 Hini2].
      split_and!; [done|done|exact Hres1|split; [by apply Hm|by rewrite /= Hc]|done|lia].
  - simpl. unfold SetDisplayPowerStatus. simpl in Hop.
    destruct (ConvertToDrmPowerState s).
    + rewrite (bool_decide_false (dd_mPowerStatus d = POWER_STATUS_ON)) // andb_false_r.
      apply wp_ret. split; [done|]. exists ext. by apply Hquiet.
    + apply wp_ret. split; [done|]. exists ext.
      replace d with (set_dd_mPowerStatus (dd_mPowerStatus d) d) by by destruct d. by apply Hquiet.
Qed.

Lemma off_run ops ext fb0 bl0 d w :
  Forall off_op ops → off_ok ext fb0 bl0 (length ops) d w →
  wp (drm_run ops d) (λ r w', same_commits w w' ∧ dd_mPowerStatus r.2 ≠ POWER_STATUS_ON) w.
Proof.
  intros Hops. revert ext d w. induction Hops as [|op ops Hop Hops IH]; intros ext d w Hok; simpl.
  { apply wp_ret. by destruct Hok. }
  apply wp_bind. eapply wp_mono; [by eapply off_step|]. cbn beta. intros r w1 [Hs [ext1 Hok1]].
  apply wp_bind. eapply wp_mono; [by eapply IH|]. cbn beta. intros r' w2 [Hs2 Hoff].
  apply wp_ret. split; [by etrans|done].
Qed.

(** Whatever returns has made no commit, [GetDisplayCompChange] included. *)
Lemma off_commits op d w :
  stays_off op → dd_mPowerStatus d ≠ POWER_STATUS_ON →
  wlp (drm_exec op d) (λ r w', same_commits w w' ∧ dd_mPowerStatus r.2 ≠ POWER_STATUS_ON) w.
Proof.
  intros Hop Hoff. destruct op as [op|va s].
  - destruct (decide (op = OpCommit)) as [->|Hnc].
    + simpl. unfold DrmDisplay_Commit. rewrite bool_decide_true //. by apply wlp_ret.
    + replace (drm_exec (OpHdi op) d)
        with (let! r := exec op (dd_hdi d) in dret (r.1, set_dd_hdi r.2 d)) by by destruct op.
      apply wlp_bind. intros r w1 Hr. apply wlp_ret. split; [by eapply commits_exec|done].
  - simpl. unfold SetDisplayPowerStatus. simpl in Hop.
    destruct (ConvertToDrmPowerState s).
    + rewrite (bool_decide_false (dd_mPowerStatus d = POWER_STATUS_ON)) // andb_false_r.
      by apply wlp_ret.
    + by apply wlp_ret.
Qed.
Lemma off_run_commits ops d w :
  Forall stays_off ops → dd_mPowerStatus d ≠ POWER_STATUS_ON →
  wlp (drm_run ops d) (λ r w', same_commits w w' ∧ dd_mPowerStatus r.2 ≠ POWER_STATUS_ON) w.
Proof.
  intros Hops. revert d w. induction Hops as [|op ops Hop Hops IH]; intros d w Hoff; simpl.
  { by apply wlp_ret. }
  apply wlp_bind. eapply wlp_mono; [by apply off_commits|]. cbn beta. intros r w1 [Hs Hoff1].
  apply wlp_bind. eapply wlp_mono; [by apply IH|]. cbn beta. intros r' w2 [Hs2 Hoff2].
  apply wlp_ret. split; [by etrans|done].
Qed.

End power.

(** C12: a display that is off shows nothing.  On an initialised display whose
    power status is not [ON], every sequence of calls (creating, destroying,
    reordering and filling layers, client buffers, prepares, commits, queries,
    requests for other power states but [ON]) that returns has made no atomic commit
    at all and leaves the display off: RenderService's frames are dropped, and the
    screen keeps the black frame, until the power is back on.  And every such
    sequence without [GetDisplayCompChange], which may read a change list that
    dangles, does run to its end. *)
Theorem power_off_no_frames FB DMA CPU_READ CPU_WRITE ops ext fb0 bl0 d w :
  dd_mPowerStatus d ≠ POWER_STATUS_ON → Forall stays_off ops →
  disp_ok (dd_hdi d) w → res_ok ext fb0 bl0 w → initialised (dd_hdi d) →
  is_u32 (pool_mIdleId (w_layer_ids w)) →
  Z.of_nat (size (pool_mIdSets (w_layer_ids w)) + length ops) < INVALIDE_LAYER_ID →
  (∀ r w', drm_run FB DMA CPU_READ CPU_WRITE ops d w = Some (r, w') →
           dk_commits (w_drm w') = dk_commits (w_drm w) ∧
           dd_mPowerStatus r.2 ≠ POWER_STATUS_ON) ∧
  (OpHdi OpCompChange ∉ ops →
   ∃ r w', drm_run FB DMA CPU_READ CPU_WRITE ops d w = Some (r, w')).
Proof.
  intros Hoff Hops Hok Hres Hini Hu Hsize. split.
  - intros r w' Hr. exact (off_run_commits _ _ _ _ ops d w Hops Hoff r w' Hr).
  - intros Hn. destruct (off_run FB DMA CPU_READ CPU_WRITE ops ext fb0 bl0 d w)
      as (r & w' & H & _); [|done|by exists r, w'].
    rewrite Forall_forall in Hops. apply Forall_forall. intros op Hin.
    specialize (Hops op Hin). destruct op as [op|va st]; [|done]. by intros ->.
Qed.

(** A world with one CRTC (3), one connector (4) and one primary plane (5), whose
    driver grants everything; a display that has been initialised on it. *)
Definition demo_mode : ModeInfo := mkModeInfo 64 64 60 DRM_MODE_TYPE_PREFERRED.
Definition demo_connector : ConnectorRes :=
  mkConnectorRes 4 11 0 0 6 DRM_MODE_CONNECTED [6] [demo_mode].
Definition demo_comp : HdiDrmComposition := mkHdiDrmComposition (Some 4) (Some 3) [0%nat] [] [0%nat] [].
Definition demo_drm_hdi : HdiDisplay DrmDisplayComp :=
  mkHdiDisplay 0 ∅ [] (Some 1) []
    (Some (mkHdiComposer [CompGfx HdiGfxComposition_new] [CompDrm demo_comp])).
Definition demo_drm (s : DispPowerStatus) : DrmDisplay :=
  mkDrmDisplay demo_drm_hdi (Some 4) (Some 3) true s None None.

Lemma demo_drm_disp_ok s : disp_ok (dd_hdi (demo_drm s)) demo_world.
Proof. destruct demo_disp_ok as [H1 H2 H3 H4 H5 H6 H7]. by split. Qed.

Lemma power_off_no_frames_witness :
  ∃ r w', drm_run 1 2 4 8 [OpHdi (OpCreate LAYER_TYPE_GRAPHIC);
            OpHdi (OpBuffer 0 (Some demo_buffer) 8); OpHdi OpPrepare; OpHdi OpCommit]
            (demo_drm POWER_STATUS_OFF) demo_world = Some (r, w') ∧
          dk_commits (w_drm w') = dk_commits (w_drm demo_world).
Proof.
  destruct (power_off_no_frames 1 2 4 8 [OpHdi (OpCreate LAYER_TYPE_GRAPHIC);
      OpHdi (OpBuffer 0 (Some demo_buffer) 8); OpHdi OpPrepare; OpHdi OpCommit]
    {[0; 1; 2; 7; 8]} {[0]} ∅ (demo_drm POWER_STATUS_OFF) demo_world) as [H1 H2].
  - discriminate.
  - repeat (constructor; [done|]). constructor.
  - apply demo_drm_disp_ok.
  - apply demo_res_ok.
  - split; by eexists.
  - split; [by vm_compute|reflexivity].
  - reflexivity.
  - destruct H2 as (r & w' & Hr); [set_solver|].
    exists r, w'. split; [exact Hr|exact (proj1 (H1 r w' Hr))].
Defined.

(** ** The request of a frame *)

(** The driver grants every call but the making of framebuffers, and gives no handle
    or blob the id that marks an invalid one; or it grants framebuffers too. *)
Definition grants_others (k : DrmKernel) : Prop :=
  ∀ n c, c ≠ AddFB2 → (dk_answer k n c).1 = 0 ∧
    (c = PrimeFDToHandle → (dk_answer k n c).2 ≠ INVALID_DRM_ID) ∧
    (c = CreatePropertyBlob → (dk_answer k n c).2 ≠ DRM_INVALID_ID).
Definition driver_grants (k : DrmKernel) : Prop :=
  grants_others k ∧
  ∀ n, (dk_answer k n AddFB2).1 = 0 ∧ (dk_answer k n AddFB2).2 ≠ INVALID_DRM_ID.
Definition drm_kept (k k' : DrmKernel) : Prop :=
  dk_fd k' = dk_fd k ∧ dk_answer k' = dk_answer k ∧ dk_commits k' = dk_commits k.
#[export] Instance drm_kept_preorder : PreOrder drm_kept.
Proof. split; [done|]. unfold drm_kept. intros x y z. naive_solver congruence. Qed.
Lemma grants_kept k k' : dk_answer k' = dk_answer k → grants_others k → grants_others k'.
Proof. intros Ha H n c. rewrite Ha. apply H. Qed.
Lemma driver_grants_kept k k' : dk_answer k' = dk_answer k → driver_grants k → driver_grants k'.
Proof. intros Ha [H1 H2]. split; [by apply (grants_kept k)|]. intros n. rewrite Ha. apply H2. Qed.

(** The acquire fence on the plane. *)
Definition fence_props (plane : DrmPlane) (l : HdiLayer) : AtomicReq :=
  if negb (pl_mPropFenceInId plane =? 0) && (0 <=? l_mAcquireFence l)
  then [(pl_mId plane, pl_mPropFenceInId plane, l_mAcquireFence l)] else [].
(** What a granted frame asks for: the out-fence of the CRTC, the layer's fence,
    framebuffer and CRTC on the plane and, on a mode set, the CRTC switched on with
    the mode blob and the connector routed to it. *)
Definition plane_props (crtc : DrmCrtc) (plane : DrmPlane) (l : HdiLayer) (g : DrmGemBuffer)
    : AtomicReq :=
  fence_props plane l ++
  [(pl_mId plane, pl_mPropFbId plane, gb_mFdId g);
   (pl_mId plane, pl_mPropCrtcId plane, crtc_mId crtc)].
Definition mode_props (crtc : DrmCrtc) (conn : DrmConnector) (blob : Z) : AtomicReq :=
  if crtc_mNeedModeSet crtc && bool_decide (is_Some (conn_mModes conn !! crtc_mActiveModeId crtc))
  then [(crtc_mId crtc, crtc_mActivePropId crtc, 1); (crtc_mId crtc, crtc_mModePropId crtc, blob);
        (conn_mId conn, conn_mPropCrtcId conn, crtc_mId crtc)]
  else [].
Definition frame_request (crtc : DrmCrtc) (conn : DrmConnector) (plane : DrmPlane) (l : HdiLayer)
    (g : DrmGemBuffer) (blob : Z) : AtomicReq :=
  [(crtc_mId crtc, crtc_mOutFencePropId crtc, OUT_FENCE_ADDR)] ++
  plane_props crtc plane l g ++ mode_props crtc conn blob.

Lemma wp_Add_granted req o p v (Q : Z * AtomicReq → World → Prop) w :
  grants_others (w_drm w) →
  (∀ k', drm_kept (w_drm w) k' → Q (0, req ++ [(o, p, v)]) (set_w_drm k' w)) →
  wp (drmModeAtomicAddProperty req o p v) Q w.
Proof.
  intros Hg HQ. unfold drmModeAtomicAddProperty. eapply wp_step; [done|].
  destruct (Hg (dk_calls (w_drm w)) (AtomicAddProperty o p v)) as [-> _]; [done|]. by apply wp_ret, HQ.
Qed.

Lemma wp_wlp {A} (m : D A) P Q w : wp m P w → wlp m Q w → wp m (λ a w', P a w' ∧ Q a w') w.
Proof. intros (a & w' & Hm & HP) HQ. exists a, w'. eauto. Qed.

Lemma wlp_gem_valid fd hdl w :
  driver_grants (w_drm w) → 0 ≤ fd → wlp (DrmGemBuffer_make fd hdl) (λ g _, gem_IsValid g = true) w.
Proof.
  intros [Hg Hgf] Hfd. unfold DrmGemBuffer_make, drmPrimeFDToHandle, drmModeAddFB2.
  destruct (Z.ltb_spec fd 0); [lia|]. apply wlp_bind, wlp_bind. intros a w1 [= <- <-].
  destruct (Hg (dk_calls (w_drm w)) PrimeFDToHandle) as (H1 & H2 & _); [done|]. rewrite H1 /=.
  apply wlp_bind. intros ? w2 [= <- <-]. apply wlp_ret. rewrite H1 /=.
  apply wlp_bind, wlp_bind. intros a w3 [= <- <-].
  destruct (Hgf (S (dk_calls (w_drm w)))) as (H3 & H4).
  cbn [w_drm set_w_drm dk_answer set_dk_calls dk_calls set_dk_gem]. rewrite H3 /=.
  apply wlp_bind. intros ? w4 [= <- <-]. apply wlp_ret. rewrite H3 /=. apply wlp_ret.
  unfold gem_IsValid. cbn [gb_mGemHandle gb_mFdId].
  by rewrite !(proj2 (Z.eqb_neq _ _)); auto.
Qed.

(** [GetGemBuffer], when it is known whether the new framebuffer is valid. *)
Lemma wp_GetGem v p l hdl (Q : DrmGemBuffer → World → Prop) w :
  (∀ fd, dk_fd (w_drm w) = Some fd → wlp (DrmGemBuffer_make fd hdl) (λ g _, gem_IsValid g = v) w) →
  is_Some (dk_fd (w_drm w)) → w_layers w !! p = Some l → l_mHdiBuffer l = Some hdl →
  (∀ g k', gem_IsValid g = v → drm_kept (w_drm w) k' →
     Q g (set_w_drm k' (set_w_layers (<[p :=
       set_l_mCurrentBuffer (Some g) (set_l_lastBuffer_ (l_mCurrentBuffer l) l)]> (w_layers w)) w))) →
  wp (GetGemBuffer p) Q w.
Proof.
  intros Hv [fd Hfd] Hp Hb HQ.
  assert (wlp (GetGemBuffer p) (λ g _, gem_IsValid g = v) w) as Hgem.
  { unfold GetGemBuffer. apply wlp_bind. intros fd' w1 [= <- <-]. apply wlp_bind.
    intros l' w1 Hl. unfold deref in Hl. rewrite Hp in Hl. injection Hl as <- <-. rewrite Hb Hfd.
    apply wlp_bind. eapply wlp_mono; [by apply Hv|]. cbn beta. intros g w2 Hval.
    do 3 (apply wlp_any; intros). by apply wlp_ret. }
  assert (wp (GetGemBuffer p) (λ g w', ∃ k', drm_kept (w_drm w) k' ∧ w' =
    set_w_drm k' (set_w_layers (<[p := set_l_mCurrentBuffer (Some g)
      (set_l_lastBuffer_ (l_mCurrentBuffer l) l)]> (w_layers w)) w)) w) as Hw.
  { eapply (wp_GetGemBuffer ∅); [done|done|]. intros g k' l' (Ha & Hb' & Hc & _) _. by exists k'. }
  eapply wp_mono; [exact (wp_wlp _ _ _ _ Hw Hgem)|]. cbn beta.
  intros g w' [(k' & Hk & ->) Hval]. by apply HQ.
Qed.

Lemma wp_fence_props plane l req (Q : Z * AtomicReq → World → Prop) w :
  grants_others (w_drm w) →
  (∀ k', drm_kept (w_drm w) k' → Q (0, req ++ fence_props plane l) (set_w_drm k' w)) →
  wp (if negb (pl_mPropFenceInId plane =? 0) && (0 <=? l_mAcquireFence l)
      then drmModeAtomicAddProperty req (pl_mId plane) (pl_mPropFenceInId plane) (l_mAcquireFence l)
      else dret (0, req)) Q w.
Proof.
  intros Hg HQ. unfold fence_props in HQ. case_match; [by apply wp_Add_granted|].
  apply wp_ret. specialize (HQ (w_drm w)). rewrite app_nil_r in HQ.
  replace (set_w_drm (w_drm w) w) with w in HQ by by destruct w. by apply HQ.
Qed.

Lemma wp_ApplyPlane_granted crtc p l hdl plane req (Q : DispError * AtomicReq → World → Prop) w :
  driver_grants (w_drm w) → (∃ fd, dk_fd (w_drm w) = Some fd ∧ 0 ≤ fd) →
  w_layers w !! p = Some l → l_mHdiBuffer l = Some hdl →
  (∀ g k', gem_IsValid g = true → drm_kept (w_drm w) k' →
     Q (DISPLAY_SUCCESS, req ++ plane_props crtc plane l g)
       (set_w_drm k' (set_w_layers (<[p :=
         set_l_mCurrentBuffer (Some g) (set_l_lastBuffer_ (l_mCurrentBuffer l) l)]> (w_layers w)) w))) →
  wp (ApplyPlane (crtc_mId crtc) p plane req) Q w.
Proof.
  intros Hg (fd & Hfd & Hpos) Hp Hb HQ. unfold ApplyPlane, plane_props in *. apply wp_bind.
  eapply wp_deref; [done|]. apply wp_bind, wp_fence_props; [apply Hg|]. intros k1 Hk1. simpl.
  pose proof (driver_grants_kept _ k1 (proj1 (proj2 Hk1)) Hg) as Hg1.
  assert (dk_fd k1 = Some fd) as Hfd1 by (destruct Hk1 as (Hk1 & _); by rewrite -Hfd).
  apply wp_bind. eapply (wp_GetGem true p l hdl); [|done|done|done|].
  { cbn. intros fd' ?. simplify_eq. by apply wlp_gem_valid. }
  cbn [w_drm set_w_drm w_layers]. intros g k2 Hval Hk2. rewrite Hval. simpl.
  pose proof (driver_grants_kept _ k2 (proj1 (proj2 Hk2)) Hg1) as Hg2.
  apply wp_bind, wp_Add_granted; [apply Hg2|]. cbn [w_drm set_w_drm]. intros k3 Hk3. simpl.
  pose proof (driver_grants_kept _ k3 (proj1 (proj2 Hk3)) Hg2) as Hg3.
  apply wp_bind, wp_Add_granted; [apply Hg3|]. cbn [w_drm set_w_drm]. intros k4 Hk4. simpl.
  apply wp_ret. rewrite -!app_assoc. apply (HQ g k4); [done|]. by etrans; [|etrans; [|etrans]].
Qed.

Lemma wp_UpdateMode_granted crtc conn req (Q : DispError * option Z * AtomicReq → World → Prop) w :
  grants_others (w_drm w) → (∃ fd, dk_fd (w_drm w) = Some fd ∧ 0 ≤ fd) →
  (∀ b o k', drm_kept (w_drm w) k' →
     Q (DISPLAY_SUCCESS, o, req ++ mode_props crtc conn b) (set_w_drm k' w)) →
  wp (UpdateMode crtc conn req) Q w.
Proof.
  intros Hg (fd & Hfd & Hpos) HQ. unfold UpdateMode, mode_props in *.
  destruct (crtc_mNeedModeSet crtc); simpl.
  2:{ apply wp_ret. specialize (HQ 0 None (w_drm w)). simpl in HQ. rewrite app_nil_r in HQ.
      replace (set_w_drm (w_drm w) w) with w in HQ by by destruct w. by apply HQ. }
  unfold GetModeBlockFromId. destruct (conn_mModes conn !! crtc_mActiveModeId crtc) as [m|] eqn:Em.
  2:{ apply wp_bind, wp_ret, wp_ret. rewrite bool_decide_false /= in HQ; [|by intros [? ?]].
      specialize (HQ 0 None (w_drm w)). rewrite app_nil_r in HQ.
      replace (set_w_drm (w_drm w) w) with w in HQ by by destruct w. by apply HQ. }
  rewrite bool_decide_true /= in HQ; [|done].
  unfold ModeBlock_make, drmModeCreatePropertyBlob. apply wp_bind, wp_bind. eapply wp_step; [done|].
  rewrite Hfd. destruct (Z.ltb_spec fd 0); [lia|]. apply wp_bind. eapply wp_step; [done|].
  destruct (Hg (dk_calls (w_drm w)) CreatePropertyBlob) as (H1 & _ & H2); [done|]. rewrite H1 /=.
  eapply wp_step; [done|]. apply wp_ret. rewrite H1 /=. apply wp_ret, wp_ret.
  rewrite (proj2 (Z.eqb_neq _ _)); [|by apply H2].
  set (b := (dk_answer _ _ _).2).
  apply wp_bind, wp_Add_granted; [exact (grants_kept _ _ eq_refl Hg)|].
  cbn [w_drm set_w_drm]. intros k1 Hk1. simpl.
  pose proof (grants_kept (w_drm w) k1 (proj1 (proj2 Hk1)) Hg) as Hg1.
  apply wp_bind, wp_Add_granted; [done|]. cbn [w_drm set_w_drm]. intros k2 Hk2. simpl.
  pose proof (grants_kept _ k2 (proj1 (proj2 Hk2)) Hg1) as Hg2.
  apply wp_bind, wp_Add_granted; [done|]. cbn [w_drm set_w_drm]. intros k3 Hk3. simpl.
  apply wp_ret. rewrite -!app_assoc. apply (HQ b (Some b) k3).
  by etrans; [|etrans; [|etrans]].
Qed.

Lemma wp_commit_granted p l req (Q : DispError → World → Prop) w :
  grants_others (w_drm w) → lowest_free (fds w) < w_nofile w → w_layers w !! p = Some l →
  (∀ w' fence, dk_commits (w_drm w') = dk_commits (w_drm w) ++ [req] →
     w_layers w' = <[p := set_l_releaseFences_ (l_releaseFences_ l ++ [fence]) l]> (w_layers w) →
     Q DISPLAY_SUCCESS w') →
  wp (commit_request [p] req) Q w.
Proof.
  intros Hg Hroom Hp HQ. unfold commit_request, drmModeAtomicCommit. apply wp_bind.
  eapply wp_step; [done|]. destruct (Hg (dk_calls (w_drm w)) AtomicCommit) as (-> & _); [done|].
  cbn [Z.eqb]. eapply wp_step.
  { unfold open_fd. cbn [fds set_w_drm w_kern w_nofile]. change (k_fds (w_kern w)) with (fds w).
    by rewrite (proj2 (Z.ltb_lt _ _) Hroom). }
  change (fds (set_w_drm (set_dk_calls (S (dk_calls (w_drm w))) (w_drm w)) w)) with (fds w).
  destruct (lowest_free_spec (fds w)) as [H0 _].
  destruct (Z.ltb_spec (lowest_free (fds w)) 0); [lia|].
  eapply wp_step; [done|]. apply wp_ret. simpl. unfold publish_fences. simpl.
  apply wp_bind, wp_bind, wp_bind, wp_bind, wp_dup_new. intros fence _.
  eapply wp_update; [done|]. apply wp_ret, wp_close, wp_ret. by apply (HQ _ fence).
Qed.

Lemma wp_delete_block_frame b (Q : unit → World → Prop) w :
  (∀ k', dk_commits k' = dk_commits (w_drm w) → Q tt (set_w_drm k' w)) → wp (delete_block b) Q w.
Proof.
  intros HQ. assert (Q tt w) as HQ0.
  { replace w with (set_w_drm (w_drm w) w) by by destruct w. by apply HQ. }
  unfold delete_block, ModeBlock_destroy, drmModeDestroyPropertyBlob.
  destruct b as [b|]; [|by apply wp_ret]. eapply wp_step; [done|].
  apply wp_if; intros _; [|by apply wp_ret]. apply wp_bind. eapply wp_step; [done|].
  apply wp_if; intros _; [eapply wp_step; [done|]|]; by apply wp_ret, wp_ret, HQ.
Qed.

Lemma wlp_gem_invalid fd hdl w :
  (∀ n, (dk_answer (w_drm w) n AddFB2).1 ≠ 0) →
  wlp (DrmGemBuffer_make fd hdl) (λ g _, gem_IsValid g = false) w.
Proof.
  intros Hno. unfold DrmGemBuffer_make, drmPrimeFDToHandle, drmModeAddFB2.
  assert (∀ h f m, gem_IsValid (mkDrmGemBuffer h 0 f m) = false) as Hinv.
  { intros. unfold gem_IsValid. simpl. by rewrite andb_false_r. }
  case_match; [by apply wlp_ret|]. apply wlp_bind, wlp_bind. intros a w1 [= <- <-].
  apply (wlp_mono _ (λ _ w', dk_answer (w_drm w') = dk_answer (w_drm w))).
  { case_match; [|by apply wlp_ret]. apply wlp_bind. intros ? w2 [= <- <-]. by apply wlp_ret. }
  cbn beta. intros r w2 Ha. case_match; [by apply wlp_ret|].
  apply wlp_bind, wlp_bind. intros f w3 [= <- <-].
  specialize (Hno (dk_calls (w_drm w2))). rewrite Ha.
  rewrite (proj2 (Z.eqb_neq _ _) Hno). apply wlp_ret.
  rewrite (proj2 (Z.eqb_neq _ _) Hno). by apply wlp_ret.
Qed.

Lemma wp_ApplyPlane_refused crtcId p l hdl plane req (Q : DispError * AtomicReq → World → Prop) w :
  grants_others (w_drm w) → (∀ n, (dk_answer (w_drm w) n AddFB2).1 ≠ 0) →
  is_Some (dk_fd (w_drm w)) → w_layers w !! p = Some l → l_mHdiBuffer l = Some hdl →
  (∀ k' l', drm_kept (w_drm w) k' → Q (DISPLAY_FAILURE, req ++ fence_props plane l)
       (set_w_drm k' (set_w_layers (<[p := l']> (w_layers w)) w))) →
  wp (ApplyPlane crtcId p plane req) Q w.
Proof.
  intros Hg Hno Hfd Hp Hb HQ. unfold ApplyPlane. eapply wp_bind, wp_deref; [done|].
  apply wp_bind, wp_fence_props; [done|]. intros k1 Hk1. simpl.
  pose proof Hk1 as (Hfd1 & Ha1 & _). apply wp_bind.
  eapply (wp_GetGem false p l hdl); [| |done|done|].
  - intros fd _. apply wlp_gem_invalid. cbn. by rewrite Ha1.
  - cbn. by rewrite Hfd1.
  - cbn [w_drm set_w_drm w_layers]. intros g k2 Hval Hk2. rewrite Hval. simpl. apply wp_ret.
    eapply HQ. by etrans.
Qed.

(** Both theorems below are about one layer on the first plane of a composition. *)
Section frame.
Context (c : HdiDrmComposition) (crtcId connId : Z) (crtc : DrmCrtc) (conn : DrmConnector).
Context (i : nat) (planes : list nat) (plane : DrmPlane) (p : Z) (l : HdiLayer).
Context (hdl : HdiLayerBuffer) (w : World).

(** The composition is set up on these objects, and the layer has a buffer. *)
Record on_plane : Prop := {
  op_crtc : dc_mCrtc c = Some crtcId ∧ w_crtcs w !! crtcId = Some crtc;
  op_connector : dc_mConnector c = Some connId ∧ w_connectors w !! connId = Some conn;
  op_plane : dc_mPlanes c = i :: planes ∧ w_planes w !! i = Some plane;
  op_layer : dc_mCompLayers c = [p] ∧ w_layers w !! p = Some l;
  op_buffer : l_mHdiBuffer l = Some hdl;
  op_fd : ∃ fd, dk_fd (w_drm w) = Some fd ∧ 0 ≤ fd;
  op_room : lowest_free (fds w) < w_nofile w;
}.

Lemma wp_Apply_frame (R : AtomicReq → HdiLayer → Prop) modeSet :
  on_plane → grants_others (w_drm w) →
  (∀ k, drm_kept (w_drm w) k →
     wp (ApplyPlane (crtc_mId crtc) p plane
           [(crtc_mId crtc, crtc_mOutFencePropId crtc, OUT_FENCE_ADDR)])
        (λ r w', ∃ k' l', drm_kept (w_drm w) k' ∧ R r.2 l' ∧
           w' = set_w_drm k' (set_w_layers (<[p := l']> (w_layers w)) w)) (set_w_drm k w)) →
  wp (DrmComp_Apply modeSet c) (λ r w', r = (DISPLAY_SUCCESS, c) ∧ ∃ req l' blob fence, R req l' ∧
    dk_commits (w_drm w') = dk_commits (w_drm w) ++ [req ++ mode_props crtc conn blob] ∧
    w_layers w' !! p = Some (set_l_releaseFences_ (l_releaseFences_ l' ++ [fence]) l')) w.
Proof.
  intros [[Hc Hcrtc] [Hn Hconn] [Hpl Hplane] [Hcl Hp] Hb (fd & Hfd & Hpos) Hroom] Hg HR.
  unfold DrmComp_Apply. rewrite Hpl Hcl Hc Hn. simpl. eapply wp_step; [done|].
  destruct (Hg (dk_calls (w_drm w)) AtomicAlloc) as (-> & _); [done|]. simpl.
  eapply wp_step; [done|].
  eapply wp_step; [unfold deref_crtc; cbn [w_crtcs set_w_drm]; by rewrite Hcrtc|].
  apply wp_bind, wp_Add_granted; [exact (grants_kept _ _ eq_refl Hg)|].
  cbn [w_drm set_w_drm]. intros k1 Hk1. simpl. apply wp_bind.
  eapply wp_step; [unfold deref_plane; cbn [w_planes set_w_drm]; by rewrite Hplane|].
  apply wp_bind. eapply wp_mono; [by apply (HR k1)|]. cbn beta.
  intros r ? (k2 & l' & Hk2 & HRr & ->).
  set (w2 := set_w_drm k2 _). apply (wp_mono _ (λ req w', req = r.2 ∧ w' = w2)).
  { case_match; by apply wp_ret. }
  cbn beta. intros ? ? [-> ->]. eapply wp_step; [done|].
  eapply wp_step; [unfold deref_connector; cbn [w_connectors set_w_drm set_w_layers];
                   by rewrite Hconn|].
  pose proof (grants_kept _ k2 (proj1 (proj2 Hk2)) Hg) as Hg2.
  apply wp_bind, wp_UpdateMode_granted; [done| |].
  { exists fd. split; [|done]. cbn. by destruct Hk2 as (-> & _). }
  cbn [w_drm set_w_drm]. intros b o k3 Hk3. simpl.
  pose proof (grants_kept _ k3 (proj1 (proj2 Hk3)) Hg2) as Hg3.
  apply wp_bind. eapply wp_commit_granted; [done|done|by apply lookup_insert_eq|].
  cbn [w_drm set_w_drm w_layers set_w_layers]. intros w4 fence Hcom Hlay.
  apply wp_bind, wp_delete_block_frame. intros k4 Hk4. apply wp_ret. split; [done|].
  exists r.2, l', b, fence. split; [done|]. cbn [w_drm set_w_drm w_layers]. split.
  - rewrite Hk4 Hcom. destruct Hk2 as (_ & _ & Hc2), Hk3 as (_ & _ & Hc3). by rewrite Hc3 Hc2.
  - rewrite Hlay. apply lookup_insert_eq.
Qed.

(** C9: what a frame asks the driver for.  When the driver grants its calls and a
    descriptor is free for the out-fence, [HdiDrmComposition::Apply] on a CRTC with a
    primary plane and the client layer makes exactly one atomic commit: the CRTC's
    out-fence pointer, then on the plane the layer's acquire fence (if it has one and
    the plane takes one), a valid framebuffer made from the layer's current buffer and
    the CRTC, then on a mode set the CRTC switched on, its mode blob and the
    connector's CRTC.  The layer keeps that framebuffer, and one more release fence is
    queued behind the earlier ones. *)
Theorem frame_request_exact modeSet :
  on_plane → driver_grants (w_drm w) →
  ∃ w' g blob l' fence, DrmComp_Apply modeSet c w = Some (DISPLAY_SUCCESS, c, w') ∧
    gem_IsValid g = true ∧
    dk_commits (w_drm w') = dk_commits (w_drm w) ++ [frame_request crtc conn plane l g blob] ∧
    w_layers w' !! p = Some l' ∧ l_mCurrentBuffer l' = Some g ∧
    l_releaseFences_ l' = l_releaseFences_ l ++ [fence].
Proof.
  intros Hon Hg. pose proof Hon as [_ _ _ [_ Hp] Hb Hfd _].
  destruct (wp_Apply_frame (λ req l', ∃ g, gem_IsValid g = true ∧
      req = [(crtc_mId crtc, crtc_mOutFencePropId crtc, OUT_FENCE_ADDR)] ++
            plane_props crtc plane l g ∧
      l' = set_l_mCurrentBuffer (Some g) (set_l_lastBuffer_ (l_mCurrentBuffer l) l)) modeSet)
    as (? & w' & Hrun & -> & ? & ? & blob & fence & (g & Hval & -> & ->) & Hcom & Hl');
    [done|apply Hg| |].
  - intros k Hk. pose proof (driver_grants_kept _ k (proj1 (proj2 Hk)) Hg) as Hgk.
    eapply wp_ApplyPlane_granted; [done| |done|done|].
    { destruct Hfd as (fd & ? & ?). exists fd. cbn. by destruct Hk as (-> & _). }
    cbn [w_drm set_w_drm]. intros g k' Hval Hk'. eexists k', _.
    split; [by etrans|]. split; [by exists g|done].
  - exists w', g, blob. eexists _, fence. split_and!; [done|done| |exact Hl'|done|done].
    by rewrite Hcom -app_assoc.
Qed.

(** A plane that fails is passed over in silence.  If the driver refuses the
    client layer's framebuffer, [ApplyPlane] fails, but its result is overwritten by
    that of [UpdateMode]: the frame is committed with nothing on the plane (no
    framebuffer, no CRTC, though perhaps the acquire fence), and [Apply] reports
    success. *)
Theorem plane_failure_committed modeSet :
  on_plane → grants_others (w_drm w) → (∀ n, (dk_answer (w_drm w) n AddFB2).1 ≠ 0) →
  ∃ w' blob, DrmComp_Apply modeSet c w = Some (DISPLAY_SUCCESS, c, w') ∧
    dk_commits (w_drm w') = dk_commits (w_drm w) ++
      [(crtc_mId crtc, crtc_mOutFencePropId crtc, OUT_FENCE_ADDR) ::
       fence_props plane l ++ mode_props crtc conn blob].
Proof.
  intros Hon Hg Hno. pose proof Hon as [_ _ _ [_ Hp] Hb (fd & Hfd & _) _].
  destruct (wp_Apply_frame (λ req _,
      req = (crtc_mId crtc, crtc_mOutFencePropId crtc, OUT_FENCE_ADDR) :: fence_props plane l) modeSet)
    as (? & w' & Hrun & -> & ? & ? & blob & ? & -> & Hcom & _); [done|done| |].
  - intros k Hk. pose proof Hk as (Hfdk & Ha & _).
    eapply (wp_ApplyPlane_refused _ _ l hdl); [by eapply grants_kept| | |done|done|].
    + intros n. cbn. rewrite Ha. apply Hno.
    + cbn. by rewrite Hfdk Hfd.
    + cbn [w_drm set_w_drm]. intros k' l' Hk'. exists k', l'. split; [by etrans|done].
  - by exists w', blob.
Qed.
End frame.

(** The world of the demo display with the CRTC, the connector and the plane, and a
    buffer on the client layer. *)
Definition demo_crtc : DrmCrtc := mkDrmCrtc 3 31 32 33 0 0 0 true.
Definition demo_plane : DrmPlane := mkDrmPlane 5 1 51 52 53 0 DRM_PLANE_TYPE_PRIMARY [].
Definition demo_layer_buffer : HdiLayerBuffer :=
  mkHdiLayerBuffer demo_buffer 0 64 64 256 PIXEL_FMT_BGRA_8888 7.
Definition demo_client : HdiLayer :=
  set_l_mHdiBuffer (Some demo_layer_buffer)
    (HdiLayer_new LAYER_TYPE_GRAPHIC).
Definition demo_drm_world : World :=
  set_w_layers {[1 := demo_client]} (set_w_crtcs {[3 := demo_crtc]}
    (set_w_connectors {[4 := DrmConnector_make demo_connector]}
      (set_w_planes [demo_plane] demo_world))).

Lemma demo_on_plane answer :
  on_plane (mkHdiDrmComposition (Some 4) (Some 3) [0%nat] [] [0%nat] [1]) 3 4 demo_crtc
    (DrmConnector_make demo_connector) 0 [] demo_plane 1 demo_client demo_layer_buffer
    (set_w_drm (DrmKernel_new (Some 2) answer) demo_drm_world).
Proof. split; try (by vm_compute). by exists 2. Qed.

Lemma frame_request_exact_witness :
  ∃ w' g blob, DrmComp_Apply false (mkHdiDrmComposition (Some 4) (Some 3) [0%nat] [] [0%nat] [1])
      demo_drm_world
    = Some (DISPLAY_SUCCESS, mkHdiDrmComposition (Some 4) (Some 3) [0%nat] [] [0%nat] [1], w') ∧
    dk_commits (w_drm w') =
      [frame_request demo_crtc (DrmConnector_make demo_connector) demo_plane demo_client g blob].
Proof.
  destruct (frame_request_exact (mkHdiDrmComposition (Some 4) (Some 3) [0%nat] [] [0%nat] [1])
    3 4 demo_crtc (DrmConnector_make demo_connector) 0 [] demo_plane 1 demo_client
    demo_layer_buffer demo_drm_world false)
    as (w' & g & blob & l' & fence & H1 & _ & H2 & _).
  - apply (demo_on_plane (λ _ _, (0, 5))).
  - split; [intros n k _|intros n]; by vm_compute.
  - exists w', g, blob. by split.
Defined.

Lemma plane_failure_committed_witness :
  let answer (n : nat) call := match call with AddFB2 => (-1, 0) | _ => (0, 5) end in
  let c := mkHdiDrmComposition (Some 4) (Some 3) [0%nat] [] [0%nat] [1] in
  let w := set_w_drm (DrmKernel_new (Some 2) answer) demo_drm_world in
  ∃ w' blob, DrmComp_Apply false c w = Some (DISPLAY_SUCCESS, c, w') ∧
    dk_commits (w_drm w') = [(3, 32, OUT_FENCE_ADDR) ::
      mode_props demo_crtc (DrmConnector_make demo_connector) blob].
Proof.
  intros answer c w.
  destruct (plane_failure_committed c 3 4 demo_crtc (DrmConnector_make demo_connector) 0 []
    demo_plane 1 demo_client demo_layer_buffer w false) as (w' & blob & H1 & H2).
  - apply demo_on_plane.
  - intros n call Hne. by destruct call.
  - intros n. by vm_compute.
  - exists w', blob. by split.
Defined.

(** ** The black layer's fences *)

(** The fences the loop closes: up to the first that is not a descriptor. *)
Fixpoint leading (fences : list Z) : list Z :=
  match fences with
  | fd :: fences => if 0 <=? fd then fd :: leading fences else []
  | [] => []
  end.

Lemma drain_spec ext fb0 bl0 p fences l w :
  res_ok ext fb0 bl0 w → w_layers w !! p = Some l → l_releaseFences_ l = fences →
  wp (drain (S (length fences)) p) (λ done w', done = true ∧ res_ok ext fb0 bl0 w' ∧
    fds w' = fds w ∖ list_to_set (leading fences) ∧
    ∃ l', w_layers w' !! p = Some l' ∧
          l_releaseFences_ l' = drop (S (length (leading fences))) fences) w.
Proof.
  revert l w. induction fences as [|fd fences IH]; intros l w Hres Hp Hf.
  - cbn [length drain]. apply wp_bind. unfold GetReleaseFenceFd.
    eapply wp_bind, wp_deref; [done|]. rewrite Hf. apply wp_ret, wp_ret.
    split_and!; [done|done|simpl; by rewrite difference_empty_L|by exists l].
  - change (S (length (fd :: fences))) with (S (S (length fences))).
    change (drain (S (S (length fences))) p) with (let! fd := GetReleaseFenceFd p in
      if 0 <=? fd then do! close fd in drain (S (length fences)) p else dret true).
    apply wp_bind. eapply wp_mono.
    { apply (wp_wlp _ _ (λ r w', r = fd ∧ w' = set_w_layers (<[p := set_l_releaseFences_ fences l]>
        (w_layers w)) w) _ (wp_GetReleaseFenceFd_ok ext fb0 bl0 p w Hres ltac:(by eexists))).
      intros r w'. unfold GetReleaseFenceFd, dbind, deref. rewrite Hp Hf. unfold update. rewrite Hp.
      by intros [= <- <-]. }
    cbn beta. intros r w' [[Hres' _] [-> ->]]. cbn [leading]. unfold pos_fd in Hres'.
    destruct (Z.leb_spec 0 fd) as [Hpos|Hneg].
    + assert (fd ∉ ext) as Hext.
      { destruct Hres as [[_ Hop _ _ _] _ _ _ _ _].
        apply (Hop p (layer_fds l) fd); [by rewrite lookup_fmap Hp|].
        unfold layer_fds. rewrite Hf /= /pos_fd. destruct (Z.leb_spec 0 fd); [|lia]. set_solver. }
      cbn [list_to_set] in Hres'. rewrite right_id_L in Hres'.
      apply wp_bind, wp_close. eapply wp_mono.
      { eapply IH; [by apply res_unlend|by apply lookup_insert_eq|done]. }
      cbn beta. intros done w' (-> & Hr & Hfds & l' & Hl' & Hd). split_and!; [done|done| |by exists l'].
      rewrite Hfds !fds_set_fds. cbn [list_to_set].
      change (fds (set_w_layers _ w)) with (fds w). set_solver.
    + apply wp_ret. cbn [list_to_set] in Hres'. rewrite left_id_L in Hres'.
      split_and!; [done|done|cbn; by rewrite difference_empty_L|].
      eexists. split; [by apply lookup_insert_eq|done].
Qed.

(** Blanking the screen leaves no fence behind and ends.  The loop that takes the
    black layer's release fences until there is none takes each at most once: it ends
    after as many turns as there are fences, having closed exactly the fences before
    the first that could not be duplicated (all of them, if none is -1), with every
    other descriptor and every framebuffer accounted for as before. *)
Theorem drain_terminates ext fb0 bl0 p l w :
  res_ok ext fb0 bl0 w → w_layers w !! p = Some l →
  ∃ w' l', drain (drain_fuel l) p w = Some (true, w') ∧ res_ok ext fb0 bl0 w' ∧
    fds w' = fds w ∖ list_to_set (leading (l_releaseFences_ l)) ∧
    w_layers w' !! p = Some l' ∧
    (Forall (λ fd, 0 ≤ fd) (l_releaseFences_ l) → l_releaseFences_ l' = []).
Proof.
  intros Hres Hp.
  destruct (drain_spec ext fb0 bl0 p (l_releaseFences_ l) l w Hres Hp eq_refl)
    as (done & w' & Hrun & -> & Hr & Hf & l' & Hl' & Hd).
  exists w', l'. split; [exact Hrun|]. split; [done|]. split; [done|]. split; [done|].
  intros Hall. rewrite Hd.
  assert (leading (l_releaseFences_ l) = l_releaseFences_ l) as ->.
  { clear -Hall. induction Hall as [|fd fences Hfd _ IH]; [done|]. simpl.
    destruct (Z.leb_spec 0 fd); [by rewrite IH|lia]. }
  apply drop_ge. lia.
Qed.

Lemma drain_terminates_witness :
  ∃ w l w', (let! fd := dup 8 in SetReleaseFence 1 fd) demo_world = Some (tt, w) ∧
    w_layers w !! 1 = Some l ∧ l_releaseFences_ l = [3] ∧
    drain (drain_fuel l) 1 w = Some (true, w') ∧ fds w' = fds demo_world.
Proof.
  destruct ((let! fd := dup 8 in SetReleaseFence 1 fd) demo_world) as [[[] w]|] eqn:Hw;
    [|vm_compute in Hw; discriminate Hw].
  exists w, (set_l_releaseFences_ [3] (HdiLayer_new LAYER_TYPE_GRAPHIC)).
  assert (w_layers w !! 1 = Some (set_l_releaseFences_ [3] (HdiLayer_new LAYER_TYPE_GRAPHIC)) ∧
          fds w ∖ {[3]} = fds demo_world) as [Hl Hfds].
  { vm_compute in Hw. injection Hw as <-. split; reflexivity. }
  destruct (drain_terminates {[0; 1; 2; 7; 8]} {[0]} ∅ 1
    (set_l_releaseFences_ [3] (HdiLayer_new LAYER_TYPE_GRAPHIC)) w) as (w' & l' & H & _ & Hf & _).
  - exact (wlp_publish_one {[0; 1; 2; 7; 8]} {[0]} ∅ 8 1 demo_world demo_res_ok tt w Hw).
  - exact Hl.
  - exists w'. split; [reflexivity|]. split; [exact Hl|]. split; [reflexivity|]. split; [exact H|].
    rewrite Hf -Hfds. cbn [leading]. simpl. by rewrite right_id_L.
Defined.

(** ** Modes *)

Definition preferred (m : ModeInfo) : bool :=
  negb (Z.land (mi_type m) DRM_MODE_TYPE_PREFERRED =? 0).
Fixpoint first_preferred (modes : list ModeInfo) : option nat :=
  match modes with
  | [] => None
  | m :: modes => if preferred m then Some 0%nat else S <$> first_preferred modes
  end.

(** [InitModes] numbers the modes from 0 and prefers the first that is marked. *)
Lemma modes_loop_spec i modes pref m :
  0 ≤ i →
  (modes_loop i modes pref m).1 =
    (if pref =? INVALID_MODE_ID
     then match first_preferred modes with Some n => i + Z.of_nat n | None => pref end
     else pref) ∧
  (∀ j, (modes_loop i modes pref m).2 !! j =
     match modes !! Z.to_nat (j - i) with
     | Some mode => if i <=? j then Some (mkDrmMode mode j) else m !! j
     | None => m !! j
     end).
Proof.
  revert i pref m. induction modes as [|mode modes IH]; intros i pref m Hi; cbn [modes_loop].
  { split; [by case_match|]. intros j. by rewrite lookup_nil. }
  destruct (IH (i + 1) (if (pref =? INVALID_MODE_ID) && preferred mode then i else pref)
              (<[i := mkDrmMode mode i]> m)) as [IH1 IH2]; [lia|]. fold (preferred mode). split.
  - rewrite IH1. cbn [first_preferred]. unfold INVALID_MODE_ID in *.
    destruct (Z.eqb_spec pref (-1)) as [->|Hne]; simpl.
    + destruct (preferred mode) eqn:E; simpl.
      * destruct (Z.eqb_spec i (-1)); lia.
      * destruct (first_preferred modes); simpl; lia.
    + by rewrite (proj2 (Z.eqb_neq _ _) Hne).
  - intros j. rewrite IH2. destruct (Z.leb_spec (i + 1) j) as [Hj|Hj].
    + replace (Z.to_nat (j - i)) with (S (Z.to_nat (j - (i + 1)))) by lia.
      cbn [lookup list_lookup]. destruct (Z.leb_spec i j); [|lia].
      destruct (modes !! Z.to_nat (j - (i + 1))) eqn:E; cbn; rewrite ?E; [done|].
      by rewrite lookup_insert_ne; [|lia].
    + transitivity (<[i := mkDrmMode mode i]> m !! j);
        [by destruct (modes !! Z.to_nat (j - (i + 1)))|].
      destruct (Z.eq_dec j i) as [->|Hne].
      * rewrite lookup_insert_eq. replace (Z.to_nat (i - i)) with 0%nat by lia. simpl.
        by rewrite Z.leb_refl.
      * rewrite lookup_insert_ne; [|done]. destruct (Z.leb_spec i j); [lia|].
        by destruct ((mode :: modes) !! _).
Qed.

Lemma s32_u32 z : 0 ≤ z < 2 ^ 31 → s32 (u32 z) = z.
Proof. intros H. unfold s32, u32. rewrite (Z.mod_small z) ?Z.mod_small; lia. Qed.

(** A monitor whose preferred mode is not its first one is left dark.
    [InitModes] takes the first mode the driver marks as preferred; if that is not
    mode 0, [SetActivieMode], which refuses every positive id, refuses it:
    [ChosePreferenceMode] fails without setting a mode or pushing the first frame,
    and nothing of the display, the CRTC or the driver has changed. *)
Theorem preferred_mode_rejected FB DMA CPU_READ CPU_WRITE va d connId crtcId r crtc n w :
  dd_mConnector d = Some connId → dd_mCrtc d = Some crtcId →
  w_connectors w !! connId = Some (DrmConnector_make r) → w_crtcs w !! crtcId = Some crtc →
  first_preferred (cr_modes r) = Some n → (0 < n)%nat → Z.of_nat n < 2 ^ 31 →
  ChosePreferenceMode FB DMA CPU_READ CPU_WRITE va d w = Some (DISPLAY_FAILURE, d, w).
Proof.
  intros Hcd Hcr Hconn Hcrtc Hfind Hn Hmax. unfold ChosePreferenceMode, SetDisplayMode.
  rewrite Hcd Hcr. unfold dbind, nonnull, dret, deref_connector, deref_crtc. rewrite Hconn Hcrtc.
  assert (conn_mPreferenceId (DrmConnector_make r) = Z.of_nat n) as Hpref.
  { unfold DrmConnector_make, InitModes.
    pose proof (modes_loop_spec 0 (cr_modes r) INVALID_MODE_ID ∅ ltac:(lia)) as [Hp _].
    destruct (modes_loop 0 (cr_modes r) INVALID_MODE_ID ∅) as [pref ms]. cbn in Hp |- *.
    rewrite Hp Hfind. lia. }
  rewrite Hpref. unfold INVALID_MODE_ID. destruct (Z.eqb_spec (Z.of_nat n) (-1)); [lia|].
  rewrite s32_u32; [|lia]. unfold SetActivieMode. destruct (Z.ltb_spec 0 (Z.of_nat n)); [|lia].
  unfold dmod. rewrite insert_id //. by destruct w.
Qed.

Lemma preferred_mode_rejected_witness :
  let r := mkConnectorRes 4 11 0 0 6 DRM_MODE_CONNECTED [6] [mkModeInfo 64 64 60 0; demo_mode] in
  let w := set_w_connectors {[4 := DrmConnector_make r]} demo_drm_world in
  ChosePreferenceMode 1 2 4 8 (mkVdiAnswers 9 true (mkKernelAnswers None None true) None true)
    (demo_drm POWER_STATUS_ON) w = Some (DISPLAY_FAILURE, demo_drm POWER_STATUS_ON, w).
Proof.
  intros r w. apply (preferred_mode_rejected 1 2 4 8 _ (demo_drm POWER_STATUS_ON) 4 3 r demo_crtc 1 w); try reflexivity; lia.
Defined.

(** ** Displays whose initialisation failed *)

(** No primary plane is free for the pipe. *)
Lemma take_planes_none pipe type i planes :
  Forall (λ p, IsIdle p && pipe_allowed pipe (pl_mPossibleCrtcs p) && (type =? pl_mType p) = false)
    planes → take_planes pipe type i planes = ([], planes).
Proof.
  intros H. revert i. induction H as [|p planes Hp _ IH]; intros i; [done|]. simpl.
  by rewrite IH Hp.
Qed.

(** A display that could not be initialised is offered all the same, and crashes
    the composer.  When the CRTC has no free primary plane [DrmDisplay::Init] fails,
    but [DiscoveryDisplay] ignores its result: the display is registered under a valid
    id without a composer, and the first [PrepareDisplayLayers] or [Commit] on it
    dereferences the null pointer. *)
Theorem failed_display_registered FB DMA CPU_READ CPU_WRITE hash_order answers connId conn crtcId
    crtc w :
  PickIdleCrtcId hash_order (w_encoders w) (w_crtcs w) conn = Some crtcId →
  w_crtcs w !! crtcId = Some crtc → pool_ok (w_display_ids w) →
  Forall (λ p, IsIdle p && pipe_allowed (crtc_mPipe crtc) (pl_mPossibleCrtcs p) &&
               (DRM_PLANE_TYPE_PRIMARY =? pl_mType p) = false) (w_planes w) →
  ∃ d w', discover_displays FB DMA CPU_READ CPU_WRITE hash_order true answers [(connId, conn)] ∅ w
            = Some ({[d_mId (dd_hdi d) := d]}, w') ∧
    d_mId (dd_hdi d) ≠ INVALIDE_DISPLAY_ID ∧
    DrmDisplay_Commit true d w' = None ∧ exec OpPrepare (dd_hdi d) w' = None.
Proof.
  intros Hpick Hcrtc Hpool Hnone.
  destruct (pool_GetIdleId_fresh _ Hpool) as (id & Hid & _ & Hr).
  assert (∃ d w', DrmDisplay_Init FB DMA CPU_READ CPU_WRITE (answers connId).1 (answers connId).2
            (DrmDisplay_new (Some connId) (Some crtcId) true) w = Some (DISPLAY_FAILURE, d, w') ∧
          d_mId (dd_hdi d) = id ∧ d_mComposer (dd_hdi d) = None ∧
          dd_mPowerStatus d = POWER_STATUS_ON ∧ d_mLayers (dd_hdi d) = [])
    as (d & w' & Hrun & Hdid & Hcomp & Hon & Hls).
  { unfold DrmDisplay_Init, Display_Init, Display_GetIdleId, dbind. cbn [dd_mCrtc dd_mConnector
      DrmDisplay_new dd_mDrmDevice negb dd_hdi]. rewrite Hid.
    rewrite (proj2 (Z.eqb_neq id INVALIDE_DISPLAY_ID)); [|unfold INVALIDE_DISPLAY_ID, INVALIDE_LAYER_ID in *; lia].
    unfold new_layer, dret. cbn [fst snd]. destruct (Gfx_Init _ _) as [ret gfx].
    rewrite bool_decide_false; [|by intros ?]. case_bool_decide; [by eexists _, _|].
    unfold DrmComp_Init, HdiDrmComposition_new, dbind, deref_crtc. cbn [dc_mCrtc dc_mConnector w_crtcs
      set_w_nextptr set_w_layers set_w_display_ids dc_mCompLayers]. rewrite Hcrtc. unfold GetDrmPlane.
    cbn [w_planes set_w_nextptr set_w_layers set_w_display_ids].
    rewrite take_planes_none //. destruct (take_planes _ DRM_PLANE_TYPE_OVERLAY _ _).
    by eexists _, _. }
  exists d, w'. cbn [discover_displays]. unfold dbind at 1, dget. rewrite Hpick Hcrtc. unfold dbind.
  rewrite Hrun. split; [by unfold emplace, dret; rewrite lookup_empty|].
  rewrite Hdid. split; [unfold INVALIDE_DISPLAY_ID, INVALIDE_LAYER_ID in *; lia|].
  unfold DrmDisplay_Commit, Display_Commit, exec, PrepareDisplayLayers, dbind, nonnull.
  rewrite Hcomp Hon Hls. done.
Qed.

Lemma failed_display_registered_witness :
  let w := set_w_planes [] (set_w_encoders {[6 := mkDrmEncoder 6 3 1]}
             (set_w_crtcs {[3 := set_crtc_mDisplayId INVALIDE_DISPLAY_ID demo_crtc]} demo_drm_world)) in
  ∃ d w', discover_displays 1 2 4 8 (λ A, @map_to_list Z A (gmap Z A) _) true
            (λ _, (mkLoaderAnswers false false None,
                   mkVdiAnswers 9 true (mkKernelAnswers None None true) None true))
            [(4, DrmConnector_make demo_connector)] ∅ w = Some ({[d_mId (dd_hdi d) := d]}, w') ∧
          DrmDisplay_Commit true d w' = None.
Proof.
  intros w.
  destruct (failed_display_registered 1 2 4 8 (λ A, @map_to_list Z A (gmap Z A) _)
    (λ _, (mkLoaderAnswers false false None,
           mkVdiAnswers 9 true (mkKernelAnswers None None true) None true))
    4 (DrmConnector_make demo_connector) 3 (set_crtc_mDisplayId INVALIDE_DISPLAY_ID demo_crtc) w)
    as (d & w' & H1 & _ & H2 & _).
  - vm_compute. reflexivity.
  - reflexivity.
  - split; [split; [by vm_compute|reflexivity]|reflexivity].
  - constructor.
  - exists d, w'. by split.
Defined.
