(* ===== verification/Vsync.v ===== *)
(** * The vsync workers (drm/drm_vsync_worker.{h,cpp}, vsync/sorft_vsync.{h,cpp})

    A singleton with a thread that waits for the next vertical blank, or sleeps, and
    calls back.  [mEnable] and [mRunning] are guarded by a mutex and a condition
    variable, so the model is a machine whose actions are the critical sections: those
    of the thread and those of its clients.  [mCallBack] is not: the thread reads it and
    calls through it, and [ReqesterVBlankCb] assigns it, both without the mutex.  The
    assignment and the call are therefore intervals of the machine, and [v_race] records
    that a read met an assignment in progress, or that an assignment ended (and dropped
    the last reference to the old callback) while that callback was running; after
    that the program's behaviour is undefined.  Clients come one at a time (the
    composer's entry points hold a lock, and [call_once] lets nobody in before [Init]
    has returned).  A wait on the condition variable may wake up for no reason.

    The two workers differ in what a turn of the loop gives the callback: the sequence
    number and the time, as a function ([next]) of the number of the turn and the
    sequence number before it. *)

From S2P Require Import Prelude.
Set Warnings "-rewrite-rw,-clear-no-such-hyp".

(** ** Sequence numbers and times *)

Record Timespec := mkTimespec { tv_sec : Z; tv_nsec : Z }.
(** What [drmWaitVBlank] returns: the result, the sequence number and the time. *)
Record VBlankReply := mkVBlankReply { vb_ret : Z; vb_sequence : Z; vb_sec : Z; vb_usec : Z }.

Definition SEC_TO_NSEC : Z := 1000000000.
Definition USEC_TO_NSEC : Z := 1000.
(** On failure the thread sleeps for a sixtieth of a second and takes the clock [ts]. *)
Definition WaitNextVBlank (r : VBlankReply) (ts : Timespec) : Z * Z :=
  if vb_ret r <? 0 then (0, u64 (tv_sec ts * SEC_TO_NSEC + tv_nsec ts))
  else (vb_sequence r, u64 (vb_sec r * SEC_TO_NSEC + vb_usec r * USEC_TO_NSEC)).
(** The software worker counts, and gives the nanoseconds of the clock. *)
Definition soft_next (seq : Z) (ts : Timespec) : Z * Z := (u32 (seq + 1), u64 (tv_nsec ts)).

(** ** The machine *)

(** Where the thread is: not started, at the check of the condition, blocked on it,
    waiting for the blank, about to read [mCallBack], inside the callback, ended. *)
Inductive WorkerPc :=
| WNone | WCheck | WBlocked | WVBlank | WCall (time : Z) | WVsync | WDone.
(** Where the client is: before [Init], between the start of the thread and
    [mRunning = true], outside, between a critical section and its [notify_one], in the
    middle of [mCallBack = cb], between the destructor's section and its [notify_one],
    at the join, gone. *)
Inductive ClientPc := CNew | CInit | CIdle | CNotify | CStore (cb : Z) | CStop | CJoin | CGone.

Record VsyncWorker := mkVsyncWorker {
  v_client : ClientPc;
  v_worker : WorkerPc;
  v_mEnable : bool;
  v_mRunning : bool;
  v_mCallBack : option Z;
  v_seq : Z;                    (* the local of WorkThread *)
  v_turns : nat;
  v_calls : list (Z * Z * Z);   (* callbacks made: callback, sequence number, time *)
  v_race : bool;                (* undefined behaviour on mCallBack has happened *)
}.
Definition VsyncWorker_new : VsyncWorker := mkVsyncWorker CNew WNone false false None 0 0 [] false.

Definition set_client (x : ClientPc) (v : VsyncWorker) : VsyncWorker :=
  mkVsyncWorker x (v_worker v) (v_mEnable v) (v_mRunning v) (v_mCallBack v) (v_seq v) (v_turns v)
    (v_calls v) (v_race v).
Definition set_worker (x : WorkerPc) (v : VsyncWorker) : VsyncWorker :=
  mkVsyncWorker (v_client v) x (v_mEnable v) (v_mRunning v) (v_mCallBack v) (v_seq v) (v_turns v)
    (v_calls v) (v_race v).
Definition set_mEnable (x : bool) (v : VsyncWorker) : VsyncWorker :=
  mkVsyncWorker (v_client v) (v_worker v) x (v_mRunning v) (v_mCallBack v) (v_seq v) (v_turns v)
    (v_calls v) (v_race v).
Definition set_mRunning (x : bool) (v : VsyncWorker) : VsyncWorker :=
  mkVsyncWorker (v_client v) (v_worker v) (v_mEnable v) x (v_mCallBack v) (v_seq v) (v_turns v)
    (v_calls v) (v_race v).
Definition set_mCallBack (x : option Z) (v : VsyncWorker) : VsyncWorker :=
  mkVsyncWorker (v_client v) (v_worker v) (v_mEnable v) (v_mRunning v) x (v_seq v) (v_turns v)
    (v_calls v) (v_race v).

(** [Init]: the thread is started first; then [mRunning] is set, without the lock.
    The DRM worker refuses a descriptor that is not open. *)
Definition Init_start (fd : Z) (v : VsyncWorker) : VsyncWorker :=
  if fd <? 0 then set_client CIdle v else set_client CInit (set_worker WCheck v).
Definition Init_finish (v : VsyncWorker) : VsyncWorker := set_client CIdle (set_mRunning true v).
(** [EnableVsync] up to the [notify_one]. *)
Definition EnableVsync (enable : bool) (v : VsyncWorker) : VsyncWorker :=
  set_client CNotify (set_mEnable enable v).
(** The destructor up to the [notify_one]. *)
Definition Stop (v : VsyncWorker) : VsyncWorker := set_client CStop (set_mRunning false v).
Definition wake (v : VsyncWorker) : VsyncWorker :=
  match v_worker v with WBlocked => set_worker WCheck v | _ => v end.
Definition set_race (x : bool) (v : VsyncWorker) : VsyncWorker :=
  mkVsyncWorker (v_client v) (v_worker v) (v_mEnable v) (v_mRunning v) (v_mCallBack v) (v_seq v)
    (v_turns v) (v_calls v) (v_race v || x).
(** [ReqesterVBlankCb]: a null callback is refused; the assignment begins, and ends
    with the release of the callback that was there. *)
Definition ReqesterVBlankCb (cb : option Z) (v : VsyncWorker) : VsyncWorker :=
  match cb with None => v | Some c => set_client (CStore c) v end.
Definition in_callback (w : WorkerPc) : bool := match w with WVsync => true | _ => false end.
Definition ReqesterVBlankCb_end (cb : Z) (v : VsyncWorker) : VsyncWorker :=
  set_client CIdle (set_race (in_callback (v_worker v)) (set_mCallBack (Some cb) v)).
(** [WaitSignalAndCheckRuning], once the mutex is held. *)
Definition WaitSignalAndCheckRuning (v : VsyncWorker) : VsyncWorker :=
  if v_mEnable v || negb (v_mRunning v)
  then set_worker (if v_mRunning v then WVBlank else WDone) v
  else set_worker WBlocked v.

Section machine.
Context (next : nat → Z → Z * Z).

(** The rest of a turn of [WorkThread]. *)
Definition wait_blank (v : VsyncWorker) : VsyncWorker :=
  let '(seq, time) := next (v_turns v) (v_seq v) in
  mkVsyncWorker (v_client v) (WCall time) (v_mEnable v) (v_mRunning v) (v_mCallBack v) seq
    (S (v_turns v)) (v_calls v) (v_race v).
(** The reads of [mCallBack], without the mutex, and the call through it. *)
Definition storing (c : ClientPc) : bool := match c with CStore _ => true | _ => false end.
Definition call_back (time : Z) (v : VsyncWorker) : VsyncWorker :=
  set_race (storing (v_client v))
    match v_mCallBack v with
    | Some cb =>
        mkVsyncWorker (v_client v) WVsync (v_mEnable v) (v_mRunning v) (v_mCallBack v) (v_seq v)
          (v_turns v) (v_calls v ++ [(cb, v_seq v, time)]) (v_race v)
    | None => set_worker WCheck v
    end.

Inductive action :=
| AInit (fd : Z) | AInitFinish | AEnable (enable : bool) | AStop | ANotify | AJoin
| ACallback (cb : option Z) | ACallbackEnd
| AWorker      (* the next step of the thread *)
| ASpurious.   (* the condition variable wakes up for no reason *)

Definition act (a : action) (v : VsyncWorker) : option VsyncWorker :=
  match a, v_client v, v_worker v with
  | AInit fd, CNew, _ => Some (Init_start fd v)
  | AInitFinish, CInit, _ => Some (Init_finish v)
  | AEnable b, CIdle, _ => Some (EnableVsync b v)
  | AStop, CIdle, _ => Some (Stop v)
  | ANotify, CNotify, _ => Some (set_client CIdle (wake v))
  | ANotify, CStop, _ => Some (set_client CJoin (wake v))
  | AJoin, CJoin, WDone => Some (set_client CGone v)
  | AJoin, CJoin, WNone => Some (set_client CGone v)   (* no thread to join *)
  | ACallback cb, CIdle, _ => Some (ReqesterVBlankCb cb v)
  | ACallbackEnd, CStore cb, _ => Some (ReqesterVBlankCb_end cb v)
  | AWorker, _, WCheck => Some (WaitSignalAndCheckRuning v)
  | AWorker, _, WVBlank => Some (wait_blank v)
  | AWorker, _, WCall time => Some (call_back time v)
  | AWorker, _, WVsync => Some (set_worker WCheck v)   (* the callback returns *)
  | ASpurious, _, WBlocked => Some (set_worker WCheck v)
  | _, _, _ => None
  end.

(** Every interleaving of the two. *)
Inductive reach (v : VsyncWorker) : VsyncWorker → Prop :=
| reach_refl : reach v v
| reach_step a v' v'' : reach v v' → act a v' = Some v'' → reach v v''.
Definition reachable (v : VsyncWorker) : Prop := reach VsyncWorker_new v.

Fixpoint acts (l : list action) (v : VsyncWorker) : option VsyncWorker :=
  match l with [] => Some v | a :: l => v' ← act a v; acts l v' end.
Lemma acts_reach l v v' : acts l v = Some v' → reach v v'.
Proof.
  enough (∀ v0, reach v0 v → acts l v = Some v' → reach v0 v') as H by (apply H; constructor).
  revert v. induction l as [|a l IH]; intros v v0 Hr; simpl; [by intros [= <-]|].
  destruct (act a v) as [v1|] eqn:E; [|done]. simpl. apply IH. by econstructor.
Qed.

(** ** Invariants *)

(** A blocked thread has nothing to do, or a notification is on its way; a thread
    that has started stays; before [Init] has returned the flags are as constructed. *)
Record vsync_ok (v : VsyncWorker) : Prop := {
  vok_blocked : v_worker v = WBlocked →
    (v_mEnable v = false ∧ v_mRunning v = true) ∨ v_client v = CNotify ∨ v_client v = CStop;
  vok_new : v_client v = CNew → v_worker v = WNone;
  vok_init : v_client v = CNew ∨ v_client v = CInit → v_mRunning v = false ∧ v_mEnable v = false;
  vok_init_worker : v_client v = CInit → v_worker v = WCheck ∨ v_worker v = WDone;
  vok_stopped : v_client v = CJoin ∨ v_client v = CStop ∨ v_client v = CGone → v_mRunning v = false;
}.

(** What the thread does next does not depend on the sequence numbers. *)
Lemma act_ok a v v' : vsync_ok v → act a v = Some v' → vsync_ok v'.
Proof.
  intros [H1 H2 H3 H4 H5] Ha.
  destruct v as [client worker enable running cb seq turns calls race]; cbn in *.
  destruct a as [fd| |b| | | |cb'| | |]; cbn in Ha; destruct client; try discriminate Ha;
    destruct worker; try discriminate Ha; destruct enable, running;
    unfold Init_start, WaitSignalAndCheckRuning, ReqesterVBlankCb, wait_blank, call_back, wake in Ha; cbn in Ha;
    repeat case_match; simplify_eq; split; cbn in *; intros; try done; intuition congruence.
Qed.
Lemma reach_ok v v' : vsync_ok v → reach v v' → vsync_ok v'.
Proof. intros H. induction 1 as [|a v1 v2 _ IH Ha]; [done|]. by eapply act_ok, Ha. Qed.
Lemma reachable_ok v : reachable v → vsync_ok v.
Proof. apply reach_ok. split; cbn; intuition congruence. Qed.

(** Once the thread has ended it never calls back. *)
Lemma done_silent v v' :
  vsync_ok v → v_worker v = WDone → reach v v' → v_worker v' = WDone ∧ v_calls v' = v_calls v.
Proof.
  intros Hok Hd. induction 1 as [|a u u' Hr [Hw <-] Ha]; [done|].
  pose proof (vok_new _ (reach_ok _ _ Hok Hr)) as Hnew. clear Hok Hr Hd.
  destruct u as [client worker enable running cb seq turns calls race]; cbn in *. subst worker.
  destruct a, client; cbn in Ha; try discriminate Ha; try (by discriminate Hnew); simplify_eq;
    unfold ReqesterVBlankCb, wake; cbn; repeat case_match; done.
Qed.

(** The calls a thread can still make before it looks at the condition. *)
Definition in_flight (w : WorkerPc) : nat :=
  match w with WVBlank | WCall _ => 1 | _ => 0 end.
(** Actions that leave the vsync disabled. *)
Definition stays_off (a : action) : Prop := match a with AEnable true => False | _ => True end.

Lemma act_off a v v' :
  vsync_ok v → v_mEnable v = false → stays_off a → act a v = Some v' →
  v_mEnable v' = false ∧
  (length (v_calls v') + in_flight (v_worker v') ≤ length (v_calls v) + in_flight (v_worker v))%nat.
Proof.
  intros Hok Hoff Hs Ha. pose proof (vok_new _ Hok) as Hnew. clear Hok.
  destruct v as [client worker enable running cb seq turns calls race]; cbn in *. subst enable.
  destruct a as [fd| |[]| | | |cb'| | |]; cbn in Ha; destruct client; try discriminate Ha; try done;
    try (rewrite (Hnew eq_refl) in Ha |- * );
    destruct worker; try discriminate Ha; simplify_eq;
    unfold Init_start, WaitSignalAndCheckRuning, ReqesterVBlankCb, wait_blank, call_back, wake in *;
    cbn in *; repeat case_match; simplify_eq; cbn in *; rewrite ?length_app; cbn; split; try done; lia.
Qed.
Lemma acts_off l v v' :
  vsync_ok v → v_mEnable v = false → Forall stays_off l → acts l v = Some v' →
  (length (v_calls v') ≤ length (v_calls v) + in_flight (v_worker v))%nat.
Proof.
  intros Hok Hoff Hl. revert v Hok Hoff. induction Hl as [|a l Ha Hl IH]; intros v Hok Hoff; simpl.
  { intros [= <-]. lia. }
  destruct (act a v) as [v1|] eqn:E; [|done]. simpl. intros Hrun.
  destruct (act_off a v v1 Hok Hoff Ha E) as [Hoff1 Hle].
  specialize (IH v1 (act_ok a v v1 Hok E) Hoff1 Hrun). lia.
Qed.

(** Nobody registers a callback while the vsync is on or a turn is under way. *)
Definition turning (w : WorkerPc) : bool :=
  match w with WVBlank | WCall _ | WVsync => true | _ => false end.
Definition calm (a : action) (v : VsyncWorker) : Prop :=
  match a with ACallback _ => v_mEnable v = false ∧ turning (v_worker v) = false | _ => True end.
Fixpoint calm_run (l : list action) (v : VsyncWorker) : Prop :=
  match l with
  | [] => True
  | a :: l => calm a v ∧ match act a v with Some v' => calm_run l v' | None => True end
  end.
Definition calm_ok (v : VsyncWorker) : Prop :=
  v_race v = false ∧
  (storing (v_client v) = true → v_mEnable v = false ∧ turning (v_worker v) = false).
Lemma calm_act a v v' : calm a v → calm_ok v → act a v = Some v' → calm_ok v'.
Proof.
  intros Hc [Hr Hs] E. destruct v as [client worker enable running cb seq turns calls race]; cbn in *.
  destruct a as [fd| |b| | | |cb'| | |]; cbn in E; destruct client; try discriminate E;
    destruct worker; try discriminate E; try (by destruct (Hs eq_refl));
    unfold Init_start, WaitSignalAndCheckRuning, ReqesterVBlankCb, wait_blank, call_back, wake in E;
    cbn in E; repeat case_match; simplify_eq; split; cbn in *; rewrite ?orb_false_r; try done.
  (* a check during an assignment: the vsync is off *)
  by destruct (Hs eq_refl) as [-> _].
Qed.
Lemma calm_acts l v v' : calm_run l v → calm_ok v → acts l v = Some v' → calm_ok v'.
Proof.
  revert v. induction l as [|a l IH]; intros v; simpl; [by intros _ ? [= <-]|].
  destruct (act a v) as [v1|] eqn:E; [|done]. simpl. intros [Ha Hl] Hok.
  apply IH; [done|by eapply calm_act].
Qed.

(** From a check of the condition with the vsync on, three steps of the thread make a
    call, and a fourth comes before them when it is inside a callback. *)
Lemma worker_calls v :
  vsync_ok v → v_client v = CIdle → v_mEnable v = true → v_mRunning v = true →
  v_worker v ≠ WDone → v_worker v ≠ WNone → is_Some (v_mCallBack v) →
  ∃ n v' cb seq time, (n ≤ 4)%nat ∧ acts (replicate n AWorker) v = Some v' ∧
    v_mCallBack v = Some cb ∧ v_calls v' = v_calls v ++ [(cb, seq, time)] ∧ v_race v' = v_race v.
Proof.
  intros Hok Hc He Hr Hd Hn [cb Hcb].
  destruct v as [client worker enable running callback seq turns calls race]; cbn in *. subst.
  destruct (next turns seq) as [seq' time] eqn:Enext. destruct worker as [| | | |time'| |]; try done.
  - exists 3%nat. cbn. unfold WaitSignalAndCheckRuning, wait_blank. cbn. rewrite Enext. cbn.
    do 4 eexists. split; [lia|]. split_and!; [done..|]. by rewrite /= orb_false_r.
  - destruct (vok_blocked _ Hok) as [[??]|[?|?]]; done.
  - exists 2%nat. cbn. unfold wait_blank. cbn. rewrite Enext. cbn.
    do 4 eexists. split; [lia|]. split_and!; [done..|]. by rewrite /= orb_false_r.
  - exists 1%nat. cbn. do 4 eexists. split; [lia|]. split_and!; [done..|]. by rewrite /= orb_false_r.
  - exists 4%nat. cbn. unfold WaitSignalAndCheckRuning, wait_blank. cbn. rewrite Enext. cbn.
    do 4 eexists. split; [lia|]. split_and!; [done..|]. by rewrite /= orb_false_r.
Qed.
(** After [Stop] and its notification the thread ends within four steps. *)
Lemma worker_stops v :
  vsync_ok v → v_client v = CJoin → v_worker v ≠ WNone →
  ∃ n v', (n ≤ 4)%nat ∧ acts (replicate n AWorker) v = Some v' ∧ v_worker v' = WDone ∧
          v_client v' = CJoin.
Proof.
  intros Hok Hc Hn. pose proof (vok_stopped _ Hok ltac:(by left)) as Hr.
  pose proof (vok_blocked _ Hok) as Hb.
  destruct v as [client worker enable running callback seq turns calls race]; cbn in *. subst.
  destruct (next turns seq) as [seq' time] eqn:Enext.
  destruct worker as [| | | |time'| |]; try done.
  - exists 1%nat. cbn. unfold WaitSignalAndCheckRuning. cbn. rewrite orb_true_r. eexists. split; [lia|by split].
  - destruct Hb as [[??]|[?|?]]; done.
  - destruct callback as [cb|]; [exists 4%nat|exists 3%nat]; cbn;
      unfold wait_blank, WaitSignalAndCheckRuning; cbn; rewrite Enext; cbn; rewrite orb_true_r;
      eexists; (split; [lia|by split]).
  - destruct callback as [cb|]; [exists 3%nat|exists 2%nat]; cbn;
      unfold WaitSignalAndCheckRuning; cbn; rewrite orb_true_r; eexists; (split; [lia|by split]).
  - exists 2%nat. cbn. unfold WaitSignalAndCheckRuning. cbn. rewrite orb_true_r. eexists. split; [lia|by split].
  - exists 0%nat. cbn. eexists. split; [lia|by split].
Qed.
End machine.

(** ** Properties *)

(** C17: the vsync is delivered when it is on, and ends when it is off.  In every state
    the worker and its clients can reach, under every interleaving and spurious
    wake-up, as long as no access to [mCallBack] has raced: while it is on, has a
    callback, no client is in the middle of a call and its thread is alive (see
    [vsync_start_race]), no wake-up has been lost, and at most four steps of the
    thread make the next call; after it has been switched off at most one more call
    comes, whatever is done short of a race, until it is switched on again; and
    after the destructor has signalled the end a thread that was started ends within
    four steps, so that the join returns.  And no access races in a run that registers
    callbacks only while the vsync is off and no turn of the thread is under way. *)
Theorem vsync_delivers next v :
  reachable next v → v_race v = false →
  (v_client v = CIdle → v_mEnable v = true → v_mRunning v = true → is_Some (v_mCallBack v) →
   v_worker v ≠ WDone → v_worker v ≠ WNone →
   ∃ n v' cb seq time, (n ≤ 4)%nat ∧ acts next (replicate n AWorker) v = Some v' ∧
     v_mCallBack v = Some cb ∧ v_calls v' = v_calls v ++ [(cb, seq, time)] ∧ v_race v' = false) ∧
  (v_mEnable v = false → ∀ l v', Forall stays_off l → acts next l v = Some v' → v_race v' = false →
   (length (v_calls v') ≤ S (length (v_calls v)))%nat) ∧
  (v_client v = CJoin → v_worker v ≠ WNone →
   ∃ n v' v'', (n ≤ 4)%nat ∧ acts next (replicate n AWorker) v = Some v' ∧ act next AJoin v' = Some v'') ∧
  (∀ l v', calm_run next l VsyncWorker_new → acts next l VsyncWorker_new = Some v' →
   v_race v' = false).
Proof.
  intros Hr%reachable_ok Hrace. split_and!.
  - intros. rewrite -Hrace. by apply worker_calls.
  - intros Hoff l v' Hl Hrun _. pose proof (acts_off next l v v' Hr Hoff Hl Hrun).
    assert (in_flight (v_worker v) ≤ 1)%nat by (by destruct (v_worker v); simpl; lia). lia.
  - intros Hc Hn. destruct (worker_stops next v Hr Hc Hn) as (n & v' & Hle & Hrun & Hd & Hc').
    exists n, v'. eexists. split; [done|]. split; [done|]. unfold act. by rewrite Hc' Hd.
  - intros l v' Hl Hrun. by apply (calm_acts next l VsyncWorker_new v').
Qed.

Lemma vsync_delivers_witness :
  let next n seq := WaitNextVBlank (mkVBlankReply 0 (seq + 1) 1 (Z.of_nat n)) (mkTimespec 0 0) in
  ∃ v n v' cb seq time,
    acts next [AInit 5; AInitFinish; ACallback (Some 77); ACallbackEnd; AWorker; AEnable true; ANotify]
      VsyncWorker_new = Some v ∧
    acts next (replicate n AWorker) v = Some v' ∧ v_calls v' = [(cb, seq, time)].
Proof.
  intros next.
  destruct (acts next [AInit 5; AInitFinish; ACallback (Some 77); ACallbackEnd; AWorker; AEnable true;
    ANotify] VsyncWorker_new) as [v|] eqn:Hv; [|vm_compute in Hv; discriminate Hv].
  pose proof (vsync_delivers next v (acts_reach _ _ _ _ Hv)) as H.
  vm_compute in Hv. injection Hv as <-. destruct (H eq_refl) as [H' _].
  destruct H' as (n & v' & cb & seq & time & _ & H1 & _ & H2 & _); try done.
  eexists _, n, v', cb, seq, time. split; [reflexivity|]. by split.
Defined.

(** Replacing the callback of a running vsync is undefined behaviour: when the thread
    is between the blank and the call, its unlocked read of [mCallBack] meets the
    assignment; when it is inside the callback, the assignment frees the object the
    thread is executing. *)
Theorem callback_race next v cb :
  v_client v = CIdle →
  (∀ time, v_worker v = WCall time →
   ∃ v', acts next [ACallback (Some cb); AWorker] v = Some v' ∧ v_race v' = true) ∧
  (v_worker v = WVsync →
   ∃ v', acts next [ACallback (Some cb); ACallbackEnd] v = Some v' ∧ v_race v' = true).
Proof.
  intros Hc. destruct v as [client worker enable running callback seq turns calls race]; cbn in *.
  subst. split.
  - intros time ->. cbn. eexists. split; [reflexivity|]. destruct callback; cbn; apply orb_true_r.
  - intros ->. cbn. eexists. split; [reflexivity|]. cbn. apply orb_true_r.
Qed.

(** A race at start-up can silence the vsync for good.  [Init] starts the thread
    before it sets [mRunning]; if the thread gets to its check first it finds
    [mRunning] false and ends.  That interleaving ends in a reachable state in which
    the worker claims to run but has no thread, and from there no client ever gets a
    callback, however often it enables the vsync. *)
Theorem vsync_start_race next fd :
  0 ≤ fd →
  ∃ v, acts next [AInit fd; AWorker; AInitFinish] VsyncWorker_new = Some v ∧
    v_mRunning v = true ∧
    ∀ l v', acts next l v = Some v' → v_calls v' = [].
Proof.
  intros Hfd. cbn. unfold Init_start. destruct (Z.ltb_spec fd 0); [lia|]. cbn.
  eexists. split; [reflexivity|]. split; [done|]. intros l v' Hrun%acts_reach.
  eapply (done_silent next) in Hrun as [_ ->]; [done| |done].
  split; cbn; intuition congruence.
Qed.

Lemma vsync_start_race_witness :
  let next := λ (_ : nat) (seq : Z), soft_next seq (mkTimespec 3 500) in
  ∃ v, acts next [AInit 5; AWorker; AInitFinish] VsyncWorker_new = Some v ∧
    ∀ l v', acts next l v = Some v' → v_calls v' = [].
Proof.
  intros next. destruct (vsync_start_race next 5) as (v & H1 & _ & H2); [lia|]. by exists v.
Defined.
