(* ===== verification/Session.v ===== *)
(** * The session and the composer's entry points
    (core/hdi_session.{h,cpp}, core/hdi_device_interface.cpp, DrmDevice::Create and Init,
    display_composer_vdi_impl.cpp)

    [HdiSession] owns the displays; the VDI's entry points look a display or a layer up
    and call the member function, one at a time under a lock.  Callbacks to the client
    are a list of the calls made. *)

From S2P Require Import Prelude Gralloc DispWorld HdiLayer HdiDisplay Composition Drm DrmComposition DrmDisplay Vsync.
Set Warnings "-rewrite-rw,-clear-no-such-hyp".

(** ** Opening the device *)

(** A directory entry of /dev/dri: its name, the descriptor [openat] gives, and the
    numbers of CRTCs, connectors and encoders ([None] if they cannot be read). *)
Record DriEntry := mkDriEntry { de_name : string; de_fd : Z; de_counts : option (Z * Z * Z) }.

(** A card that is not usable is closed again. *)
Definition OpenKmsCard (d : DriEntry) : Z :=
  if de_fd d <? 0 then -1
  else match de_counts d with
       | None => -1
       | Some (crtcs, connectors, encoders) =>
           if (crtcs <=? 0) || (connectors <=? 0) || (encoders <=? 0) then -1 else de_fd d
       end.
Fixpoint open_cards (dir : list DriEntry) (fd : Z) : Z :=
  match dir with
  | [] => fd
  | d :: dir =>
      if negb (String.prefix "card" (de_name d)) then open_cards dir fd
      else let fd := OpenKmsCard d in if 0 <=? fd then fd else open_cards dir fd
  end.
Definition FindAndOpenKmsCard (dir : option (list DriEntry)) : Z :=
  match dir with None => -1 | Some dir => open_cards dir (-1) end.
(** [DrmDevice::Create]: whether there is a device. *)
Definition DrmDevice_Create (dir : option (list DriEntry)) : D bool := λ w,
  match dk_fd (w_drm w) with
  | Some _ => Some (true, w)
  | None =>
      let fd := FindAndOpenKmsCard dir in
      if fd <? 0 then Some (false, w)
      else Some (true, set_w_drm (mkDrmKernel (Some fd) (dk_calls (w_drm w)) (dk_answer (w_drm w))
                   (dk_gem (w_drm w)) (dk_fbs (w_drm w)) (dk_blobs (w_drm w)) (dk_commits (w_drm w)))
                   (set_fds ({[fd]} ∪ fds w) w))
  end.
(** The driver's answers to the two capabilities, [drmSetMaster] and [drmIsMaster]. *)
Record DeviceAnswers := mkDeviceAnswers {
  da_planes : Z; da_atomic : Z; da_setMaster : Z; da_isMaster : Z }.
Definition DrmDevice_Init (a : DeviceAnswers) : DispError :=
  if negb (da_planes a =? 0) then DISPLAY_FAILURE
  else if negb (da_atomic a =? 0) then DISPLAY_FAILURE
  else if negb (da_setMaster a =? 0) then DISPLAY_FAILURE
  else if da_isMaster a =? 0 then DISPLAY_FAILURE else DISPLAY_SUCCESS.
(** [HdiDeviceInterface::DiscoveryDevice]: one device, or none. *)
Definition DiscoveryDevice (dir : option (list DriEntry)) (a : DeviceAnswers) : D bool :=
  let! device := DrmDevice_Create dir in
  dret (device && bool_decide (DrmDevice_Init a = DISPLAY_SUCCESS)).

(** ** The session *)

Record HdiSession := mkHdiSession {
  hs_mHdiDisplays : gmap Z DrmDisplay;
  hs_mHotPlugCallBacks : gmap Z Z;   (* callback to data *)
}.
Definition set_displays (x : gmap Z DrmDisplay) (s : HdiSession) : HdiSession :=
  mkHdiSession x (hs_mHotPlugCallBacks s).

(** A call of a hot-plug callback: the callback, the device, connected, the data. *)
Abbreviation HotPlugCall := (Z * Z * bool * Z)%type.

Section Session.
Context (HBM_USE_MEM_FB HBM_USE_MEM_DMA HBM_USE_CPU_READ HBM_USE_CPU_WRITE : Z).
Context (props : Z → ObjectType → PropTable) (garbage : DrmProperty).
Context (hash_order : ∀ A, gmap Z A → list (Z * A)).

Definition Session_Init (dir : option (list DriEntry)) (a : DeviceAnswers) (res : option DrmRes)
    (answers : Z → LoaderAnswers * VdiAnswers) (s : HdiSession) : D HdiSession :=
  let! device := DiscoveryDevice dir a in
  if device then
    let! displays := DiscoveryDisplay HBM_USE_MEM_FB HBM_USE_MEM_DMA HBM_USE_CPU_READ
                       HBM_USE_CPU_WRITE props garbage hash_order true res answers in
    dret (set_displays displays s)
  else dret (set_displays ∅ s).

Definition DoHotPlugCallback (devId : Z) (connect : bool) (s : HdiSession) : list HotPlugCall :=
  (λ e : Z * Z, (e.1, devId, connect, e.2)) <$> hash_order _ (hs_mHotPlugCallBacks s).
Fixpoint announce (displays : list (Z * DrmDisplay)) (s : HdiSession) : D (list HotPlugCall) :=
  match displays with
  | [] => dret []
  | (_, d) :: displays =>
      let! connected := IsConnected d in
      let! calls := announce displays s in
      dret ((if connected then DoHotPlugCallback (d_mId (dd_hdi d)) true s else []) ++ calls)
  end.
(** [callback] is [None] for a null pointer. *)
Definition RegHotPlugCallback (callback : option Z) (data : Z) (s : HdiSession)
    : D (DispError * list HotPlugCall * HdiSession) :=
  match callback with
  | None => dret (DISPLAY_NULL_PTR, [], s)
  | Some cb =>
      let s := mkHdiSession (hs_mHdiDisplays s) (emplace cb data (hs_mHotPlugCallBacks s)) in
      let! calls := announce (hash_order _ (hs_mHdiDisplays s)) s in
      dret (DISPLAY_SUCCESS, calls, s)
  end.

(** The member function returns an error code, out values and the display; the out
    values are [None] when it is not called. *)
Definition CallDisplayFunction {A} (devId : Z) (member : DrmDisplay → D (DispError * A * DrmDisplay))
    (s : HdiSession) : D (DispError * option A * HdiSession) :=
  if devId =? INVALIDE_DISPLAY_ID then dret (DISPLAY_FAILURE, None, s)
  else match hs_mHdiDisplays s !! devId with
       | None => dret (DISPLAY_FAILURE, None, s)
       | Some d =>
           let! r := member d in
           dret (r.1.1, Some r.1.2, set_displays (<[devId := r.2]> (hs_mHdiDisplays s)) s)
       end.
Definition Session_CallLayerFunction (devId layerId : Z) (member : Z → D DispError) (s : HdiSession)
    : D DispError :=
  if devId =? INVALIDE_DISPLAY_ID then dret DISPLAY_FAILURE
  else match hs_mHdiDisplays s !! devId with
       | None => dret DISPLAY_FAILURE
       | Some d => CallLayerFunction layerId member (dd_hdi d)
       end.

(** ** The VDI *)

Inductive HdfStatus := HDF_SUCCESS | HDF_FAILURE | HDF_ERR_NOT_SUPPORT.
#[export] Instance HdfStatus_eq_dec : EqDecision HdfStatus.
Proof. solve_decision. Defined.
Definition hdf (ec : DispError) : HdfStatus :=
  if bool_decide (ec ≠ DISPLAY_SUCCESS) then HDF_FAILURE else HDF_SUCCESS.

(** A call on a display, with its out values. *)
Definition vdi_display {A} (devId : Z) (member : DrmDisplay → D (DispError * A * DrmDisplay))
    (s : HdiSession) : D (HdfStatus * option A * HdiSession) :=
  let! r := CallDisplayFunction devId member s in dret (hdf r.1.1, r.1.2, r.2).
Definition vdi_layer (devId layerId : Z) (member : Z → D DispError) (s : HdiSession) : D HdfStatus :=
  let! ec := Session_CallLayerFunction devId layerId member s in dret (hdf ec).
(** Members without an out value, and members of the base class. *)
Definition quiet (m : D (DispError * DrmDisplay)) : D (DispError * unit * DrmDisplay) :=
  let! r := m in dret (r.1, tt, r.2).
Definition on_hdi (f : HdiDisplay DrmDisplayComp → D (DispError * HdiDisplay DrmDisplayComp))
    (d : DrmDisplay) : D (DispError * unit * DrmDisplay) :=
  let! r := f (dd_hdi d) in dret (r.1, tt, set_dd_hdi r.2 d).
Definition const_err (m : D DispError) (d : DrmDisplay) : D (DispError * unit * DrmDisplay) :=
  let! ec := m in dret (ec, tt, d).

(** [modes] says whether the array pointer is not null. *)
Definition Display_SupportedModes (modes : bool) (d : DrmDisplay)
    : D (DispError * (Z * list DisplayModeInfo) * DrmDisplay) :=
  let! connId := nonnull (dd_mConnector d) in
  let! conn := deref_connector connId in
  let r := GetDisplaySupportedModes hash_order conn in
  dret (DISPLAY_SUCCESS, (r.1.2, if modes then r.2 else []), d).
Definition Vdi_GetDisplaySupportedModes (devId : Z) (s : HdiSession)
    : D (HdfStatus * list DisplayModeInfo * HdiSession) :=
  let! r := CallDisplayFunction devId (Display_SupportedModes false) s in
  match r.1.2 with
  | Some (num, _) =>
      if bool_decide (r.1.1 ≠ DISPLAY_SUCCESS) then dret (HDF_FAILURE, [], r.2)
      else if negb (num =? 0) then
        let! r := CallDisplayFunction devId (Display_SupportedModes true) r.2 in
        dret (hdf r.1.1, match r.1.2 with Some (_, modes) => modes | None => [] end, r.2)
      else dret (hdf r.1.1, [], r.2)
  | None => dret (HDF_FAILURE, [], r.2)
  end.
Definition Vdi_GetDisplayMode (devId : Z) (s : HdiSession) : D (HdfStatus * option Z * HdiSession) :=
  vdi_display devId (λ d, let! r := GetDisplayMode d in dret (r, d)) s.
Definition Vdi_SetDisplayMode (devId modeId : Z) (s : HdiSession)
    : D (HdfStatus * option unit * HdiSession) :=
  vdi_display devId (λ d, const_err (SetDisplayMode modeId d) d) s.
Definition Vdi_GetDisplayPowerStatus (devId : Z) (s : HdiSession)
    : D (HdfStatus * option DispPowerStatus * HdiSession) :=
  vdi_display devId (λ d, dret (GetDisplayPowerStatus d, d)) s.
Definition Vdi_SetDisplayPowerStatus (va : VdiAnswers) (devId : Z) (status : DispPowerStatus)
    (s : HdiSession) : D (HdfStatus * option unit * HdiSession) :=
  vdi_display devId (λ d, quiet (SetDisplayPowerStatus HBM_USE_MEM_FB HBM_USE_MEM_DMA
                                   HBM_USE_CPU_READ HBM_USE_CPU_WRITE va status d)) s.
Definition Vdi_GetDisplayBacklight (devId : Z) (s : HdiSession)
    : D (HdfStatus * option (option Z) * HdiSession) :=
  vdi_display devId (λ d, let! r := GetDisplayBacklight true d in dret (r, d)) s.
Definition Vdi_SetDisplayBacklight (devId level : Z) (s : HdiSession)
    : D (HdfStatus * option unit * HdiSession) :=
  vdi_display devId (λ d, const_err (SetDisplayBacklight level d) d) s.

(** The two calls of [GetDisplayCompChange] and [GetDisplayReleaseFence]: the number
    first, then the arrays if there is anything. *)
Definition two_calls {A B} (devId : Z)
    (member : bool → DrmDisplay → D (DispError * (Z * (list A * list B)) * DrmDisplay))
    (s : HdiSession) : D (HdfStatus * (list A * list B) * HdiSession) :=
  let! r := CallDisplayFunction devId (member false) s in
  match r.1.2 with
  | Some (num, _) =>
      if bool_decide (r.1.1 = DISPLAY_SUCCESS) && negb (num =? 0) then
        let! r := CallDisplayFunction devId (member true) r.2 in
        dret (hdf r.1.1, match r.1.2 with Some (_, out) => out | None => ([], []) end, r.2)
      else dret (hdf r.1.1, ([], []), r.2)
  | None => dret (hdf r.1.1, ([], []), r.2)
  end.
Definition Vdi_GetDisplayCompChange (devId : Z) (s : HdiSession)
    : D (HdfStatus * (list Z * list CompositionType) * HdiSession) :=
  two_calls devId (λ arrays d,
    let! r := GetDisplayCompChange true arrays arrays (dd_hdi d) in
    dret (r.1.1, (r.1.2, r.2), d)) s.
Definition Vdi_GetDisplayReleaseFence (devId : Z) (s : HdiSession)
    : D (HdfStatus * (list Z * list Z) * HdiSession) :=
  two_calls devId (λ arrays d,
    let! r := GetDisplayReleaseFence true arrays arrays (dd_hdi d) in
    dret (r.1.1, (r.1.2, r.2), d)) s.

Definition Vdi_SetDisplayClientBuffer (devId : Z) (buffer : BufferHandle) (fence : Z) (s : HdiSession)
    : D (HdfStatus * option unit * HdiSession) :=
  vdi_display devId (λ d, const_err (SetDisplayClientBuffer (Some buffer) fence (dd_hdi d)) d) s.
(** The vsync entry points: the calls they make on the worker. *)
Definition SetDisplayVsyncEnabled (enabled : bool) : list action := [AEnable enabled; ANotify].
Definition RegDisplayVBlankCallback (cb : Z) : list action := [ACallback (Some cb)].
Definition vdi_vsync (devId : Z) (calls : list action) (s : HdiSession)
    : D (HdfStatus * option (list action) * HdiSession) :=
  vdi_display devId (λ d, dret (DISPLAY_SUCCESS, calls, d)) s.
Definition Vdi_SetDisplayVsyncEnabled (devId : Z) (enabled : bool) (s : HdiSession)
    : D (HdfStatus * option (list action) * HdiSession) :=
  vdi_vsync devId (SetDisplayVsyncEnabled enabled) s.
Definition Vdi_RegDisplayVBlankCallback (devId cb : Z) (s : HdiSession)
    : D (HdfStatus * option (list action) * HdiSession) :=
  vdi_vsync devId (RegDisplayVBlankCallback cb) s.
Definition Vdi_Commit (devId : Z) (s : HdiSession) : D (HdfStatus * option Z * HdiSession) :=
  vdi_display devId (DrmDisplay_Commit true) s.
Definition Vdi_CreateLayer (devId : Z) (layerInfo : LayerType) (s : HdiSession)
    : D (HdfStatus * option (option Z) * HdiSession) :=
  vdi_display devId (λ d, let! r := CreateLayer (Some layerInfo) true (dd_hdi d) in
                          dret (r.1, set_dd_hdi r.2 d)) s.
Definition Vdi_DestroyLayer (devId layerId : Z) (s : HdiSession)
    : D (HdfStatus * option unit * HdiSession) := vdi_display devId (on_hdi (DestroyLayer layerId)) s.
Definition Vdi_PrepareDisplayLayers (devId : Z) (s : HdiSession)
    : D (HdfStatus * option unit * HdiSession) := vdi_display devId (on_hdi PrepareDisplayLayers) s.
Definition Vdi_SetLayerZorder (devId layerId zorder : Z) (s : HdiSession)
    : D (HdfStatus * option unit * HdiSession) :=
  vdi_display devId (on_hdi (SetLayerZorder layerId zorder)) s.

Definition Vdi_SetLayerAlpha (devId layerId : Z) (alpha : LayerAlpha) : HdiSession → D HdfStatus :=
  vdi_layer devId layerId (λ p, SetLayerAlpha p (Some alpha)).
Definition Vdi_SetLayerRegion (devId layerId : Z) (rect : IRect) : HdiSession → D HdfStatus :=
  vdi_layer devId layerId (λ p, SetLayerRegion p (Some rect)).
Definition Vdi_SetLayerCrop (devId layerId : Z) (rect : IRect) : HdiSession → D HdfStatus :=
  vdi_layer devId layerId (λ p, SetLayerCrop p (Some rect)).
Definition Vdi_SetLayerPreMulti (devId layerId : Z) (preMul : bool) : HdiSession → D HdfStatus :=
  vdi_layer devId layerId (λ p, SetLayerPreMulti p preMul).
Definition Vdi_SetLayerTransformMode (devId layerId type : Z) : HdiSession → D HdfStatus :=
  vdi_layer devId layerId (λ p, SetLayerTransformMode p type).
(** An empty vector's [data()] may be null or not: the parameter. *)
Definition Vdi_SetLayerDirtyRegion (devId layerId : Z) (data : option IRect)
    : HdiSession → D HdfStatus := vdi_layer devId layerId (λ p, SetLayerDirtyRegion p data).
Definition Vdi_SetLayerBuffer (devId layerId : Z) (buffer : BufferHandle) (fence : Z)
    : HdiSession → D HdfStatus := vdi_layer devId layerId (λ p, SetLayerBuffer p (Some buffer) fence).
Definition Vdi_SetLayerCompositionType (devId layerId : Z) (type : CompositionType)
    : HdiSession → D HdfStatus := vdi_layer devId layerId (λ p, SetLayerCompositionType p type).
Definition Vdi_SetLayerBlendType (devId layerId type : Z) : HdiSession → D HdfStatus :=
  vdi_layer devId layerId (λ p, SetLayerBlendType p type).
End Session.
