(* ===== verification/RilBridge.v ===== *)
(** * The radio bridge (hybris_generic/hardware/ril): types, state and RilBridge

    OpenHarmony's hril hands the vendor library a [ReqDataInfo *] that must be reported
    against exactly once, after which hril frees it.  The bridge forwards the request to
    the container's AIDL IRadio services under a serial of its own and reports when the
    answer with that serial arrives.

    hril's requests live in a table by address ([rl_reqs]); a report removes the entry,
    and reading a request that is not there is a fault, so a second report and a use
    after the report both fault.  So does leaving an array of [MAX_SLOTS] elements and a
    signed overflow.  What the bridge says is logged in [rl_log]: reports, notifications,
    calls to IRadio.  A call to a service whose process has died is lost; the bridge does
    not look at the status a call returns.  The numbers of hril's enumerations are not
    needed: they are inductive types with the enumerators the source names. *)

From stdpp Require Import finite.
From S2P Require Import Prelude FaultMonad.
Set Warnings "-rewrite-rw,-clear-no-such-hyp".
#[global] Open Scope Z_scope.
#[global] Open Scope fault_scope.

(** ** hril's side *)

(** The report callbacks: OnModemReport, OnSimReport, ... *)
Inductive Domain := DModem | DSim | DNetwork | DSms | DData | DCall.
Inductive HRilErr :=
| HRIL_ERR_SUCCESS | HRIL_ERR_GENERIC_FAILURE | HRIL_ERR_MODEM_DEVICE_CLOSE
| HRIL_ERR_PINPUK_PASSWORD_NOCORRECT | HRIL_ERR_NEED_PIN_CODE | HRIL_ERR_NEED_PUK_CODE
| HRIL_ERR_VENDOR_NOT_IMPLEMENT | HRIL_ERR_NO_SIMCARD_INSERTED | HRIL_ERR_INVALID_PARAMETER.
(** A radio state is an [int32_t]: one of the three named values or another. *)
Inductive HRilRadioState :=
| HRIL_RADIO_POWER_STATE_OFF | HRIL_RADIO_POWER_STATE_ON | HRIL_RADIO_POWER_STATE_UNAVAILABLE
| HRIL_RADIO_POWER_STATE_other (z : Z).
#[export] Instance HRilRadioState_eq_dec : EqDecision HRilRadioState.
Proof. solve_decision. Defined.
Inductive HNoti :=
| HNOTI_MODEM_RADIO_STATE_UPDATED | HNOTI_SIM_STATUS_CHANGED
| HNOTI_NETWORK_CS_REG_STATUS_UPDATED | HNOTI_NETWORK_PS_REG_STATUS_UPDATED
| HNOTI_NETWORK_SIGNAL_STRENGTH_UPDATED | HNOTI_NETWORK_TIME_UPDATED
| HNOTI_SMS_NEW_SMS | HNOTI_SMS_STATUS_REPORT | HNOTI_SMS_NEW_SMS_STORED_ON_SIM
| HNOTI_DATA_PDP_CONTEXT_LIST_UPDATED
| HNOTI_CALL_STATE_UPDATED | HNOTI_CALL_RINGBACK_VOICE_REPORT
| HNOTI_CALL_EMERGENCY_NUMBER_REPORT | HNOTI_CALL_USSD_REPORT | HNOTI_CALL_SS_REPORT.
#[export] Instance HNoti_eq_dec : EqDecision HNoti.
Proof. solve_decision. Defined.
Definition HNoti_all : list HNoti :=
  [HNOTI_MODEM_RADIO_STATE_UPDATED; HNOTI_SIM_STATUS_CHANGED; HNOTI_NETWORK_CS_REG_STATUS_UPDATED;
   HNOTI_NETWORK_PS_REG_STATUS_UPDATED; HNOTI_NETWORK_SIGNAL_STRENGTH_UPDATED;
   HNOTI_NETWORK_TIME_UPDATED; HNOTI_SMS_NEW_SMS; HNOTI_SMS_STATUS_REPORT;
   HNOTI_SMS_NEW_SMS_STORED_ON_SIM; HNOTI_DATA_PDP_CONTEXT_LIST_UPDATED; HNOTI_CALL_STATE_UPDATED;
   HNOTI_CALL_RINGBACK_VOICE_REPORT; HNOTI_CALL_EMERGENCY_NUMBER_REPORT; HNOTI_CALL_USSD_REPORT;
   HNOTI_CALL_SS_REPORT].
#[export, program] Instance HNoti_finite : Finite HNoti := {| enum := HNoti_all |}.
Next Obligation. apply (bool_decide_unpack _). vm_compute. done. Qed.
Next Obligation. intros []; apply (bool_decide_unpack _); vm_compute; done. Qed.
#[export] Instance HNoti_countable : Countable HNoti := finite_countable.
(** The request codes the vendor library looks at. *)
Inductive HReq := HREQ_MODEM_GET_IMEISV | HREQ_SMS_SEND_SMS_MORE_MODE | HREQ_other (z : Z).
#[export] Instance HReq_eq_dec : EqDecision HReq.
Proof. solve_decision. Defined.
Record ReqDataInfo := mkReq { rq_slotId : Z; rq_request : HReq }.

Inductive HRilRadioTech :=
| RADIO_TECHNOLOGY_UNKNOWN | RADIO_TECHNOLOGY_GSM | RADIO_TECHNOLOGY_1XRTT
| RADIO_TECHNOLOGY_WCDMA | RADIO_TECHNOLOGY_HSPA | RADIO_TECHNOLOGY_HSPAP
| RADIO_TECHNOLOGY_TD_SCDMA | RADIO_TECHNOLOGY_EVDO | RADIO_TECHNOLOGY_EHRPD
| RADIO_TECHNOLOGY_LTE | RADIO_TECHNOLOGY_LTE_CA | RADIO_TECHNOLOGY_IWLAN | RADIO_TECHNOLOGY_NR
| RADIO_TECHNOLOGY_GPRS | RADIO_TECHNOLOGY_EDGE | RADIO_TECHNOLOGY_UMTS | RADIO_TECHNOLOGY_IS95A
| RADIO_TECHNOLOGY_IS95B | RADIO_TECHNOLOGY_EVDO_0 | RADIO_TECHNOLOGY_EVDO_A
| RADIO_TECHNOLOGY_HSDPA | RADIO_TECHNOLOGY_HSUPA | RADIO_TECHNOLOGY_EVDO_B
| RADIO_TECHNOLOGY_DCHSPAP | RADIO_TECHNOLOGY_other (z : Z).
Inductive HRilRegStatus :=
| NO_REG_MT_NO_SEARCH | REG_MT_HOME | NO_REG_MT_SEARCHING | REG_MT_REJECTED | REG_MT_UNKNOWN
| REG_MT_ROAMING | REG_MT_EMERGENCY.
Inductive HRilRegNotifyMode := REG_NOT_NOTIFY | REG_NOTIFY_STAT_ONLY | REG_NOTIFY_STAT_LAC_CELLID.
#[export] Instance HRilRadioTech_eq_dec : EqDecision HRilRadioTech.
Proof. solve_decision. Defined.
#[export] Instance HRilRegStatus_eq_dec : EqDecision HRilRegStatus.
Proof. solve_decision. Defined.
#[export] Instance HRilRegNotifyMode_eq_dec : EqDecision HRilRegNotifyMode.
Proof. solve_decision. Defined.
Record HRilRegStatusInfo := mkReg {
  rg_notifyMode : HRilRegNotifyMode; rg_regStatus : HRilRegStatus; rg_actType : HRilRadioTech;
  rg_lacCode : Z; rg_cellId : Z;
  rg_isNrAvailable : Z; rg_isEnDcAvailable : Z; rg_isDcNrRestricted : Z }.
#[export] Instance HRilRegStatusInfo_eq_dec : EqDecision HRilRegStatusInfo.
Proof. solve_decision. Defined.
Record HRilRssi := mkRssi {
  gsm_rxlev : Z; gsm_ber : Z;
  wcdma_rxlev : Z; wcdma_ber : Z; wcdma_rscp : Z; wcdma_ecio : Z;
  cdma_absoluteRssi : Z; cdma_ecno : Z;
  lte_rxlev : Z; lte_rsrp : Z; lte_rsrq : Z; lte_snr : Z;
  tdscdma_rscp : Z; nr_rsrp : Z; nr_rsrq : Z; nr_sinr : Z }.

Inductive HRilSimType := HRIL_SIM_TYPE_UNKNOWN | HRIL_SIM_TYPE_SIM | HRIL_SIM_TYPE_USIM.
Inductive HRilSimState :=
| HRIL_SIM_NOT_INSERTED | HRIL_SIM_READY | HRIL_SIM_PIN | HRIL_SIM_PUK | HRIL_SIM_NOT_READY
| HRIL_PH_NET_PIN.
Record HRilCardState := mkCard {
  cd_index : Z; cd_simType : HRilSimType; cd_simState : HRilSimState; cd_iccid : string }.
Inductive HRilLockResult := HRIL_UNLOCK_SUCCESS | HRIL_UNLOCK_PASSWORD_ERR.

Record HRilDataCallResponse := mkDataCall {
  dc_reason : Z; dc_retryTime : Z; dc_cid : Z; dc_active : Z; dc_type : string;
  dc_netPortName : string; dc_address : string; dc_dns : string; dc_dnsSec : string;
  dc_gateway : string; dc_maxTransferUnit : Z; dc_pCscfPrimAddr : string;
  dc_pCscfSecAddr : string; dc_pduSessionId : Z }.
Inductive HRilCallMode := HRIL_CALL_VOICE | HRIL_CALL_DATA.
Record HRilCallInfo := mkCallInfo {
  hc_index : Z; hc_dir : Z; hc_state : Z; hc_mode : HRilCallMode; hc_mpty : Z;
  hc_voiceDomain : Z; hc_callType : Z; hc_number : string; hc_type : Z; hc_alpha : string;
  hc_name : string; hc_namePresentation : Z }.
Record HRilCFQueryInfo := mkCFQuery {
  cq_status : Z; cq_classx : Z; cq_type : Z; cq_number : string; cq_reason : Z; cq_time : Z }.
Record HRilEmergencyInfo := mkEcc {
  ec_index : Z; ec_total : Z; ec_eccNum : string; ec_category : Z; ec_simpresent : Z;
  ec_mcc : string; ec_abnormalService : Z }.

(** What a report points to: nothing, a scalar, a string or one of hril's structures. *)
Inductive Payload :=
| PNull
| PInt (z : Z)
| PPower (s : HRilRadioState)
| PNetworkAuto
| PStr (s : string)
| PVoiceRadio (sysModeName : string) (actType : HRilRadioTech) (actName : string)
| PCard (c : HRilCardState)
| PSimIO (sw1 sw2 : Z) (response : string)
| PLock (result : HRilLockResult) (remain : Z)
| PRestriction (status classCw : Z)
| PRssi (r : HRilRssi)
| PReg (r : HRilRegStatusInfo)
| POperator (longName shortName numeric : string)
| PSmsc (tosca : Z) (address : string)
| PSms (msgRef : Z) (pdu : string) (errCode : Z)
| PDataCall (c : HRilDataCallResponse)
| PDataCalls (l : list HRilDataCallResponse)
| PCalls (l : list HRilCallInfo)
| PForwards (l : list HRilCFQueryInfo)
| PEmergency (l : list HRilEmergencyInfo)
| PClip (action clipStat : Z)
| PClir (action clirStat : Z)
| PWaiting (status classCw : Z)
| PUssd (m : Z) (str : string)
| PSs (serviceType requestType serviceClass result : Z).

(** ** The AIDL side *)

Inductive Iface := IModem | ISim | INetwork | IMessaging | IData | IVoice.
#[export] Instance Iface_eq_dec : EqDecision Iface.
Proof. solve_decision. Defined.
Definition Iface_all : list Iface := [IModem; ISim; INetwork; IMessaging; IData; IVoice].
#[export, program] Instance Iface_finite : Finite Iface := {| enum := Iface_all |}.
Next Obligation. apply (bool_decide_unpack _). vm_compute. done. Qed.
Next Obligation. intros []; apply (bool_decide_unpack _); vm_compute; done. Qed.
#[export] Instance Iface_countable : Countable Iface := finite_countable.

Module RadioError.
Definition NONE : Z := 0.
Definition RADIO_NOT_AVAILABLE : Z := 1.
Definition PASSWORD_INCORRECT : Z := 3.
Definition SIM_PIN2 : Z := 4.
Definition SIM_PUK2 : Z := 5.
Definition REQUEST_NOT_SUPPORTED : Z := 6.
Definition SIM_ABSENT : Z := 11.
Definition INVALID_ARGUMENTS : Z := 44.
End RadioError.
Inductive AccessNetwork :=
| AN_UNKNOWN | AN_GERAN | AN_UTRAN | AN_EUTRAN | AN_CDMA2000 | AN_IWLAN | AN_NGRAN.
#[export] Instance AccessNetwork_eq_dec : EqDecision AccessNetwork.
Proof. solve_decision. Defined.
(** Enumerations that arrive over binder may carry a number without a name. *)
Inductive RadioTechnology :=
| RT_UNKNOWN | RT_GPRS | RT_EDGE | RT_UMTS | RT_IS95A | RT_IS95B | RT_ONE_X_RTT | RT_EVDO_0
| RT_EVDO_A | RT_HSDPA | RT_HSUPA | RT_HSPA | RT_EVDO_B | RT_EHRPD | RT_LTE | RT_HSPAP | RT_GSM
| RT_TD_SCDMA | RT_IWLAN | RT_NR | RT_other (z : Z).
Inductive RegState :=
| RS_NOT_REG_MT_NOT_SEARCHING_OP | RS_REG_HOME | RS_NOT_REG_MT_SEARCHING_OP | RS_REG_DENIED
| RS_UNKNOWN | RS_REG_ROAMING | RS_NOT_REG_MT_NOT_SEARCHING_OP_EM | RS_NOT_REG_MT_SEARCHING_OP_EM
| RS_REG_DENIED_EM | RS_UNKNOWN_EM | RS_REG_EM | RS_other (z : Z).
Inductive RadioState := RadioState_OFF | RadioState_UNAVAILABLE | RadioState_ON | RadioState_other (z : Z).
Inductive PdpProtocolType :=
| PDP_UNKNOWN | PDP_IP | PDP_IPV6 | PDP_IPV4V6 | PDP_PPP | PDP_NON_IP | PDP_UNSTRUCTURED
| PDP_other (z : Z).
#[export] Instance PdpProtocolType_eq_dec : EqDecision PdpProtocolType.
Proof. solve_decision. Defined.
Inductive ClipStatus := CLIP_PROVISIONED | CLIP_UNPROVISIONED | CLIP_UNKNOWN.
Inductive SmsAcknowledgeFailCause := MEMORY_CAPACITY_EXCEEDED | UNSPECIFIED_ERROR.
Inductive DataRequestReason := DR_NORMAL | DR_HANDOVER.

Record ImeiInfo := mkImei { im_imei : string; im_svn : string }.
Record AppStatus := mkApp { ap_appType : Z; ap_appState : Z; ap_aidPtr : string }.
Record CardStatus := mkCardStatus {
  cs_cardState : Z; cs_gsmUmtsSubscriptionAppIndex : Z; cs_applications : list AppStatus;
  cs_iccid : string }.
Record IccIo := mkIccIo {
  io_command : Z; io_fileId : Z; io_path : string; io_p1 : Z; io_p2 : Z; io_p3 : Z;
  io_data : string; io_pin2 : string; io_aid : string }.
Inductive CellIdentity :=
| CI_noinit | CI_gsm (lac cid : Z) | CI_wcdma (lac cid : Z) | CI_tdscdma (lac cid : Z) | CI_cdma
| CI_lte (tac ci : Z) | CI_nr (tac nci : Z).
Record RegStateResult := mkRegState {
  rr_regState : RegState; rr_rat : RadioTechnology; rr_cellIdentity : CellIdentity }.
Record SignalStrength := mkSignal {
  ss_gsm_signalStrength : Z; ss_gsm_bitErrorRate : Z;
  ss_cdma_dbm : Z; ss_cdma_ecio : Z;
  ss_lte_signalStrength : Z; ss_lte_rsrp : Z; ss_lte_rsrq : Z; ss_lte_rssnr : Z;
  ss_tdscdma_rscp : Z;
  ss_wcdma_signalStrength : Z; ss_wcdma_bitErrorRate : Z; ss_wcdma_rscp : Z; ss_wcdma_ecno : Z;
  ss_nr_ssRsrp : Z; ss_nr_ssRsrq : Z; ss_nr_ssSinr : Z }.
(** Of a data profile, the fields the bridge sets. *)
Record DataProfileInfo := mkProfile {
  pf_profileId : Z; pf_apn : string; pf_protocol : PdpProtocolType;
  pf_roamingProtocol : PdpProtocolType; pf_authType : Z; pf_user : string; pf_password : string;
  pf_type : Z; pf_enabled : bool; pf_supportedApnTypesBitmap : Z; pf_bearerBitmap : Z;
  pf_preferred : bool; pf_persistent : bool; pf_alwaysOn : bool }.
Record SetupDataCallResult := mkSetup {
  sd_cause : Z; sd_suggestedRetryTime : Z; sd_cid : Z; sd_active : Z; sd_type : PdpProtocolType;
  sd_ifname : string; sd_addresses : list string; sd_dnses : list string;
  sd_gateways : list string; sd_pcscf : list string; sd_mtuV4 : Z; sd_mtuV6 : Z;
  sd_pduSessionId : Z }.
Record VoiceCall := mkVoiceCall {
  vc_state : Z; vc_index : Z; vc_toa : Z; vc_isMpty : bool; vc_isMT : bool; vc_isVoice : bool;
  vc_number : string; vc_name : string; vc_namePresentation : Z }.
Record CallForwardInfo := mkForward {
  cf_status : Z; cf_reason : Z; cf_serviceClass : Z; cf_toa : Z; cf_number : string;
  cf_timeSeconds : Z }.
Record EmergencyNumber := mkEmergency {
  en_number : string; en_mcc : string; en_categories : Z; en_sources : Z }.

(** The requests the bridge makes of the services, in IRadio's names. *)
Inductive RadioCall :=
| C_setRadioPower (powerOn forEmergencyCall preferredForEmergencyCall : bool)
| C_getImei | C_getBasebandVersion | C_requestShutdown
| C_getIccCardStatus | C_getImsiForApp (aid : string) | C_iccIoForApp (io : IccIo)
| C_enableUiccApplications (enable : bool)
| C_supplyIccPinForApp (pin aid : string) | C_supplyIccPukForApp (puk pin aid : string)
| C_supplyIccPin2ForApp (pin2 aid : string) | C_supplyIccPuk2ForApp (puk2 pin2 aid : string)
| C_getFacilityLockForApp (facility password : string) (serviceClass : Z) (appId : string)
| C_setFacilityLockForApp (facility : string) (lockState : bool) (password : string)
    (serviceClass : Z) (appId : string)
| C_getSignalStrength | C_getVoiceRegistrationState | C_getDataRegistrationState | C_getOperator
| C_getNetworkSelectionMode | C_setNetworkSelectionModeAutomatic
| C_setNetworkSelectionModeManual (operatorNumeric : string) (ran : AccessNetwork)
| C_getAllowedNetworkTypesBitmap | C_setAllowedNetworkTypesBitmap (bitmap : Z)
| C_setLocationUpdates (enable : bool) | C_setIndicationFilter (filter : Z)
| C_setBarringPassword (facility oldPassword newPassword : string)
| C_setSuppServiceNotifications (enable : bool)
| C_sendSms (smscPdu pdu : string) | C_sendSmsExpectMore (smscPdu pdu : string)
| C_acknowledgeLastIncomingGsmSms (success : bool) (cause : SmsAcknowledgeFailCause)
| C_getSmscAddress | C_setSmscAddress (smsc : string) | C_reportSmsMemoryStatus (available : bool)
| C_writeSmsToSim (status : Z) (pdu smsc : string) | C_deleteSmsOnSim (index : Z)
| C_setupDataCall (accessNetwork : AccessNetwork) (dataProfileInfo : DataProfileInfo)
    (roamingAllowed : bool) (reason : DataRequestReason)
| C_deactivateDataCall (cid : Z) (reason : DataRequestReason) | C_getDataCallList
| C_setInitialAttachApn (profile : DataProfileInfo) | C_setDataProfile (profiles : list DataProfileInfo)
| C_setDataAllowed (allow : bool)
| C_getCurrentCalls | C_dial (address : string) (clir : Z) | C_acceptCall | C_rejectCall
| C_hangup (gsmIndex : Z) | C_switchWaitingOrHoldingAndActive | C_conference
| C_separateConnection (gsmIndex : Z) | C_hangupWaitingOrBackground
| C_hangupForegroundResumeBackground | C_explicitCallTransfer
| C_startDtmf (s : string) | C_sendDtmf (s : string) | C_stopDtmf
| C_setMute (enable : bool) | C_getMute | C_getLastCallFailCause
| C_getClip | C_getClir | C_setClir (status : Z) | C_getCallWaiting (serviceClass : Z)
| C_setCallWaiting (enable : bool) (serviceClass : Z)
| C_getCallForwardStatus (cf : CallForwardInfo) | C_setCallForward (cf : CallForwardInfo)
| C_sendUssd (ussd : string) | C_cancelPendingUssd.

Inductive Out :=
| OReport (d : Domain) (slot : Z) (request : Z) (err : HRilErr) (p : Payload)
| ONotify (d : Domain) (slot : Z) (id : HNoti) (p : Payload)
| OCall (delivered : bool) (i : Iface) (slot serial : Z) (c : RadioCall)
| OAck (i : Iface) (slot : Z).

(** ** The bridge *)

Definition MAX_SLOTS : Z := 2.
Record Ril := mkRil {
  rl_reportOps_ : bool;  (* not null *)
  rl_services : gset (Iface * Z);  (* modem_[], sim_[], ...: the elements that are not null *)
  rl_connected_ : bool;
  rl_pending_ : gmap Z (option Z);  (* serial to request *)
  rl_notifying_ : gmap Z (Z * HNoti);
  rl_nextSerial_ : Z;
  rl_radioState : list HRilRadioState;  (* g_radioState *)
  rl_powerRequests : gmap Z bool;  (* g_powerRequests *)
  rl_appAid : list string;  (* g_appAid *)
  rl_dataAccessNetwork : list AccessNetwork;  (* g_dataAccessNetwork *)
  rl_lastReg : gmap (Z * HNoti) HRilRegStatusInfo;  (* last, of RegChanged *)
  rl_profiles : list (list DataProfileInfo);  (* g_profiles *)
  rl_clipPresentation : list Z;  (* g_clipPresentation *)
  rl_reqs : gmap Z ReqDataInfo;  (* hril's requests, by address *)
  rl_dead : gset Z;  (* slots whose rild is gone *)
  rl_log : list Out;  (* oldest first *)
}.
Definition set_rl_reportOps_ (x : bool) (s : Ril) : Ril := mkRil x (rl_services s) (rl_connected_
  s) (rl_pending_ s) (rl_notifying_ s) (rl_nextSerial_ s) (rl_radioState s) (rl_powerRequests s)
  (rl_appAid s) (rl_dataAccessNetwork s) (rl_lastReg s) (rl_profiles s) (rl_clipPresentation s)
  (rl_reqs s) (rl_dead s) (rl_log s).
Definition set_rl_services (x : gset (Iface * Z)) (s : Ril) : Ril := mkRil (rl_reportOps_ s) x
  (rl_connected_ s) (rl_pending_ s) (rl_notifying_ s) (rl_nextSerial_ s) (rl_radioState s)
  (rl_powerRequests s) (rl_appAid s) (rl_dataAccessNetwork s) (rl_lastReg s) (rl_profiles s)
  (rl_clipPresentation s) (rl_reqs s) (rl_dead s) (rl_log s).
Definition set_rl_connected_ (x : bool) (s : Ril) : Ril := mkRil (rl_reportOps_ s) (rl_services s)
  x (rl_pending_ s) (rl_notifying_ s) (rl_nextSerial_ s) (rl_radioState s) (rl_powerRequests s)
  (rl_appAid s) (rl_dataAccessNetwork s) (rl_lastReg s) (rl_profiles s) (rl_clipPresentation s)
  (rl_reqs s) (rl_dead s) (rl_log s).
Definition set_rl_pending_ (x : gmap Z (option Z)) (s : Ril) : Ril := mkRil (rl_reportOps_ s)
  (rl_services s) (rl_connected_ s) x (rl_notifying_ s) (rl_nextSerial_ s) (rl_radioState s)
  (rl_powerRequests s) (rl_appAid s) (rl_dataAccessNetwork s) (rl_lastReg s) (rl_profiles s)
  (rl_clipPresentation s) (rl_reqs s) (rl_dead s) (rl_log s).
Definition set_rl_notifying_ (x : gmap Z (Z * HNoti)) (s : Ril) : Ril := mkRil (rl_reportOps_ s)
  (rl_services s) (rl_connected_ s) (rl_pending_ s) x (rl_nextSerial_ s) (rl_radioState s)
  (rl_powerRequests s) (rl_appAid s) (rl_dataAccessNetwork s) (rl_lastReg s) (rl_profiles s)
  (rl_clipPresentation s) (rl_reqs s) (rl_dead s) (rl_log s).
Definition set_rl_nextSerial_ (x : Z) (s : Ril) : Ril := mkRil (rl_reportOps_ s) (rl_services s)
  (rl_connected_ s) (rl_pending_ s) (rl_notifying_ s) x (rl_radioState s) (rl_powerRequests s)
  (rl_appAid s) (rl_dataAccessNetwork s) (rl_lastReg s) (rl_profiles s) (rl_clipPresentation s)
  (rl_reqs s) (rl_dead s) (rl_log s).
Definition set_rl_radioState (x : list HRilRadioState) (s : Ril) : Ril := mkRil (rl_reportOps_ s)
  (rl_services s) (rl_connected_ s) (rl_pending_ s) (rl_notifying_ s) (rl_nextSerial_ s) x
  (rl_powerRequests s) (rl_appAid s) (rl_dataAccessNetwork s) (rl_lastReg s) (rl_profiles s)
  (rl_clipPresentation s) (rl_reqs s) (rl_dead s) (rl_log s).
Definition set_rl_powerRequests (x : gmap Z bool) (s : Ril) : Ril := mkRil (rl_reportOps_ s)
  (rl_services s) (rl_connected_ s) (rl_pending_ s) (rl_notifying_ s) (rl_nextSerial_ s)
  (rl_radioState s) x (rl_appAid s) (rl_dataAccessNetwork s) (rl_lastReg s) (rl_profiles s)
  (rl_clipPresentation s) (rl_reqs s) (rl_dead s) (rl_log s).
Definition set_rl_appAid (x : list string) (s : Ril) : Ril := mkRil (rl_reportOps_ s) (rl_services
  s) (rl_connected_ s) (rl_pending_ s) (rl_notifying_ s) (rl_nextSerial_ s) (rl_radioState s)
  (rl_powerRequests s) x (rl_dataAccessNetwork s) (rl_lastReg s) (rl_profiles s)
  (rl_clipPresentation s) (rl_reqs s) (rl_dead s) (rl_log s).
Definition set_rl_dataAccessNetwork (x : list AccessNetwork) (s : Ril) : Ril := mkRil
  (rl_reportOps_ s) (rl_services s) (rl_connected_ s) (rl_pending_ s) (rl_notifying_ s)
  (rl_nextSerial_ s) (rl_radioState s) (rl_powerRequests s) (rl_appAid s) x (rl_lastReg s)
  (rl_profiles s) (rl_clipPresentation s) (rl_reqs s) (rl_dead s) (rl_log s).
Definition set_rl_lastReg (x : gmap (Z * HNoti) HRilRegStatusInfo) (s : Ril) : Ril := mkRil
  (rl_reportOps_ s) (rl_services s) (rl_connected_ s) (rl_pending_ s) (rl_notifying_ s)
  (rl_nextSerial_ s) (rl_radioState s) (rl_powerRequests s) (rl_appAid s) (rl_dataAccessNetwork s)
  x (rl_profiles s) (rl_clipPresentation s) (rl_reqs s) (rl_dead s) (rl_log s).
Definition set_rl_profiles (x : list (list DataProfileInfo)) (s : Ril) : Ril := mkRil
  (rl_reportOps_ s) (rl_services s) (rl_connected_ s) (rl_pending_ s) (rl_notifying_ s)
  (rl_nextSerial_ s) (rl_radioState s) (rl_powerRequests s) (rl_appAid s) (rl_dataAccessNetwork s)
  (rl_lastReg s) x (rl_clipPresentation s) (rl_reqs s) (rl_dead s) (rl_log s).
Definition set_rl_clipPresentation (x : list Z) (s : Ril) : Ril := mkRil (rl_reportOps_ s)
  (rl_services s) (rl_connected_ s) (rl_pending_ s) (rl_notifying_ s) (rl_nextSerial_ s)
  (rl_radioState s) (rl_powerRequests s) (rl_appAid s) (rl_dataAccessNetwork s) (rl_lastReg s)
  (rl_profiles s) x (rl_reqs s) (rl_dead s) (rl_log s).
Definition set_rl_reqs (x : gmap Z ReqDataInfo) (s : Ril) : Ril := mkRil (rl_reportOps_ s)
  (rl_services s) (rl_connected_ s) (rl_pending_ s) (rl_notifying_ s) (rl_nextSerial_ s)
  (rl_radioState s) (rl_powerRequests s) (rl_appAid s) (rl_dataAccessNetwork s) (rl_lastReg s)
  (rl_profiles s) (rl_clipPresentation s) x (rl_dead s) (rl_log s).
Definition set_rl_dead (x : gset Z) (s : Ril) : Ril := mkRil (rl_reportOps_ s) (rl_services s)
  (rl_connected_ s) (rl_pending_ s) (rl_notifying_ s) (rl_nextSerial_ s) (rl_radioState s)
  (rl_powerRequests s) (rl_appAid s) (rl_dataAccessNetwork s) (rl_lastReg s) (rl_profiles s)
  (rl_clipPresentation s) (rl_reqs s) x (rl_log s).
Definition set_rl_log (x : list Out) (s : Ril) : Ril := mkRil (rl_reportOps_ s) (rl_services s)
  (rl_connected_ s) (rl_pending_ s) (rl_notifying_ s) (rl_nextSerial_ s) (rl_radioState s)
  (rl_powerRequests s) (rl_appAid s) (rl_dataAccessNetwork s) (rl_lastReg s) (rl_profiles s)
  (rl_clipPresentation s) (rl_reqs s) (rl_dead s) x.
(** Before [RilInitOps]: what C++ zero-initialises. *)
Definition Ril_new : Ril :=
  mkRil false ∅ false ∅ ∅ 1 [HRIL_RADIO_POWER_STATE_OFF; HRIL_RADIO_POWER_STATE_OFF] ∅ [""; ""]
    [AN_UNKNOWN; AN_UNKNOWN] ∅ [[]; []] [0; 0] ∅ ∅ [].

Abbreviation M := (F Ril).
(** An element of an array of [MAX_SLOTS]; outside of it there is no telling. *)
Definition aget {A} (l : list A) (i : Z) : M A :=
  if i <? 0 then fault else fsome (l !! Z.to_nat i).
Definition aset {A} (set : list A → Ril → Ril) (l : list A) (i : Z) (a : A) : M unit :=
  do! aget l i in fmod (set (<[Z.to_nat i := a]> l)).
Definition in_slots (slotId : Z) : bool := (0 <=? slotId) && (slotId <? MAX_SLOTS).
Definition emit (o : Out) : M unit := fmod (λ s, set_rl_log (rl_log s ++ [o]) s).
(** [request->...] *)
Definition deref (request : Z) : M ReqDataInfo :=
  let! reqs := fget rl_reqs in fsome (reqs !! request).

Definition Start (reportOps : bool) : M unit := fmod (set_rl_reportOps_ reportOps).
Definition Connected : M bool := fget rl_connected_.

(** [Modem], [Sim], [Network], [Messaging], [Data], [Voice]: the service of a slot. *)
Definition service (i : Iface) (slotId : Z) : M bool :=
  if (slotId <? 0) || (MAX_SLOTS <=? slotId) then fret false
  else let! sv := fget rl_services in fret (bool_decide ((i, slotId) ∈ sv)).

(** [nextSerial_++] on an [int32_t], then the wrap the code means to make. *)
Definition NextSerial : M Z :=
  let! serial := fget rl_nextSerial_ in
  if serial =? 2 ^ 31 - 1 then fault
  else
    do! fmod (set_rl_nextSerial_ (if serial + 1 <? 0 then 1 else serial + 1)) in
    fret serial.
Definition Track (request : option Z) : M Z :=
  let! serial := NextSerial in
  do! fmod (λ s, set_rl_pending_ (<[serial := request]> (rl_pending_ s)) s) in
  fret serial.
Definition TakePending (serial : Z) : M (option Z) :=
  let! m := fget rl_pending_ in
  match m !! serial with
  | None => fret None
  | Some req => do! fmod (set_rl_pending_ (delete serial m)) in fret req
  end.
Definition TrackNotify (slotId : Z) (notifyId : HNoti) : M Z :=
  let! serial := NextSerial in
  do! fmod (λ s, set_rl_notifying_ (<[serial := (slotId, notifyId)]> (rl_notifying_ s)) s) in
  fret serial.
Definition TakeNotify (serial : Z) : M (option (Z * HNoti)) :=
  let! m := fget rl_notifying_ in
  match m !! serial with
  | None => fret None
  | Some t => do! fmod (set_rl_notifying_ (delete serial m)) in fret (Some t)
  end.

(** [ReportModem], [ReportSim], ...: hril takes the answer and frees the request. *)
Definition report (d : Domain) (request : option Z) (err : HRilErr) (p : Payload) : M unit :=
  let! ops := fget rl_reportOps_ in
  match ops, request with
  | true, Some r =>
      let! info := deref r in
      do! emit (OReport d (rq_slotId info) r err p) in
      fmod (λ s, set_rl_reqs (delete r (rl_reqs s)) s)
  | _, _ => fret tt
  end.
(** [NotifyModem], [NotifySim], ... *)
Definition notify (d : Domain) (slotId : Z) (notifyId : HNoti) (p : Payload) : M unit :=
  let! ops := fget rl_reportOps_ in
  if ops : bool then emit (ONotify d slotId notifyId p) else fret tt.

(** A oneway call through a service; nobody looks at its status. *)
Definition call (i : Iface) (slot serial : Z) (c : RadioCall) : M unit :=
  let! dead := fget rl_dead in emit (OCall (negb (bool_decide (slot ∈ dead))) i slot serial c).

(** [RequireModem], [RequireSim], ...: the slot of a request whose service is there. *)
Definition require (i : Iface) (d : Domain) (request : option Z) : M (option Z) :=
  match request with
  | None => fret None
  | Some r =>
      let! info := deref r in
      let! up := service i (rq_slotId info) in
      if up : bool then fret (Some (rq_slotId info))
      else do! report d request HRIL_ERR_GENERIC_FAILURE PNull in fret None
  end.

Definition ToHrilError (radioError : Z) : HRilErr :=
  if radioError =? RadioError.NONE then HRIL_ERR_SUCCESS
  else if radioError =? RadioError.RADIO_NOT_AVAILABLE then HRIL_ERR_MODEM_DEVICE_CLOSE
  else if radioError =? RadioError.PASSWORD_INCORRECT then HRIL_ERR_PINPUK_PASSWORD_NOCORRECT
  else if radioError =? RadioError.SIM_PIN2 then HRIL_ERR_NEED_PIN_CODE
  else if radioError =? RadioError.SIM_PUK2 then HRIL_ERR_NEED_PUK_CODE
  else if radioError =? RadioError.REQUEST_NOT_SUPPORTED then HRIL_ERR_VENDOR_NOT_IMPLEMENT
  else if radioError =? RadioError.SIM_ABSENT then HRIL_ERR_NO_SIMCARD_INSERTED
  else if radioError =? RadioError.INVALID_ARGUMENTS then HRIL_ERR_INVALID_PARAMETER
  else HRIL_ERR_GENERIC_FAILURE.

(** The shape of most handlers.  An operation: the service or an early report, then one
    call under a tracked serial.  A response: the request the serial stands for, if any. *)
Definition forward (i : Iface) (d : Domain) (request : option Z) (c : RadioCall) : M unit :=
  let! sv := require i d request in
  fopt sv (λ slot, let! serial := Track request in call i slot serial c).
Definition with_pending (serial : Z) (k : Z → M unit) : M unit :=
  let! req := TakePending serial in fopt req k.
Definition respond (d : Domain) (serial error : Z) (p : Payload) : M unit :=
  with_pending serial (λ r, report d (Some r) (ToHrilError error) p).
(** The same for an operation with an argument that may be missing. *)
Definition forward_opt (i : Iface) (d : Domain) (request : option Z) (c : option RadioCall) : M unit :=
  let! sv := require i d request in
  fopt sv (λ slot,
    match c with
    | None => report d request HRIL_ERR_INVALID_PARAMETER PNull
    | Some c => let! serial := Track request in call i slot serial c
    end).

(** ** Finding the services

    A poll loop looks, and sleeps when there is nothing yet; [t] is the time in
    milliseconds, and what there is to see at a time is a function of it. *)

Fixpoint poll (n : nat) (period : Z) (up : Z → bool) (t : Z) : bool * Z :=
  match n with
  | O => (false, t)
  | S n => if up t then (true, t) else poll n period up (t + period)
  end.
(** One poll a second for five minutes. *)
Definition AwaitService (up : Z → bool) (t : Z) : bool * Z := poll 300 1000 up t.
Definition WaitForContainerProcess (up : Z → bool) (timeoutMs : Z) (t : Z) : bool * Z :=
  poll (Z.to_nat (timeoutMs / 500)) 500 up t.
Definition ProbeServiceManager (done : Z → bool) (t : Z) : bool * Z := poll 150 100 done t.

(** When each thing the connect thread waits for is there: the parameter
    android.composer.ready, the processes servicemanager and mtkfusionrild, the answer to
    the probe, and the radio services of each slot ([None] is IRadioIms). *)
Record ConnectEnv := mkEnv {
  ce_ready : Z → bool; ce_binder : bool; ce_servicemanager : Z → bool; ce_rild : Z → bool;
  ce_probe : Z → bool; ce_service : option Iface → Z → Z → bool }.

Definition WaitForContainer (e : ConnectEnv) (t : Z) : Z := (poll 360 500 (ce_ready e) t).2.
Definition WaitForServiceManager (e : ConnectEnv) (t : Z) : Z :=
  let '(found, t) := WaitForContainerProcess (ce_servicemanager e) 180000 t in
  if found : bool then (WaitForContainerProcess (ce_rild e) 60000 t).2 else t.

(** The services of a slot, in the order they are waited for. *)
Definition slot_services : list Iface := [IModem; INetwork; ISim; IMessaging; IData; IVoice].
Fixpoint await_all (e : ConnectEnv) (slotId : Z) (l : list Iface) (t : Z) : bool * Z :=
  match l with
  | [] => (true, t)
  | i :: l =>
      let '(found, t) := AwaitService (ce_service e (Some i) slotId) t in
      if found : bool then await_all e slotId l t else (false, t)
  end.
(** The last wait is AttachPresenceCallbacks', whose result is dropped. *)
Definition ConnectSlot (e : ConnectEnv) (slotId t : Z) : bool * Z :=
  let '(found, t) := await_all e slotId slot_services t in
  if found : bool then (true, (AwaitService (ce_service e None slotId) t).2) else (false, t).
(** What it stores. *)
Definition bind_slot (slotId : Z) : M unit :=
  fmod (λ s, set_rl_services (list_to_set ((λ i, (i, slotId)) <$> slot_services) ∪ rl_services s) s).

(** [while (!ConnectSlot(slot))] for slot 0, which has no bound: [None] when the fuel is
    spent; and for a further slot, which gives up after the last try. *)
Fixpoint connect_first (fuel : nat) (e : ConnectEnv) (t : Z) : option Z :=
  match fuel with
  | O => None
  | S fuel =>
      let '(ok, t) := ConnectSlot e 0 t in
      if ok : bool then Some t else connect_first fuel e (t + 2000)
  end.
Fixpoint connect_extra (tries : nat) (e : ConnectEnv) (slot t : Z) : bool * Z :=
  let '(ok, t) := ConnectSlot e slot t in
  if ok : bool then (true, t)
  else match tries with
       | O => (false, t)
       | S tries => connect_extra tries e slot (t + 2000)
       end.
Definition EXTRA_SLOT_TRIES : nat := 15.

Inductive ConnectEnd := NoBinder | Wedged | Bound (slots : list Z) (t : Z).
Definition ConnectLoop (fuel : nat) (e : ConnectEnv) (t : Z) : option ConnectEnd :=
  let t := WaitForContainer e t in
  if negb (ce_binder e) then Some NoBinder
  else
    let t := WaitForServiceManager e t in
    let '(ok, t) := ProbeServiceManager (ce_probe e) t in
    if negb ok then Some Wedged
    else
      match connect_first fuel e t with
      | None => None
      | Some t =>
          let '(ok, t) := connect_extra (EXTRA_SLOT_TRIES - 1) e 1 t in
          Some (Bound (if ok : bool then [0; 1] else [0]) t)
      end.

(** ** Once connected: say that the radio is off, and repeat it *)

Definition announce : M unit :=
  do! fmod (set_rl_connected_ true) in
  ffor [0; 1] (λ slot,
    do! notify DModem slot HNOTI_MODEM_RADIO_STATE_UPDATED (PPower HRIL_RADIO_POWER_STATE_OFF) in
    notify DSim slot HNOTI_SIM_STATUS_CHANGED PNull).

Definition CachedRadioState (slotId : Z) : M HRilRadioState :=
  if negb (in_slots slotId) then fret HRIL_RADIO_POWER_STATE_UNAVAILABLE
  else let! l := fget rl_radioState in aget l slotId.
Definition AppAid (slotId : Z) : M string :=
  if negb (in_slots slotId) then fret ""
  else let! l := fget rl_appAid in aget l slotId.
Definition SlotHasSimApp (slotId : Z) : M bool :=
  let! aid := AppAid slotId in fret (negb (bool_decide (aid = ""))).

(** One of the thirty rounds, three seconds apart, with nobody in between (RilRadio.v
    has its steps one by one). *)
Definition nudge_round : M unit :=
  ffor [0; 1] (λ slot,
    let! app := SlotHasSimApp slot in
    if negb app then fret tt
    else
      let! state := CachedRadioState slot in
      if negb (bool_decide (state = HRIL_RADIO_POWER_STATE_OFF)) then fret tt
      else notify DModem slot HNOTI_MODEM_RADIO_STATE_UPDATED (PPower HRIL_RADIO_POWER_STATE_OFF)).
