(* ===== verification/RilDomains.v ===== *)
(** * The radio bridge: the six domains

    hybris_ril_modem.cpp, hybris_ril_sim.cpp, hybris_ril_network.cpp, hybris_ril_sms.cpp,
    hybris_ril_data.cpp and hybris_ril_call.cpp: in each the conversions between IRadio's
    and hril's types, the responses and indications of the services, and the operations of
    hril's table.  A pointer argument is an [option]; a [dataLen] that only guards against
    a short buffer is part of whether it is there. *)

From stdpp Require Import finite.
From S2P Require Import Prelude FaultMonad RilBridge.
Set Warnings "-rewrite-rw,-clear-no-such-hyp".
#[global] Open Scope Z_scope.
#[global] Open Scope fault_scope.

(** [p != nullptr ? p : ""] *)
Definition text (p : option string) : string := default "" p.
(** [slotId >= 0 && slotId < MAX_SLOTS ? slotId : 0] *)
Definition slot_or_0 (slotId : Z) : Z := if in_slots slotId then slotId else 0.

(** ** The modem *)
Module Modem.
Definition ToHrilRadioState (state : RadioState) : HRilRadioState :=
  match state with
  | RadioState_OFF => HRIL_RADIO_POWER_STATE_OFF
  | RadioState_ON => HRIL_RADIO_POWER_STATE_ON
  | _ => HRIL_RADIO_POWER_STATE_UNAVAILABLE
  end.
Definition store_state (slot : Z) (state : HRilRadioState) : M unit :=
  let! l := fget rl_radioState in aset set_rl_radioState l slot state.
Definition notify_state (slot : Z) (state : HRilRadioState) : M unit :=
  notify DModem slot HNOTI_MODEM_RADIO_STATE_UPDATED (PPower state).

Definition getBasebandVersionResponse (serial error : Z) (version : string) : M unit :=
  respond DModem serial error (PStr version).
Definition getImeiResponse (serial error : Z) (imeiInfo : option ImeiInfo) : M unit :=
  with_pending serial (λ r,
    let! req := deref r in
    let value := match imeiInfo with
                 | Some i => if bool_decide (rq_request req = HREQ_MODEM_GET_IMEISV)
                             then im_svn i else im_imei i
                 | None => ""
                 end in
    report DModem (Some r) (ToHrilError error) (PStr value)).
Definition setRadioPowerResponse (serial error : Z) : M unit :=
  let! power := fget rl_powerRequests in
  do! fmod (set_rl_powerRequests (delete serial power)) in
  let! req := TakePending serial in
  let! slot := match req with
               | Some r => let! info := deref r in fret (slot_or_0 (rq_slotId info))
               | None => fret 0
               end in
  do! match power !! serial with
      | Some requestedOn =>
          if error =? RadioError.NONE then
            let state := if requestedOn : bool then HRIL_RADIO_POWER_STATE_ON
                         else HRIL_RADIO_POWER_STATE_OFF in
            let! l := fget rl_radioState in
            let! old := aget l slot in
            do! store_state slot state in
            if bool_decide (old ≠ state) then notify_state slot state else fret tt
          else fret tt
      | None => fret tt
      end in
  fopt req (λ r, report DModem (Some r) (ToHrilError error) PNull).
Definition requestShutdownResponse (serial error : Z) : M unit :=
  respond DModem serial error PNull.

Definition radioStateChanged (slotId : Z) (radioState : RadioState) : M unit :=
  let state := ToHrilRadioState radioState in
  do! store_state slotId state in notify_state slotId state.
Definition modemReset (slotId : Z) : M unit :=
  do! store_state slotId HRIL_RADIO_POWER_STATE_UNAVAILABLE in
  notify_state slotId HRIL_RADIO_POWER_STATE_UNAVAILABLE.

Definition SetRadioState (requestInfo : option Z) (fun_ : HRilRadioState) : M unit :=
  let! modem := require IModem DModem requestInfo in
  fopt modem (λ slot,
    let on := bool_decide (fun_ ≠ HRIL_RADIO_POWER_STATE_OFF) in
    let! serial := Track requestInfo in
    do! fmod (λ s, set_rl_powerRequests (<[serial := on]> (rl_powerRequests s)) s) in
    call IModem slot serial (C_setRadioPower on false false)).
Definition GetRadioState (requestInfo : option Z) : M unit :=
  fopt requestInfo (λ r,
    let! info := deref r in
    let! l := fget rl_radioState in
    let! state := aget l (slot_or_0 (rq_slotId info)) in
    report DModem requestInfo HRIL_ERR_SUCCESS (PPower state)).
Definition GetImei (requestInfo : option Z) : M unit := forward IModem DModem requestInfo C_getImei.
Definition GetImeiSv (requestInfo : option Z) : M unit := forward IModem DModem requestInfo C_getImei.
Definition GetMeid (requestInfo : option Z) : M unit :=
  fopt requestInfo (λ _, report DModem requestInfo HRIL_ERR_SUCCESS (PStr "")).
Definition GetVoiceRadioTechnology (requestInfo : option Z) : M unit :=
  fopt requestInfo (λ _,
    report DModem requestInfo HRIL_ERR_SUCCESS (PVoiceRadio "" RADIO_TECHNOLOGY_UNKNOWN "")).
Definition GetBasebandVersion (requestInfo : option Z) : M unit :=
  forward IModem DModem requestInfo C_getBasebandVersion.
Definition ShutDown (requestInfo : option Z) : M unit :=
  forward IModem DModem requestInfo C_requestShutdown.
End Modem.

(** ** The SIM card *)
Module Sim.
Definition RememberAppAid (slotId : Z) (aid : string) : M unit :=
  if negb (in_slots slotId) then fret tt
  else let! l := fget rl_appAid in aset set_rl_appAid l slotId aid.

Definition APP_TYPE_SIM : Z := 1.
Definition APP_TYPE_USIM : Z := 2.
Definition APP_STATE_DETECTED : Z := 1.
Definition APP_STATE_PIN : Z := 2.
Definition APP_STATE_PUK : Z := 3.
Definition APP_STATE_SUBSCRIPTION_PERSO : Z := 4.
Definition APP_STATE_READY : Z := 5.
Definition app_sim_type (appType : Z) : HRilSimType :=
  if appType =? APP_TYPE_SIM then HRIL_SIM_TYPE_SIM
  else if appType =? APP_TYPE_USIM then HRIL_SIM_TYPE_USIM else HRIL_SIM_TYPE_UNKNOWN.
Definition app_sim_state (appState : Z) : HRilSimState :=
  if appState =? APP_STATE_READY then HRIL_SIM_READY
  else if appState =? APP_STATE_PIN then HRIL_SIM_PIN
  else if appState =? APP_STATE_PUK then HRIL_SIM_PUK
  else if appState =? APP_STATE_DETECTED then HRIL_SIM_NOT_READY
  else if appState =? APP_STATE_SUBSCRIPTION_PERSO then HRIL_PH_NET_PIN
  else HRIL_SIM_NOT_READY.
(** The record and the AID of the application it describes. *)
Definition ToHrilCardState (card : CardStatus) : HRilCardState * string :=
  if negb (cs_cardState card =? 1) then
    (mkCard 0 HRIL_SIM_TYPE_UNKNOWN
       (if cs_cardState card =? 0 then HRIL_SIM_NOT_INSERTED else HRIL_SIM_NOT_READY) (cs_iccid card), "")
  else
    let appIndex := cs_gsmUmtsSubscriptionAppIndex card in
    match (if appIndex <? 0 then None else cs_applications card !! Z.to_nat appIndex) with
    | None => (mkCard 0 HRIL_SIM_TYPE_UNKNOWN HRIL_SIM_NOT_READY (cs_iccid card), "")
    | Some app =>
        (mkCard 0 (app_sim_type (ap_appType app)) (app_sim_state (ap_appState app)) (cs_iccid card),
         ap_aidPtr app)
    end.

Definition getIccCardStatusResponse (slotId serial error : Z) (card : CardStatus) : M unit :=
  let '(state, aid) := ToHrilCardState card in
  do! RememberAppAid slotId aid in
  respond DSim serial error (PCard state).
Definition iccIoForAppResponse (serial error sw1 sw2 : Z) (simResponse : string) : M unit :=
  respond DSim serial error (PSimIO sw1 sw2 simResponse).
Definition enableUiccApplicationsResponse (serial error : Z) : M unit := respond DSim serial error PNull.
Definition getImsiForAppResponse (serial error : Z) (imsi : string) : M unit :=
  respond DSim serial error (PStr imsi).
Definition ReportLockStatus (serial error remaining : Z) : M unit :=
  respond DSim serial error
    (PLock (if error =? RadioError.NONE then HRIL_UNLOCK_SUCCESS else HRIL_UNLOCK_PASSWORD_ERR) remaining).
Definition getFacilityLockForAppResponse (serial error response : Z) : M unit :=
  respond DCall serial error (PRestriction (if response =? 0 then 0 else 1) response).
Definition setFacilityLockForAppResponse (serial error : Z) : M unit := respond DCall serial error PNull.

Definition simStatusChanged (slotId : Z) : M unit := notify DSim slotId HNOTI_SIM_STATUS_CHANGED PNull.
Definition simRefresh (slotId : Z) : M unit := notify DSim slotId HNOTI_SIM_STATUS_CHANGED PNull.

Definition GetSimStatus (requestInfo : option Z) : M unit :=
  forward ISim DSim requestInfo C_getIccCardStatus.
Definition GetSimImsi (requestInfo : option Z) : M unit :=
  let! sim := require ISim DSim requestInfo in
  fopt sim (λ slot,
    let! serial := Track requestInfo in
    let! aid := AppAid slot in
    call ISim slot serial (C_getImsiForApp aid)).
Record HRilSimIO := mkSimIO {
  si_command : Z; si_fileid : Z; si_p1 : Z; si_p2 : Z; si_p3 : Z; si_data : option string;
  si_pathid : option string; si_pin2 : option string }.
Definition GetSimIO (requestInfo : option Z) (data : option HRilSimIO) : M unit :=
  let! sim := require ISim DSim requestInfo in
  fopt sim (λ slot,
    match data with
    | None => report DSim requestInfo HRIL_ERR_INVALID_PARAMETER PNull
    | Some d =>
        let! aid := AppAid slot in
        let! serial := Track requestInfo in
        call ISim slot serial (C_iccIoForApp (mkIccIo (si_command d) (si_fileid d) (text (si_pathid d))
          (si_p1 d) (si_p2 d) (si_p3 d) (text (si_data d)) (text (si_pin2 d)) aid))
    end).
Definition SetActiveSim (requestInfo : option Z) (enable : Z) : M unit :=
  forward ISim DSim requestInfo (C_enableUiccApplications (negb (enable =? 0))).
Definition UnlockPin (requestInfo : option Z) (pin : option string) : M unit :=
  forward ISim DSim requestInfo (C_supplyIccPinForApp (text pin) "").
Definition UnlockPuk (requestInfo : option Z) (puk pin : option string) : M unit :=
  forward ISim DSim requestInfo (C_supplyIccPukForApp (text puk) (text pin) "").
Definition UnlockPin2 (requestInfo : option Z) (pin2 : option string) : M unit :=
  forward ISim DSim requestInfo (C_supplyIccPin2ForApp (text pin2) "").
Definition UnlockPuk2 (requestInfo : option Z) (puk2 pin2 : option string) : M unit :=
  forward ISim DSim requestInfo (C_supplyIccPuk2ForApp (text puk2) (text pin2) "").
End Sim.

(** ** The network *)
Module Network.
Definition ToHrilRat (rat : RadioTechnology) : HRilRadioTech :=
  match rat with
  | RT_GPRS => RADIO_TECHNOLOGY_GPRS
  | RT_EDGE => RADIO_TECHNOLOGY_EDGE
  | RT_UMTS => RADIO_TECHNOLOGY_UMTS
  | RT_IS95A => RADIO_TECHNOLOGY_IS95A
  | RT_IS95B => RADIO_TECHNOLOGY_IS95B
  | RT_ONE_X_RTT => RADIO_TECHNOLOGY_1XRTT
  | RT_EVDO_0 => RADIO_TECHNOLOGY_EVDO_0
  | RT_EVDO_A => RADIO_TECHNOLOGY_EVDO_A
  | RT_HSDPA => RADIO_TECHNOLOGY_HSDPA
  | RT_HSUPA => RADIO_TECHNOLOGY_HSUPA
  | RT_HSPA => RADIO_TECHNOLOGY_HSPA
  | RT_EVDO_B => RADIO_TECHNOLOGY_EVDO_B
  | RT_EHRPD => RADIO_TECHNOLOGY_EHRPD
  | RT_LTE => RADIO_TECHNOLOGY_LTE
  | RT_HSPAP => RADIO_TECHNOLOGY_HSPAP
  | RT_GSM => RADIO_TECHNOLOGY_GSM
  | RT_TD_SCDMA => RADIO_TECHNOLOGY_TD_SCDMA
  | RT_IWLAN => RADIO_TECHNOLOGY_IWLAN
  | RT_NR => RADIO_TECHNOLOGY_NR
  | _ => RADIO_TECHNOLOGY_UNKNOWN
  end.
Definition ToHrilRegStatus (state : RegState) : HRilRegStatus :=
  match state with
  | RS_NOT_REG_MT_NOT_SEARCHING_OP => NO_REG_MT_NO_SEARCH
  | RS_REG_HOME => REG_MT_HOME
  | RS_NOT_REG_MT_SEARCHING_OP => NO_REG_MT_SEARCHING
  | RS_REG_DENIED => REG_MT_REJECTED
  | RS_REG_ROAMING => REG_MT_ROAMING
  | RS_NOT_REG_MT_NOT_SEARCHING_OP_EM | RS_NOT_REG_MT_SEARCHING_OP_EM | RS_REG_DENIED_EM
  | RS_UNKNOWN_EM | RS_REG_EM => REG_MT_EMERGENCY
  | _ => REG_MT_UNKNOWN
  end.
Definition ExtractCell (id : CellIdentity) : Z * Z :=
  match id with
  | CI_gsm lac cid | CI_wcdma lac cid | CI_tdscdma lac cid => (lac, cid)
  | CI_lte tac ci => (tac, ci)
  | CI_nr tac nci => (tac, s32 nci)
  | _ => (0, 0)
  end.
Definition ToHrilRegStatusInfo (reg : RegStateResult) : HRilRegStatusInfo :=
  let '(lac, cell) := ExtractCell (rr_cellIdentity reg) in
  mkReg REG_NOTIFY_STAT_LAC_CELLID (ToHrilRegStatus (rr_regState reg)) (ToHrilRat (rr_rat reg))
    lac cell 0 0 0.
Definition ToAccessNetwork (rat : RadioTechnology) : AccessNetwork :=
  match rat with
  | RT_GPRS | RT_EDGE | RT_GSM => AN_GERAN
  | RT_UMTS | RT_HSDPA | RT_HSUPA | RT_HSPA | RT_HSPAP | RT_TD_SCDMA => AN_UTRAN
  | RT_LTE => AN_EUTRAN
  | RT_IS95A | RT_IS95B | RT_ONE_X_RTT | RT_EVDO_0 | RT_EVDO_A | RT_EVDO_B | RT_EHRPD => AN_CDMA2000
  | RT_IWLAN => AN_IWLAN
  | RT_NR => AN_NGRAN
  | _ => AN_UNKNOWN
  end.
Definition RememberDataAccessNetwork (slotId : Z) (rat : RadioTechnology) : M unit :=
  if negb (in_slots slotId) then fret tt
  else
    let network := ToAccessNetwork rat in
    if bool_decide (network ≠ AN_UNKNOWN)
    then let! l := fget rl_dataAccessNetwork in aset set_rl_dataAccessNetwork l slotId network
    else fret tt.
Definition LastDataAccessNetwork (slotId : Z) : M AccessNetwork :=
  if negb (in_slots slotId) then fret AN_UNKNOWN
  else let! l := fget rl_dataAccessNetwork in aget l slotId.

(** Signal strength; [None] is a signed overflow. *)
Definition AIDL_INVALID : Z := 2147483647.
Definition INVALID_DBM : Z := 255.
Definition INVALID_INDEX : Z := 99.
Definition int32 (z : Z) : option Z := if (- 2 ^ 31 <=? z) && (z <? 2 ^ 31) then Some z else None.
Definition NegDbm (v : Z) : option Z := if v =? AIDL_INVALID then Some INVALID_DBM else int32 (- v).
Definition IndexDbm (v base maxIndex : Z) : Z :=
  if (v =? AIDL_INVALID) || (v <? 0) || (maxIndex <? v) then INVALID_DBM else v + base.
Definition TenthsDb (v : Z) : Z := if v =? AIDL_INVALID then INVALID_DBM else Z.quot v 10.
Definition Raw (v : Z) : Z := if v =? AIDL_INVALID then INVALID_INDEX else v.
Definition ecio_of (ecno : Z) : option Z :=
  if (ecno =? AIDL_INVALID) || (49 <? ecno) then Some INVALID_DBM
  else d ← int32 (ecno - 49); Some (Z.quot d 2).
Definition ecno_of (ecio : Z) : option Z :=
  if ecio =? AIDL_INVALID then Some INVALID_DBM else d ← int32 (- ecio); Some (Z.quot d 10).
Definition ToHrilRssi (s : SignalStrength) : option HRilRssi :=
  ecio ← ecio_of (ss_wcdma_ecno s);
  absoluteRssi ← NegDbm (ss_cdma_dbm s);
  ecno ← ecno_of (ss_cdma_ecio s);
  lteRsrp ← NegDbm (ss_lte_rsrp s);
  lteRsrq ← NegDbm (ss_lte_rsrq s);
  nrRsrp ← NegDbm (ss_nr_ssRsrp s);
  nrRsrq ← NegDbm (ss_nr_ssRsrq s);
  Some (mkRssi (IndexDbm (ss_gsm_signalStrength s) (-111) 63) (Raw (ss_gsm_bitErrorRate s))
    (Raw (ss_wcdma_signalStrength s)) (Raw (ss_wcdma_bitErrorRate s))
    (IndexDbm (ss_wcdma_rscp s) (-121) 96) ecio absoluteRssi ecno
    (Raw (ss_lte_signalStrength s)) lteRsrp lteRsrq (TenthsDb (ss_lte_rssnr s))
    (IndexDbm (ss_tdscdma_rscp s) (-121) 96) nrRsrp nrRsrq (Raw (ss_nr_ssSinr s))).

Definition getSignalStrengthResponse (serial error : Z) (sig : SignalStrength) : M unit :=
  with_pending serial (λ r,
    let! rssi := fsome (ToHrilRssi sig) in
    report DNetwork (Some r) (ToHrilError error) (PRssi rssi)).
Definition RegChanged (slotId : Z) (notifyId : HNoti) (now : HRilRegStatusInfo) : M bool :=
  let! last := fget rl_lastReg in
  if bool_decide (last !! (slotId, notifyId) = Some now) then fret false
  else do! fmod (set_rl_lastReg (<[(slotId, notifyId) := now]> last)) in fret true.
Definition ReportReg (serial error : Z) (reg : RegStateResult) : M unit :=
  let out := ToHrilRegStatusInfo reg in
  let! target := TakeNotify serial in
  match target with
  | Some (slotId, notifyId) =>
      let! changed := RegChanged slotId notifyId out in
      if changed : bool then notify DNetwork slotId notifyId (PReg out) else fret tt
  | None => respond DNetwork serial error (PReg out)
  end.
Definition getVoiceRegistrationStateResponse (serial error : Z) (reg : RegStateResult) : M unit :=
  ReportReg serial error reg.
Definition getDataRegistrationStateResponse (slotId serial error : Z) (reg : RegStateResult) : M unit :=
  do! RememberDataAccessNetwork slotId (rr_rat reg) in ReportReg serial error reg.
Definition getOperatorResponse (serial error : Z) (longName shortName numeric : string) : M unit :=
  respond DNetwork serial error (POperator longName shortName numeric).
Definition getNetworkSelectionModeResponse (serial error : Z) (manual : bool) : M unit :=
  respond DNetwork serial error (PInt (if manual then 1 else 0)).
Definition ReportEmpty (serial error : Z) : M unit := respond DNetwork serial error PNull.
Definition ReportCallEmpty (serial error : Z) : M unit := respond DCall serial error PNull.
Definition getAllowedNetworkTypesBitmapResponse (serial error : Z) : M unit :=
  respond DNetwork serial error PNetworkAuto.

Definition networkStateChanged (slotId : Z) : M unit :=
  let! network := service INetwork slotId in
  fwhen network
    (let! serial := TrackNotify slotId HNOTI_NETWORK_CS_REG_STATUS_UPDATED in
     do! call INetwork slotId serial C_getVoiceRegistrationState in
     let! serial := TrackNotify slotId HNOTI_NETWORK_PS_REG_STATUS_UPDATED in
     call INetwork slotId serial C_getDataRegistrationState).
Definition currentSignalStrength (slotId : Z) (sig : SignalStrength) : M unit :=
  let! rssi := fsome (ToHrilRssi sig) in
  notify DNetwork slotId HNOTI_NETWORK_SIGNAL_STRENGTH_UPDATED (PRssi rssi).
Definition nitzTimeReceived (slotId : Z) (nitzTime : string) : M unit :=
  notify DNetwork slotId HNOTI_NETWORK_TIME_UPDATED (PStr nitzTime).

Definition GetSignalStrength (requestInfo : option Z) : M unit :=
  forward INetwork DNetwork requestInfo C_getSignalStrength.
Definition GetCsRegStatus (requestInfo : option Z) : M unit :=
  forward INetwork DNetwork requestInfo C_getVoiceRegistrationState.
Definition GetPsRegStatus (requestInfo : option Z) : M unit :=
  forward INetwork DNetwork requestInfo C_getDataRegistrationState.
Definition GetOperatorInfo (requestInfo : option Z) : M unit :=
  forward INetwork DNetwork requestInfo C_getOperator.
Definition GetNetworkSelectionMode (requestInfo : option Z) : M unit :=
  forward INetwork DNetwork requestInfo C_getNetworkSelectionMode.
(** [data]: the mode and the operator, either pointer possibly null. *)
Definition SetNetworkSelectionMode (requestInfo : option Z) (data : option (Z * option string)) : M unit :=
  forward INetwork DNetwork requestInfo
    match data with
    | Some (selectMode, Some oper) =>
        if selectMode =? 0 then C_setNetworkSelectionModeAutomatic
        else C_setNetworkSelectionModeManual oper AN_UNKNOWN
    | _ => C_setNetworkSelectionModeAutomatic
    end.
Definition GetPreferredNetwork (requestInfo : option Z) : M unit :=
  forward INetwork DNetwork requestInfo C_getAllowedNetworkTypesBitmap.
Definition SetPreferredNetwork (requestInfo : option Z) : M unit :=
  forward INetwork DNetwork requestInfo (C_setAllowedNetworkTypesBitmap 2147483647).
Definition SetLocateUpdates (requestInfo : option Z) (mode : HRilRegNotifyMode) : M unit :=
  forward INetwork DNetwork requestInfo (C_setLocationUpdates (bool_decide (mode ≠ REG_NOT_NOTIFY))).
Definition SetNotificationFilter (requestInfo : option Z) (newFilter : option Z) : M unit :=
  forward INetwork DNetwork requestInfo (C_setIndicationFilter (default (-1) newFilter)).
End Network.

(** ** Messages *)
Module Sms.
Definition kHex : string := "0123456789ABCDEF".
Definition hex_digit (n : Z) : ascii := default Ascii.zero (String.get (Z.to_nat n) kHex).
Fixpoint BytesToHex (l : bytes) : string :=
  match l with
  | [] => ""
  | b :: l => String (hex_digit (Z.land (Z.shiftr b 4) 15)) (String (hex_digit (Z.land b 15)) (BytesToHex l))
  end.
Definition TOSCA_INTERNATIONAL : Z := 145.
Definition TOSCA_UNKNOWN : Z := 129.
Definition starts_with_plus (s : string) : bool :=
  match s with String c _ => bool_decide (c = "+"%char) | "" => false end.
Definition ToscaOf (address : string) : Z :=
  if starts_with_plus address then TOSCA_INTERNATIONAL else TOSCA_UNKNOWN.
Definition ApplyTosca (tosca : Z) (address : option string) : string :=
  let value := text address in
  if (tosca =? TOSCA_INTERNATIONAL) && negb (bool_decide (value = "")) && negb (starts_with_plus value)
  then String "+" value else value.
Definition SMS_ACK_OUT_OF_MEMORY : Z := 3.
Definition ToAckFailCause (ackIncomeCause : Z) : SmsAcknowledgeFailCause :=
  if ackIncomeCause =? SMS_ACK_OUT_OF_MEMORY then MEMORY_CAPACITY_EXCEEDED else UNSPECIFIED_ERROR.

(** [ack]: the indication's type is UNSOLICITED_ACK_EXP. *)
Definition AckIndication (i : Iface) (slotId : Z) (ack : bool) : M unit :=
  if negb ack then fret tt
  else let! messaging := service i slotId in fwhen messaging (emit (OAck i slotId)).

Definition ReportSendResult (serial error messageRef : Z) (ackPDU : string) (errorCode : Z) : M unit :=
  respond DSms serial error (PSms messageRef ackPDU errorCode).
Definition ReportEmpty (serial error : Z) : M unit := respond DSms serial error PNull.
Definition getSmscAddressResponse (serial error : Z) (smsc : string) : M unit :=
  respond DSms serial error (PSmsc (ToscaOf smsc) smsc).

Definition newSms (slotId : Z) (ack : bool) (pdu : bytes) : M unit :=
  do! notify DSms slotId HNOTI_SMS_NEW_SMS (PSms 0 (BytesToHex pdu) 0) in
  AckIndication IMessaging slotId ack.
Definition newSmsStatusReport (slotId : Z) (ack : bool) (pdu : bytes) : M unit :=
  do! notify DSms slotId HNOTI_SMS_STATUS_REPORT (PStr (BytesToHex pdu)) in
  AckIndication IMessaging slotId ack.
Definition newSmsOnSim (slotId : Z) (ack : bool) (recordNumber : Z) : M unit :=
  do! notify DSms slotId HNOTI_SMS_NEW_SMS_STORED_ON_SIM (PInt recordNumber) in
  AckIndication IMessaging slotId ack.
Definition simSmsStorageFull (slotId : Z) (ack : bool) : M unit := AckIndication IMessaging slotId ack.

(** [data]: the strings, with a null pointer for each one that is missing. *)
Definition SendGsmSms (requestInfo : option Z) (data : option (list (option string))) : M unit :=
  let! messaging := require IMessaging DSms requestInfo in
  fopt messaging (λ slot,
    match data with
    | Some (smsc :: pdu :: _) =>
        match requestInfo with
        | None => fault
        | Some r =>
            let! info := deref r in
            let! serial := Track requestInfo in
            call IMessaging slot serial
              (if bool_decide (rq_request info = HREQ_SMS_SEND_SMS_MORE_MODE)
               then C_sendSmsExpectMore (text smsc) (text pdu) else C_sendSms (text smsc) (text pdu))
        end
    | _ => report DSms requestInfo HRIL_ERR_INVALID_PARAMETER PNull
    end).
(** [data]: the two integers hril always allocates. *)
Definition SendSmsAck (requestInfo : option Z) (data : option (Z * Z)) : M unit :=
  forward_opt IMessaging DSms requestInfo
    ((λ '(result, cause), C_acknowledgeLastIncomingGsmSms (negb (result =? 0)) (ToAckFailCause cause)) <$> data).
Definition GetSmscAddr (requestInfo : option Z) : M unit :=
  forward IMessaging DSms requestInfo C_getSmscAddress.
Definition SetSmscAddr (requestInfo : option Z) (data : option (Z * option string)) : M unit :=
  forward_opt IMessaging DSms requestInfo
    ((λ '(tosca, address), C_setSmscAddress (ApplyTosca tosca address)) <$> data).
Definition SetSmsMemoryStatus (requestInfo : option Z) (available : Z) : M unit :=
  forward IMessaging DSms requestInfo (C_reportSmsMemoryStatus (negb (available =? 0))).
Definition AddSimMessage (requestInfo : option Z) (data : option (Z * option string * option string)) : M unit :=
  forward_opt IMessaging DSms requestInfo
    ((λ '(state, pdu, smsc), C_writeSmsToSim state (text pdu) (text smsc)) <$> data).
Definition DelSimMessage (requestInfo : option Z) (data : option Z) : M unit :=
  forward_opt IMessaging DSms requestInfo (C_deleteSmsOnSim <$> data).
End Sms.

(** ** Packet data *)
Module Data.
Definition join_step (out part : string) : string :=
  if bool_decide (out = "") then part else (out +:+ " " +:+ part)%string.
Definition Join (parts : list string) (from : nat) : string := foldl join_step "" (drop from parts).
Definition JoinAddresses (addresses : list string) : string := foldl join_step "" addresses.
Definition ToProtocol (type : option string) : PdpProtocolType :=
  let value := text type in
  if bool_decide (value = "") then PDP_IPV4V6
  else if bool_decide (value = "IP") || bool_decide (value = "IPV4") then PDP_IP
  else if bool_decide (value = "IPV6") then PDP_IPV6
  else if bool_decide (value = "PPP") then PDP_PPP
  else if bool_decide (value = "NON-IP") || bool_decide (value = "NONIP") then PDP_NON_IP
  else if bool_decide (value = "UNSTRUCTURED") then PDP_UNSTRUCTURED
  else PDP_IPV4V6.
Definition FromProtocol (protocol : PdpProtocolType) : string :=
  match protocol with
  | PDP_IP => "IP"
  | PDP_IPV6 => "IPV6"
  | PDP_IPV4V6 => "IPV4V6"
  | PDP_PPP => "PPP"
  | PDP_NON_IP => "NON-IP"
  | PDP_UNSTRUCTURED => "UNSTRUCTURED"
  | _ => ""
  end.
Definition ToAccessNetwork (rat : HRilRadioTech) : AccessNetwork :=
  match rat with
  | RADIO_TECHNOLOGY_GSM | RADIO_TECHNOLOGY_GPRS | RADIO_TECHNOLOGY_EDGE => AN_GERAN
  | RADIO_TECHNOLOGY_WCDMA | RADIO_TECHNOLOGY_HSPA | RADIO_TECHNOLOGY_HSPAP
  | RADIO_TECHNOLOGY_HSDPA | RADIO_TECHNOLOGY_HSUPA | RADIO_TECHNOLOGY_UMTS
  | RADIO_TECHNOLOGY_TD_SCDMA | RADIO_TECHNOLOGY_DCHSPAP => AN_UTRAN
  | RADIO_TECHNOLOGY_LTE | RADIO_TECHNOLOGY_LTE_CA => AN_EUTRAN
  | RADIO_TECHNOLOGY_1XRTT | RADIO_TECHNOLOGY_EVDO | RADIO_TECHNOLOGY_EHRPD
  | RADIO_TECHNOLOGY_IS95A | RADIO_TECHNOLOGY_IS95B | RADIO_TECHNOLOGY_EVDO_0
  | RADIO_TECHNOLOGY_EVDO_A | RADIO_TECHNOLOGY_EVDO_B => AN_CDMA2000
  | RADIO_TECHNOLOGY_IWLAN => AN_IWLAN
  | RADIO_TECHNOLOGY_NR => AN_NGRAN
  | _ => AN_UNKNOWN
  end.
Definition AccessNetworkFor (slotId : Z) (rat : HRilRadioTech) : M AccessNetwork :=
  let network := ToAccessNetwork rat in
  if bool_decide (network ≠ AN_UNKNOWN) then fret network else Network.LastDataAccessNetwork slotId.

(** radio::data::ApnTypes *)
Definition APN_DEFAULT : Z := 1.
Definition APN_DUN : Z := 8.
Definition APN_FOTA : Z := 32.
Definition APN_IMS : Z := 64.
Definition APN_CBS : Z := 128.
Definition APN_IA : Z := 256.
Definition OHOS_APN_TYPES_SHARED_MASK : Z := 4095.
Definition OHOS_APN_TYPE_INTERNAL_DEFAULT : Z := Z.shiftl 1 12.
Definition ToApnTypesBitmap (ohosBitmap : Z) : Z :=
  let bitmap := Z.land ohosBitmap OHOS_APN_TYPES_SHARED_MASK in
  let bitmap := if Z.land ohosBitmap OHOS_APN_TYPE_INTERNAL_DEFAULT =? 0 then bitmap
                else Z.lor bitmap APN_DEFAULT in
  if bitmap =? 0 then APN_DEFAULT else bitmap.
Definition ID_DEFAULT : Z := 0.
Definition ID_TETHERED : Z := 1.
Definition ID_IMS : Z := 2.
Definition ID_FOTA : Z := 3.
Definition ID_CBS : Z := 4.
Definition TYPE_3GPP : Z := 1.
Definition ProfileIdFor (apnTypesBitmap : Z) : Z :=
  if negb (Z.land apnTypesBitmap APN_IMS =? 0) then ID_IMS
  else if negb (Z.land apnTypesBitmap APN_DUN =? 0) then ID_TETHERED
  else if negb (Z.land apnTypesBitmap APN_FOTA =? 0) then ID_FOTA
  else if negb (Z.land apnTypesBitmap APN_CBS =? 0) then ID_CBS
  else ID_DEFAULT.
Definition OHOS_DISCONNECT_HANDOVER : Z := 6.
Definition ToRequestReason (reason : Z) : DataRequestReason :=
  if reason =? OHOS_DISCONNECT_HANDOVER then DR_HANDOVER else DR_NORMAL.

Record HRilDataInfo := mkDataInfo {
  di_cid : Z; di_reason : Z; di_rat : HRilRadioTech; di_roamingEnable : Z; di_verType : Z;
  di_userName : option string; di_password : option string; di_apn : option string;
  di_type : option string; di_roamingType : option string }.
Definition BuildProfile (data : HRilDataInfo) (apnTypesBitmap : Z) : DataProfileInfo :=
  mkProfile (ProfileIdFor apnTypesBitmap) (text (di_apn data)) (ToProtocol (di_type data))
    (ToProtocol (di_roamingType data)) (di_verType data) (text (di_userName data))
    (text (di_password data)) TYPE_3GPP true apnTypesBitmap 0 false true false.

Definition NO_RETRY_SUGGESTION : Z := -1.
Definition ToRetryTime (suggested : Z) : Z :=
  if (suggested <? 0) || (2 ^ 31 - 1 <? suggested) then NO_RETRY_SUGGESTION else s32 suggested.
(** [ToRecord] and [ToResponse]: the record keeps the strings the response points to. *)
Definition ToResponse (result : SetupDataCallResult) : HRilDataCallResponse :=
  mkDataCall (sd_cause result) (ToRetryTime (sd_suggestedRetryTime result)) (sd_cid result)
    (sd_active result) (FromProtocol (sd_type result)) (sd_ifname result)
    (JoinAddresses (sd_addresses result)) (default "" (head (sd_dnses result)))
    (Join (sd_dnses result) 1) (Join (sd_gateways result) 0)
    (if sd_mtuV4 result =? 0 then sd_mtuV6 result else sd_mtuV4 result)
    (default "" (head (sd_pcscf result))) (Join (sd_pcscf result) 1) (sd_pduSessionId result).

Definition setupDataCallResponse (serial error : Z) (result : SetupDataCallResult) : M unit :=
  respond DData serial error (PDataCall (ToResponse result)).
Definition getDataCallListResponse (serial error : Z) (list : list SetupDataCallResult) : M unit :=
  respond DData serial error
    match list with [] => PNull | _ => PDataCalls (ToResponse <$> list) end.
Definition ReportEmpty (serial error : Z) : M unit := respond DData serial error PNull.

Definition dataCallListChanged (slotId : Z) (ack : bool) (list : list SetupDataCallResult) : M unit :=
  do! notify DData slotId HNOTI_DATA_PDP_CONTEXT_LIST_UPDATED (PDataCalls (ToResponse <$> list)) in
  Sms.AckIndication IData slotId ack.
Definition unthrottleApn (slotId : Z) (ack : bool) : M unit := Sms.AckIndication IData slotId ack.

Definition SameProfile (a b : DataProfileInfo) : bool :=
  bool_decide (pf_apn a = pf_apn b) && bool_decide (pf_protocol a = pf_protocol b)
  && (pf_supportedApnTypesBitmap a =? pf_supportedApnTypesBitmap b)
  && (pf_authType a =? pf_authType b) && bool_decide (pf_user a = pf_user b)
  && bool_decide (pf_password a = pf_password b).
Definition RegisterProfile (slotId : Z) (profile : DataProfileInfo) : M unit :=
  if negb (in_slots slotId) then fret tt
  else
    let! g := fget rl_profiles in
    let! known := aget g slotId in
    if existsb (λ existing, SameProfile existing profile) known then fret tt
    else
      let profiles := known ++ [profile] in
      do! aset set_rl_profiles g slotId profiles in
      let! serial := NextSerial in
      call IData slotId serial (C_setDataProfile profiles).
Definition AdoptProfiles (slotId : Z) (profiles : list DataProfileInfo) : M unit :=
  if negb (in_slots slotId) then fret tt
  else let! g := fget rl_profiles in aset set_rl_profiles g slotId profiles.

Definition ActivateInternal (requestInfo : option Z) (data : option HRilDataInfo)
    (ohosApnTypesBitmap : Z) : M unit :=
  let! service := require IData DData requestInfo in
  fopt service (λ slot,
    match data with
    | None => report DData requestInfo HRIL_ERR_INVALID_PARAMETER PNull
    | Some d =>
        let profile := BuildProfile d (ToApnTypesBitmap ohosApnTypesBitmap) in
        let! network := AccessNetworkFor slot (di_rat d) in
        do! RegisterProfile slot profile in
        let! serial := Track requestInfo in
        call IData slot serial
          (C_setupDataCall network profile (negb (di_roamingEnable d =? 0)) DR_NORMAL)
    end).
Definition ActivatePdpContext (requestInfo : option Z) (data : option HRilDataInfo) : M unit :=
  ActivateInternal requestInfo data 0.
(** HRilDataInfoWithApnTypes: the same fields and the bitmap. *)
Definition ActivatePdpContextWithApnTypes (requestInfo : option Z)
    (data : option (HRilDataInfo * Z)) : M unit :=
  match data with
  | None => report DData requestInfo HRIL_ERR_INVALID_PARAMETER PNull
  | Some (base, supportedApnTypesBitmap) => ActivateInternal requestInfo (Some base) supportedApnTypesBitmap
  end.
Definition DeactivatePdpContext (requestInfo : option Z) (data : option HRilDataInfo) : M unit :=
  forward_opt IData DData requestInfo
    ((λ d, C_deactivateDataCall (di_cid d) (ToRequestReason (di_reason d))) <$> data).
Definition GetPdpContextList (requestInfo : option Z) : M unit :=
  forward IData DData requestInfo C_getDataCallList.
Definition with_profileId (id : Z) (p : DataProfileInfo) : DataProfileInfo :=
  mkProfile id (pf_apn p) (pf_protocol p) (pf_roamingProtocol p) (pf_authType p) (pf_user p)
    (pf_password p) (pf_type p) (pf_enabled p) (pf_supportedApnTypesBitmap p) (pf_bearerBitmap p)
    (pf_preferred p) (pf_persistent p) (pf_alwaysOn p).
Definition SetInitApnInfo (requestInfo : option Z) (data : option HRilDataInfo) : M unit :=
  let! service := require IData DData requestInfo in
  fopt service (λ slot,
    match data with
    | None => report DData requestInfo HRIL_ERR_INVALID_PARAMETER PNull
    | Some d =>
        let profile := with_profileId ID_DEFAULT (BuildProfile d (Z.lor APN_IA APN_DEFAULT)) in
        do! RegisterProfile slot profile in
        let! serial := Track requestInfo in
        call IData slot serial (C_setInitialAttachApn profile)
    end).
(** [data] and [len]: the profiles that are there, none when the pointer is null. *)
Definition SetDataProfileInfo (requestInfo : option Z) (data : list HRilDataInfo) : M unit :=
  let! service := require IData DData requestInfo in
  fopt service (λ slot,
    match data with
    | [] => report DData requestInfo HRIL_ERR_INVALID_PARAMETER PNull
    | _ =>
        let profiles := (λ d, BuildProfile d APN_DEFAULT) <$> data in
        do! AdoptProfiles slot profiles in
        let! serial := Track requestInfo in
        call IData slot serial (C_setDataProfile profiles)
    end).
Definition SetDataPermitted (requestInfo : option Z) (enabled : Z) : M unit :=
  forward IData DData requestInfo (C_setDataAllowed (negb (enabled =? 0))).
End Data.

(** ** Calls *)
Module Voice.
Definition SlotOf (req : option Z) : M Z :=
  match req with None => fret 0 | Some r => let! info := deref r in fret (slot_or_0 (rq_slotId info)) end.
Definition TOA_INTERNATIONAL : Z := 145.
Definition TOA_UNKNOWN : Z := 129.
Definition SERVICE_CLASS_DEFAULT : Z := 0.
Definition SERVICE_CLASS_VOICE : Z := 1.
Definition b2z (b : bool) : Z := if b then 1 else 0.
(** [ToRecord] and [ToCallInfo]: the record keeps the strings. *)
Definition ToCallInfo (call : VoiceCall) : HRilCallInfo :=
  mkCallInfo (vc_index call) (b2z (vc_isMT call)) (vc_state call)
    (if vc_isVoice call then HRIL_CALL_VOICE else HRIL_CALL_DATA) (b2z (vc_isMpty call)) 0 0
    (vc_number call) (vc_toa call) (vc_name call) (vc_name call) (vc_namePresentation call).

Definition getCurrentCallsResponse (serial error : Z) (calls : list VoiceCall) : M unit :=
  respond DCall serial error match calls with [] => PNull | _ => PCalls (ToCallInfo <$> calls) end.
Definition getLastCallFailCauseResponse (serial error causeCode : Z) : M unit :=
  respond DCall serial error (PInt causeCode).
Definition getMuteResponse (serial error : Z) (enable : bool) : M unit :=
  respond DCall serial error (PInt (b2z enable)).
Definition ReportEmpty (serial error : Z) : M unit := respond DCall serial error PNull.
Definition clip_stat (status : ClipStatus) : Z :=
  match status with CLIP_PROVISIONED => 1 | CLIP_UNPROVISIONED => 0 | _ => 2 end.
Definition getClipResponse (serial error : Z) (status : ClipStatus) : M unit :=
  with_pending serial (λ r,
    let! slot := SlotOf (Some r) in
    let! l := fget rl_clipPresentation in
    let! action := aget l slot in
    report DCall (Some r) (ToHrilError error) (PClip action (clip_stat status))).
Definition getClirResponse (serial error n m : Z) : M unit := respond DCall serial error (PClir n m).
Definition getCallWaitingResponse (serial error : Z) (enable : bool) (serviceClass : Z) : M unit :=
  respond DCall serial error (PWaiting (b2z enable) serviceClass).
Definition ToCFQuery (cf : CallForwardInfo) : HRilCFQueryInfo :=
  mkCFQuery (cf_status cf) (cf_serviceClass cf) (cf_toa cf) (cf_number cf) (cf_reason cf)
    (cf_timeSeconds cf).
Definition getCallForwardStatusResponse (serial error : Z) (infos : list CallForwardInfo) : M unit :=
  respond DCall serial error match infos with [] => PNull | _ => PForwards (ToCFQuery <$> infos) end.

Definition callStateChanged (slotId : Z) (ack : bool) : M unit :=
  do! notify DCall slotId HNOTI_CALL_STATE_UPDATED PNull in Sms.AckIndication IVoice slotId ack.
Definition indicateRingbackTone (slotId : Z) (ack start : bool) : M unit :=
  do! notify DCall slotId HNOTI_CALL_RINGBACK_VOICE_REPORT (PInt (b2z start)) in
  Sms.AckIndication IVoice slotId ack.
Definition ToEmergencyInfo (total i : nat) (n : EmergencyNumber) : HRilEmergencyInfo :=
  mkEcc (s32 (Z.of_nat i)) (s32 (Z.of_nat total)) (en_number n) (en_categories n)
    (if Z.land (en_sources n) (Z.lor 1 2) =? 0 then 0 else 1) (en_mcc n) 0.
Definition currentEmergencyNumberList (slotId : Z) (ack : bool) (numbers : list EmergencyNumber) : M unit :=
  let list := imap (ToEmergencyInfo (length numbers)) numbers in
  do! match list with
      | [] => fret tt
      | _ => notify DCall slotId HNOTI_CALL_EMERGENCY_NUMBER_REPORT (PEmergency list)
      end in
  Sms.AckIndication IVoice slotId ack.
Definition callRing (slotId : Z) (ack : bool) : M unit := Sms.AckIndication IVoice slotId ack.
Definition resendIncallMute (slotId : Z) (ack : bool) : M unit := Sms.AckIndication IVoice slotId ack.
Definition onUssd (slotId : Z) (ack : bool) (modeType : Z) (msg : string) : M unit :=
  do! notify DCall slotId HNOTI_CALL_USSD_REPORT (PUssd modeType msg) in
  Sms.AckIndication IVoice slotId ack.
Definition onSupplementaryServiceIndication (slotId : Z) (ack : bool)
    (serviceType requestType serviceClass result : Z) : M unit :=
  do! notify DCall slotId HNOTI_CALL_SS_REPORT (PSs serviceType requestType serviceClass result) in
  Sms.AckIndication IVoice slotId ack.

Definition GetCallList (requestInfo : option Z) : M unit := forward IVoice DCall requestInfo C_getCurrentCalls.
(** [data]: the address and the CLIR mode. *)
Definition Dial (requestInfo : option Z) (data : option (option string * Z)) : M unit :=
  forward_opt IVoice DCall requestInfo
    match data with Some (Some address, clir) => Some (C_dial address clir) | _ => None end.
Definition Answer (requestInfo : option Z) : M unit := forward IVoice DCall requestInfo C_acceptCall.
Definition Reject (requestInfo : option Z) : M unit := forward IVoice DCall requestInfo C_rejectCall.
Definition Hangup (requestInfo : option Z) (data : option Z) : M unit :=
  forward_opt IVoice DCall requestInfo ((λ index, C_hangup (s32 index)) <$> data).
Definition SwapCalls (requestInfo : option Z) : M unit :=
  forward IVoice DCall requestInfo C_switchWaitingOrHoldingAndActive.
Definition CombineConference (requestInfo : option Z) : M unit := forward IVoice DCall requestInfo C_conference.
Definition SeparateConference (requestInfo : option Z) (callIndex : Z) : M unit :=
  forward_opt IVoice DCall requestInfo
    (if callIndex <=? 0 then None else Some (C_separateConnection callIndex)).
Definition TYPE_HANG_UP_HOLD_WAIT : Z := 0.
Definition TYPE_HANG_UP_ACTIVE : Z := 1.
Definition CallSupplement (requestInfo : option Z) (type : Z) : M unit :=
  forward_opt IVoice DCall requestInfo
    (if type =? TYPE_HANG_UP_HOLD_WAIT then Some C_hangupWaitingOrBackground
     else if type =? TYPE_HANG_UP_ACTIVE then Some C_hangupForegroundResumeBackground else None).
Definition ExplicitCallTransferConnection (requestInfo : option Z) : M unit :=
  forward IVoice DCall requestInfo C_explicitCallTransfer.
Definition StartDtmf (requestInfo : option Z) (dtmfKey : option string) : M unit :=
  forward_opt IVoice DCall requestInfo (C_startDtmf <$> dtmfKey).
Definition SendDtmf (requestInfo : option Z) (dtmfKey : option string) : M unit :=
  forward_opt IVoice DCall requestInfo (C_sendDtmf <$> dtmfKey).
Definition StopDtmf (requestInfo : option Z) : M unit := forward IVoice DCall requestInfo C_stopDtmf.
Definition SetMute (requestInfo : option Z) (mute : Z) : M unit :=
  forward IVoice DCall requestInfo (C_setMute (negb (mute =? 0))).
Definition GetMute (requestInfo : option Z) : M unit := forward IVoice DCall requestInfo C_getMute.
Definition GetCallFailReason (requestInfo : option Z) : M unit :=
  forward IVoice DCall requestInfo C_getLastCallFailCause.
Definition ReportCallFailure (requestInfo : option Z) (err : HRilErr) : M unit :=
  report DCall requestInfo err PNull.
Definition GetClip (requestInfo : option Z) : M unit := forward IVoice DCall requestInfo C_getClip.
Definition SetClip (requestInfo : option Z) (action : Z) : M unit :=
  let! slot := SlotOf requestInfo in
  let! l := fget rl_clipPresentation in
  do! aset set_rl_clipPresentation l slot action in
  report DCall requestInfo HRIL_ERR_SUCCESS PNull.
Definition GetClir (requestInfo : option Z) : M unit := forward IVoice DCall requestInfo C_getClir.
Definition SetClir (requestInfo : option Z) (action : Z) : M unit :=
  forward IVoice DCall requestInfo (C_setClir action).
Definition GetCallWaiting (requestInfo : option Z) : M unit :=
  forward IVoice DCall requestInfo (C_getCallWaiting SERVICE_CLASS_VOICE).
Definition SetCallWaiting (requestInfo : option Z) (active : Z) : M unit :=
  forward IVoice DCall requestInfo (C_setCallWaiting (negb (active =? 0)) SERVICE_CLASS_VOICE).
Definition STATUS_INTERROGATE : Z := 2.
Definition GetCallTransferInfo (requestInfo : option Z) (reason : Z) : M unit :=
  forward IVoice DCall requestInfo
    (C_getCallForwardStatus (mkForward STATUS_INTERROGATE reason SERVICE_CLASS_DEFAULT TOA_UNKNOWN "" 0)).
Record HRilCFInfo := mkCFInfo {
  ci_number : option string; ci_reason : Z; ci_mode : Z; ci_classx : Z; ci_time : Z }.
Definition SetCallTransferInfo (requestInfo : option Z) (info : HRilCFInfo) : M unit :=
  forward IVoice DCall requestInfo
    (let number := text (ci_number info) in
     C_setCallForward (mkForward (ci_mode info) (ci_reason info) (ci_classx info)
       (if Sms.starts_with_plus number then TOA_INTERNATIONAL else TOA_UNKNOWN) number (ci_time info))).
(** A request of this domain through a service of another one. *)
Definition borrow (i : Iface) (requestInfo : option Z) (c : option RadioCall) : M unit :=
  let! slot := SlotOf requestInfo in
  let! sv := service i slot in
  match sv, c with
  | true, Some c => let! serial := Track requestInfo in call i slot serial c
  | false, _ => ReportCallFailure requestInfo HRIL_ERR_GENERIC_FAILURE
  | true, None => ReportCallFailure requestInfo HRIL_ERR_INVALID_PARAMETER
  end.
Definition GetCallRestriction (requestInfo : option Z) (fac : option string) : M unit :=
  borrow ISim requestInfo ((λ f, C_getFacilityLockForApp f "" SERVICE_CLASS_DEFAULT "") <$> fac).
Definition SetCallRestriction (requestInfo : option Z) (fac : option string) (mode : Z)
    (password : option string) : M unit :=
  borrow ISim requestInfo
    ((λ f, C_setFacilityLockForApp f (mode =? 1) (text password) SERVICE_CLASS_DEFAULT "") <$> fac).
Definition SetBarringPassword (requestInfo : option Z) (fac oldPassword newPassword : option string) : M unit :=
  borrow INetwork requestInfo
    ((λ f, C_setBarringPassword f (text oldPassword) (text newPassword)) <$> fac).
Definition SetUssd (requestInfo : option Z) (str : option string) : M unit :=
  forward_opt IVoice DCall requestInfo (C_sendUssd <$> str).
Definition GetUssd (requestInfo : option Z) : M unit := report DCall requestInfo HRIL_ERR_SUCCESS (PInt 1).
Definition CloseUnFinishedUssd (requestInfo : option Z) : M unit :=
  forward IVoice DCall requestInfo C_cancelPendingUssd.
Definition SetSuppSrvNotification (requestInfo : option Z) (enable : Z) : M unit :=
  borrow INetwork requestInfo (Some (C_setSuppServiceNotifications (negb (enable =? 0)))).
End Voice.

(** ** The tables

    The operations hril may call ([g_modemOps], [g_simOps], ...; a null member never
    reaches this library), the responses and the indications of the services. *)

Inductive HrilOp :=
| SetRadioState (fun_ : HRilRadioState) | GetRadioState | GetImei | GetImeiSv | GetMeid
| GetVoiceRadioTechnology | GetBasebandVersion | ShutDown
| GetSimStatus | GetSimIO (data : option Sim.HRilSimIO) | GetSimImsi | UnlockPin (pin : option string)
| UnlockPuk (puk pin : option string) | UnlockPin2 (pin2 : option string)
| UnlockPuk2 (puk2 pin2 : option string) | SetActiveSim (enable : Z)
| GetSignalStrength | GetCsRegStatus | GetPsRegStatus | GetOperatorInfo | GetNetworkSelectionMode
| SetNetworkSelectionMode (data : option (Z * option string)) | GetPreferredNetwork
| SetPreferredNetwork | SetLocateUpdates (mode : HRilRegNotifyMode)
| SetNotificationFilter (newFilter : option Z)
| SendGsmSms (data : option (list (option string))) | SendSmsAck (data : option (Z * Z))
| AddSimMessage (data : option (Z * option string * option string)) | DelSimMessage (data : option Z)
| SetSmscAddr (data : option (Z * option string)) | GetSmscAddr | SetSmsMemoryStatus (available : Z)
| SetInitApnInfo (data : option Data.HRilDataInfo) | ActivatePdpContext (data : option Data.HRilDataInfo)
| DeactivatePdpContext (data : option Data.HRilDataInfo) | GetPdpContextList
| SetDataProfileInfo (data : list Data.HRilDataInfo) | SetDataPermitted (enabled : Z)
| ActivatePdpContextWithApnTypes (data : option (Data.HRilDataInfo * Z))
| GetCallList | Dial (data : option (option string * Z)) | Hangup (data : option Z) | Reject | Answer
| GetClip | SetClip (action : Z) | SwapCalls | CombineConference | SeparateConference (callIndex : Z)
| CallSupplement (type : Z) | GetCallWaiting | SetCallWaiting (active : Z)
| SetCallTransferInfo (info : Voice.HRilCFInfo) | GetCallTransferInfo (reason : Z)
| GetCallRestriction (fac : option string)
| SetCallRestriction (fac : option string) (mode : Z) (password : option string)
| GetClir | SetClir (action : Z) | StartDtmf (key : option string) | SendDtmf (key : option string)
| StopDtmf | SetUssd (str : option string) | GetUssd | SetMute (mute : Z) | GetMute
| GetCallFailReason | SetBarringPassword (fac oldPassword newPassword : option string)
| CloseUnFinishedUssd | ExplicitCallTransferConnection | SetSuppSrvNotification (enable : Z).

Definition perform (op : HrilOp) (r : option Z) : M unit :=
  match op with
  | SetRadioState f => Modem.SetRadioState r f
  | GetRadioState => Modem.GetRadioState r
  | GetImei => Modem.GetImei r
  | GetImeiSv => Modem.GetImeiSv r
  | GetMeid => Modem.GetMeid r
  | GetVoiceRadioTechnology => Modem.GetVoiceRadioTechnology r
  | GetBasebandVersion => Modem.GetBasebandVersion r
  | ShutDown => Modem.ShutDown r
  | GetSimStatus => Sim.GetSimStatus r
  | GetSimIO data => Sim.GetSimIO r data
  | GetSimImsi => Sim.GetSimImsi r
  | UnlockPin pin => Sim.UnlockPin r pin
  | UnlockPuk puk pin => Sim.UnlockPuk r puk pin
  | UnlockPin2 pin2 => Sim.UnlockPin2 r pin2
  | UnlockPuk2 puk2 pin2 => Sim.UnlockPuk2 r puk2 pin2
  | SetActiveSim enable => Sim.SetActiveSim r enable
  | GetSignalStrength => Network.GetSignalStrength r
  | GetCsRegStatus => Network.GetCsRegStatus r
  | GetPsRegStatus => Network.GetPsRegStatus r
  | GetOperatorInfo => Network.GetOperatorInfo r
  | GetNetworkSelectionMode => Network.GetNetworkSelectionMode r
  | SetNetworkSelectionMode data => Network.SetNetworkSelectionMode r data
  | GetPreferredNetwork => Network.GetPreferredNetwork r
  | SetPreferredNetwork => Network.SetPreferredNetwork r
  | SetLocateUpdates mode => Network.SetLocateUpdates r mode
  | SetNotificationFilter newFilter => Network.SetNotificationFilter r newFilter
  | SendGsmSms data => Sms.SendGsmSms r data
  | SendSmsAck data => Sms.SendSmsAck r data
  | AddSimMessage data => Sms.AddSimMessage r data
  | DelSimMessage data => Sms.DelSimMessage r data
  | SetSmscAddr data => Sms.SetSmscAddr r data
  | GetSmscAddr => Sms.GetSmscAddr r
  | SetSmsMemoryStatus available => Sms.SetSmsMemoryStatus r available
  | SetInitApnInfo data => Data.SetInitApnInfo r data
  | ActivatePdpContext data => Data.ActivatePdpContext r data
  | DeactivatePdpContext data => Data.DeactivatePdpContext r data
  | GetPdpContextList => Data.GetPdpContextList r
  | SetDataProfileInfo data => Data.SetDataProfileInfo r data
  | SetDataPermitted enabled => Data.SetDataPermitted r enabled
  | ActivatePdpContextWithApnTypes data => Data.ActivatePdpContextWithApnTypes r data
  | GetCallList => Voice.GetCallList r
  | Dial data => Voice.Dial r data
  | Hangup data => Voice.Hangup r data
  | Reject => Voice.Reject r
  | Answer => Voice.Answer r
  | GetClip => Voice.GetClip r
  | SetClip action => Voice.SetClip r action
  | SwapCalls => Voice.SwapCalls r
  | CombineConference => Voice.CombineConference r
  | SeparateConference callIndex => Voice.SeparateConference r callIndex
  | CallSupplement type => Voice.CallSupplement r type
  | GetCallWaiting => Voice.GetCallWaiting r
  | SetCallWaiting active => Voice.SetCallWaiting r active
  | SetCallTransferInfo info => Voice.SetCallTransferInfo r info
  | GetCallTransferInfo reason => Voice.GetCallTransferInfo r reason
  | GetCallRestriction fac => Voice.GetCallRestriction r fac
  | SetCallRestriction fac mode password => Voice.SetCallRestriction r fac mode password
  | GetClir => Voice.GetClir r
  | SetClir action => Voice.SetClir r action
  | StartDtmf key => Voice.StartDtmf r key
  | SendDtmf key => Voice.SendDtmf r key
  | StopDtmf => Voice.StopDtmf r
  | SetUssd str => Voice.SetUssd r str
  | GetUssd => Voice.GetUssd r
  | SetMute mute => Voice.SetMute r mute
  | GetMute => Voice.GetMute r
  | GetCallFailReason => Voice.GetCallFailReason r
  | SetBarringPassword fac oldPassword newPassword => Voice.SetBarringPassword r fac oldPassword newPassword
  | CloseUnFinishedUssd => Voice.CloseUnFinishedUssd r
  | ExplicitCallTransferConnection => Voice.ExplicitCallTransferConnection r
  | SetSuppSrvNotification enable => Voice.SetSuppSrvNotification r enable
  end.

(** The responses the library decodes, by IRadio's names.  Those without a payload of
    interest that a class answers alike share a constructor; [RDefault] is any other
    response, which the generated class refuses. *)
Inductive Empty :=
| E_requestShutdown | E_enableUiccApplications
| E_setNetworkSelectionModeAutomatic | E_setNetworkSelectionModeManual
| E_setAllowedNetworkTypesBitmap | E_setLocationUpdates | E_setIndicationFilter
| E_setBarringPassword | E_setSuppServiceNotifications
| E_acknowledgeLastIncomingGsmSms | E_setSmscAddress | E_reportSmsMemoryStatus | E_writeSmsToSim
| E_deleteSmsOnSim
| E_deactivateDataCall | E_setInitialAttachApn | E_setDataProfile | E_setDataAllowed
| E_setFacilityLockForApp
| E_dial | E_acceptCall | E_rejectCall | E_hangupConnection | E_hangupWaitingOrBackground
| E_hangupForegroundResumeBackground | E_switchWaitingOrHoldingAndActive | E_conference
| E_separateConnection | E_explicitCallTransfer | E_startDtmf | E_sendDtmf | E_stopDtmf | E_setMute
| E_setClir | E_setCallWaiting | E_setCallForward | E_sendUssd | E_cancelPendingUssd.
Inductive RadioResp :=
| REmpty (e : Empty)
| RgetBasebandVersion (version : string) | RgetImei (imeiInfo : option ImeiInfo) | RsetRadioPower
| RgetIccCardStatus (card : CardStatus) | RiccIoForApp (sw1 sw2 : Z) (simResponse : string)
| RgetImsiForApp (imsi : string) | RsupplyIccPinForApp (remaining : Z) | RsupplyIccPukForApp (remaining : Z)
| RsupplyIccPin2ForApp (remaining : Z) | RsupplyIccPuk2ForApp (remaining : Z)
| RgetFacilityLockForApp (response : Z)
| RgetSignalStrength (sig : SignalStrength) | RgetVoiceRegistrationState (reg : RegStateResult)
| RgetDataRegistrationState (reg : RegStateResult) | RgetOperator (longName shortName numeric : string)
| RgetNetworkSelectionMode (manual : bool) | RgetAllowedNetworkTypesBitmap (bitmap : Z)
| RsendSms (messageRef : Z) (ackPDU : string) (errorCode : Z)
| RsendSmsExpectMore (messageRef : Z) (ackPDU : string) (errorCode : Z) | RgetSmscAddress (smsc : string)
| RsetupDataCall (result : SetupDataCallResult) | RgetDataCallList (l : list SetupDataCallResult)
| RgetCurrentCalls (calls : list VoiceCall) | RgetLastCallFailCause (causeCode : Z) | RgetMute (enable : bool)
| RgetClip (status : ClipStatus) | RgetClir (n m : Z) | RgetCallWaiting (enable : bool) (serviceClass : Z)
| RgetCallForwardStatus (infos : list CallForwardInfo)
| RDefault.

Definition empty_domain (e : Empty) : Domain :=
  match e with
  | E_requestShutdown => DModem
  | E_enableUiccApplications => DSim
  | E_setNetworkSelectionModeAutomatic | E_setNetworkSelectionModeManual
  | E_setAllowedNetworkTypesBitmap | E_setLocationUpdates | E_setIndicationFilter => DNetwork
  | E_acknowledgeLastIncomingGsmSms | E_setSmscAddress | E_reportSmsMemoryStatus | E_writeSmsToSim
  | E_deleteSmsOnSim => DSms
  | E_deactivateDataCall | E_setInitialAttachApn | E_setDataProfile | E_setDataAllowed => DData
  | _ => DCall
  end.
(** The answer of slot [slotId]'s services with this serial and error. *)
Definition handle_response (slotId serial error : Z) (r : RadioResp) : M unit :=
  match r with
  | REmpty e => respond (empty_domain e) serial error PNull
  | RgetBasebandVersion version => Modem.getBasebandVersionResponse serial error version
  | RgetImei imeiInfo => Modem.getImeiResponse serial error imeiInfo
  | RsetRadioPower => Modem.setRadioPowerResponse serial error
  | RgetIccCardStatus card => Sim.getIccCardStatusResponse slotId serial error card
  | RiccIoForApp sw1 sw2 simResponse => Sim.iccIoForAppResponse serial error sw1 sw2 simResponse
  | RgetImsiForApp imsi => Sim.getImsiForAppResponse serial error imsi
  | RsupplyIccPinForApp remaining | RsupplyIccPukForApp remaining | RsupplyIccPin2ForApp remaining
  | RsupplyIccPuk2ForApp remaining => Sim.ReportLockStatus serial error remaining
  | RgetFacilityLockForApp response => Sim.getFacilityLockForAppResponse serial error response
  | RgetSignalStrength sig => Network.getSignalStrengthResponse serial error sig
  | RgetVoiceRegistrationState reg => Network.getVoiceRegistrationStateResponse serial error reg
  | RgetDataRegistrationState reg => Network.getDataRegistrationStateResponse slotId serial error reg
  | RgetOperator l s n => Network.getOperatorResponse serial error l s n
  | RgetNetworkSelectionMode manual => Network.getNetworkSelectionModeResponse serial error manual
  | RgetAllowedNetworkTypesBitmap _ => Network.getAllowedNetworkTypesBitmapResponse serial error
  | RsendSms messageRef ackPDU errorCode | RsendSmsExpectMore messageRef ackPDU errorCode =>
      Sms.ReportSendResult serial error messageRef ackPDU errorCode
  | RgetSmscAddress smsc => Sms.getSmscAddressResponse serial error smsc
  | RsetupDataCall result => Data.setupDataCallResponse serial error result
  | RgetDataCallList l => Data.getDataCallListResponse serial error l
  | RgetCurrentCalls calls => Voice.getCurrentCallsResponse serial error calls
  | RgetLastCallFailCause causeCode => Voice.getLastCallFailCauseResponse serial error causeCode
  | RgetMute enable => Voice.getMuteResponse serial error enable
  | RgetClip status => Voice.getClipResponse serial error status
  | RgetClir n m => Voice.getClirResponse serial error n m
  | RgetCallWaiting enable serviceClass => Voice.getCallWaitingResponse serial error enable serviceClass
  | RgetCallForwardStatus infos => Voice.getCallForwardStatusResponse serial error infos
  | RDefault => fret tt
  end.

Inductive RadioInd :=
| NradioStateChanged (state : RadioState) | NmodemReset
| NsimStatusChanged | NsimRefresh
| NnetworkStateChanged | NcurrentSignalStrength (sig : SignalStrength) | NnitzTimeReceived (nitz : string)
| NnewSms (pdu : bytes) | NnewSmsStatusReport (pdu : bytes) | NnewSmsOnSim (recordNumber : Z)
| NsimSmsStorageFull
| NdataCallListChanged (l : list SetupDataCallResult) | NunthrottleApn
| NcallStateChanged | NindicateRingbackTone (start : bool)
| NcurrentEmergencyNumberList (numbers : list EmergencyNumber) | NcallRing | NresendIncallMute
| NonUssd (modeType : Z) (msg : string)
| NonSupplementaryServiceIndication (serviceType requestType serviceClass result : Z).
Definition handle_indication (slotId : Z) (ack : bool) (n : RadioInd) : M unit :=
  match n with
  | NradioStateChanged state => Modem.radioStateChanged slotId state
  | NmodemReset => Modem.modemReset slotId
  | NsimStatusChanged => Sim.simStatusChanged slotId
  | NsimRefresh => Sim.simRefresh slotId
  | NnetworkStateChanged => Network.networkStateChanged slotId
  | NcurrentSignalStrength sig => Network.currentSignalStrength slotId sig
  | NnitzTimeReceived nitz => Network.nitzTimeReceived slotId nitz
  | NnewSms pdu => Sms.newSms slotId ack pdu
  | NnewSmsStatusReport pdu => Sms.newSmsStatusReport slotId ack pdu
  | NnewSmsOnSim recordNumber => Sms.newSmsOnSim slotId ack recordNumber
  | NsimSmsStorageFull => Sms.simSmsStorageFull slotId ack
  | NdataCallListChanged l => Data.dataCallListChanged slotId ack l
  | NunthrottleApn => Data.unthrottleApn slotId ack
  | NcallStateChanged => Voice.callStateChanged slotId ack
  | NindicateRingbackTone start => Voice.indicateRingbackTone slotId ack start
  | NcurrentEmergencyNumberList numbers => Voice.currentEmergencyNumberList slotId ack numbers
  | NcallRing => Voice.callRing slotId ack
  | NresendIncallMute => Voice.resendIncallMute slotId ack
  | NonUssd modeType msg => Voice.onUssd slotId ack modeType msg
  | NonSupplementaryServiceIndication st rt sc res => Voice.onSupplementaryServiceIndication slotId ack st rt sc res
  end.

(** ** The machine

    hril hands in a request at an address that is not in use and calls the operation for
    it; a service answers or indicates, whatever serial it likes; the connect thread binds
    a slot, announces the connection and nudges; rild dies.  An operation makes its call
    last, so no answer can come in its middle.  Handlers run one at a time here; those
    that touch the radio state, which no lock guards, are interleaved step by step in
    RilRadio.v. *)
Inductive Act :=
| ARequest (r : Z) (info : ReqDataInfo) (op : HrilOp)
| AResponse (slotId serial error : Z) (r : RadioResp)
| AIndication (slotId : Z) (ack : bool) (n : RadioInd)
| ABind (slotId : Z)
| AAnnounce
| ANudge
| ADie (slotId : Z).
Definition act (a : Act) : M unit :=
  match a with
  | ARequest r info op =>
      do! fmod (λ s, set_rl_reqs (<[r := info]> (rl_reqs s)) s) in perform op (Some r)
  | AResponse slotId serial error r => handle_response slotId serial error r
  | AIndication slotId ack n => handle_indication slotId ack n
  | ABind slotId => bind_slot slotId
  | AAnnounce => announce
  | ANudge => nudge_round
  | ADie slotId => fmod (λ s, set_rl_dead ({[slotId]} ∪ rl_dead s) s)
  end.
Fixpoint ril_run (l : list Act) (s : Ril) : option Ril :=
  match l with
  | [] => Some s
  | a :: l => match act a s with Some (_, s) => ril_run l s | None => None end
  end.
(** After [RilInitOps]. *)
Definition Ril_start : Ril := set_rl_reportOps_ true Ril_new.
