(* ===== verification/RilFacts.v ===== *)
(** * The radio bridge: invariant and lemmas

    The invariant of the bridge, what an operation, a response and an indication do to
    hril's requests, and induction over runs. *)

From stdpp Require Import finite.
From S2P Require Import Prelude FaultMonad RilBridge RilDomains.
Set Warnings "-rewrite-rw,-clear-no-such-hyp".
#[global] Open Scope Z_scope.
#[global] Open Scope fault_scope.

(** ** The invariant

    [hand] is the request an operation or a response has in hand: taken from the table of
    pending requests and not reported yet, or not entered yet.  Every request hril is
    waiting for is either that one or waits under exactly one serial. *)

Definition arrays (s : Ril) : Prop :=
  length (rl_radioState s) = 2%nat ∧ length (rl_appAid s) = 2%nat ∧
  length (rl_dataAccessNetwork s) = 2%nat ∧ length (rl_profiles s) = 2%nat ∧
  length (rl_clipPresentation s) = 2%nat.
Definition serials (s : Ril) : Prop :=
  1 <= rl_nextSerial_ s < 2 ^ 31 ∧
  (∀ k, is_Some (rl_pending_ s !! k) → k < rl_nextSerial_ s) ∧
  (∀ k, is_Some (rl_notifying_ s !! k) → k < rl_nextSerial_ s) ∧
  (∀ k, is_Some (rl_pending_ s !! k) → rl_notifying_ s !! k = None).
Definition held (pending : gmap Z (option Z)) (hand : option Z) (reqs : gmap Z ReqDataInfo) : Prop :=
  (∀ k, pending !! k ≠ Some None) ∧
  (∀ j k r, pending !! j = Some (Some r) → pending !! k = Some (Some r) → j = k) ∧
  (∀ r, hand = Some r → is_Some (reqs !! r) ∧ ∀ k, pending !! k ≠ Some (Some r)) ∧
  (∀ r, is_Some (reqs !! r) ↔ hand = Some r ∨ ∃ k, pending !! k = Some (Some r)).
Definition bound (s : Ril) : Prop := ∀ i slot, (i, slot) ∈ rl_services s → in_slots slot = true.
Definition wf (hand : option Z) (s : Ril) : Prop :=
  rl_reportOps_ s = true ∧ arrays s ∧ serials s ∧ held (rl_pending_ s) hand (rl_reqs s) ∧ bound s.

Lemma held_report pending r reqs : held pending (Some r) reqs → held pending None (delete r reqs).
Proof.
  intros (H0 & Hi & Hh & Hr). destruct (Hh r eq_refl) as [_ Hp]. split_and!; [done|done|done|].
  intros q. rewrite lookup_delete_is_Some Hr. split.
  - intros [Hq [[= ?]|?]]; [done|by right].
  - intros [?|(k & Hk)]; [done|]. split; [|by eauto]. intros ->. by destruct (Hp k).
Qed.
Lemma held_track pending r reqs k :
  held pending (Some r) reqs → pending !! k = None → held (<[k := Some r]> pending) None reqs.
Proof.
  intros (H0 & Hi & Hh & Hr) Hk. destruct (Hh r eq_refl) as [_ Hp]. split_and!; [| |done|].
  - intros j. destruct (decide (j = k)) as [->|]; [by rewrite lookup_insert_eq|by rewrite lookup_insert_ne].
  - intros i j q. destruct (decide (i = k)) as [->|], (decide (j = k)) as [->|];
      rewrite ?lookup_insert_eq ?lookup_insert_ne //.
    + intros [= <-] H. by destruct (Hp j).
    + intros H [= <-]. by destruct (Hp i).
    + apply Hi.
  - intros q. rewrite Hr. split.
    + intros [[= <-]|(j & Hj)]; right; [exists k; by rewrite lookup_insert_eq|].
      exists j. rewrite lookup_insert_ne //. intros ->. congruence.
    + intros [?|(j & Hj)]; [done|]. destruct (decide (j = k)) as [->|].
      * rewrite lookup_insert_eq in Hj. left. congruence.
      * rewrite lookup_insert_ne // in Hj. eauto.
Qed.
Lemma held_take pending r reqs k :
  held pending None reqs → pending !! k = Some (Some r) → held (delete k pending) (Some r) reqs.
Proof.
  intros (H0 & Hi & _ & Hr) Hk. split_and!.
  - intros j H. apply lookup_delete_Some in H as [_ H]. by destruct (H0 j).
  - intros i j q [_ H1]%lookup_delete_Some [_ H2]%lookup_delete_Some. by eapply Hi.
  - intros q [= <-]. split; [apply Hr; eauto|]. intros j [Hne H]%lookup_delete_Some. eapply Hne, Hi; eauto.
  - intros q. rewrite Hr. split.
    + intros [?|(j & Hj)]; [done|]. destruct (decide (j = k)) as [->|]; [left; congruence|].
      right. exists j. by rewrite lookup_delete_ne.
    + intros [[= <-]|(j & [_ Hj]%lookup_delete_Some)]; eauto.
Qed.
Lemma held_new pending r reqs info :
  held pending None reqs → reqs !! r = None → held pending (Some r) (<[r := info]> reqs).
Proof.
  intros (H0 & Hi & _ & Hr) Hf. split_and!; [done|done| |].
  - intros q [= <-]. split; [by rewrite lookup_insert_eq|]. intros k Hk.
    destruct (proj2 (Hr r)) as [? H]; [eauto|congruence].
  - intros q. rewrite lookup_insert_is_Some Hr. split.
    + intros [<-|[_ [?|?]]]; [by left|done|by right].
    + intros [[= <-]|(k & Hk)]; [by left|]. destruct (decide (r = q)) as [->|]; [by left|]. right. eauto.
Qed.

Lemma lt_slots {A} (l : list A) i : length l = 2%nat → in_slots i = true → ∃ a, l !! Z.to_nat i = Some a.
Proof.
  intros Hl Hi. unfold in_slots, MAX_SLOTS in Hi. bool_props. apply lookup_lt_is_Some_2. lia.
Qed.
Lemma in_slots_or_0 i : in_slots (slot_or_0 i) = true.
Proof. unfold slot_or_0. by destruct (in_slots i) eqn:E. Qed.
Lemma safe_aget {A} (l : list A) i (Q : A → Ril → Prop) s :
  length l = 2%nat → in_slots i = true → (∀ a, l !! Z.to_nat i = Some a → Q a s) → safe (aget l i) Q s.
Proof.
  intros Hl Hi HQ. destruct (lt_slots l i Hl Hi) as [a Ha]. unfold aget.
  unfold in_slots in Hi. bool_props. destruct (i <? 0) eqn:E; bool_props; [lia|].
  eapply safe_some; eauto.
Qed.
Lemma safe_aset {A} (set : list A → Ril → Ril) (l : list A) i a (Q : unit → Ril → Prop) s :
  length l = 2%nat → in_slots i = true → Q tt (set (<[Z.to_nat i := a]> l) s) → safe (aset set l i a) Q s.
Proof. intros Hl Hi HQ. unfold aset. apply safe_bind, safe_aget; [done..|]. intros _ _. by apply safe_mod. Qed.

(** The reports made so far. *)
Definition report_of (o : Out) : option (Domain * Z * Z * HRilErr * Payload) :=
  match o with OReport d slot r err p => Some (d, slot, r, err, p) | _ => None end.
Definition reported (l : list Out) : list (Domain * Z * Z * HRilErr * Payload) := omap report_of l.
Lemma reported_app l1 l2 : reported (l1 ++ l2) = reported l1 ++ reported l2.
Proof. apply omap_app. Qed.

(** ** What an operation does with its request *)

(** The domain in which the answer to a call is reported. *)
Definition reply_domain (c : RadioCall) : Domain :=
  match c with
  | C_setRadioPower _ _ _ | C_getImei | C_getBasebandVersion | C_requestShutdown => DModem
  | C_getIccCardStatus | C_getImsiForApp _ | C_iccIoForApp _ | C_enableUiccApplications _
  | C_supplyIccPinForApp _ _ | C_supplyIccPukForApp _ _ _ | C_supplyIccPin2ForApp _ _
  | C_supplyIccPuk2ForApp _ _ _ => DSim
  | C_getSignalStrength | C_getVoiceRegistrationState | C_getDataRegistrationState | C_getOperator
  | C_getNetworkSelectionMode | C_setNetworkSelectionModeAutomatic
  | C_setNetworkSelectionModeManual _ _ | C_getAllowedNetworkTypesBitmap
  | C_setAllowedNetworkTypesBitmap _ | C_setLocationUpdates _ | C_setIndicationFilter _ => DNetwork
  | C_sendSms _ _ | C_sendSmsExpectMore _ _ | C_acknowledgeLastIncomingGsmSms _ _
  | C_getSmscAddress | C_setSmscAddress _ | C_reportSmsMemoryStatus _ | C_writeSmsToSim _ _ _
  | C_deleteSmsOnSim _ => DSms
  | C_setupDataCall _ _ _ _ | C_deactivateDataCall _ _ | C_getDataCallList
  | C_setInitialAttachApn _ | C_setDataProfile _ | C_setDataAllowed _ => DData
  | _ => DCall
  end.
(** The domain whose table has an operation. *)
Definition op_domain (op : HrilOp) : Domain :=
  match op with
  | SetRadioState _ | GetRadioState | GetImei | GetImeiSv | GetMeid | GetVoiceRadioTechnology
  | GetBasebandVersion | ShutDown => DModem
  | GetSimStatus | GetSimIO _ | GetSimImsi | UnlockPin _ | UnlockPuk _ _ | UnlockPin2 _
  | UnlockPuk2 _ _ | SetActiveSim _ => DSim
  | GetSignalStrength | GetCsRegStatus | GetPsRegStatus | GetOperatorInfo
  | GetNetworkSelectionMode | SetNetworkSelectionMode _ | GetPreferredNetwork
  | SetPreferredNetwork | SetLocateUpdates _ | SetNotificationFilter _ => DNetwork
  | SendGsmSms _ | SendSmsAck _ | AddSimMessage _ | DelSimMessage _ | SetSmscAddr _ | GetSmscAddr
  | SetSmsMemoryStatus _ => DSms
  | SetInitApnInfo _ | ActivatePdpContext _ | DeactivatePdpContext _ | GetPdpContextList
  | SetDataProfileInfo _ | SetDataPermitted _ | ActivatePdpContextWithApnTypes _ => DData
  | _ => DCall
  end.

(** Reported at once, or waiting under a new serial for the answer to the call made last,
    which reaches the slot's rild if that lives. *)
Definition told (d : Domain) (r : Z) (info : ReqDataInfo) (s s' : Ril) : Prop :=
  ∃ err p, rl_pending_ s' = rl_pending_ s ∧ rl_reqs s' = delete r (rl_reqs s) ∧
    rl_log s' = rl_log s ++ [OReport d (rq_slotId info) r err p].
Definition waits (d : Domain) (r slot : Z) (s s' : Ril) : Prop :=
  ∃ k i c pre, rl_reqs s' = rl_reqs s ∧
    rl_pending_ s' = <[k := Some r]> (rl_pending_ s) ∧ rl_pending_ s !! k = None ∧
    rl_log s' = rl_log s ++ pre ++ [OCall (negb (bool_decide (slot ∈ rl_dead s))) i slot k c] ∧
    reported pre = [] ∧ reply_domain c = d.
Definition handled (d : Domain) (r : Z) (info : ReqDataInfo) (s s' : Ril) : Prop :=
  wf None s' ∧ (told d r info s s' ∨ waits d r (slot_or_0 (rq_slotId info)) s s').

(** Changes that touch neither serials nor requests. *)
Definition aside (s s' : Ril) : Prop :=
  rl_reportOps_ s' = rl_reportOps_ s ∧ (arrays s → arrays s') ∧
  rl_nextSerial_ s' = rl_nextSerial_ s ∧ rl_pending_ s' = rl_pending_ s ∧
  rl_notifying_ s' = rl_notifying_ s ∧ rl_reqs s' = rl_reqs s ∧ rl_services s' = rl_services s.
Lemma wf_aside hand s s' : wf hand s → aside s s' → wf hand s'.
Proof.
  intros (H1 & H2 & H3 & H4 & H5) (E1 & E2 & E3 & E4 & E5 & E6 & E7). unfold wf, serials, bound.
  rewrite E1 E3 E4 E5 E6 E7. split_and!; auto; apply H3.
Qed.

Lemma wf_req hand s r : wf hand s → hand = Some r → ∃ info, rl_reqs s !! r = Some info.
Proof. intros (_ & _ & _ & (_ & _ & H & _) & _) ->. by destruct (H r eq_refl) as [? _]. Qed.
Lemma safe_deref r info (Q : ReqDataInfo → Ril → Prop) s :
  rl_reqs s !! r = Some info → Q info s → safe (deref r) Q s.
Proof. intros Hr HQ. unfold deref. safe_steps. by eapply safe_some. Qed.
Lemma safe_report d r info err p s :
  wf (Some r) s → rl_reqs s !! r = Some info →
  safe (report d (Some r) err p) (λ _ s', wf None s' ∧ rl_pending_ s' = rl_pending_ s ∧ rl_reqs s' = delete r (rl_reqs s) ∧
    rl_log s' = rl_log s ++ [OReport d (rq_slotId info) r err p]) s.
Proof.
  intros (H1 & H2 & H3 & H4 & H5) Hr. unfold report. safe_steps. rewrite H1. apply safe_bind.
  eapply safe_deref; [done|]. unfold emit. safe_steps. split; [|done].
  split_and!; try done. by apply held_report.
Qed.
Lemma safe_told d r info err p s :
  wf (Some r) s → rl_reqs s !! r = Some info →
  safe (report d (Some r) err p) (λ _ s', handled d r info s s') s.
Proof.
  intros H Hr. eapply safe_mono; [by eapply safe_report|]. intros _ s' (Hw & Hp & Hq & Hl).
  split; [done|]. left. by exists err, p.
Qed.
Definition room (n : Z) (s : Ril) : Prop := rl_nextSerial_ s + n < 2 ^ 31.
Lemma safe_NextSerial hand s (Q : Z → Ril → Prop) :
  wf hand s → room 1 s →
  (wf hand (set_rl_nextSerial_ (rl_nextSerial_ s + 1) s) →
   Q (rl_nextSerial_ s) (set_rl_nextSerial_ (rl_nextSerial_ s + 1) s)) → safe NextSerial Q s.
Proof.
  intros (H1 & H2 & H3 & H4 & H5) Hroom HQ. unfold NextSerial. unfold room in Hroom.
  destruct H3 as (Hn & Hp & Hq & Hd). safe_steps. destruct (_ =? _) eqn:E; bool_props; [lia|].
  safe_steps. destruct (_ <? 0) eqn:E'; bool_props; [lia|]. apply HQ.
  split_and!; try done. split_and!; cbn; [lia|lia| | |done];
    intros k Hk; [apply Hp in Hk|apply Hq in Hk]; lia.
Qed.
Lemma safe_Track r s (Q : Z → Ril → Prop) :
  wf (Some r) s → room 1 s →
  (let s' := set_rl_pending_ (<[rl_nextSerial_ s := Some r]> (rl_pending_ s))
               (set_rl_nextSerial_ (rl_nextSerial_ s + 1) s) in
   rl_pending_ s !! rl_nextSerial_ s = None → wf None s' → Q (rl_nextSerial_ s) s') →
  safe (Track (Some r)) Q s.
Proof.
  intros H Hroom HQ. unfold Track. apply safe_bind.
  apply (safe_NextSerial (Some r)); [done|done|]. intros (H1 & H2 & (Hn & Hp & Hq & Hd) & H4 & H5).
  safe_steps. pose proof (proj1 (proj2 (proj1 (proj2 (proj2 H))))) as Hold.
  assert (rl_pending_ s !! rl_nextSerial_ s = None) as Hf.
  { destruct (rl_pending_ s !! rl_nextSerial_ s) eqn:E; [|done].
    destruct H as (_ & _ & (_ & Hp' & _) & _). specialize (Hp' (rl_nextSerial_ s)). rewrite E in Hp'.
    specialize (Hp' ltac:(by eauto)). lia. }
  apply HQ; [done|]. cbn in *. split_and!; try done.
  - split_and!; cbn; [lia|lia| |done|].
    + intros k [->|[_ Hk]]%lookup_insert_is_Some; [lia|by apply Hp].
    + intros k [<-|[_ Hk]]%lookup_insert_is_Some; [|by apply Hd].
      destruct (rl_notifying_ s !! rl_nextSerial_ s) eqn:E; [|done].
      destruct H as (_ & _ & (_ & _ & Hq' & _) & _). specialize (Hq' (rl_nextSerial_ s)). rewrite E in Hq'.
      specialize (Hq' ltac:(by eauto)). lia.
  - cbn. by apply held_track.
Qed.
Lemma safe_track_call i slot r c s :
  wf (Some r) s → room 1 s →
  safe (fbind (Track (Some r)) (λ serial, call i slot serial c))
    (λ _ s', wf None s' ∧ waits (reply_domain c) r slot s s') s.
Proof.
  intros H Hroom. apply safe_bind, safe_Track; [done|done|]. intros s1 Hf Hw. unfold call, emit. safe_steps.
  split; [by eapply wf_aside|]. do 3 eexists. exists []. split_and!; done.
Qed.
Lemma safe_service i slot (Q : bool → Ril → Prop) s :
  bound s → (∀ b, (b = true → in_slots slot = true) → Q b s) → safe (service i slot) Q s.
Proof.
  intros Hb HQ. unfold service. destruct (_ || _) eqn:E; [by apply safe_ret, HQ|].
  safe_steps. apply HQ. intros Hs. apply bool_decide_eq_true in Hs. by eapply Hb.
Qed.
Lemma safe_require i d r info s (Q : option Z → Ril → Prop) :
  wf (Some r) s → rl_reqs s !! r = Some info →
  (in_slots (rq_slotId info) = true → Q (Some (slot_or_0 (rq_slotId info))) s) →
  (∀ s', handled d r info s s' → Q None s') →
  safe (require i d (Some r)) Q s.
Proof.
  intros H Hr HS HN. unfold require. apply safe_bind. eapply safe_deref; [done|]. apply safe_bind.
  apply safe_service; [apply H|]. intros [] Hb; [unfold slot_or_0 in HS; rewrite (Hb eq_refl) in HS; by apply safe_ret, HS|].
  eapply safe_seq; [by apply safe_told|]. intros ? s' H'. by apply safe_ret, HN.
Qed.
Lemma safe_forward_opt i d r info c s :
  wf (Some r) s → rl_reqs s !! r = Some info → room 1 s → (∀ c', c = Some c' → reply_domain c' = d) →
  safe (forward_opt i d (Some r) c) (λ _ s', handled d r info s s') s.
Proof.
  intros H Hr Hroom Hc. unfold forward_opt. apply safe_bind. eapply safe_require; [done|done| |].
  - intros _. cbn [fopt]. destruct c as [c|]; [|by apply safe_told].
    eapply safe_mono; [by apply safe_track_call|]. intros _ s' [Hw Hq]. split; [done|]. right.
    by rewrite (Hc c eq_refl) in Hq.
  - intros s' H'. by apply safe_ret.
Qed.
Lemma safe_forward i d r info c s :
  wf (Some r) s → rl_reqs s !! r = Some info → room 1 s → reply_domain c = d →
  safe (forward i d (Some r) c) (λ _ s', handled d r info s s') s.
Proof. intros H Hr Hroom Hc. apply (safe_forward_opt i d r info (Some c)); [done..|]. by intros ? [= <-]. Qed.
Lemma safe_SlotOf r info s (Q : Z → Ril → Prop) :
  rl_reqs s !! r = Some info → Q (slot_or_0 (rq_slotId info)) s → safe (Voice.SlotOf (Some r)) Q s.
Proof. intros Hr HQ. unfold Voice.SlotOf. apply safe_bind. eapply safe_deref; [done|]. by apply safe_ret. Qed.
Lemma safe_borrow i r info c s :
  wf (Some r) s → rl_reqs s !! r = Some info → room 1 s → (∀ c', c = Some c' → reply_domain c' = DCall) →
  safe (Voice.borrow i (Some r) c) (λ _ s', handled DCall r info s s') s.
Proof.
  intros H Hr Hroom Hc. unfold Voice.borrow, Voice.ReportCallFailure. apply safe_bind.
  eapply safe_SlotOf; [done|]. apply safe_bind, safe_service; [apply H|]. intros [] _; [|by apply safe_told].
  destruct c as [c|]; [|by apply safe_told].
  eapply safe_mono; [by apply safe_track_call|]. intros _ s' [Hw Hq]. split; [done|]. right.
  by rewrite (Hc c eq_refl) in Hq.
Qed.

(** Steps before the call: they may log calls of their own and use a serial each. *)
Definition before (r : Z) (n : Z) (s s' : Ril) : Prop :=
  wf (Some r) s' ∧ rl_pending_ s' = rl_pending_ s ∧ rl_reqs s' = rl_reqs s ∧
  rl_nextSerial_ s' <= rl_nextSerial_ s + n ∧ rl_dead s' = rl_dead s ∧
  ∃ pre, rl_log s' = rl_log s ++ pre ∧ reported pre = [].
Lemma handled_call d i r info c s s1 :
  before r 1 s s1 → room 2 s → reply_domain c = d →
  safe (fbind (Track (Some r)) (λ serial, call i (slot_or_0 (rq_slotId info)) serial c))
    (λ _ s', handled d r info s s') s1.
Proof.
  intros (Hw & Ep & Eq & Hn & Ed & pre & El & Er) Hroom <-. unfold room in *.
  eapply safe_mono; [apply safe_track_call; [done|unfold room; lia]|]. intros _ s' [Hw' Hq]. split; [done|]. right.
  destruct Hq as (k & i' & c' & pre' & E0 & E1 & E2 & E3 & E4 & E5). exists k, i', c', (pre ++ pre').
  rewrite -Ep -Eq -Ed. split_and!; [done|done|done| |by rewrite reported_app Er E4|done]. by rewrite E3 El -!app_assoc.
Qed.
Lemma safe_RegisterProfile slot p r s (Q : unit → Ril → Prop) :
  wf (Some r) s → room 2 s → (∀ s', before r 1 s s' → Q tt s') → safe (Data.RegisterProfile slot p) Q s.
Proof.
  intros H Hroom HQ. unfold room in Hroom. unfold Data.RegisterProfile.
  assert (before r 1 s s) as Hs.
  { split_and!; try done; [lia|]. exists []. by rewrite app_nil_r. }
  destruct (negb (in_slots slot)) eqn:Es; [by apply safe_ret, HQ|]. bool_props.
  destruct H as (H1 & H2 & H3 & H4 & H5) eqn:E. safe_steps.
  apply safe_aget; [apply H2|done|]. intros known Hk. destruct (existsb _ _); [by apply safe_ret, HQ|].
  safe_steps. apply safe_aset; [apply H2|done|]. safe_steps.
  match goal with |- safe _ _ ?t => assert (aside s t) as Ha end.
  { split_and!; try done. intros (L1 & L2 & L3 & L4 & L5). split_and!; try done. cbn. by rewrite length_insert. }
  eapply (safe_NextSerial (Some r)); [by eapply wf_aside|unfold room; cbn; lia|]. intros Hw.
  unfold call, emit. safe_steps. apply HQ. split_and!; [by eapply wf_aside|done|done|cbn; lia|done|].
  eexists. split; [done|]. done.
Qed.
Lemma safe_AdoptProfiles slot l r s (Q : unit → Ril → Prop) :
  wf (Some r) s → (∀ s', before r 1 s s' → Q tt s') → safe (Data.AdoptProfiles slot l) Q s.
Proof.
  intros H HQ. unfold Data.AdoptProfiles.
  destruct (negb (in_slots slot)) eqn:Es; bool_props.
  - apply safe_ret, HQ. split_and!; try done; [lia|]. exists []. by rewrite app_nil_r.
  - destruct H as (H1 & H2 & H3 & H4 & H5) eqn:E. safe_steps. apply safe_aset; [apply H2|done|].
    apply HQ. match goal with |- before _ _ _ ?t => assert (aside s t) as Ha end.
    { split_and!; try done. intros (L1 & L2 & L3 & L4 & L5). split_and!; try done. cbn. by rewrite length_insert. }
    split_and!; [by eapply wf_aside|done|done|cbn; lia|done|]. exists []. by rewrite app_nil_r.
Qed.

(** The domain of the call of an argument that may be missing. *)
Ltac reply_tac :=
  let Hc := fresh in intros ? Hc; try (apply fmap_Some in Hc as (? & -> & ->));
  repeat case_match; simplify_eq; done.
Ltac op_tac :=
  first [ apply safe_forward; [done..|repeat case_match; done]
        | apply safe_forward_opt; [done..|reply_tac]
        | apply safe_borrow; [done..|reply_tac]
        | by apply safe_told ].
Lemma safe_SetRadioState r info f s :
  wf (Some r) s → rl_reqs s !! r = Some info → room 2 s →
  safe (Modem.SetRadioState (Some r) f) (λ _ s', handled DModem r info s s') s.
Proof.
  intros H Hr Hroom. unfold Modem.SetRadioState. apply safe_bind. eapply safe_require; [done|done| |].
  - intros _. cbn [fopt]. apply safe_bind, safe_Track; [done|unfold room in *; lia|]. intros s1 Hf Hw.
    unfold call, emit. safe_steps. split; [by eapply wf_aside|]. right. do 3 eexists. exists [].
    split_and!; done.
  - intros s' H'. by apply safe_ret.
Qed.
Lemma safe_AppAid slot (Q : string → Ril → Prop) s : arrays s → (∀ a, Q a s) → safe (AppAid slot) Q s.
Proof.
  intros (_ & H & _) HQ. unfold AppAid. destruct (in_slots slot) eqn:E; [|by apply safe_ret].
  safe_steps. by apply safe_aget.
Qed.
Lemma safe_AccessNetworkFor slot rat (Q : AccessNetwork → Ril → Prop) s :
  arrays s → (∀ a, Q a s) → safe (Data.AccessNetworkFor slot rat) Q s.
Proof.
  intros (_ & _ & H & _) HQ. unfold Data.AccessNetworkFor, Network.LastDataAccessNetwork.
  case_bool_decide; [by apply safe_ret|]. destruct (in_slots slot) eqn:E; [|by apply safe_ret].
  safe_steps. by apply safe_aget.
Qed.
Lemma safe_ActivateInternal r info data types s :
  wf (Some r) s → rl_reqs s !! r = Some info → room 2 s →
  safe (Data.ActivateInternal (Some r) data types) (λ _ s', handled DData r info s s') s.
Proof.
  intros H Hr Hroom. unfold Data.ActivateInternal. apply safe_bind. eapply safe_require; [done|done| |].
  - intros _. cbn [fopt]. destruct data as [d|]; [|by apply safe_told]. apply safe_bind.
    apply safe_AccessNetworkFor; [apply H|]. intros a. apply safe_bind.
    eapply safe_RegisterProfile; [done|done|]. intros s1 Hs1. by apply handled_call.
  - intros s' H'. by apply safe_ret.
Qed.
(** Every operation, whatever its arguments: the request is reported in the operation's
    domain or waits for an answer that will be. *)
Lemma perform_spec op r info s :
  wf (Some r) s → rl_reqs s !! r = Some info → room 2 s →
  safe (perform op (Some r)) (λ _ s', handled (op_domain op) r info s s') s.
Proof.
  intros H Hr Hroom. assert (room 1 s) as Hroom1 by (unfold room in *; lia).
  assert (arrays s) as Ha by apply H.
  destruct op; cbn [perform op_domain]; try solve [op_tac];
    try solve [by apply safe_SetRadioState | by apply safe_ActivateInternal].
  - (* GetRadioState *)
    unfold Modem.GetRadioState. cbn [fopt]. apply safe_bind. eapply safe_deref; [done|]. safe_steps.
    apply safe_aget; [apply Ha|apply in_slots_or_0|]. intros a _. by apply safe_told.
  - (* GetSimIO *)
    unfold Sim.GetSimIO. apply safe_bind. eapply safe_require; [done|done| |].
    + intros _. cbn [fopt]. destruct data; [|by apply safe_told]. apply safe_bind.
      apply safe_AppAid; [done|]. intros aid. eapply safe_mono; [by apply safe_track_call|].
      intros ? s' [? ?]. split; [done|]. by right.
    + intros s' H'. by apply safe_ret.
  - (* GetSimImsi *)
    unfold Sim.GetSimImsi. apply safe_bind. eapply safe_require; [done|done| |].
    + intros _. cbn [fopt]. apply safe_bind, safe_Track; [done|done|]. intros s1 Hf Hw. apply safe_bind.
      apply safe_AppAid; [apply Hw|]. intros aid. unfold call, emit. safe_steps.
      split; [by eapply wf_aside|]. right. do 3 eexists. exists []. by split_and!.
    + intros s' H'. by apply safe_ret.
  - (* SendGsmSms *)
    unfold Sms.SendGsmSms. apply safe_bind. eapply safe_require; [done|done| |].
    + intros _. cbn [fopt]. destruct data as [[|smsc [|pdu l]]|]; try by apply safe_told.
      apply safe_bind. eapply safe_deref; [done|]. eapply safe_mono; [by apply safe_track_call|].
      intros ? s' [? Hq]. split; [done|]. right. by case_bool_decide.
    + intros s' H'. by apply safe_ret.
  - (* SetInitApnInfo *)
    unfold Data.SetInitApnInfo. apply safe_bind. eapply safe_require; [done|done| |].
    + intros _. cbn [fopt]. destruct data as [d|]; [|by apply safe_told]. apply safe_bind.
      eapply safe_RegisterProfile; [done|done|]. intros s1 Hs1. by apply handled_call.
    + intros s' H'. by apply safe_ret.
  - (* SetDataProfileInfo *)
    unfold Data.SetDataProfileInfo. apply safe_bind. eapply safe_require; [done|done| |].
    + intros _. cbn [fopt]. destruct data as [|d l]; [by apply safe_told|]. apply safe_bind.
      eapply safe_AdoptProfiles; [done|]. intros s1 Hs1. by apply handled_call.
    + intros s' H'. by apply safe_ret.
  - (* ActivatePdpContextWithApnTypes *)
    destruct data as [[base types]|]; [by apply safe_ActivateInternal|by apply safe_told].
  - (* SetClip *)
    unfold Voice.SetClip. apply safe_bind. eapply safe_SlotOf; [done|]. safe_steps.
    apply safe_aset; [apply Ha|apply in_slots_or_0|].
    match goal with |- safe _ _ ?t => assert (aside s t) as Has end.
    { split_and!; try done. intros (L1 & L2 & L3 & L4 & L5). split_and!; try done. cbn. by rewrite length_insert. }
    eapply safe_mono; [eapply safe_told; [by eapply wf_aside|exact Hr]|]. done.
Qed.

(** ** What a response does *)

Definition resp_domain (r : RadioResp) : option Domain :=
  match r with
  | REmpty e => Some (empty_domain e)
  | RgetBasebandVersion _ | RgetImei _ | RsetRadioPower => Some DModem
  | RgetIccCardStatus _ | RiccIoForApp _ _ _ | RgetImsiForApp _ | RsupplyIccPinForApp _
  | RsupplyIccPukForApp _ | RsupplyIccPin2ForApp _ | RsupplyIccPuk2ForApp _ => Some DSim
  | RgetSignalStrength _ | RgetVoiceRegistrationState _ | RgetDataRegistrationState _
  | RgetOperator _ _ _ | RgetNetworkSelectionMode _ | RgetAllowedNetworkTypesBitmap _ => Some DNetwork
  | RsendSms _ _ _ | RsendSmsExpectMore _ _ _ | RgetSmscAddress _ => Some DSms
  | RsetupDataCall _ | RgetDataCallList _ => Some DData
  | RgetFacilityLockForApp _ | RgetCurrentCalls _ | RgetLastCallFailCause _ | RgetMute _
  | RgetClip _ | RgetClir _ _ | RgetCallWaiting _ _ | RgetCallForwardStatus _ => Some DCall
  | RDefault => None
  end.
(** A response reports the request that waits under its serial, once, and no other. *)
Definition closes (dom : option Domain) (serial error : Z) (s s' : Ril) : Prop :=
  wf None s' ∧ rl_nextSerial_ s' = rl_nextSerial_ s ∧
  match rl_pending_ s !! serial, dom with
  | Some (Some q), Some d =>
      ∃ info p, rl_reqs s !! q = Some info ∧ rl_pending_ s' = delete serial (rl_pending_ s) ∧
        rl_reqs s' = delete q (rl_reqs s) ∧
        reported (rl_log s') = reported (rl_log s) ++ [(d, rq_slotId info, q, ToHrilError error, p)]
  | _, _ => rl_pending_ s' = rl_pending_ s ∧ rl_reqs s' = rl_reqs s ∧
      reported (rl_log s') = reported (rl_log s)
  end.
Lemma closes_after dom serial error s s1 s' :
  aside s s1 → reported (rl_log s1) = reported (rl_log s) →
  closes dom serial error s1 s' → closes dom serial error s s'.
Proof.
  intros (_ & _ & E3 & E4 & E5 & E6 & E7) El (Hw & Hn & Hm). unfold closes.
  rewrite -E3 -E4 -El -E6. done.
Qed.
Lemma safe_TakePending serial s (Q : option Z → Ril → Prop) :
  wf None s →
  (rl_pending_ s !! serial = None → Q None s) →
  (∀ q info, rl_pending_ s !! serial = Some (Some q) → rl_reqs s !! q = Some info →
     let s' := set_rl_pending_ (delete serial (rl_pending_ s)) s in wf (Some q) s' → Q (Some q) s') →
  safe (TakePending serial) Q s.
Proof.
  intros (H1 & H2 & (Hn & Hp & Hq & Hd) & H4 & H5) HN HS. unfold TakePending. safe_steps.
  destruct (rl_pending_ s !! serial) as [[q|]|] eqn:E; [|by destruct (proj1 H4 serial)|by apply safe_ret, HN].
  safe_steps. destruct (proj2 (proj2 (proj2 (proj2 H4)) q)) as [info Hi]; [by eauto|].
  eapply HS; [done|done|]. split_and!; try done; [|by apply held_take].
  split; [exact Hn|]. split; [|split; [exact Hq|]]; intros k Hk; cbn in Hk;
    apply lookup_delete_is_Some in Hk as [_ Hk]; [by apply Hp|by apply Hd].
Qed.
Lemma closes_report d serial error p q info s s1 :
  rl_pending_ s !! serial = Some (Some q) → rl_reqs s !! q = Some info →
  wf (Some q) s1 → rl_nextSerial_ s1 = rl_nextSerial_ s → rl_pending_ s1 = delete serial (rl_pending_ s) →
  rl_reqs s1 = rl_reqs s → reported (rl_log s1) = reported (rl_log s) →
  safe (report d (Some q) (ToHrilError error) p) (λ _ s', closes (Some d) serial error s s' ) s1.
Proof.
  intros Hp Hi Hw En Ep Eq El.
  assert (fkeeps (λ s s', rl_nextSerial_ s' = rl_nextSerial_ s) (report d (Some q) (ToHrilError error) p)) as Hk.
  { unfold report, deref, emit. intros t a t'. unfold fbind, fget, fmod, fsome, fret. repeat case_match; naive_solver. }
  eapply safe_mono; [apply safe_keeps; [exact Hk|eapply safe_report; [done|by rewrite Eq]]|]. cbn.
  intros _ s' [(Hw' & Ep' & Eq' & El') Hn']. unfold closes. rewrite Hp. split_and!; [done|congruence|].
  exists info, p. split_and!; [done|congruence|congruence|]. by rewrite El' reported_app El.
Qed.
Lemma safe_with_pending d serial error k s :
  wf None s →
  (∀ q info, rl_pending_ s !! serial = Some (Some q) → rl_reqs s !! q = Some info →
     let s' := set_rl_pending_ (delete serial (rl_pending_ s)) s in wf (Some q) s' →
     safe (k q) (λ _ s', closes (Some d) serial error s s') s') →
  safe (with_pending serial k) (λ _ s', closes (Some d) serial error s s') s.
Proof.
  intros H Hk. unfold with_pending. apply safe_bind, safe_TakePending; [done| |].
  - intros E. apply safe_ret. unfold closes. by rewrite E.
  - intros q info E Hi s1 Hw. by eapply Hk.
Qed.
Lemma safe_respond d serial error p s :
  wf None s → safe (respond d serial error p) (λ _ s', closes (Some d) serial error s s') s.
Proof.
  intros H. apply safe_with_pending; [done|]. intros q info E Hi s1 Hw. by eapply closes_report.
Qed.
Lemma safe_respond_after d serial error p s s1 :
  wf None s → aside s s1 → reported (rl_log s1) = reported (rl_log s) →
  safe (respond d serial error p) (λ _ s', closes (Some d) serial error s s') s1.
Proof.
  intros H Ha El. eapply safe_mono; [apply safe_respond; by eapply wf_aside|]. intros ? s'. by apply closes_after.
Qed.
Lemma aside_set_list {A} (set : list A → Ril → Ril) (l : list A) i a s :
  (∀ l', length l' = length l → aside s (set l' s)) → aside s (set (<[i := a]> l) s).
Proof. intros H. apply H. by rewrite length_insert. Qed.
Lemma aside_radioState l s : length l = length (rl_radioState s) → aside s (set_rl_radioState l s).
Proof. intros Hl. split_and!; try done. unfold arrays. cbn. by rewrite Hl. Qed.
Lemma aside_appAid l s : length l = length (rl_appAid s) → aside s (set_rl_appAid l s).
Proof. intros Hl. split_and!; try done. unfold arrays. cbn. by rewrite Hl. Qed.
Lemma aside_dataAccessNetwork l s :
  length l = length (rl_dataAccessNetwork s) → aside s (set_rl_dataAccessNetwork l s).
Proof. intros Hl. split_and!; try done. unfold arrays. cbn. by rewrite Hl. Qed.
#[export] Instance aside_preorder : PreOrder aside.
Proof.
  split; [by intros s; split_and!|]. intros s1 s2 s3 (?&Ha&?&?&?&?&?) (?&Hb&?&?&?&?&?).
  split_and!; try congruence. auto.
Qed.

(** Steps aside that report nothing, as a relation kept by the helpers. *)
Definition quiet (s s' : Ril) : Prop := aside s s' ∧ reported (rl_log s') = reported (rl_log s).
#[export] Instance quiet_preorder : PreOrder quiet.
Proof.
  split; [by intros s|]. intros s1 s2 s3 [? E1] [? E2]. split; [by etrans|congruence].
Qed.
Lemma safe_notify d slot id p s : safe (notify d slot id p) (λ _ s', quiet s s') s.
Proof.
  unfold notify, emit. safe_steps. destruct (rl_reportOps_ s); safe_steps; [|done].
  split; [by split_and!|]. cbn [rl_log set_rl_log]. by rewrite reported_app app_nil_r.
Qed.
Lemma safe_store_state slot state s :
  arrays s → in_slots slot = true → safe (Modem.store_state slot state) (λ _ s', quiet s s') s.
Proof.
  intros Ha Hs. unfold Modem.store_state. safe_steps. apply safe_aset; [apply Ha|done|].
  split; [|done]. apply aside_set_list. intros l' Hl. by apply aside_radioState.
Qed.
Lemma safe_quiet_notify d slot id p s s1 : quiet s s1 → safe (notify d slot id p) (λ _ s', quiet s s') s1.
Proof. intros H. eapply safe_mono; [apply safe_notify|]. intros ? s' H'. by etrans. Qed.
Lemma quiet_arrays s s' : quiet s s' → arrays s → arrays s'.
Proof. intros [(_ & H & _) _]. done. Qed.

Lemma safe_setRadioPower serial error s :
  wf None s → safe (Modem.setRadioPowerResponse serial error) (λ _ s', closes (Some DModem) serial error s s') s.
Proof.
  intros H. unfold Modem.setRadioPowerResponse. safe_steps.
  set (s0 := set_rl_powerRequests _ s). assert (aside s s0) as Ha0 by by split_and!.
  apply safe_TakePending; [by eapply wf_aside|..].
  - intros E. change (rl_pending_ s !! serial = None) in E. safe_steps.
    assert (∀ s', quiet s s' → closes (Some DModem) serial error s s') as Hq.
    { intros s' [Hs Hr]. split; [by eapply wf_aside|]. rewrite E. split; [apply Hs|]. split_and!; [apply Hs|apply Hs|done]. }
    eapply (safe_mono _ (λ _ s', quiet s s')); [|intros ? s' Hs'; apply safe_ret; by apply Hq].
    destruct (rl_powerRequests s !! serial) as [on|]; [|by apply safe_ret].
    destruct (error =? RadioError.NONE); [|by apply safe_ret]. safe_steps.
    apply safe_aget; [apply H|done|]. intros old _. safe_steps.
    eapply safe_mono; [apply safe_store_state; [apply H|done]|]. intros ? s1 Hs1. cbn beta.
    case_bool_decide; [|apply safe_ret; by etrans]. apply safe_quiet_notify. by etrans.
  - intros q info E Hi s1 Hw. change (rl_pending_ s !! serial = Some (Some q)) in E.
    change (rl_reqs s !! q = Some info) in Hi. safe_steps. eapply safe_deref; [exact Hi|]. safe_steps.
    eapply (safe_mono _ (λ _ s', quiet s1 s')).
    + destruct (rl_powerRequests s !! serial) as [on|]; [|by apply safe_ret].
      destruct (error =? RadioError.NONE); [|by apply safe_ret]. safe_steps.
      apply safe_aget; [apply Hw|apply in_slots_or_0|]. intros old _. safe_steps.
      eapply safe_mono; [apply safe_store_state; [apply Hw|apply in_slots_or_0]|]. intros ? s2 Hs2. cbn beta.
      case_bool_decide; [|by apply safe_ret]. by apply safe_quiet_notify.
    + intros ? s2 [Ha Hr]. cbn [fopt]. eapply closes_report; [done|done|by eapply wf_aside|..].
      * by destruct Ha as (_ & _ & -> & _).
      * by destruct Ha as (_ & _ & _ & -> & _).
      * by destruct Ha as (_ & _ & _ & _ & _ & -> & _).
      * by rewrite Hr.
Qed.
Lemma safe_getIccCardStatus slotId serial error card s :
  wf None s →
  safe (Sim.getIccCardStatusResponse slotId serial error card) (λ _ s', closes (Some DSim) serial error s s') s.
Proof.
  intros H. unfold Sim.getIccCardStatusResponse, Sim.RememberAppAid.
  destruct (Sim.ToHrilCardState card) as [state aid]. apply safe_bind.
  destruct (in_slots slotId) eqn:E; [|by apply safe_ret, safe_respond]. cbn [negb]. safe_steps.
  apply safe_aset; [apply H|done|]. apply safe_respond_after; [done| |done].
  apply aside_set_list. intros l' Hl. by apply aside_appAid.
Qed.
Lemma quiet_lastReg m s : quiet s (set_rl_lastReg m s).
Proof. split; [by split_and!|reflexivity]. Qed.
Lemma safe_ReportReg serial error reg s s1 :
  wf None s → aside s s1 → reported (rl_log s1) = reported (rl_log s) →
  safe (Network.ReportReg serial error reg) (λ _ s', closes (Some DNetwork) serial error s s') s1.
Proof.
  intros H Ha El. assert (wf None s1) as H1 by by eapply wf_aside.
  eapply safe_mono; [|intros ? s'; by apply closes_after]. clear s H Ha El. rename s1 into s, H1 into H.
  unfold Network.ReportReg, TakeNotify. safe_steps.
  destruct (rl_notifying_ s !! serial) as [[slotId id]|] eqn:E; safe_steps; [|by apply safe_respond].
  set (s1 := set_rl_notifying_ _ s).
  destruct H as (H1 & H2 & (Hn & Hp & Hq & Hd) & H4 & H5).
  assert (rl_pending_ s !! serial = None) as Ep.
  { destruct (rl_pending_ s !! serial) eqn:E'; [|done]. rewrite (Hd serial) in E; [done|by eauto]. }
  assert (wf None s1) as Hw1.
  { split_and!; try done. split; [exact Hn|]. split; [exact Hp|]. split; intros k Hk; cbn in Hk |- *.
    - apply lookup_delete_is_Some in Hk as [_ Hk]. by apply Hq.
    - apply lookup_delete_None. right. by apply Hd. }
  assert (∀ s', quiet s1 s' → closes (Some DNetwork) serial error s s') as Hc.
  { intros s' [Hs Hr]. split; [by eapply wf_aside|]. rewrite Ep. split; [apply Hs|]. split_and!; [apply Hs|apply Hs|done]. }
  unfold Network.RegChanged. safe_steps. case_bool_decide; safe_steps; [by apply Hc|].
  eapply safe_mono; [apply safe_quiet_notify, quiet_lastReg|]. intros ? s'. apply Hc.
Qed.
Lemma safe_getDataRegistrationState slotId serial error reg s :
  wf None s →
  safe (Network.getDataRegistrationStateResponse slotId serial error reg)
    (λ _ s', closes (Some DNetwork) serial error s s') s.
Proof.
  intros H. unfold Network.getDataRegistrationStateResponse, Network.RememberDataAccessNetwork.
  apply safe_bind. destruct (in_slots slotId) eqn:E; cbn [negb]; [|by apply safe_ret, safe_ReportReg].
  case_bool_decide; [|by apply safe_ret, safe_ReportReg]. safe_steps.
  apply safe_aset; [apply H|done|]. apply safe_ReportReg; [done| |done].
  apply aside_set_list. intros l' Hl. by apply aside_dataAccessNetwork.
Qed.
(** The signal levels of a response or an indication stay within [int32_t] (see
    [RilCodecs.rssi_defined]). *)
Definition resp_ok (r : RadioResp) : bool :=
  match r with RgetSignalStrength sig => bool_decide (is_Some (Network.ToHrilRssi sig)) | _ => true end.
Lemma handle_response_spec slotId serial error r s :
  wf None s → resp_ok r = true →
  safe (handle_response slotId serial error r) (λ _ s', closes (resp_domain r) serial error s s') s.
Proof.
  intros H Hr. destruct r; cbn [handle_response resp_domain];
    unfold Modem.getBasebandVersionResponse, Sim.iccIoForAppResponse, Sim.getImsiForAppResponse,
      Sim.ReportLockStatus, Sim.getFacilityLockForAppResponse, Network.getOperatorResponse,
      Network.getNetworkSelectionModeResponse, Network.getAllowedNetworkTypesBitmapResponse,
      Sms.ReportSendResult, Sms.getSmscAddressResponse, Data.setupDataCallResponse,
      Data.getDataCallListResponse, Voice.getCurrentCallsResponse, Voice.getLastCallFailCauseResponse,
      Voice.getMuteResponse, Voice.getClirResponse, Voice.getCallWaitingResponse,
      Voice.getCallForwardStatusResponse;
    lazymatch goal with |- safe (respond _ _ _ _) _ _ => by apply safe_respond | _ => idtac end.
  - (* getImei *)
    apply safe_with_pending; [done|]. intros q info E Hi s1 Hw. apply safe_bind. eapply safe_deref; [exact Hi|].
    by eapply closes_report.
  - by apply safe_setRadioPower.
  - by apply safe_getIccCardStatus.
  - (* getSignalStrength *)
    apply bool_decide_eq_true in Hr as [rssi Hr].
    apply safe_with_pending; [done|]. intros q info E Hi s1 Hw. apply safe_bind. eapply safe_some; [exact Hr|].
    by eapply closes_report.
  - by apply safe_ReportReg.
  - by apply safe_getDataRegistrationState.
  - (* getClip *)
    apply safe_with_pending; [done|]. intros q info E Hi s1 Hw. apply safe_bind. eapply safe_SlotOf; [exact Hi|].
    safe_steps. apply safe_aget; [apply Hw|apply in_slots_or_0|]. intros a _. by eapply closes_report.
  - unfold closes. apply safe_ret. split; [done|]. split; [done|]. by repeat case_match.
Qed.

(** ** Everything else leaves the requests alone *)

Definition still (n : Z) (s s' : Ril) : Prop :=
  wf None s' ∧ rl_pending_ s' = rl_pending_ s ∧ rl_reqs s' = rl_reqs s ∧
  reported (rl_log s') = reported (rl_log s) ∧ rl_nextSerial_ s' <= rl_nextSerial_ s + n.
Lemma still_quiet n s s' : 0 <= n → wf None s → quiet s s' → still n s s'.
Proof.
  intros Hn H [Ha Hr]. split; [by eapply wf_aside|]. destruct Ha as (_ & _ & -> & -> & _ & -> & _).
  split_and!; try done. lia.
Qed.
Lemma safe_TrackNotify slot id s (Q : Z → Ril → Prop) :
  wf None s → room 1 s → (∀ k s', still 1 s s' → Q k s') → safe (TrackNotify slot id) Q s.
Proof.
  intros H Hroom HQ. unfold TrackNotify. apply safe_bind. apply (safe_NextSerial None); [done|done|].
  intros (H1 & H2 & (Hn & Hp & Hq & Hd) & H4 & H5). safe_steps. apply HQ.
  split; [|split_and!; [done..|cbn; lia]]. split; [done|]. split; [done|]. split; [|done].
  split; [exact Hn|]. split; [exact Hp|]. split; intros k Hk; cbn in *.
  - apply lookup_insert_is_Some in Hk as [<-|[_ Hk]]; [lia|by apply Hq].
  - rewrite lookup_insert_ne; [by apply Hd|]. intros <-.
    destruct H as (_ & _ & (_ & Hp' & _) & _). specialize (Hp' _ Hk). lia.
Qed.
Lemma still_trans m n s1 s2 s3 : still m s1 s2 → still n s2 s3 → still (m + n) s1 s3.
Proof.
  intros (H1 & E1 & E2 & E3 & Hn) (H1' & E1' & E2' & E3' & Hn'). split; [done|].
  split_and!; [congruence..|lia].
Qed.
Lemma safe_call_quiet i slot k c s : safe (call i slot k c) (λ _ s', quiet s s') s.
Proof.
  unfold call, emit. safe_steps. split; [by split_and!|]. cbn [rl_log set_rl_log].
  by rewrite reported_app app_nil_r.
Qed.
Lemma safe_networkStateChanged slotId s :
  wf None s → room 2 s → safe (Network.networkStateChanged slotId) (λ _ s', still 2 s s') s.
Proof.
  intros H Hroom. unfold room in Hroom. unfold Network.networkStateChanged. apply safe_bind.
  apply safe_service; [apply H|]. intros b _. apply safe_when; intros _; [|by apply still_quiet].
  apply safe_bind, safe_TrackNotify; [done|unfold room; lia|]. intros k s1 H1.
  eapply safe_seq; [apply safe_call_quiet|]. cbn beta. intros _ s2 H2.
  assert (still 1 s s2) as Hs2.
  { replace 1 with (1 + 0) by done. eapply still_trans; [done|]. apply still_quiet; [done|apply H1|done]. }
  apply safe_bind, safe_TrackNotify; [apply Hs2|destruct Hs2 as (_&_&_&_&?); unfold room; lia|]. intros k' s3 H3.
  eapply safe_mono; [apply safe_call_quiet|]. cbn beta. intros _ s4 H4.
  replace 2 with ((1 + 1) + 0) by done. eapply still_trans; [by eapply still_trans|].
  apply still_quiet; [done|apply H3|done].
Qed.
Lemma safe_Ack i slotId ack s s1 :
  bound s1 → quiet s s1 → safe (Sms.AckIndication i slotId ack) (λ _ s', quiet s s') s1.
Proof.
  intros Hb H. unfold Sms.AckIndication. destruct ack; [|by apply safe_ret]. cbn [negb]. apply safe_bind.
  apply safe_service; [done|]. intros b _. apply safe_when; intros _; [|done]. unfold emit. apply safe_mod.
  etrans; [done|]. split; [by split_and!|]. cbn [rl_log set_rl_log]. by rewrite reported_app app_nil_r.
Qed.
Lemma safe_notify_ack d slot id p i ack s :
  bound s →
  safe (fbind (notify d slot id p) (λ _, Sms.AckIndication i slot ack)) (λ _ s', quiet s s') s.
Proof.
  intros Hb. eapply safe_seq; [apply safe_notify|]. intros ? s1 H1. apply safe_Ack; [|done].
  destruct H1 as [(_ & _ & _ & _ & _ & _ & E) _]. unfold bound. by rewrite E.
Qed.
Definition ind_ok (n : RadioInd) : bool :=
  match n with NcurrentSignalStrength sig => bool_decide (is_Some (Network.ToHrilRssi sig)) | _ => true end.
Lemma handle_indication_spec slotId ack n s :
  wf None s → in_slots slotId = true → ind_ok n = true → room 2 s →
  safe (handle_indication slotId ack n) (λ _ s', still 2 s s') s.
Proof.
  intros H Hs Hn Hroom. assert (bound s) as Hb by apply H. assert (arrays s) as Ha by apply H.
  assert (n = NnetworkStateChanged ∨ n ≠ NnetworkStateChanged) as [->|Hne] by (destruct n; (by left) || by right);
    [by apply safe_networkStateChanged|].
  eapply (safe_mono _ (λ _ s', quiet s s')); [|intros ? s'; by apply still_quiet].
  destruct n; cbn [handle_indication];
    unfold Sms.newSms, Sms.newSmsStatusReport, Sms.newSmsOnSim, Sms.simSmsStorageFull,
      Data.dataCallListChanged, Data.unthrottleApn, Voice.callStateChanged, Voice.indicateRingbackTone,
      Voice.callRing, Voice.resendIncallMute, Voice.onUssd, Voice.onSupplementaryServiceIndication,
      Sim.simStatusChanged, Sim.simRefresh, Network.nitzTimeReceived;
    lazymatch goal with
    | |- safe (notify _ _ _ _) _ _ => apply safe_notify
    | |- safe (Sms.AckIndication _ _ _) _ _ => by apply safe_Ack
    | |- safe (fbind (notify _ _ _ _) _) _ _ => by apply safe_notify_ack
    | _ => idtac
    end; try done.
  - eapply safe_seq; [by apply safe_store_state|]. intros ? s1 H1. by apply safe_quiet_notify.
  - eapply safe_seq; [by apply safe_store_state|]. intros ? s1 H1. by apply safe_quiet_notify.
  - apply bool_decide_eq_true in Hn as [rssi E]. apply safe_bind. eapply safe_some; [exact E|]. apply safe_notify.
  - unfold Voice.currentEmergencyNumberList. destruct (imap _ _); [|by apply safe_notify_ack].
    apply safe_bind, safe_ret. by apply safe_Ack.
Qed.
Lemma safe_announce s : safe announce (λ _ s', quiet s s') s.
Proof.
  unfold announce. safe_steps. apply safe_for_each; [by split_and!|]. intros slot s1 _ H1.
  eapply safe_seq; [by apply safe_quiet_notify|]. intros ? s2 H2. by apply safe_quiet_notify.
Qed.
Lemma safe_nudge s : arrays s → safe nudge_round (λ _ s', quiet s s') s.
Proof.
  intros Ha. unfold nudge_round. apply safe_for_each; [done|]. intros slot s1 Hslot H1.
  assert (in_slots slot = true) as Hin by (set_unfold in Hslot; destruct Hslot as [->|[->|[]]]; done).
  assert (arrays s1) as Ha1 by by eapply quiet_arrays.
  unfold SlotHasSimApp, CachedRadioState. apply safe_bind, safe_bind, safe_AppAid; [done|]. intros aid.
  apply safe_ret. destruct (negb _); [by apply safe_ret|]. apply safe_bind. rewrite Hin. cbn [negb].
  apply safe_bind, safe_get. apply safe_aget; [apply Ha1|done|].
  intros st _. destruct (negb _); [by apply safe_ret|]. by apply safe_quiet_notify.
Qed.

(** ** Runs

    hril does not hand in a request at an address that is still in use; services exist for
    the two slots only; no level is so low that its negation overflows; the serials do not
    reach [INT32_MAX], where [nextSerial_++] overflows (the wrap to 1 after it comes too
    late). *)
Definition polite (a : Act) (s : Ril) : bool :=
  match a with
  | ARequest r _ _ => bool_decide (rl_reqs s !! r = None) && (rl_nextSerial_ s + 2 <? 2 ^ 31)
  | AResponse _ _ _ r => resp_ok r
  | AIndication slotId _ n => in_slots slotId && ind_ok n && (rl_nextSerial_ s + 2 <? 2 ^ 31)
  | ABind slotId => in_slots slotId
  | _ => true
  end.
Fixpoint orderly (l : list Act) (s : Ril) : bool :=
  match l with
  | [] => true
  | a :: l => polite a s && match act a s with Some (_, s') => orderly l s' | None => true end
  end.

(** What one step does to the requests. *)
Definition step_effect (a : Act) (s s' : Ril) : Prop :=
  match a with
  | ARequest r info op => handled (op_domain op) r info (set_rl_reqs (<[r := info]> (rl_reqs s)) s) s'
  | AResponse _ serial error r => closes (resp_domain r) serial error s s'
  | _ => still 2 s s'
  end.
Lemma act_spec a s : wf None s → polite a s = true → safe (act a) (λ _ s', step_effect a s s') s.
Proof.
  intros H Hp. destruct a as [r info op|slotId serial error r|slotId ack n|slotId| | |slotId];
    cbn [act polite step_effect] in *; bool_props.
  - apply bool_decide_eq_true in H0. safe_steps. destruct H as (?&?&?&?&?).
    apply perform_spec; [|by rewrite /= lookup_insert_eq|done]. split_and!; try done. by apply held_new.
  - by apply handle_response_spec.
  - by apply handle_indication_spec.
  - unfold bind_slot. apply safe_mod. destruct H as (?&?&?&?&Hb). split; [|split_and!; try done; cbn; lia].
    split_and!; try done. intros i slot. cbn [rl_services set_rl_services].
    rewrite elem_of_union elem_of_list_to_set list_elem_of_fmap. intros [(? & [= -> ->] & _)|?]; [done|by eapply Hb].
  - eapply safe_mono; [apply safe_announce|]. intros ? s'. by apply still_quiet.
  - eapply safe_mono; [apply safe_nudge, H|]. intros ? s'. by apply still_quiet.
  - apply safe_mod. apply still_quiet; [done|done|]. split; [by split_and!|done].
Qed.
Lemma step_effect_wf a s s' : step_effect a s s' → wf None s'.
Proof. by destruct a; intros [? _]. Qed.
Lemma wf_start : wf None Ril_start.
Proof.
  split_and!; try done.
  - split; [done|]. by split_and!; intros k [? ?].
  - cbn. split_and!; try done. intros r. split; [by intros [? ?]|]. by intros [?|(? & ?)].
Qed.
(** Induction over an orderly run. *)
Lemma orderly_ind (P : list Act → Ril → Prop) :
  (∀ s, wf None s → P [] s) →
  (∀ a l s s', wf None s → polite a s = true → act a s = Some (tt, s') → step_effect a s s' →
     P l s' → P (a :: l) s) →
  ∀ l s, wf None s → orderly l s = true → P l s.
Proof.
  intros H0 HS. induction l as [|a l IH]; intros s H Hl; [by apply H0|]. cbn in Hl.
  apply andb_true_iff in Hl as [Hp Hl].
  destruct (safe_run _ _ _ (act_spec a s H Hp)) as ([] & s' & E & He). rewrite E in Hl.
  eapply HS; [done..|]. apply IH; [by eapply step_effect_wf|done].
Qed.

Definition count (s : Ril) : nat := length (reported (rl_log s)) + size (rl_pending_ s).
Fixpoint requests (l : list Act) : nat :=
  match l with
  | [] => 0
  | ARequest _ _ _ :: l => S (requests l)
  | _ :: l => requests l
  end.
Definition one (a : Act) : nat := requests [a].
Lemma step_count a s s' :
  step_effect a s s' → count s' = (count s + one a)%nat.
Proof.
  destruct a; intros H; cbn [step_effect] in H;
    try by (destruct H as (_ & E1 & _ & E2 & _); unfold count; rewrite E1 E2; unfold one; cbn; lia).
  - destruct H as [_ [(err & p & E1 & _ & E2)|(k & i & c & pre & _ & E1 & E2 & E3 & E4 & _)]];
      unfold count.
    + rewrite E1 E2. cbn [rl_pending_ rl_log set_rl_reqs]. rewrite reported_app length_app.
      unfold one. cbn. lia.
    + rewrite E1 E3. cbn [rl_pending_ rl_log set_rl_reqs] in *. rewrite map_size_insert E2 !reported_app E4 !length_app.
      unfold one. cbn. lia.
  - destruct H as (_ & _ & H). unfold count, one. cbn.
    destruct (rl_pending_ s !! serial) as [[q|]|] eqn:E.
    + destruct (resp_domain r); [|destruct H as (-> & _ & ->); lia].
      destruct H as (info & p & _ & -> & _ & ->). rewrite length_app map_size_delete E. cbn.
      assert (size (rl_pending_ s) ≠ 0%nat); [|lia]. intros Hz%map_size_empty_inv. by rewrite Hz lookup_empty in E.
    + destruct H as (-> & _ & ->). lia.
    + destruct H as (-> & _ & ->). lia.
Qed.

(** ** The way back *)

(** IRadio's response to a call. *)
Definition answers (c : RadioCall) (r : RadioResp) : bool :=
  match c, r with
  | C_setRadioPower _ _ _, RsetRadioPower | C_getImei, RgetImei _
  | C_getBasebandVersion, RgetBasebandVersion _ | C_requestShutdown, REmpty E_requestShutdown
  | C_getIccCardStatus, RgetIccCardStatus _ | C_getImsiForApp _, RgetImsiForApp _
  | C_iccIoForApp _, RiccIoForApp _ _ _ | C_enableUiccApplications _, REmpty E_enableUiccApplications
  | C_supplyIccPinForApp _ _, RsupplyIccPinForApp _ | C_supplyIccPukForApp _ _ _, RsupplyIccPukForApp _
  | C_supplyIccPin2ForApp _ _, RsupplyIccPin2ForApp _ | C_supplyIccPuk2ForApp _ _ _, RsupplyIccPuk2ForApp _
  | C_getFacilityLockForApp _ _ _ _, RgetFacilityLockForApp _
  | C_setFacilityLockForApp _ _ _ _ _, REmpty E_setFacilityLockForApp
  | C_getSignalStrength, RgetSignalStrength _ | C_getVoiceRegistrationState, RgetVoiceRegistrationState _
  | C_getDataRegistrationState, RgetDataRegistrationState _ | C_getOperator, RgetOperator _ _ _
  | C_getNetworkSelectionMode, RgetNetworkSelectionMode _
  | C_setNetworkSelectionModeAutomatic, REmpty E_setNetworkSelectionModeAutomatic
  | C_setNetworkSelectionModeManual _ _, REmpty E_setNetworkSelectionModeManual
  | C_getAllowedNetworkTypesBitmap, RgetAllowedNetworkTypesBitmap _
  | C_setAllowedNetworkTypesBitmap _, REmpty E_setAllowedNetworkTypesBitmap
  | C_setLocationUpdates _, REmpty E_setLocationUpdates
  | C_setIndicationFilter _, REmpty E_setIndicationFilter
  | C_setBarringPassword _ _ _, REmpty E_setBarringPassword
  | C_setSuppServiceNotifications _, REmpty E_setSuppServiceNotifications
  | C_sendSms _ _, RsendSms _ _ _ | C_sendSmsExpectMore _ _, RsendSmsExpectMore _ _ _
  | C_acknowledgeLastIncomingGsmSms _ _, REmpty E_acknowledgeLastIncomingGsmSms
  | C_getSmscAddress, RgetSmscAddress _ | C_setSmscAddress _, REmpty E_setSmscAddress
  | C_reportSmsMemoryStatus _, REmpty E_reportSmsMemoryStatus
  | C_writeSmsToSim _ _ _, REmpty E_writeSmsToSim | C_deleteSmsOnSim _, REmpty E_deleteSmsOnSim
  | C_setupDataCall _ _ _ _, RsetupDataCall _ | C_deactivateDataCall _ _, REmpty E_deactivateDataCall
  | C_getDataCallList, RgetDataCallList _ | C_setInitialAttachApn _, REmpty E_setInitialAttachApn
  | C_setDataProfile _, REmpty E_setDataProfile | C_setDataAllowed _, REmpty E_setDataAllowed
  | C_getCurrentCalls, RgetCurrentCalls _ | C_dial _ _, REmpty E_dial | C_acceptCall, REmpty E_acceptCall
  | C_rejectCall, REmpty E_rejectCall | C_hangup _, REmpty E_hangupConnection
  | C_switchWaitingOrHoldingAndActive, REmpty E_switchWaitingOrHoldingAndActive
  | C_conference, REmpty E_conference | C_separateConnection _, REmpty E_separateConnection
  | C_hangupWaitingOrBackground, REmpty E_hangupWaitingOrBackground
  | C_hangupForegroundResumeBackground, REmpty E_hangupForegroundResumeBackground
  | C_explicitCallTransfer, REmpty E_explicitCallTransfer | C_startDtmf _, REmpty E_startDtmf
  | C_sendDtmf _, REmpty E_sendDtmf | C_stopDtmf, REmpty E_stopDtmf | C_setMute _, REmpty E_setMute
  | C_getMute, RgetMute _ | C_getLastCallFailCause, RgetLastCallFailCause _ | C_getClip, RgetClip _
  | C_getClir, RgetClir _ _ | C_setClir _, REmpty E_setClir | C_getCallWaiting _, RgetCallWaiting _ _
  | C_setCallWaiting _ _, REmpty E_setCallWaiting | C_getCallForwardStatus _, RgetCallForwardStatus _
  | C_setCallForward _, REmpty E_setCallForward | C_sendUssd _, REmpty E_sendUssd
  | C_cancelPendingUssd, REmpty E_cancelPendingUssd => true
  | _, _ => false
  end.
Lemma answers_domain c r : answers c r = true → resp_domain r = Some (reply_domain c).
Proof. intros H. destruct c, r; try (match goal with e : Empty |- _ => destruct e end; try discriminate H; reflexivity); discriminate H || reflexivity. Qed.

(** [l] brings no response with this serial. *)
Definition silent (serial : Z) (l : list Act) : Prop :=
  ∀ slotId error r, AResponse slotId serial error r ∉ l.
(** A request stays where it is until the response with its serial. *)
Lemma step_keeps a s s' k r info :
  wf None s → polite a s = true → step_effect a s s' →
  (∀ slotId error p, a ≠ AResponse slotId k error p) →
  rl_pending_ s !! k = Some (Some r) → rl_reqs s !! r = Some info →
  rl_pending_ s' !! k = Some (Some r) ∧ rl_reqs s' !! r = Some info.
Proof.
  intros H Hp He Hne Hk Hr. destruct H as (_ & _ & _ & (_ & Hinj & _ & _) & _).
  destruct a as [r' info' op|slotId serial error p|slotId ack n|slotId| | |slotId];
    cbn [step_effect polite] in *; bool_props;
    try by (destruct He as (_ & -> & -> & _)).
  - apply bool_decide_eq_true in H. assert (r' ≠ r) by congruence.
    destruct He as [_ [(err & p & -> & -> & _)|(k' & i & c & pre & -> & -> & Hf & _)] ].
    + split; [done|]. cbn. by rewrite lookup_delete_ne // lookup_insert_ne.
    + cbn in *. split; [|by rewrite lookup_insert_ne]. rewrite lookup_insert_ne //. congruence.
  - destruct (decide (serial = k)) as [->|Hs]; [by edestruct Hne|]. destruct He as (_ & _ & He).
    destruct (rl_pending_ s !! serial) as [[q|]|] eqn:E; [|by destruct He as (-> & -> & _)..].
    destruct (resp_domain p); [|by destruct He as (-> & -> & _)].
    destruct He as (info' & p' & _ & -> & -> & _). rewrite !lookup_delete_ne //.
    intros ->. by apply Hs, (Hinj serial k r).
Qed.
Lemma run_keeps l s k r info :
  wf None s → orderly l s = true → silent k l →
  rl_pending_ s !! k = Some (Some r) → rl_reqs s !! r = Some info →
  ∃ s', ril_run l s = Some s' ∧ wf None s' ∧
    rl_pending_ s' !! k = Some (Some r) ∧ rl_reqs s' !! r = Some info.
Proof.
  intros H Hl. revert l s H Hl. apply (orderly_ind (λ l s, silent k l → _ → _ → _)).
  - intros s H _ Hk Hr. by exists s.
  - intros a l s s1 H Hp E He IH Hs Hk Hr.
    destruct (step_keeps a s s1 k r info) as [Hk1 Hr1]; [done..| |done|done|].
    { intros slotId error p ->. by eapply Hs, list_elem_of_here. }
    cbn. rewrite E. apply IH; [|done..]. intros slotId error p Hin. by eapply Hs, list_elem_of_further.
Qed.
Lemma run_wf l s : wf None s → orderly l s = true → ∃ s', ril_run l s = Some s' ∧ wf None s'.
Proof.
  intros H Hl. revert l s H Hl. apply (orderly_ind (λ l s, ∃ s', ril_run l s = Some s' ∧ wf None s')).
  - intros s H. by exists s.
  - intros a l s s' _ _ E _ IH. cbn. by rewrite E.
Qed.
(** States reached by a concrete run. *)
Definition reach (l : list Act) : Ril := default Ril_start (ril_run l Ril_start).
Lemma wf_reach l : orderly l Ril_start = true → wf None (reach l).
Proof. intros H. unfold reach. destruct (run_wf l Ril_start wf_start H) as (s & -> & Hs). done. Qed.

(** ** What most handlers leave alone

    A relation on states that does not look at the tables of requests and answers, and
    that every output but a radio state, a data call, an initial attach or a list of
    profiles keeps, is kept by all of the bridge but the handful of handlers that say one
    of these. *)

Definition data_call (c : RadioCall) : bool :=
  match c with
  | C_setupDataCall _ _ _ _ | C_setInitialAttachApn _ | C_setDataProfile _ => true
  | _ => false
  end.
Definition data_op (op : HrilOp) : bool :=
  match op with
  | SetInitApnInfo _ | ActivatePdpContext _ | ActivatePdpContextWithApnTypes _ | SetDataProfileInfo _ => true
  | _ => false
  end.
Definition plain (o : Out) : bool :=
  match o with
  | ONotify DModem _ HNOTI_MODEM_RADIO_STATE_UPDATED _ => false
  | OCall _ _ _ _ c => negb (data_call c)
  | _ => true
  end.
Definition same_view (s s' : Ril) : Prop :=
  rl_reportOps_ s' = rl_reportOps_ s ∧ rl_radioState s' = rl_radioState s ∧
  rl_profiles s' = rl_profiles s ∧ rl_dead s' = rl_dead s ∧ rl_log s' = rl_log s.
#[export] Instance same_view_preorder : PreOrder same_view.
Proof.
  split; [by intros ?; split_and!|]. intros s1 s2 s3 (? & ? & ? & ? & ?) (? & ? & ? & ? & ?).
  split_and!; by etrans.
Qed.

Section Keeping.
Context (R : Ril → Ril → Prop) `{!PreOrder R}.
Hypothesis R_same : ∀ s s', same_view s s' → R s s'.
Hypothesis R_plain : ∀ o s, plain o = true → R s (set_rl_log (rl_log s ++ [o]) s).

Lemma keeps_emit o : plain o = true → fkeeps R (emit o).
Proof using R_plain. intros Ho. apply fkeeps_mod. intros s. by apply R_plain. Qed.
Lemma keeps_notify d slot id p :
  (d, id) ≠ (DModem, HNOTI_MODEM_RADIO_STATE_UPDATED) → fkeeps R (notify d slot id p).
Proof using R_plain PreOrder0.
  intros Hne. unfold notify. apply fkeeps_bind; [apply _|apply fkeeps_get, _|]. intros [].
  - apply keeps_emit. cbn. by repeat case_match.
  - apply fkeeps_ret, _.
Qed.
Ltac keeps_tac :=
  repeat first
  [ fkeeps_step
  | apply fkeeps_mod; intros ?; apply R_same; by split_and!
  | apply keeps_emit; first [reflexivity | assumption]
  | apply keeps_notify; discriminate ].
Lemma keeps_aget {A} (l : list A) i : fkeeps R (aget l i).
Proof using PreOrder0. unfold aget. keeps_tac. Qed.
Lemma keeps_report d r e p : fkeeps R (report d r e p).
Proof using All. unfold report, deref. keeps_tac. Qed.
Lemma keeps_NextSerial : fkeeps R NextSerial.
Proof using R_same PreOrder0. unfold NextSerial. keeps_tac. Qed.
Lemma keeps_service i slot : fkeeps R (service i slot).
Proof using PreOrder0. unfold service. keeps_tac. Qed.
Lemma keeps_call i slot k c : data_call c = false → fkeeps R (call i slot k c).
Proof using All.
  intros Hc. unfold call. apply fkeeps_bind; [apply _|apply fkeeps_get, _|]. intros ?.
  apply keeps_emit. cbn. by rewrite Hc.
Qed.
Lemma keeps_Track r : fkeeps R (Track r).
Proof using R_same PreOrder0. pose proof keeps_NextSerial. unfold Track. keeps_tac. Qed.
Lemma keeps_TrackNotify slot id : fkeeps R (TrackNotify slot id).
Proof using R_same PreOrder0. pose proof keeps_NextSerial. unfold TrackNotify. keeps_tac. Qed.
Lemma keeps_TakePending k : fkeeps R (TakePending k).
Proof using R_same PreOrder0. unfold TakePending. keeps_tac. Qed.
Hint Resolve keeps_aget keeps_report keeps_NextSerial keeps_service keeps_call keeps_Track
  keeps_TrackNotify keeps_TakePending : fkeeps.
Lemma keeps_require i d r : fkeeps R (require i d r).
Proof using All. unfold require, deref. keeps_tac. Qed.
Hint Resolve keeps_require : fkeeps.
Lemma keeps_forward_opt i d r c : default false (data_call <$> c) = false → fkeeps R (forward_opt i d r c).
Proof using All. intros Hc. unfold forward_opt. destruct c; keeps_tac. Qed.
Lemma keeps_forward i d r c : data_call c = false → fkeeps R (forward i d r c).
Proof using All. intros Hc. unfold forward. keeps_tac. Qed.
Lemma keeps_borrow i r c : default false (data_call <$> c) = false → fkeeps R (Voice.borrow i r c).
Proof using All.
  intros Hc. unfold Voice.borrow, Voice.SlotOf, Voice.ReportCallFailure, deref. destruct c; keeps_tac.
Qed.
Lemma keeps_with_pending k f : (∀ r, fkeeps R (f r)) → fkeeps R (with_pending k f).
Proof using All. intros Hf. unfold with_pending. keeps_tac. Qed.
Lemma keeps_respond d k e p : fkeeps R (respond d k e p).
Proof using All. apply keeps_with_pending. intros r. keeps_tac. Qed.
Lemma keeps_AppAid slot : fkeeps R (AppAid slot).
Proof using All. unfold AppAid. keeps_tac. Qed.
Lemma keeps_Ack i slot ack : fkeeps R (Sms.AckIndication i slot ack).
Proof using All. unfold Sms.AckIndication. keeps_tac. Qed.
Hint Resolve keeps_forward_opt keeps_forward keeps_borrow keeps_respond keeps_AppAid keeps_Ack : fkeeps.
Hint Extern 1 (data_call _ = false) => repeat case_match; reflexivity : fkeeps.
Hint Extern 1 (default false _ = false) =>
  repeat (match goal with |- context [_ <$> Some _] => fail 1 | |- context [_ <$> ?x] => is_var x; destruct x end);
  cbn; repeat case_match; simplify_eq/=; done : fkeeps.

Lemma keeps_perform op r : data_op op = false → fkeeps R (perform op r).
Proof using All.
  destruct op; cbn [perform data_op]; try discriminate; intros _; try (solve [eauto with fkeeps]);
    unfold Modem.SetRadioState, Modem.GetRadioState, Modem.GetMeid, Modem.GetVoiceRadioTechnology,
      Sim.GetSimIO, Sim.GetSimImsi, Sms.SendGsmSms, Voice.SetClip, Voice.SlotOf, Voice.GetUssd, aset, deref;
    keeps_tac.
Qed.
Lemma keeps_response slotId serial error r :
  r ≠ RsetRadioPower → fkeeps R (handle_response slotId serial error r).
Proof using All.
  intros Hne. destruct r; cbn [handle_response]; try done; try (solve [eauto with fkeeps]);
    unfold Modem.getImeiResponse, Network.getSignalStrengthResponse, Voice.getClipResponse;
    try (apply keeps_with_pending; intros r); unfold Voice.SlotOf, Sim.getIccCardStatusResponse, Sim.RememberAppAid,
      Network.getVoiceRegistrationStateResponse, Network.getDataRegistrationStateResponse,
      Network.RememberDataAccessNetwork, Network.ReportReg, TakeNotify, Network.RegChanged, aset, deref; keeps_tac.
Qed.
Lemma keeps_indication slotId ack n :
  (∀ st, n ≠ NradioStateChanged st) → n ≠ NmodemReset → fkeeps R (handle_indication slotId ack n).
Proof using All.
  intros Hr Hm. destruct n; cbn [handle_indication]; try (by specialize (Hr state)); try done;
    unfold Sms.newSms, Sms.newSmsStatusReport, Sms.newSmsOnSim, Sms.simSmsStorageFull,
      Data.dataCallListChanged, Data.unthrottleApn, Voice.callStateChanged, Voice.indicateRingbackTone,
      Voice.callRing, Voice.resendIncallMute, Voice.onUssd, Voice.onSupplementaryServiceIndication,
      Sim.simStatusChanged, Sim.simRefresh, Network.nitzTimeReceived, Network.networkStateChanged,
      Network.currentSignalStrength, Voice.currentEmergencyNumberList; keeps_tac.
Qed.
End Keeping.
