(* ===== verification/RilProps.v ===== *)
(** * The radio bridge: theorems

    Requests are reported exactly once and in the right domain; a dead rild strands them;
    what the framework was told about the radio; profiles, encodings and the connect
    thread. *)

From stdpp Require Import finite.
From S2P Require Import Prelude FaultMonad RilBridge RilDomains RilFacts.
Set Warnings "-rewrite-rw,-clear-no-such-hyp".
#[global] Open Scope Z_scope.
#[global] Open Scope fault_scope.

(** C4: Every request is answered exactly once.  Whatever hril, the services and the
    connect thread do, in whatever order, the bridge does not fault: it never reads a
    request hril has taken back, never reports one twice, never leaves an array.  And
    every request handed in has been reported or waits under exactly one serial: the
    reports made and the requests pending add up to the requests handed in. *)
Theorem requests_exactly_once (l : list Act) :
  orderly l Ril_start = true →
  ∃ s, ril_run l Ril_start = Some s ∧
    (length (reported (rl_log s)) + size (rl_pending_ s) = requests l)%nat ∧
    (∀ r, is_Some (rl_reqs s !! r) ↔ ∃ serial, rl_pending_ s !! serial = Some (Some r)) ∧
    (∀ j k r, rl_pending_ s !! j = Some (Some r) → rl_pending_ s !! k = Some (Some r) → j = k).
Proof.
  intros Hl.
  enough (∃ s, ril_run l Ril_start = Some s ∧ wf None s ∧ count s = (count Ril_start + requests l)%nat)
    as (s & Hr & Hw & Hc).
  { exists s. split; [done|]. split; [exact Hc|]. destruct Hw as (_ & _ & _ & (_ & Hi & _ & Hr') & _).
    split; [|done]. intros r. rewrite Hr'. split; [by intros [?|?]|by right]. }
  revert Hl. generalize Ril_start wf_start. intros s H Hl. revert l s H Hl.
  apply (orderly_ind (λ l s, ∃ s', ril_run l s = Some s' ∧ wf None s' ∧ count s' = (count s + requests l)%nat)).
  - intros s H. exists s. split_and!; [done|done|cbn; lia].
  - intros a l s s1 H Hp E He (s' & Hr & Hw & Hc). exists s'. cbn. rewrite E. split_and!; [done|done|].
    rewrite Hc (step_count _ _ _ He). destruct a; cbn; lia.
Qed.
Lemma requests_exactly_once_witness :
  let l := [ABind 0; ARequest 100 (mkReq 0 (HREQ_other 1)) GetImei;
            ARequest 101 (mkReq 1 (HREQ_other 2)) GetSimStatus; AAnnounce;
            ARequest 101 (mkReq 0 (HREQ_other 3)) GetSimStatus; AResponse 0 1 0 (RgetImei None)] in
  orderly l Ril_start = true ∧
  ∃ s, ril_run l Ril_start = Some s ∧
    (length (reported (rl_log s)) + size (rl_pending_ s) = 3)%nat ∧
    (∀ r, is_Some (rl_reqs s !! r) ↔ ∃ serial, rl_pending_ s !! serial = Some (Some r)) ∧
    (∀ j k r, rl_pending_ s !! j = Some (Some r) → rl_pending_ s !! k = Some (Some r) → j = k).
Proof.
  set (l := [_; _; _; _; _; _]). cbv zeta. assert (orderly l Ril_start = true) as H by (vm_compute; reflexivity).
  split; [exact H|]. exact (requests_exactly_once l H).
Defined.


(** C7: The answer finds its way back.  An operation on a request either reports it at once
    or makes one call under a new serial; and then, whatever happens before the service's
    response to that call arrives (other requests, answers, indications, a reconnection),
    that response reports that request, once, with the response's error, to the slot and
    in the domain the operation belongs to, also when the call went through another
    domain's service. *)
Theorem request_answered (s : Ril) (r : Z) (info : ReqDataInfo) (op : HrilOp) :
  wf None s → polite (ARequest r info op) s = true →
  ∃ s', act (ARequest r info op) s = Some (tt, s') ∧
    ((∃ err p, reported (rl_log s') = reported (rl_log s) ++ [(op_domain op, rq_slotId info, r, err, p)])
     ∨ ∃ serial b i slot c, last (rl_log s') = Some (OCall b i slot serial c) ∧
         reported (rl_log s') = reported (rl_log s) ∧
         ∀ l resp slotId error, orderly l s' = true → silent serial l →
           answers c resp = true → resp_ok resp = true →
           ∃ t t' p, ril_run l s' = Some t ∧ act (AResponse slotId serial error resp) t = Some (tt, t') ∧
             reported (rl_log t') = reported (rl_log t)
               ++ [(op_domain op, rq_slotId info, r, ToHrilError error, p)]).
Proof.
  intros H Hp. destruct (safe_run _ _ _ (act_spec _ _ H Hp)) as ([] & s' & E & Hw & He). exists s'. split; [done|].
  destruct He as [(err & p & _ & _ & El)|(k & i & c & pre & Er & Ep & Hf & El & Hpre & Hd)].
  { left. exists err, p. by rewrite El reported_app. }
  right. eexists k, _, i, _, c. split; [by rewrite El app_assoc last_snoc|].
  split; [by rewrite El !reported_app Hpre app_nil_r|]. intros l resp slotId error Hl Hs Ha Hok.
  destruct (run_keeps l s' k r info Hw Hl Hs) as (t & Ht & Hwt & Hpt & Hrt).
  { by rewrite Ep lookup_insert_eq. }
  { rewrite Er. cbn. by rewrite lookup_insert_eq. }
  destruct (safe_run _ _ _ (act_spec (AResponse slotId k error resp) t Hwt Hok)) as ([] & t' & Et & _ & _ & Hm).
  exists t, t'. rewrite Hpt (answers_domain c resp Ha) in Hm. destruct Hm as (info' & p & Hi & _ & _ & Hm).
  exists p. rewrite Hrt in Hi. injection Hi as <-. rewrite -Hd. by split_and!.
Qed.
Lemma request_answered_witness :
  ∃ s', act (ARequest 100 (mkReq 0 (HREQ_other 1)) (GetCallRestriction (Some "AO"))) (reach [ABind 0]) = Some (tt, s') ∧
    ((∃ err p, reported (rl_log s') = reported (rl_log (reach [ABind 0])) ++ [(DCall, 0, 100, err, p)])
     ∨ ∃ serial b i slot c, last (rl_log s') = Some (OCall b i slot serial c) ∧
         reported (rl_log s') = reported (rl_log (reach [ABind 0])) ∧
         ∀ l resp slotId error, orderly l s' = true → silent serial l →
           answers c resp = true → resp_ok resp = true →
           ∃ t t' p, ril_run l s' = Some t ∧ act (AResponse slotId serial error resp) t = Some (tt, t') ∧
             reported (rl_log t') = reported (rl_log t) ++ [(DCall, 0, 100, ToHrilError error, p)]).
Proof.
  apply (request_answered (reach [ABind 0]) 100 (mkReq 0 (HREQ_other 1)) (GetCallRestriction (Some "AO"))).
  - apply wf_reach. vm_compute. reflexivity.
  - vm_compute. reflexivity.
Defined.


(** ** What the framework was told about the radio *)

(** The radio states notified for a slot, oldest first. *)
Definition radio_noti (slot : Z) (o : Out) : option HRilRadioState :=
  match o with
  | ONotify DModem sl HNOTI_MODEM_RADIO_STATE_UPDATED (PPower st) => if sl =? slot then Some st else None
  | _ => None
  end.
Definition last_told (slot : Z) (l : list Out) : HRilRadioState :=
  default HRIL_RADIO_POWER_STATE_OFF (last (omap (radio_noti slot) l)).
Lemma last_told_snoc slot l o :
  last_told slot (l ++ [o]) = default (last_told slot l) (radio_noti slot o).
Proof.
  unfold last_told. rewrite omap_app. cbn. destruct (radio_noti slot o); cbn.
  - by rewrite last_snoc.
  - by rewrite app_nil_r.
Qed.

(** Steps that neither store a radio state nor tell one. *)
Definition radio_still (s s' : Ril) : Prop :=
  rl_reportOps_ s' = rl_reportOps_ s ∧ rl_radioState s' = rl_radioState s ∧
  ∃ l, rl_log s' = rl_log s ++ l ∧ ∀ slot, omap (radio_noti slot) l = [].
#[export] Instance radio_still_preorder : PreOrder radio_still.
Proof.
  split.
  - intros s. split_and!; [done|done|]. exists []. by rewrite app_nil_r.
  - intros s1 s2 s3 (E1 & E2 & l & E3 & Hl) (F1 & F2 & k & F3 & Hk). split_and!; [congruence|congruence|].
    exists (l ++ k). rewrite F3 E3 app_assoc. split; [done|]. intros slot. by rewrite omap_app Hl Hk.
Qed.
Lemma still_view s s' :
  rl_reportOps_ s' = rl_reportOps_ s → rl_radioState s' = rl_radioState s → rl_log s' = rl_log s → radio_still s s'.
Proof. intros ? ? E. split_and!; [done|done|]. exists []. by rewrite app_nil_r. Qed.
Lemma still_same s s' : same_view s s' → radio_still s s'.
Proof. intros (? & ? & _ & _ & ?). by apply still_view. Qed.
Lemma still_say o s : (∀ slot, radio_noti slot o = None) → radio_still s (set_rl_log (rl_log s ++ [o]) s).
Proof. intros Ho. split_and!; [done|done|]. exists [o]. split; [done|]. intros slot. cbn. by rewrite Ho. Qed.
Lemma still_emit o : (∀ slot, radio_noti slot o = None) → fkeeps radio_still (emit o).
Proof. intros Ho. apply fkeeps_mod. intros s. by apply still_say. Qed.
Lemma still_plain o s : plain o = true → radio_still s (set_rl_log (rl_log s ++ [o]) s).
Proof. intros Ho. apply still_say. intros slot. revert Ho. unfold plain, radio_noti. by repeat case_match. Qed.
#[export] Hint Resolve keeps_aget keeps_report keeps_NextSerial keeps_require keeps_Track keeps_TakePending
  keeps_AppAid radio_still_preorder still_same still_plain : fkeeps.
Ltac still_mod := apply fkeeps_mod; intros ?; apply still_view; reflexivity.
Ltac still_tac := repeat first [fkeeps_step | still_mod | apply still_emit; intros ?; reflexivity].
Lemma still_call i slot k c : fkeeps radio_still (call i slot k c).
Proof. unfold call. still_tac. Qed.
Lemma still_RegisterProfile slot p : fkeeps radio_still (Data.RegisterProfile slot p).
Proof. unfold Data.RegisterProfile, aset, call. still_tac. Qed.
#[local] Hint Resolve still_call still_RegisterProfile : fkeeps.
Lemma still_perform op r : fkeeps radio_still (perform op r).
Proof.
  destruct (data_op op) eqn:E; [|by apply keeps_perform; auto with fkeeps].
  destruct op; try discriminate E; cbn [perform];
    unfold Data.SetInitApnInfo, Data.ActivatePdpContext, Data.ActivatePdpContextWithApnTypes, Data.ActivateInternal,
      Data.AccessNetworkFor, Network.LastDataAccessNetwork, Data.SetDataProfileInfo, Data.AdoptProfiles, aset;
    still_tac.
Qed.

(** The actions that store or tell a radio state. *)
Definition radio_act (a : Act) : bool :=
  match a with
  | AResponse _ _ _ RsetRadioPower | AIndication _ _ (NradioStateChanged _) | AIndication _ _ NmodemReset
  | AAnnounce | ANudge => true
  | _ => false
  end.
Lemma still_act a : radio_act a = false → fkeeps radio_still (act a).
Proof.
  intros Ha. destruct a as [r info op|slotId serial error r|slotId ack n|slotId| | |slotId]; cbn [act].
  - apply fkeeps_bind; [apply _|still_mod|intros _; apply still_perform].
  - apply keeps_response; auto with fkeeps. intros ->. discriminate Ha.
  - apply keeps_indication; auto with fkeeps.
    + intros st ->. discriminate Ha.
    + intros ->. discriminate Ha.
  - unfold bind_slot. still_mod.
  - discriminate Ha.
  - discriminate Ha.
  - still_mod.
Qed.

(** Storing a state. *)
Lemma insert_radio l slot sl (st : HRilRadioState) :
  length l = 2%nat → in_slots slot = true → in_slots sl = true →
  <[Z.to_nat slot := st]> l !! Z.to_nat sl = if slot =? sl then Some st else l !! Z.to_nat sl.
Proof.
  intros Hl Hs Hsl. destruct (slot =? sl) eqn:E; bool_props.
  - subst. destruct (lt_slots l sl Hl Hs) as [a Ha]. apply list_lookup_insert_eq. by eapply lookup_lt_Some.
  - apply list_lookup_insert_ne. unfold in_slots in *. bool_props. lia.
Qed.
Lemma runs_store slot st s a s' :
  length (rl_radioState s) = 2%nat → Modem.store_state slot st s = Some (a, s') →
  in_slots slot = true ∧ s' = set_rl_radioState (<[Z.to_nat slot := st]> (rl_radioState s)) s.
Proof.
  intros Hl. unfold Modem.store_state, aset, aget, fbind, fget, fsome, fmod, fault.
  destruct (slot <? 0) eqn:E; [done|]. destruct (_ !! _) eqn:El; [|done]. intros [= _ <-]. split; [|done].
  apply lookup_lt_Some in El. unfold in_slots, MAX_SLOTS. bool_props. apply andb_true_iff. lia.
Qed.

(** ** The start-up announcement *)

Lemma require_up i d r info s :
  rl_reqs s !! r = Some info → in_slots (rq_slotId info) = true → (i, rq_slotId info) ∈ rl_services s →
  require i d (Some r) s = Some (Some (rq_slotId info), s).
Proof.
  intros Hr Hin Hb. unfold in_slots in Hin. bool_props. unfold require, deref, fbind, fget, fsome. rewrite Hr.
  unfold service. replace ((rq_slotId info <? 0) || (MAX_SLOTS <=? rq_slotId info)) with false
    by (symmetry; apply orb_false_iff; lia).
  unfold fbind, fget, fret. by rewrite bool_decide_eq_true_2.
Qed.
Lemma Track_eq r s :
  0 <= rl_nextSerial_ s < 2 ^ 31 - 1 →
  Track r s = Some (rl_nextSerial_ s,
    set_rl_pending_ (<[rl_nextSerial_ s := r]> (rl_pending_ s)) (set_rl_nextSerial_ (rl_nextSerial_ s + 1) s)).
Proof.
  intros Hn. unfold Track, NextSerial, fbind, fget, fmod, fret. destruct (_ =? _) eqn:E; bool_props; [lia|].
  cbn. destruct (_ <? 0) eqn:E'; bool_props; [lia|done].
Qed.
Definition announcement (slot : Z) : list Out :=
  [ONotify DModem slot HNOTI_MODEM_RADIO_STATE_UPDATED (PPower HRIL_RADIO_POWER_STATE_OFF);
   ONotify DSim slot HNOTI_SIM_STATUS_CHANGED PNull].
Lemma announce_eq s :
  rl_reportOps_ s = true →
  announce s = Some (tt, set_rl_log (rl_log s ++ announcement 0 ++ announcement 1) (set_rl_connected_ true s)).
Proof.
  intros H. unfold announce. cbn [ffor]. unfold notify, emit, fbind, fget, fmod, fret. cbn.
  repeat (rewrite H; cbn). by rewrite -!app_assoc.
Qed.
Lemma SetRadioState_eq r info f s :
  rl_reqs s !! r = Some info → in_slots (rq_slotId info) = true →
  (IModem, rq_slotId info) ∈ rl_services s → 0 <= rl_nextSerial_ s < 2 ^ 31 - 1 →
  let on := bool_decide (f ≠ HRIL_RADIO_POWER_STATE_OFF) in
  let k := rl_nextSerial_ s in
  ∃ b, Modem.SetRadioState (Some r) f s = Some (tt,
    set_rl_log (rl_log s ++ [OCall b IModem (rq_slotId info) k (C_setRadioPower on false false)])
      (set_rl_powerRequests (<[k := on]> (rl_powerRequests s))
        (set_rl_pending_ (<[k := Some r]> (rl_pending_ s)) (set_rl_nextSerial_ (k + 1) s)))).
Proof.
  intros Hr Hin Hb Hn on k. eexists. unfold Modem.SetRadioState, fbind at 1.
  rewrite (require_up IModem DModem r info s Hr Hin Hb). cbn [fopt]. unfold fbind at 1. rewrite (Track_eq _ s Hn).
  reflexivity.
Qed.
(** A successful setRadioPower that finds the state it asked for. *)
Lemma setRadioPower_same k r info (on : bool) s :
  rl_reportOps_ s = true → rl_powerRequests s !! k = Some on → rl_pending_ s !! k = Some (Some r) →
  rl_reqs s !! r = Some info → in_slots (rq_slotId info) = true →
  rl_radioState s !! Z.to_nat (rq_slotId info) =
    Some (if on then HRIL_RADIO_POWER_STATE_ON else HRIL_RADIO_POWER_STATE_OFF) →
  ∃ s', Modem.setRadioPowerResponse k RadioError.NONE s = Some (tt, s') ∧
    rl_log s' = rl_log s ++ [OReport DModem (rq_slotId info) r HRIL_ERR_SUCCESS PNull] ∧
    rl_radioState s' = rl_radioState s ∧ rl_reportOps_ s' = true.
Proof.
  intros Ho Hw Hp Hr Hin Hst.
  enough (safe (Modem.setRadioPowerResponse k RadioError.NONE)
    (λ _ s', rl_log s' = rl_log s ++ [OReport DModem (rq_slotId info) r HRIL_ERR_SUCCESS PNull] ∧
             rl_radioState s' = rl_radioState s ∧ rl_reportOps_ s' = true) s) as H.
  { destruct (safe_run _ _ _ H) as ([] & s' & ? & ?). by exists s'. }
  assert (slot_or_0 (rq_slotId info) = rq_slotId info) as Es by (unfold slot_or_0; by rewrite Hin).
  assert (0 <= rq_slotId info) as Hpos by (unfold in_slots in Hin; bool_props; lia).
  unfold Modem.setRadioPowerResponse, TakePending. safe_steps. cbn [rl_pending_ set_rl_powerRequests].
  rewrite Hp. safe_steps. eapply safe_deref; [exact Hr|]. safe_steps. rewrite Hw Es. cbn [Z.eqb RadioError.NONE].
  assert (∀ Q t, rl_radioState t = rl_radioState s →
    Q (if on then HRIL_RADIO_POWER_STATE_ON else HRIL_RADIO_POWER_STATE_OFF) t →
    safe (aget (rl_radioState t) (rq_slotId info)) Q t) as Hget.
  { intros Q t E HQ. unfold aget. destruct (_ <? 0) eqn:E'; bool_props; [lia|]. rewrite E Hst. done. }
  safe_steps. apply Hget; [done|]. unfold Modem.store_state, aset. safe_steps. apply Hget; [done|]. safe_steps.
  rewrite bool_decide_eq_false_2; [|by intros []]. cbn [fopt]. safe_steps. unfold report. safe_steps.
  cbn [rl_reportOps_ set_rl_radioState set_rl_pending_ set_rl_powerRequests]. rewrite Ho. safe_steps.
  eapply safe_deref; [exact Hr|]. unfold emit. safe_steps. split; [done|]. cbn. by rewrite list_insert_id.
Qed.

(** The framework was told off last while the cached state is on, and it stays so:
    news of a slot's radio are the indications of its state and the responses to
    setRadioPower, which may name any slot. *)
Definition news (slot : Z) (a : Act) : bool :=
  match a with
  | AResponse _ _ _ RsetRadioPower => true
  | AIndication sl _ (NradioStateChanged _) | AIndication sl _ NmodemReset => sl =? slot
  | _ => false
  end.
Definition stuck_off (slot : Z) (s : Ril) : Prop :=
  in_slots slot = true ∧ rl_reportOps_ s = true ∧ length (rl_radioState s) = 2%nat ∧
  rl_radioState s !! Z.to_nat slot = Some HRIL_RADIO_POWER_STATE_ON ∧
  last_told slot (rl_log s) = HRIL_RADIO_POWER_STATE_OFF.
Definition sticks (slot : Z) (s s' : Ril) : Prop := stuck_off slot s → stuck_off slot s'.
#[export] Instance sticks_preorder slot : PreOrder (sticks slot).
Proof. split; [intros s H; exact H|]. intros s1 s2 s3 H1 H2 H. by apply H2, H1. Qed.
Lemma sticks_still slot s s' : radio_still s s' → sticks slot s s'.
Proof.
  intros (E1 & E2 & l & E3 & Hl) (H1 & H2 & H3 & H4 & H5). unfold stuck_off. rewrite E1 E2 E3.
  split_and!; try done. unfold last_told in *. by rewrite omap_app Hl app_nil_r.
Qed.
Lemma sticks_keeps {A} slot (m : M A) : fkeeps radio_still m → fkeeps (sticks slot) m.
Proof. intros H s a s' E. apply sticks_still. by eapply H. Qed.
Lemma sticks_tell slot sl st :
  sl ≠ slot ∨ st = HRIL_RADIO_POWER_STATE_OFF → fkeeps (sticks slot) (Modem.notify_state sl st).
Proof.
  intros Hst s a s' E (H1 & H2 & H3 & H4 & H5). revert E. unfold Modem.notify_state, notify, fbind, fget, emit, fmod.
  rewrite H2. intros [= _ <-]. unfold stuck_off. cbn. rewrite last_told_snoc. cbn. split_and!; try done.
  destruct (Z.eqb_spec sl slot); [|done]. by destruct Hst.
Qed.
Lemma sticks_store slot sl st : sl ≠ slot → fkeeps (sticks slot) (Modem.store_state sl st).
Proof.
  intros Hne s a s' E (H1 & H2 & H3 & H4 & H5). apply runs_store in E as [Hs ->]; [|done].
  unfold stuck_off. cbn. rewrite length_insert insert_radio // . destruct (Z.eqb_spec sl slot); done.
Qed.
Lemma sticks_nudge slot sl :
  fkeeps (sticks slot)
    (let! app := SlotHasSimApp sl in
     if negb app then fret tt
     else
       let! state := CachedRadioState sl in
       if negb (bool_decide (state = HRIL_RADIO_POWER_STATE_OFF)) then fret tt
       else notify DModem sl HNOTI_MODEM_RADIO_STATE_UPDATED (PPower HRIL_RADIO_POWER_STATE_OFF)).
Proof.
  apply fkeeps_bind; [apply _|apply sticks_keeps; unfold SlotHasSimApp; still_tac|]. intros app.
  destruct (negb app); [apply fkeeps_ret, _|].
  apply fkeeps_bind; [apply _|apply sticks_keeps; unfold CachedRadioState; still_tac|]. intros state.
  destruct (negb _); [apply fkeeps_ret, _|]. apply sticks_tell. by right.
Qed.
Lemma sticks_act slot a : news slot a = false → fkeeps (sticks slot) (act a).
Proof.
  intros Hn. destruct (radio_act a) eqn:Hr; [|by apply sticks_keeps, still_act].
  destruct a as [r info op|slotId serial error r|slotId ack n|slotId| | |slotId]; cbn [act];
    try discriminate Hr.
  - destruct r; try discriminate Hr. discriminate Hn.
  - assert (slotId ≠ slot) as Hne by (destruct n; try discriminate Hr; cbn in Hn; bool_props; done).
    destruct n; try discriminate Hr; (apply fkeeps_bind; [apply _|by apply sticks_store|]); intros _;
      apply sticks_tell; by left.
  - unfold announce. apply fkeeps_bind; [apply _|apply sticks_keeps; still_mod|]. intros _. cbn [ffor].
    repeat (apply fkeeps_bind; [apply _| |intros _]); try apply fkeeps_ret, _;
      (apply (sticks_tell slot _ HRIL_RADIO_POWER_STATE_OFF); by right) ||
      (apply sticks_keeps; unfold notify; still_tac).
  - unfold nudge_round. cbn [ffor]. repeat (apply fkeeps_bind; [apply _|apply sticks_nudge|intros _]).
    apply fkeeps_ret, _.
Qed.
Lemma sticks_run slot l s s' :
  forallb (λ a, negb (news slot a)) l = true → stuck_off slot s → ril_run l s = Some s' → stuck_off slot s'.
Proof.
  revert s. induction l as [|a l IH]; cbn [ril_run forallb]; [by intros s _ ? [= <-]|]. intros s Hl H.
  apply andb_true_iff in Hl as [Ha Hl]. destruct (act a s) as [[u s1]|] eqn:E; [|done].
  apply IH; [done|]. eapply (sticks_act slot a); [by destruct (news slot a)|exact E|done].
Qed.

(** C39: Off sticks.  The connect thread announces every radio as off when it is done,
    though an indication may already have reported one on while it still waited for the
    second slot.  The framework then asks for on, the modem agrees, the request succeeds,
    and because the cached state was on all along nothing is notified: the last the
    framework was told is off, while GetRadioState says on.  And it stays so through
    every further request, answer, indication, announcement and nudge, until the modem
    itself indicates a state of that radio or is reset, or another setRadioPower is
    answered: no nudge repeats anything, since the cached state is not off. *)
Theorem startup_off_sticks (s : Ril) (r : Z) (info : ReqDataInfo) :
  wf None s → polite (ARequest r info (SetRadioState HRIL_RADIO_POWER_STATE_ON)) s = true →
  (IModem, rq_slotId info) ∈ rl_services s →
  rl_radioState s !! Z.to_nat (rq_slotId info) = Some HRIL_RADIO_POWER_STATE_ON →
  ∃ s', ril_run [AAnnounce; ARequest r info (SetRadioState HRIL_RADIO_POWER_STATE_ON);
                 AResponse (rq_slotId info) (rl_nextSerial_ s) RadioError.NONE RsetRadioPower] s = Some s' ∧
    reported (rl_log s') = reported (rl_log s) ++ [(DModem, rq_slotId info, r, HRIL_ERR_SUCCESS, PNull)] ∧
    ∀ l t, forallb (λ a, negb (news (rq_slotId info) a)) l = true → ril_run l s' = Some t →
      last_told (rq_slotId info) (rl_log t) = HRIL_RADIO_POWER_STATE_OFF ∧
      rl_radioState t !! Z.to_nat (rq_slotId info) = Some HRIL_RADIO_POWER_STATE_ON.
Proof.
  intros (Ho & Ha & (Hn & _) & _ & Hb) Hp Hsv Hst. cbn [polite] in Hp. bool_props.
  assert (in_slots (rq_slotId info) = true) as Hin by by eapply Hb.
  cbn [ril_run act]. rewrite (announce_eq s Ho).
  set (s1 := set_rl_log _ _). unfold fbind at 1, fmod at 1. set (s2 := set_rl_reqs _ s1). cbn [perform].
  destruct (SetRadioState_eq r info HRIL_RADIO_POWER_STATE_ON s2) as [b ->]; [by rewrite /= lookup_insert_eq|done|done|cbn; lia|].
  set (s3 := set_rl_log _ _).
  destruct (setRadioPower_same (rl_nextSerial_ s) r info true s3) as (s4 & E & El & Er & Eo); [done|by rewrite /= lookup_insert_eq..|done|done|].
  cbn [handle_response]. rewrite E. exists s4. split; [done|]. split.
  { rewrite El. cbn [s3 s2 s1 rl_log set_rl_log set_rl_reqs]. rewrite !reported_app. cbn. by rewrite !app_nil_r. }
  intros l t Hl Ht. destruct (sticks_run (rq_slotId info) l s4 t Hl) as (_ & _ & _ & H4 & H5); [|exact Ht|done].
  split_and!; [done|done|rewrite Er; apply Ha|by rewrite Er|].
  rewrite El. cbn [s3 s2 s1 rl_log set_rl_log set_rl_reqs]. rewrite !last_told_snoc. cbn [radio_noti].
  unfold in_slots, MAX_SLOTS in Hin. bool_props. unfold last_told. rewrite !omap_app.
  assert (rq_slotId info = 0 ∨ rq_slotId info = 1) as [-> | ->] by lia; cbn; rewrite ?app_nil_r last_snoc; done.
Qed.
Lemma startup_off_sticks_witness :
  let s := reach [ABind 0; AIndication 0 false (NradioStateChanged RadioState_ON)] in
  let info := mkReq 0 (HREQ_other 1) in
  ∃ s', ril_run [AAnnounce; ARequest 100 info (SetRadioState HRIL_RADIO_POWER_STATE_ON);
                 AResponse 0 (rl_nextSerial_ s) RadioError.NONE RsetRadioPower] s = Some s' ∧
    reported (rl_log s') = reported (rl_log s) ++ [(DModem, 0, 100, HRIL_ERR_SUCCESS, PNull)] ∧
    ∀ l t, forallb (λ a, negb (news 0 a)) l = true → ril_run l s' = Some t →
      last_told 0 (rl_log t) = HRIL_RADIO_POWER_STATE_OFF ∧
      rl_radioState t !! 0%nat = Some HRIL_RADIO_POWER_STATE_ON.
Proof.
  intros s info. apply (startup_off_sticks s 100 info).
  - apply wf_reach. vm_compute. reflexivity.
  - vm_compute. reflexivity.
  - apply (bool_decide_unpack _). vm_compute. exact I.
  - vm_compute. reflexivity.
Defined.
