(* ===== verification/RilRadio.v ===== *)
(** * The radio state and the threads that tell it

    [g_radioState] is an array of atomics, and nothing orders a store into it and the
    [NotifyModem] that follows: a radio-state indication, a modem reset and the response
    to setRadioPower run on binder threads, and the connect thread announces and nudges
    meanwhile.  Here each of these handlers is the sequence of its atomic steps, and a
    machine interleaves any number of them with one another and with the other actions
    of the bridge.  Run alone, a handler's steps are the handler of RilDomains.v or
    RilBridge.v ([alone_is_handler]). *)

From S2P Require Import Prelude FaultMonad RilBridge RilDomains RilFacts RilProps.
Set Warnings "-rewrite-rw,-clear-no-such-hyp".
#[global] Open Scope Z_scope.
#[global] Open Scope fault_scope.

(** ** The steps of the handlers *)

Inductive Micro :=
| MStore (slot : Z) (state : HRilRadioState)      (* g_radioState[slot].store(state) *)
| MExchange (slot : Z) (state : HRilRadioState)   (* g_radioState[slot].exchange(state) *)
| MNotify (slot : Z) (state : HRilRadioState)     (* NotifyModem *)
| MNotifySim (slot : Z)                           (* NotifySim *)
| MConnected                                      (* connected_ = true, under lock_ *)
| MNudge (slot : Z)                               (* SlotHasSimApp(slot) *)
| MNudgeLoad (slot : Z)                           (* CachedRadioState(slot) *)
| MTakePower (serial error : Z)                   (* the section of g_powerLock *)
| MTakePending (serial error : Z) (power : option bool)
| MReport (req : Z) (error : Z).                  (* ReportModem *)

(** One step, and what its thread does next because of it. *)
Definition micro (m : Micro) : M (list Micro) :=
  match m with
  | MStore slot state => do! Modem.store_state slot state in fret [MNotify slot state]
  | MExchange slot state =>
      let! l := fget rl_radioState in
      let! old := aget l slot in
      do! Modem.store_state slot state in
      fret (if bool_decide (old ≠ state) then [MNotify slot state] else [])
  | MNotify slot state => do! Modem.notify_state slot state in fret []
  | MNotifySim slot => do! notify DSim slot HNOTI_SIM_STATUS_CHANGED PNull in fret []
  | MConnected => do! fmod (set_rl_connected_ true) in fret []
  | MNudge slot =>
      let! app := SlotHasSimApp slot in fret (if app : bool then [MNudgeLoad slot] else [])
  | MNudgeLoad slot =>
      let! state := CachedRadioState slot in
      fret (if bool_decide (state = HRIL_RADIO_POWER_STATE_OFF)
            then [MNotify slot HRIL_RADIO_POWER_STATE_OFF] else [])
  | MTakePower serial error =>
      let! power := fget rl_powerRequests in
      do! fmod (set_rl_powerRequests (delete serial power)) in
      fret [MTakePending serial error (power !! serial)]
  | MTakePending serial error power =>
      let! req := TakePending serial in
      let! slot := match req with
                   | Some r => let! info := deref r in fret (slot_or_0 (rq_slotId info))
                   | None => fret 0
                   end in
      fret (match power with
            | Some requestedOn =>
                if error =? RadioError.NONE
                then [MExchange slot (if requestedOn : bool then HRIL_RADIO_POWER_STATE_ON
                                      else HRIL_RADIO_POWER_STATE_OFF)]
                else []
            | None => []
            end ++ match req with Some r => [MReport r error] | None => [] end)
  | MReport r error => do! report DModem (Some r) (ToHrilError error) PNull in fret []
  end.

(** The handlers that touch the radio state. *)
Definition program (a : Act) : option (list Micro) :=
  match a with
  | AResponse _ serial error RsetRadioPower => Some [MTakePower serial error]
  | AIndication slot _ (NradioStateChanged state) => Some [MStore slot (Modem.ToHrilRadioState state)]
  | AIndication slot _ NmodemReset => Some [MStore slot HRIL_RADIO_POWER_STATE_UNAVAILABLE]
  | AAnnounce => Some [MConnected; MNotify 0 HRIL_RADIO_POWER_STATE_OFF; MNotifySim 0;
                       MNotify 1 HRIL_RADIO_POWER_STATE_OFF; MNotifySim 1]
  | ANudge => Some [MNudge 0; MNudge 1]
  | _ => None
  end.

(** A thread that nobody disturbs; twelve steps are more than any handler takes. *)
Fixpoint alone (fuel : nat) (ms : list Micro) : M unit :=
  match ms, fuel with
  | [], _ => fret tt
  | m :: ms, S fuel => let! next := micro m in alone fuel (next ++ ms)
  | _ :: _, O => fault
  end.

(** ** The machine *)

Record Radio := mkRadio { rd_ril : Ril; rd_threads : list (list Micro) }.
Definition Radio_start : Radio := mkRadio Ril_start [].
Inductive RStep :=
| RAct (a : Act)      (* a handler that does not touch the radio state *)
| RStart (a : Act)    (* a handler that does is called, on a thread of its own *)
| RRun (i : nat).     (* the next step of a thread *)

(** [None] when the step cannot be taken. *)
Definition radio_step (x : RStep) (m : Radio) : option Radio :=
  match x with
  | RAct a =>
      match program a with
      | Some _ => None
      | None => match act a (rd_ril m) with
                | Some (_, s) => Some (mkRadio s (rd_threads m))
                | None => None
                end
      end
  | RStart a =>
      match program a with
      | Some ms => Some (mkRadio (rd_ril m) (rd_threads m ++ [ms]))
      | None => None
      end
  | RRun i =>
      match rd_threads m !! i with
      | Some (step :: ms) =>
          match micro step (rd_ril m) with
          | Some (next, s) => Some (mkRadio s (<[i := next ++ ms]> (rd_threads m)))
          | None => None
          end
      | _ => None
      end
  end.
Fixpoint radio_run (l : list RStep) (m : Radio) : option Radio :=
  match l with
  | [] => Some m
  | x :: l => match radio_step x m with Some m => radio_run l m | None => None end
  end.

(** What [GetRadioState] would answer. *)
Definition cached (slot : Z) (m : Radio) : option HRilRadioState := rl_radioState (rd_ril m) !! Z.to_nat slot.
(** A notification that is on its way. *)
Definition on_its_way (slot : Z) (st : HRilRadioState) (m : Radio) : Prop :=
  ∃ ms, ms ∈ rd_threads m ∧ MNotify slot st ∈ ms.
Definition notifies_slot (slot : Z) (x : Micro) : bool :=
  match x with MNotify sl _ => sl =? slot | _ => false end.
Definition unsettled (slot : Z) (m : Radio) : bool := existsb (existsb (notifies_slot slot)) (rd_threads m).

(** A change of the cached state for a slot happens only while nothing is on its way for
    that slot, and the connection is announced while its radio is off. *)
Definition calm (slot : Z) (x : RStep) (m : Radio) : bool :=
  match x with
  | RStart AAnnounce => bool_decide (cached slot m = Some HRIL_RADIO_POWER_STATE_OFF)
  | RRun i =>
      match rd_threads m !! i with
      | Some (MStore sl _ :: _) | Some (MExchange sl _ :: _) => negb ((sl =? slot) && unsettled slot m)
      | _ => true
      end
  | _ => true
  end.
Fixpoint calm_run (slot : Z) (l : list RStep) (m : Radio) : bool :=
  match l with
  | [] => true
  | x :: l => calm slot x m && match radio_step x m with Some m' => calm_run slot l m' | None => true end
  end.

(** ** Run alone, the steps are the handler *)

Lemma alone_cons fuel m ms s :
  alone (S fuel) (m :: ms) s =
  match micro m s with Some (next, s') => alone fuel (next ++ ms) s' | None => None end.
Proof. done. Qed.
Lemma alone_nil fuel s : alone fuel [] s = Some (tt, s).
Proof. by destruct fuel. Qed.
Ltac alone_step :=
  rewrite ?alone_cons; cbn [micro]; unfold fbind, fret, fget, fmod; cbn [app]; rewrite ?alone_nil.
(** The last call of a handler, and the call before the rest of one. *)
Ltac alone_call e := destruct e as [[[] ?]|]; [|done].
Definition nudge_body (slot : Z) : M unit :=
  let! app := SlotHasSimApp slot in
  if negb app then fret tt
  else
    let! state := CachedRadioState slot in
    if negb (bool_decide (state = HRIL_RADIO_POWER_STATE_OFF)) then fret tt
    else notify DModem slot HNOTI_MODEM_RADIO_STATE_UPDATED (PPower HRIL_RADIO_POWER_STATE_OFF).
Lemma alone_nudge fuel slot s : alone (S (S (S fuel))) [MNudge slot] s = nudge_body slot s.
Proof.
  unfold nudge_body. alone_step. destruct (SlotHasSimApp slot s) as [[[] s1]|]; cbn [negb]; alone_step; try done.
  destruct (CachedRadioState slot s1) as [[st s2]|]; [|done]. case_bool_decide; cbn [negb]; alone_step; [|done].
  unfold Modem.notify_state. match goal with |- context [notify ?d ?r ?e ?p ?s] => alone_call (notify d r e p s) end.
  by alone_step.
Qed.
Lemma alone_is_handler a ms s : program a = Some ms → alone 12 ms s = act a s.
Proof.
  destruct a as [r info op|slotId serial error r|slotId ack n|slotId| | |slotId]; try discriminate.
  - destruct r; try discriminate. intros [= <-]. cbn [act handle_response].
    unfold Modem.setRadioPowerResponse. alone_step. alone_step.
    destruct (TakePending serial _) as [[[r|] s1]|]; [..|done].
    + destruct (deref r s1) as [[info s2]|]; [|done].
      destruct (rl_powerRequests s !! serial) as [on|]; [destruct (error =? RadioError.NONE)|];
        cbn [fopt]; alone_step; try by (alone_call (report DModem (Some r) (ToHrilError error) PNull s2); alone_step).
      destruct (aget _ _ _) as [[old s3]|]; [|done].
      destruct (Modem.store_state _ _ _) as [[[] s4]|]; [|done].
      case_bool_decide; alone_step; [destruct (Modem.notify_state _ _ _) as [[[] s5]|]; [|done]; alone_step|];
        match goal with |- context [report ?d ?r ?e ?p ?s] => alone_call (report d r e p s) end; by alone_step.
    + destruct (rl_powerRequests s !! serial) as [on|]; [destruct (error =? RadioError.NONE)|];
        cbn [fopt]; alone_step; try done.
      destruct (aget _ _ _) as [[old s3]|]; [|done].
      destruct (Modem.store_state _ _ _) as [[[] s4]|]; [|done].
      case_bool_decide; alone_step; [|done]. by destruct (Modem.notify_state _ _ _) as [[[] s5]|].
  - destruct n; try discriminate; intros [= <-]; cbn [act handle_indication];
      unfold Modem.radioStateChanged, Modem.modemReset; alone_step;
      (destruct (Modem.store_state _ _ _) as [[[] s1]|]; [|done]); alone_step;
      by destruct (Modem.notify_state _ _ _) as [[[] s2]|].
  - intros [= <-]. cbn [act]. unfold announce. cbn [ffor]. unfold Modem.notify_state.
    do 5 (alone_step; unfold Modem.notify_state;
          try match goal with |- context [notify ?d ?r ?e ?p ?s] => alone_call (notify d r e p s) end). by alone_step.
  - intros [= <-]. cbn [act]. unfold nudge_round. cbn [ffor]. fold (nudge_body 0) (nudge_body 1).
    rewrite alone_cons. cbn [micro]. unfold nudge_body at 1, fbind, fret.
    destruct (SlotHasSimApp 0 s) as [[[] s1]|]; cbn [negb app]; [|by rewrite alone_nudge; alone_call (nudge_body 1 s1)|done].
    alone_step. destruct (CachedRadioState 0 s1) as [[st s2]|]; [|done].
    case_bool_decide; cbn [negb app]; [|by rewrite alone_nudge; alone_call (nudge_body 1 s2)].
    alone_step. unfold Modem.notify_state.
    destruct (notify DModem 0 HNOTI_MODEM_RADIO_STATE_UPDATED (PPower HRIL_RADIO_POWER_STATE_OFF) s2) as [[[] s3]|]; [|done].
    cbn [app]. rewrite alone_nudge. by alone_call (nudge_body 1 s3).
Qed.

(** ** What one step does *)

Definition sound (s : Ril) : Prop := rl_reportOps_ s = true ∧ length (rl_radioState s) = 2%nat.
Definition notifies (m : Micro) : Prop := match m with MNotify _ _ => True | _ => False end.
Definition told_out (slot : Z) (st : HRilRadioState) : Out :=
  ONotify DModem slot HNOTI_MODEM_RADIO_STATE_UPDATED (PPower st).
Definition micro_effect (m : Micro) (s : Ril) (next : list Micro) (s' : Ril) : Prop :=
  match m with
  | MStore slot st =>
      in_slots slot = true ∧ rl_radioState s' = <[Z.to_nat slot := st]> (rl_radioState s) ∧
      rl_log s' = rl_log s ∧ next = [MNotify slot st]
  | MExchange slot st =>
      in_slots slot = true ∧ rl_radioState s' = <[Z.to_nat slot := st]> (rl_radioState s) ∧
      rl_log s' = rl_log s ∧
      next = if bool_decide (rl_radioState s !! Z.to_nat slot = Some st) then [] else [MNotify slot st]
  | MNotify slot st =>
      rl_radioState s' = rl_radioState s ∧ rl_log s' = rl_log s ++ [told_out slot st] ∧ next = []
  | MNudgeLoad slot =>
      s' = s ∧ (next = [] ∨ next = [MNotify slot HRIL_RADIO_POWER_STATE_OFF] ∧
                           rl_radioState s !! Z.to_nat slot = Some HRIL_RADIO_POWER_STATE_OFF)
  | _ => radio_still s s' ∧ Forall (λ m, ¬ notifies m) next
  end.
Lemma aget_Some {A} (l : list A) i s x s' :
  aget l i s = Some (x, s') → s' = s ∧ l !! Z.to_nat i = Some x.
Proof. unfold aget, fsome, fault. destruct (i <? 0); [done|]. destruct (_ !! _); [|done]. by intros [= -> ->]. Qed.
(** The steps that only pass something on. *)
Lemma still_then {A} (m : M A) (f : A → list Micro) s next s' :
  fkeeps radio_still m → (∀ a, Forall (λ m, ¬ notifies m) (f a)) →
  fbind m (λ a, fret (f a)) s = Some (next, s') → radio_still s s' ∧ Forall (λ m, ¬ notifies m) next.
Proof.
  intros Hm Hf. unfold fbind, fret. destruct (m s) as [[a s1]|] eqn:E; [|done]. intros [= <- <-].
  split; [by eapply Hm|done].
Qed.
Lemma still_TakePending_slot serial :
  fkeeps radio_still (let! req := TakePending serial in
    let! slot := match req with
                 | Some r => let! info := deref r in fret (slot_or_0 (rq_slotId info))
                 | None => fret 0
                 end in fret (req, slot)).
Proof. unfold TakePending, deref. still_tac. Qed.
Lemma micro_spec m s next s' : sound s → micro m s = Some (next, s') → sound s' ∧ micro_effect m s next s'.
Proof.
  intros [Ho Hl].
  assert (∀ s', radio_still s s' → sound s') as Hstill.
  { intros t (E1 & E2 & _). unfold sound. by rewrite E1 E2. }
  destruct m as [slot st|slot st|slot st|slot| |slot|slot|serial error|serial error power|r error]; cbn [micro micro_effect].
  - unfold fbind, fret. destruct (Modem.store_state slot st s) as [[[] s1]|] eqn:E; [|done]. intros [= <- <-].
    apply runs_store in E as [Hs ->]; [|done]. split; [split; [done|by rewrite /= length_insert]|done].
  - unfold fbind, fget, fret. destruct (aget _ _ _) as [[old s1]|] eqn:E1; [|done]. apply aget_Some in E1 as [-> E1].
    destruct (Modem.store_state slot st s) as [[[] s1]|] eqn:E; [|done]. intros [= <- <-].
    apply runs_store in E as [Hs ->]; [|done]. split; [split; [done|by rewrite /= length_insert]|]. split_and!; [done..|].
    rewrite E1. repeat case_bool_decide; congruence.
  - unfold Modem.notify_state, notify, emit, fbind, fget, fmod, fret. rewrite Ho. intros [= <- <-]. by split.
  - intros E. apply still_then in E; [split; [apply Hstill|]; apply E| |intros a; constructor]. unfold notify. still_tac.
  - intros E. apply still_then in E; [split; [apply Hstill|]; apply E| |intros a; constructor]. still_mod.
  - intros E. apply still_then in E; [split; [apply Hstill|]; apply E| |intros []; repeat constructor; intros []].
    unfold SlotHasSimApp. still_tac.
  - unfold CachedRadioState, fbind, fget, fret. destruct (negb _); [by intros [= <- <-]; split; [|split; [|left]]|].
    destruct (aget _ _ _) as [[st s1]|] eqn:E1; [|done]. apply aget_Some in E1 as [-> E1]. intros [= <- <-].
    split; [done|]. split; [done|]. case_bool_decide; [|by left]. subst. by right.
  - intros E. apply still_then in E; [split; [apply Hstill|]; apply E|still_tac|intros a; repeat constructor; intros []].
  - intros E. assert (fbind (let! req := TakePending serial in
      let! slot := match req with
                   | Some r => let! info := deref r in fret (slot_or_0 (rq_slotId info))
                   | None => fret 0
                   end in fret (req, slot))
      (λ rs, fret (match power with
            | Some requestedOn =>
                if error =? RadioError.NONE
                then [MExchange rs.2 (if requestedOn : bool then HRIL_RADIO_POWER_STATE_ON
                                      else HRIL_RADIO_POWER_STATE_OFF)]
                else []
            | None => []
            end ++ match rs.1 with Some r => [MReport r error] | None => [] end)) s = Some (next, s')) as E'.
    { revert E. unfold fbind, fret. destruct (TakePending serial s) as [[[r|] s1]|]; [|done..]. by destruct (deref r s1) as [[info s2]|]. }
    apply still_then in E'; [split; [apply Hstill|]; apply E'|apply still_TakePending_slot|].
    intros [req slot]. cbn. destruct power as [[]|], (error =? RadioError.NONE), req; repeat constructor; intros [].
  - intros E. apply still_then in E; [split; [apply Hstill|]; apply E| |intros a; constructor]. auto with fkeeps.
Qed.

(** ** Runs *)

Lemma program_notifies a ms :
  program a = Some ms → a ≠ AAnnounce → Forall (λ m, ¬ notifies m) ms.
Proof.
  destruct a as [| ? ? ? r|? ? n| | | |]; try discriminate; try done;
    [destruct r|destruct n|]; try discriminate; intros [= <-] _; repeat constructor; intros [].
Qed.
Lemma radio_act_program a : program a = None → radio_act a = false.
Proof. destruct a as [| ? ? ? r|? ? n| | | |]; try discriminate; try done; [destruct r|destruct n]; done. Qed.
Lemma on_its_way_run m i step ms next s slot st :
  rd_threads m !! i = Some (step :: ms) → on_its_way slot st m →
  on_its_way slot st (mkRadio s (<[i := next ++ ms]> (rd_threads m))) ∨ step = MNotify slot st.
Proof.
  intros Hi (k & Hk & Hin). apply list_elem_of_lookup in Hk as [j Hj].
  destruct (decide (i = j)) as [<-|Hne].
  - rewrite Hi in Hj. injection Hj as <-. apply elem_of_cons in Hin as [->|Hin]; [by right|]. left.
    exists (next ++ ms). split; [|set_solver]. cbn. apply list_elem_of_lookup. exists i.
    apply list_lookup_insert_eq. by eapply lookup_lt_Some.
  - left. exists k. split; [|done]. cbn. apply list_elem_of_lookup. exists j. by rewrite list_lookup_insert_ne.
Qed.
Lemma on_its_way_new m i step ms next s slot st :
  rd_threads m !! i = Some (step :: ms) →
  on_its_way slot st (mkRadio s (<[i := next ++ ms]> (rd_threads m))) →
  on_its_way slot st m ∨ MNotify slot st ∈ next.
Proof.
  intros Hi (k & Hk & Hin). cbn in Hk. apply list_elem_of_lookup in Hk as [j Hj].
  apply list_lookup_insert_Some in Hj as [(<- & <- & _)|[Hne Hj]].
  - apply elem_of_app in Hin as [?|Hin]; [by right|]. left. exists (step :: ms). split; [|set_solver].
    by eapply list_elem_of_lookup_2.
  - left. exists k. split; [|done]. by eapply list_elem_of_lookup_2.
Qed.

Definition busy (slot : Z) (m : Radio) : Prop := ∃ st, on_its_way slot st m.
Lemma unsettled_busy slot m : unsettled slot m = false → ¬ busy slot m.
Proof.
  intros Hu (st & k & Hk & Hn). apply not_true_iff_false in Hu. apply Hu. unfold unsettled.
  apply existsb_exists. exists k. split; [by apply list_elem_of_In|]. apply existsb_exists.
  exists (MNotify slot st). split; [by apply list_elem_of_In|]. apply Z.eqb_refl.
Qed.

(** The log grows; a notification on its way stays so until it is made. *)
Definition grows (slot : Z) (m m' : Radio) : Prop :=
  ∃ told, rl_log (rd_ril m') = rl_log (rd_ril m) ++ told ∧
    ∀ st, on_its_way slot st m → on_its_way slot st m' ∨ st ∈ omap (radio_noti slot) told.
Lemma radio_step_grows slot x m m' :
  sound (rd_ril m) → radio_step x m = Some m' → sound (rd_ril m') ∧ grows slot m m'.
Proof.
  intros Hs. destruct x as [a|a|i]; cbn [radio_step].
  - destruct (program a) eqn:Ea; [done|]. destruct (act a (rd_ril m)) as [[u s]|] eqn:E; [|done]. intros [= <-].
    apply (still_act a (radio_act_program a Ea)) in E as (E1 & E2 & l & E3 & _).
    split; [destruct Hs; split; cbn; congruence|]. exists l. cbn. split; [done|]. intros st Hst. by left.
  - destruct (program a) as [ms|]; [|done]. intros [= <-]. split; [done|]. exists []. cbn. rewrite app_nil_r.
    split; [done|]. intros st (k & Hk & Hin). left. exists k. split; [cbn; set_solver|done].
  - destruct (rd_threads m !! i) as [[|step ms]|] eqn:Hi; try done.
    destruct (micro step (rd_ril m)) as [[next s]|] eqn:E; [|done]. intros [= <-].
    destruct (micro_spec _ _ _ _ Hs E) as [Hs' He]. split; [done|].
    assert (∃ told, rl_log s = rl_log (rd_ril m) ++ told ∧ ∀ st, step = MNotify slot st → st ∈ omap (radio_noti slot) told)
      as (told & Hlog & Htold).
    { destruct step; cbn [micro_effect] in He;
        try (destruct He as [(_ & _ & l & Hl & _) _]; exists l; split; [exact Hl|by intros ? [=]]).
      - destruct He as (_ & _ & Hl & _). exists []. rewrite app_nil_r. split; [exact Hl|by intros ? [=]].
      - destruct He as (_ & _ & Hl & _). exists []. rewrite app_nil_r. split; [exact Hl|by intros ? [=]].
      - destruct He as (_ & Hl & _). eexists. split; [exact Hl|]. intros st [= -> ->]. cbn. rewrite Z.eqb_refl. set_solver.
      - destruct He as (-> & _). exists []. rewrite app_nil_r. split; [done|by intros ? [=]]. }
    exists told. cbn. split; [done|]. intros st Hst.
    destruct (on_its_way_run m i step ms next s slot st Hi Hst) as [?|Heq]; [by left|right; by apply Htold].
Qed.
Lemma radio_run_grows slot l m m' :
  sound (rd_ril m) → radio_run l m = Some m' → sound (rd_ril m') ∧ grows slot m m'.
Proof.
  revert m. induction l as [|x l IH]; cbn [radio_run]; intros m Hs.
  { intros [= <-]. split; [done|]. exists []. rewrite app_nil_r. split; [done|]. by left. }
  destruct (radio_step x m) as [m1|] eqn:E; [|done]. intros Hr.
  destruct (radio_step_grows slot x m m1 Hs E) as [Hs1 (t1 & E1 & H1)].
  destruct (IH m1 Hs1 Hr) as [Hs2 (t2 & E2 & H2)]. split; [done|]. exists (t1 ++ t2).
  rewrite E2 E1 app_assoc. split; [done|]. intros st Hst. rewrite omap_app.
  destruct (H1 st Hst) as [Hw|Hin]; [|right; set_solver]. destruct (H2 st Hw) as [?|?]; [by left|right; set_solver].
Qed.
(** A step that changes a state sets its notification on its way. *)
Lemma change_on_its_way slot x m m' st :
  sound (rd_ril m) → in_slots slot = true → radio_step x m = Some m' →
  cached slot m ≠ Some st → cached slot m' = Some st → on_its_way slot st m'.
Proof.
  intros Hs Hin E Hne Heq. destruct x as [a|a|i]; cbn [radio_step] in E.
  - destruct (program a) eqn:Ea; [done|]. destruct (act a (rd_ril m)) as [[u s]|] eqn:E'; [|done]. injection E as <-.
    apply (still_act a (radio_act_program a Ea)) in E' as (_ & E2 & _). unfold cached in *. cbn in Heq.
    rewrite E2 in Heq. done.
  - destruct (program a); [|done]. injection E as <-. done.
  - destruct (rd_threads m !! i) as [[|step ms]|] eqn:Hi; try done.
    destruct (micro step (rd_ril m)) as [[next s]|] eqn:E'; [|done]. injection E as <-.
    destruct (micro_spec _ _ _ _ Hs E') as [_ He]. unfold cached in *. cbn in Heq.
    assert (rl_radioState s = rl_radioState (rd_ril m) ∨ MNotify slot st ∈ next) as [Hsame|Hnext].
    { destruct step; cbn [micro_effect] in He; try (left; apply He).
      - destruct He as (Hsl & Hst & _ & ->). rewrite Hst insert_radio in Heq; [|apply Hs|done|done].
        destruct (Z.eqb_spec slot0 slot) as [->|]; [|done]. injection Heq as ->. right. set_solver.
      - destruct He as (Hsl & Hst & _ & ->). rewrite Hst insert_radio in Heq; [|apply Hs|done|done].
        destruct (Z.eqb_spec slot0 slot) as [->|]; [|done]. injection Heq as ->.
        rewrite bool_decide_eq_false_2; [right; set_solver|done].
      - destruct He as (-> & _). by left. }
    + rewrite Hsame in Heq. done.
    + exists (next ++ ms). cbn. split; [|set_solver]. apply list_elem_of_lookup. exists i.
      apply list_lookup_insert_eq. by eapply lookup_lt_Some.
Qed.

(** While nobody is disturbed, what is on its way is the cached state, and when nothing
    is, the framework was told it last. *)
Definition settled (slot : Z) (m : Radio) : Prop :=
  (∀ st, on_its_way slot st m → cached slot m = Some st) ∧
  (¬ busy slot m → cached slot m = Some (last_told slot (rl_log (rd_ril m)))).
Lemma last_told_app slot l k : omap (radio_noti slot) k = [] → last_told slot (l ++ k) = last_told slot l.
Proof. intros H. unfold last_told. by rewrite omap_app H app_nil_r. Qed.
(** Steps that leave the cached state alone and tell nothing. *)
Lemma settled_quiet slot m m' :
  settled slot m → cached slot m' = cached slot m →
  last_told slot (rl_log (rd_ril m')) = last_told slot (rl_log (rd_ril m)) →
  (∀ st, on_its_way slot st m' → on_its_way slot st m ∨ cached slot m = Some st) →
  (busy slot m → busy slot m') → settled slot m'.
Proof.
  intros [H1 H2] Ec El Hnew Hold. split.
  - intros st Hst. rewrite Ec. destruct (Hnew st Hst); auto.
  - intros Hq. rewrite Ec El. apply H2. intros Hu. apply Hq, Hold, Hu.
Qed.
Lemma settled_run slot m i step ms next s :
  sound (rd_ril m) → in_slots slot = true → settled slot m → calm slot (RRun i) m = true →
  rd_threads m !! i = Some (step :: ms) → micro step (rd_ril m) = Some (next, s) →
  settled slot (mkRadio s (<[i := next ++ ms]> (rd_threads m))).
Proof.
  intros Hs Hin Hset Hcalm Hi E. destruct (micro_spec _ _ _ _ Hs E) as [_ He].
  set (m' := mkRadio s _). pose proof (on_its_way_new m i step ms next s slot) as Hnew. fold m' in Hnew.
  cbn [calm] in Hcalm. rewrite Hi in Hcalm.
  assert ((∀ st, step ≠ MNotify slot st) → busy slot m → busy slot m') as Hkeep.
  { intros Hne [st Hst]. destruct (on_its_way_run m i step ms next s slot st Hi Hst) as [?|?]; [by exists st|].
    by destruct (Hne st). }
  assert (∀ st, MNotify slot st ∈ next → on_its_way slot st m') as Hput.
  { intros st Hn. exists (next ++ ms). split; [|set_solver]. cbn. apply list_elem_of_lookup. exists i.
    apply list_lookup_insert_eq. by eapply lookup_lt_Some. }
  assert (∀ sl st', step = MStore sl st' ∨ step = MExchange sl st' → sl = slot → ¬ busy slot m) as Hfree.
  { intros sl st' Hst ->. apply unsettled_busy. assert (negb ((slot =? slot) && unsettled slot m) = true) as H
      by (destruct Hst as [->| ->]; exact Hcalm). rewrite Z.eqb_refl in H. by destruct (unsettled slot m). }
  assert (∀ sl st', step = MStore sl st' ∨ step = MExchange sl st' →
    in_slots sl = true → rl_radioState s = <[Z.to_nat sl := st']> (rl_radioState (rd_ril m)) →
    rl_log s = rl_log (rd_ril m) →
    (next = [MNotify sl st'] ∨ next = [] ∧ rl_radioState (rd_ril m) !! Z.to_nat sl = Some st') →
    settled slot m') as Hstore.
  { intros sl st' Hst Hsl Er El Hn.
    assert (cached slot m' = if sl =? slot then Some st' else cached slot m) as Ec.
    { unfold cached. cbn. rewrite Er insert_radio //. apply Hs. }
    assert (∀ st, step ≠ MNotify slot st) as Hnn by (intros st ->; destruct Hst; discriminate).
    destruct (Z.eqb_spec sl slot) as [->|Hne].
    - specialize (Hfree slot st' Hst eq_refl). destruct Hn as [->|[-> Hold]].
      + split; [|intros Hq; destruct Hq; exists st'; apply Hput; set_solver].
        intros st Hw. rewrite Ec. destruct (Hnew st Hi Hw) as [?|Hx]; [destruct Hfree; by exists st|].
        apply list_elem_of_singleton in Hx as [= ->]. done.
      + apply (settled_quiet slot m); [done|by rewrite Ec|by cbn; rewrite El| |by apply Hkeep].
        intros st Hw. left. destruct (Hnew st Hi Hw) as [?|Hx]; [done|set_solver].
    - apply (settled_quiet slot m); [done|by rewrite Ec|by cbn; rewrite El| |by apply Hkeep].
      intros st Hw. left. destruct (Hnew st Hi Hw) as [?|Hx]; [done|].
      destruct Hn as [->|[-> _]]; [apply list_elem_of_singleton in Hx; congruence|set_solver]. }
  destruct step as [sl st|sl st|sl st|sl| |sl|sl|serial error|serial error power|r error];
    cbn [micro_effect] in He;
    try (destruct He as [(_ & Er & l & El & Hl) Hno]; apply (settled_quiet slot m);
      [done|unfold cached; cbn; by rewrite Er|cbn; rewrite El; by apply last_told_app| |by apply Hkeep];
      intros st Hw; left; destruct (Hnew st Hi Hw) as [?|Hx]; [done|];
      rewrite Forall_forall in Hno; by destruct (Hno _ Hx)).
  - destruct He as (Hsl & Er & El & ->). apply (Hstore sl st); auto.
  - destruct He as (Hsl & Er & El & ->). apply (Hstore sl st); auto. case_bool_decide; auto.
  - destruct He as (Er & El & ->). destruct (Z.eqb_spec sl slot) as [->|Hne].
    + assert (cached slot m = Some st) as Ec.
      { apply Hset. exists (MNotify slot st :: ms). split; [by eapply list_elem_of_lookup_2|set_solver]. }
      split.
      * intros st' Hw. destruct (Hnew st' Hi Hw) as [Hw'|Hx]; [|set_solver].
        unfold cached. cbn. rewrite Er. by apply Hset.
      * intros _. unfold cached. cbn. rewrite Er El last_told_snoc. cbn. rewrite Z.eqb_refl. exact Ec.
    + apply (settled_quiet slot m); [done|unfold cached; cbn; by rewrite Er| | |].
      * cbn. rewrite El last_told_snoc. cbn. destruct (Z.eqb_spec sl slot); done.
      * intros st' Hw. left. destruct (Hnew st' Hi Hw) as [?|Hx]; [done|set_solver].
      * apply Hkeep. congruence.
  - destruct He as [-> He]. apply (settled_quiet slot m); [done..| |by apply Hkeep].
    intros st Hw. destruct (Hnew st Hi Hw) as [?|Hx]; [by left|]. destruct He as [->|[-> Hoff]]; [set_solver|].
    apply list_elem_of_singleton in Hx as [= -> ->]. by right.
Qed.
Lemma settled_step slot x m m' :
  sound (rd_ril m) → in_slots slot = true → settled slot m → calm slot x m = true → radio_step x m = Some m' →
  settled slot m'.
Proof.
  intros Hs Hin Hset Hcalm. destruct x as [a|a|i]; cbn [radio_step].
  - destruct (program a) eqn:Ea; [done|]. destruct (act a (rd_ril m)) as [[u s]|] eqn:E; [|done]. intros [= <-].
    apply (still_act a (radio_act_program a Ea)) in E as (E1 & E2 & l & E3 & Hl).
    apply (settled_quiet slot m); [done|unfold cached; cbn; by rewrite E2|cbn; rewrite E3; by apply last_told_app| |done].
    intros st Hw. by left.
  - destruct (program a) as [ms|] eqn:Ea; [|done]. intros [= <-].
    apply (settled_quiet slot m); [done..| |].
    + intros st (k & Hk & Hn). cbn in Hk. apply elem_of_app in Hk as [Hk|Hk%list_elem_of_singleton]; [left; by exists k|].
      subst k. right. destruct a; try (pose proof (program_notifies _ _ Ea ltac:(discriminate)) as Hf;
        rewrite Forall_forall in Hf; by destruct (Hf _ Hn)).
      injection Ea as <-. cbn [calm] in Hcalm. apply bool_decide_eq_true in Hcalm. rewrite Hcalm. f_equal.
      set_unfold in Hn. destruct_or! Hn; try discriminate; by injection Hn.
    + intros [st (k & Hk & Hn)]. exists st, k. split; [cbn; set_solver|done].
  - destruct (rd_threads m !! i) as [[|step ms]|] eqn:Hi; try done.
    destruct (micro step (rd_ril m)) as [[next s]|] eqn:E; [|done]. intros [= <-]. by eapply settled_run.
Qed.

(** ** Properties *)

(** C14: What hril is told about the radio.  Indications, modem resets, responses to
    setRadioPower, the announcement and the nudges run on threads of their own, and
    nothing orders a store of the radio state and the notification after it.  Under every
    interleaving: no change is swallowed - a step that changes the state GetRadioState
    answers for a slot is followed by a notification of the new state, or that
    notification is still on its way.  And when, besides, no change for a slot is made
    while a notification for it is on its way, and the connection is announced while its
    radio is off, then whenever nothing is on its way the state GetRadioState answers is
    the one the framework was notified of last (off before the first). *)
Theorem radio_state_told (l : list RStep) (m : Radio) (slot : Z) :
  in_slots slot = true → radio_run l Radio_start = Some m →
  (∀ l1 x l2 m1 m2 st, l = l1 ++ x :: l2 → radio_run l1 Radio_start = Some m1 →
     radio_step x m1 = Some m2 → cached slot m1 ≠ Some st → cached slot m2 = Some st →
     on_its_way slot st m ∨
     ∃ told, rl_log (rd_ril m) = rl_log (rd_ril m2) ++ told ∧ st ∈ omap (radio_noti slot) told) ∧
  (calm_run slot l Radio_start = true → unsettled slot m = false →
     cached slot m = Some (last_told slot (rl_log (rd_ril m)))).
Proof.
  intros Hin Hr. assert (sound (rd_ril Radio_start)) as Hs by by split. split.
  - intros l1 x l2 m1 m2 st -> H1 H2 Hne Heq. destruct (radio_run_grows slot l1 _ _ Hs H1) as [Hs1 _].
    destruct (radio_step_grows slot x m1 m2 Hs1 H2) as [Hs2 _].
    assert (radio_run l2 m2 = Some m) as H3.
    { revert Hr H1. generalize Radio_start. clear -H2. induction l1 as [|y l1 IH]; cbn [radio_run app]; intros m0.
      - intros Hr [= ->]. by rewrite H2 in Hr.
      - destruct (radio_step y m0); [|done]. apply IH. }
    destruct (radio_run_grows slot l2 m2 m Hs2 H3) as [_ (told & Hlog & Htold)].
    destruct (Htold st) as [?|?]; [exact (change_on_its_way slot x m1 m2 st Hs1 Hin H2 Hne Heq)|by left|]. right. by exists told.
  - assert (settled slot Radio_start) as Hset.
    { split; [intros st (k & Hk & _); set_solver|]. intros _. unfold in_slots, MAX_SLOTS in Hin. bool_props.
      assert (slot = 0 ∨ slot = 1) as [->| ->] by lia; done. }
    intros Hcalm Hq. enough (settled slot m) as [_ H] by by apply H, unsettled_busy. clear Hq. revert Hs Hset Hr Hcalm.
    generalize Radio_start. induction l as [|x l IH]; cbn [radio_run calm_run]; intros m0 Hs Hset.
    { by intros [= <-]. }
    destruct (radio_step x m0) as [m1|] eqn:E; [|done]. intros Hr [Hx Hl]%andb_true_iff.
    apply (IH m1); [by eapply radio_step_grows|by eapply settled_step|done|done].
Qed.
(** A nudge that finds the radio on, after the framework has switched it on. *)
Lemma radio_state_told_witness :
  let l := [RAct (ABind 0); RStart AAnnounce; RRun 0; RRun 0; RRun 0; RRun 0; RRun 0;
            RAct (ARequest 100 (mkReq 0 (HREQ_other 1)) (SetRadioState HRIL_RADIO_POWER_STATE_ON));
            RStart (AResponse 0 1 0 RsetRadioPower); RStart ANudge; RRun 1; RRun 1; RRun 1; RRun 2; RRun 2;
            RRun 1; RRun 1] in
  ∃ m, radio_run l Radio_start = Some m ∧ cached 0 m = Some HRIL_RADIO_POWER_STATE_ON ∧
    cached 0 m = Some (last_told 0 (rl_log (rd_ril m))).
Proof.
  intros l. destruct (radio_run l Radio_start) as [m|] eqn:E; [|vm_compute in E; discriminate E].
  exists m. split; [reflexivity|].
  assert (rd_threads <$> radio_run l Radio_start = Some [[]; []; []] ∧
          (cached 0 <$> radio_run l Radio_start) = Some (Some HRIL_RADIO_POWER_STATE_ON)) as [Ht Hc]
    by (split; vm_compute; reflexivity).
  rewrite E in Ht, Hc. injection Ht as Ht. injection Hc as Hc. split; [exact Hc|].
  apply (radio_state_told l m 0); [reflexivity|exact E|vm_compute; reflexivity|].
  unfold unsettled. rewrite Ht. reflexivity.
Defined.

(** The nudge races the switch-on.  The connect thread reads off; the response to
    setRadioPower stores and notifies on; the connect thread notifies off: everything is
    done, the radio is on, and the framework was told last that it is off. *)
Theorem nudge_overtaken :
  ∃ m, radio_run [RAct (ABind 0); RAct (ARequest 99 (mkReq 0 (HREQ_other 1)) GetSimStatus);
         RAct (AResponse 0 1 0 (RgetIccCardStatus (mkCardStatus 1 0 [mkApp 2 5 "a0"] "8931")));
         RAct (ARequest 100 (mkReq 0 (HREQ_other 1)) (SetRadioState HRIL_RADIO_POWER_STATE_ON));
         RStart ANudge; RRun 0; RRun 0;
         RStart (AResponse 0 2 0 RsetRadioPower); RRun 1; RRun 1; RRun 1; RRun 1; RRun 1; RRun 0; RRun 0]
       Radio_start = Some m ∧
    rd_threads m = [[]; []] ∧ cached 0 m = Some HRIL_RADIO_POWER_STATE_ON ∧
    last_told 0 (rl_log (rd_ril m)) = HRIL_RADIO_POWER_STATE_OFF.
Proof. eexists. split; [vm_compute; reflexivity|]. split_and!; vm_compute; reflexivity. Qed.
