(* ===== verification/RilConnect.v ===== *)
(** * The radio bridge: the connect thread

    How long the thread that looks for the radio services takes: it ends once the services
    of the first slot are there, and what an absent second slot costs. *)

From S2P Require Import Prelude FaultMonad RilBridge.
Set Warnings "-rewrite-rw,-clear-no-such-hyp".
#[global] Open Scope Z_scope.

(** ** Polling *)

Lemma poll_le n period up t : 0 <= period → t <= (poll n period up t).2 <= t + Z.of_nat n * period.
Proof.
  intros Hp. revert t. induction n as [|n IH]; intros t; cbn [poll]; [cbn; lia|].
  destruct (up t); cbn [snd]; [nia|]. specialize (IH (t + period)). nia.
Qed.
Lemma poll_up n period up t : n ≠ O → up t = true → poll n period up t = (true, t).
Proof. destruct n; [done|]. cbn [poll]. by intros _ ->. Qed.
Lemma poll_never n period up t :
  (∀ u, t <= u → up u = false) → 0 <= period → poll n period up t = (false, t + Z.of_nat n * period).
Proof.
  intros Hu Hp. revert t Hu. induction n as [|n IH]; intros t Hu; cbn [poll]; [f_equal; lia|].
  rewrite Hu; [|lia]. rewrite IH; [f_equal; lia|]. intros u ?. apply Hu. lia.
Qed.
Lemma poll_failed n period up t t' :
  poll n period up t = (false, t') →
  t' = t + Z.of_nat n * period ∧ ∀ k, 0 <= k < Z.of_nat n → up (t + k * period) = false.
Proof.
  revert t. induction n as [|n IH]; intros t; cbn [poll]; [intros [= <-]; split; [lia|intros; lia]|].
  destruct (up t) eqn:E; [done|]. intros H. apply IH in H as [-> H]. split; [lia|]. intros k Hk.
  destruct (decide (k = 0)) as [->|]; [by rewrite Z.mul_0_l Z.add_0_r|].
  replace (t + k * period) with (t + period + (k - 1) * period) by lia. apply H. lia.
Qed.
(** What is there from [T] on is found at the next poll. *)
Lemma poll_from n period up t T :
  0 < period → (∀ u, T <= u → up u = true) →
  (poll n period up t).2 <= Z.max t (T + period) ∧ ((poll n period up t).1 = false → n ≠ O → t < T).
Proof.
  intros Hp Hu. revert t. induction n as [|n IH]; intros t; cbn [poll]; [cbn; lia|].
  destruct (up t) eqn:E; [cbn; lia|].
  assert (t < T) by (destruct (decide (t < T)); [done|]; rewrite Hu in E; [done|lia]).
  specialize (IH (t + period)). split; [lia|done].
Qed.

(** ** A slot *)

Section slot.
Context (e : ConnectEnv) (T : Z).
Hypothesis services_from : ∀ i u, T <= u → ce_service e (Some i) 0 u = true.
Lemma AwaitService_from i t b t' :
  AwaitService (ce_service e (Some i) 0) t = (b, t') →
  t <= t' <= Z.max t (T + 1000) ∧ (b = false → t < T ∧ t' = t + 300000).
Proof using services_from.
  unfold AwaitService. intros E.
  pose proof (poll_le 300 1000 (ce_service e (Some i) 0) t ltac:(lia)) as H1.
  destruct (poll_from 300 1000 (ce_service e (Some i) 0) t T ltac:(lia) (services_from i)) as [H2 H3].
  rewrite E in H1, H2, H3. cbn [fst snd] in *. split; [lia|]. intros ->. split; [by apply H3|].
  apply poll_failed in E as [E _]. lia.
Qed.
Lemma await_all_from l t b t' :
  await_all e 0 l t = (b, t') →
  t <= t' <= Z.max t (T + 1000) ∧ (b = false → t < T ∧ t + 300000 <= t').
Proof using services_from.
  revert t. induction l as [|i l IH]; intros t; cbn [await_all]; [intros [= <- <-]; split; [lia|done]|].
  destruct (AwaitService _ t) as [f t1] eqn:E. apply AwaitService_from in E as [H1 H2]. destruct f.
  - intros H. apply IH in H as [H3 H4]. split; [lia|]. intros Hb. specialize (H4 Hb). lia.
  - intros [= <- <-]. split; [lia|]. intros Hb. specialize (H2 Hb). lia.
Qed.
Lemma ConnectSlot_from t b t' :
  ConnectSlot e 0 t = (b, t') →
  if b then t <= t' <= Z.max t (T + 1000) + 300000 else t < T ∧ t + 300000 <= t' <= T + 1000.
Proof using services_from.
  unfold ConnectSlot. destruct (await_all e 0 slot_services t) as [f t1] eqn:E.
  apply await_all_from in E as [H1 H2]. destruct f.
  - intros [= <- <-]. pose proof (poll_le 300 1000 (ce_service e None 0) t1 ltac:(lia)) as H.
    fold (AwaitService (ce_service e None 0) t1) in H. lia.
  - intros [= <- <-]. specialize (H2 eq_refl). lia.
Qed.
(** A try that fails takes 302 seconds with its pause. *)
Lemma connect_first_from fuel t :
  T - t <= 302000 * Z.of_nat fuel →
  ∃ t', connect_first (S fuel) e t = Some t' ∧ t <= t' <= Z.max t (T + 3000) + 300000.
Proof using services_from.
  revert t. induction fuel as [|fuel IH]; intros t Hf; cbn [connect_first];
    destruct (ConnectSlot e 0 t) as [b t1] eqn:E; apply ConnectSlot_from in E; destruct b.
  - exists t1. split; [done|lia].
  - lia.
  - exists t1. split; [done|lia].
  - destruct (IH (t1 + 2000)) as (t' & Ht & ?); [lia|]. exists t'. split; [exact Ht|lia].
Qed.
End slot.

Lemma AwaitService_le up t : t <= (AwaitService up t).2 <= t + 300000.
Proof. unfold AwaitService. pose proof (poll_le 300 1000 up t ltac:(lia)). lia. Qed.
Lemma await_all_le e slot l t : t <= (await_all e slot l t).2 <= t + 300000 * Z.of_nat (length l).
Proof.
  revert t. induction l as [|i l IH]; intros t; cbn [await_all]; [cbn; lia|].
  pose proof (AwaitService_le (ce_service e (Some i) slot) t) as H. destruct (AwaitService _ t) as [[] t1]; cbn [snd] in *.
  - specialize (IH t1). cbn [length]. lia.
  - cbn [length]. lia.
Qed.
Lemma ConnectSlot_le e slot t : t <= (ConnectSlot e slot t).2 <= t + 2100000.
Proof.
  unfold ConnectSlot. pose proof (await_all_le e slot slot_services t) as H.
  destruct (await_all e slot slot_services t) as [[] t1]; cbn [snd length slot_services] in *; [|lia].
  pose proof (AwaitService_le (ce_service e None slot) t1). lia.
Qed.
Lemma connect_extra_le tries e slot t :
  t <= (connect_extra tries e slot t).2 <= t + 2100000 + 2102000 * Z.of_nat tries.
Proof.
  revert t. induction tries as [|tries IH]; intros t; cbn [connect_extra];
    pose proof (ConnectSlot_le e slot t) as H; destruct (ConnectSlot e slot t) as [[] t1]; cbn [snd] in *; try lia.
  specialize (IH (t1 + 2000)). lia.
Qed.
Lemma WaitForServiceManager_le e t : t <= WaitForServiceManager e (WaitForContainer e t) <= t + 420000.
Proof.
  unfold WaitForServiceManager, WaitForContainer, WaitForContainerProcess.
  pose proof (poll_le 360 500 (ce_ready e) t ltac:(lia)). set (t1 := (poll 360 500 _ t).2) in *.
  pose proof (poll_le (Z.to_nat (180000 / 500)) 500 (ce_servicemanager e) t1 ltac:(lia)).
  destruct (poll (Z.to_nat (180000 / 500)) 500 _ t1) as [[] t2]; cbn [snd] in *;
    change (Z.to_nat (180000 / 500)) with 360%nat in *; [|lia].
  pose proof (poll_le (Z.to_nat (60000 / 500)) 500 (ce_rild e) t2 ltac:(lia)).
  change (Z.to_nat (60000 / 500)) with 120%nat in *. lia.
Qed.

(** C27: The connect thread ends.  Whatever else is up or down and when, if the services of
    the first slot are there from some time [T] on, the thread comes to one of its three
    ends: libbinder could not be loaded; the probe of the service manager, started within
    seven minutes, was unanswered at each of its 150 looks; or the first slot is bound, no
    more than some nine hours after the start or [T]. *)
Theorem connect_terminates (e : ConnectEnv) (t T : Z) (fuel : nat) :
  (∀ i u, T <= u → ce_service e (Some i) 0 u = true) → T - t <= 302000 * Z.of_nat fuel →
  ∃ r, ConnectLoop (S fuel) e t = Some r ∧
    match r with
    | NoBinder => ce_binder e = false
    | Wedged => ∃ t1, t <= t1 <= t + 420000 ∧ ∀ k, 0 <= k < 150 → ce_probe e (t1 + k * 100) = false
    | Bound slots t' => (slots = [0] ∨ slots = [0; 1]) ∧
        t <= t' <= Z.max (t + 435000) (T + 3000) + 300000 + 31528000
    end.
Proof.
  intros HT Hf. unfold ConnectLoop. destruct (ce_binder e) eqn:Eb; cbn [negb]; [|by eexists].
  pose proof (WaitForServiceManager_le e t) as H1. set (t1 := WaitForServiceManager _ _) in *.
  pose proof (poll_le 150 100 (ce_probe e) t1 ltac:(lia)) as H2. unfold ProbeServiceManager.
  destruct (poll 150 100 (ce_probe e) t1) as [[] t2] eqn:Ep; cbn [negb snd] in *.
  - destruct (connect_first_from e T HT fuel t2) as (t3 & -> & H3); [lia|].
    pose proof (connect_extra_le (EXTRA_SLOT_TRIES - 1) e 1 t3) as H4.
    destruct (connect_extra _ e 1 t3) as [b t4]. eexists. split; [reflexivity|]. cbn [snd] in H4.
    change (Z.of_nat (EXTRA_SLOT_TRIES - 1)) with 14 in H4. split; [destruct b; auto|lia].
  - eexists. split; [reflexivity|]. exists t1. split; [lia|]. by apply poll_failed in Ep as [_ Ep].
Qed.
Definition late_env (T : Z) : ConnectEnv :=
  mkEnv (λ _, true) true (λ _, true) (λ _, true) (λ _, true) (λ _ _ u, T <=? u).
Lemma connect_terminates_witness :
  ∃ r, ConnectLoop 3 (late_env 500000) 0 = Some r ∧
    match r with
    | NoBinder => ce_binder (late_env 500000) = false
    | Wedged => ∃ t1, 0 <= t1 <= 0 + 420000 ∧ ∀ k, 0 <= k < 150 → ce_probe (late_env 500000) (t1 + k * 100) = false
    | Bound slots t' => (slots = [0] ∨ slots = [0; 1]) ∧
        0 <= t' <= Z.max (0 + 435000) (500000 + 3000) + 300000 + 31528000
    end.
Proof.
  apply (connect_terminates (late_env 500000) 0 500000 2); [|lia]. intros i u Hu. cbn. by apply Z.leb_le.
Defined.

(** ** An absent second slot *)

Lemma ConnectSlot_up e slot t :
  (∀ i, ce_service e i slot t = true) → ConnectSlot e slot t = (true, t).
Proof.
  intros Hs. assert (∀ i, AwaitService (ce_service e i slot) t = (true, t)) as HA.
  { intros i. by apply poll_up. }
  unfold ConnectSlot, slot_services. cbn [await_all]. repeat (rewrite HA; cbv beta iota). done.
Qed.
Lemma ConnectSlot_absent e slot t :
  (∀ u, t <= u → ce_service e (Some IModem) slot u = false) → ConnectSlot e slot t = (false, t + 300000).
Proof.
  intros Hs. unfold ConnectSlot, slot_services. cbn [await_all]. unfold AwaitService.
  rewrite (poll_never _ _ _ _ Hs); [|lia]. reflexivity.
Qed.
Lemma connect_extra_absent tries e slot t :
  (∀ u, t <= u → ce_service e (Some IModem) slot u = false) →
  connect_extra tries e slot t = (false, t + 300000 + 302000 * Z.of_nat tries).
Proof.
  revert t. induction tries as [|tries IH]; intros t Hs; cbn [connect_extra]; rewrite ConnectSlot_absent //.
  - f_equal. lia.
  - rewrite IH; [f_equal; lia|]. intros u ?. apply Hs. lia.
Qed.

(** C40: A phone with one slot waits 75 minutes.  With everything of the container up and the
    first slot bound at once, and a second slot that never registers a modem, the loop
    still spends fifteen tries of five minutes on the second slot: only 4528 seconds later
    does it go on to set [connected_] and to announce the radio, for the first slot too. *)
Theorem missing_slot_delays (e : ConnectEnv) (t : Z) (fuel : nat) :
  ce_binder e = true →
  (ce_ready e t = true ∧ ce_servicemanager e t = true ∧ ce_rild e t = true ∧ ce_probe e t = true) →
  (∀ i, ce_service e i 0 t = true) →
  (∀ u, t <= u → ce_service e (Some IModem) 1 u = false) →
  ConnectLoop (S fuel) e t = Some (Bound [0] (t + 4528000)).
Proof.
  intros Hb (H1 & H2 & H3 & H4) H0 Hm. unfold ConnectLoop, WaitForContainer, WaitForServiceManager,
    WaitForContainerProcess, ProbeServiceManager.
  rewrite Hb !poll_up //. cbn [negb snd connect_first].
  rewrite ConnectSlot_up // connect_extra_absent //. do 2 f_equal.
  change (Z.of_nat (EXTRA_SLOT_TRIES - 1)) with 14. lia.
Qed.
Definition single_sim : ConnectEnv :=
  mkEnv (λ _, true) true (λ _, true) (λ _, true) (λ _, true) (λ _ slot _, slot =? 0).
Lemma missing_slot_delays_witness : ConnectLoop 1 single_sim 5000 = Some (Bound [0] (5000 + 4528000)).
Proof. apply (missing_slot_delays single_sim 5000 0); [reflexivity|repeat split|reflexivity|reflexivity]. Defined.
