(* ===== verification/RilCodecs.v ===== *)
(** * The radio bridge: data profiles and conversions

    The table of data profiles the bridge keeps for the modem, and the conversions between
    hril's and IRadio's types: access networks, protocols, message bytes, service centre
    addresses, signal levels. *)

From stdpp Require Import finite.
From S2P Require Import Prelude FaultMonad RilBridge RilDomains RilFacts.
Set Warnings "-rewrite-rw,-clear-no-such-hyp".
#[global] Open Scope Z_scope.
#[global] Open Scope fault_scope.

(** ** The modem's table of profiles

    What rild was told, from the calls that reached it: a setDataProfile replaces the
    table of the slot. *)

Definition table_of (slot : Z) (o : Out) : option (list DataProfileInfo) :=
  match o with
  | OCall true IData sl _ (C_setDataProfile profiles) => if sl =? slot then Some profiles else None
  | _ => None
  end.
Definition modem_table (slot : Z) (l : list Out) : list DataProfileInfo :=
  default [] (last (omap (table_of slot) l)).
Lemma modem_table_snoc slot l o : modem_table slot (l ++ [o]) = default (modem_table slot l) (table_of slot o).
Proof.
  unfold modem_table. rewrite omap_app. cbn. destruct (table_of slot o); cbn.
  - by rewrite last_snoc.
  - by rewrite app_nil_r.
Qed.
(** The profile a call brings up, which rild looks up in its table. *)
Definition needs (o : Out) : option (Z * DataProfileInfo) :=
  match o with
  | OCall true IData slot _ (C_setupDataCall _ p _ _) | OCall true IData slot _ (C_setInitialAttachApn p) => Some (slot, p)
  | _ => None
  end.
Definition known (slot : Z) (p : DataProfileInfo) (l : list Out) : Prop :=
  ∃ q, q ∈ modem_table slot l ∧ Data.SameProfile q p = true.
Definition all_known (l : list Out) : Prop :=
  ∀ l1 o l2 slot p, l = l1 ++ o :: l2 → needs o = Some (slot, p) → known slot p l1.
Lemma all_known_snoc l o :
  all_known l → (∀ slot p, needs o = Some (slot, p) → known slot p l) → all_known (l ++ [o]).
Proof.
  intros Hl Ho l1 o' l2 slot p E Hn. destruct l2 as [|o2 l2 _] using rev_ind.
  - apply app_inj_tail in E as [-> ->]. by apply Ho.
  - rewrite app_comm_cons app_assoc in E. apply app_inj_tail in E as [-> _]. by eapply Hl.
Qed.

Definition primed (s : Ril) : Prop :=
  all_known (rl_log s) ∧ length (rl_profiles s) = 2%nat ∧
  ∀ slot, in_slots slot = true → slot ∉ rl_dead s → rl_profiles s !! Z.to_nat slot = Some (modem_table slot (rl_log s)).
Definition primes (s s' : Ril) : Prop := primed s → primed s'.
#[export] Instance primes_preorder : PreOrder primes.
Proof. split; [intros s H; exact H|]. intros s1 s2 s3 H1 H2 H. by apply H2, H1. Qed.
Lemma primes_view s s' :
  rl_profiles s' = rl_profiles s → rl_dead s' = rl_dead s → rl_log s' = rl_log s → primes s s'.
Proof. unfold primes, primed. by intros -> -> ->. Qed.
Lemma primes_same s s' : same_view s s' → primes s s'.
Proof. intros (_ & _ & ? & ? & ?). by apply primes_view. Qed.
(** Anything said that is neither a table nor a profile brought up that is not known. *)
Lemma primed_say o s :
  (∀ slot, table_of slot o = None) → (∀ slot p, needs o = Some (slot, p) → known slot p (rl_log s)) →
  primes s (set_rl_log (rl_log s ++ [o]) s).
Proof.
  intros Ht Hn (H1 & H2 & H3). split_and!; [by apply all_known_snoc|done|]. intros slot Hs Hd.
  cbn [rl_log set_rl_log rl_profiles]. rewrite modem_table_snoc Ht. by apply H3.
Qed.
Lemma primes_plain o s : plain o = true → primes s (set_rl_log (rl_log s ++ [o]) s).
Proof. intros Ho. apply primed_say; destruct o as [| |[] [] ? ? []|]; done. Qed.

(** The slot a service was found for is one of the two. *)
Lemma runs_require i d r s (Q : option Z → Ril → Prop) :
  (∀ s', primes s s' → Q None s') → (∀ slot, in_slots slot = true → Q (Some slot) s) → runs (require i d r) Q s.
Proof.
  intros Hn Hs. unfold require. destruct r as [r|]; [|by apply runs_ret, Hn].
  assert (runs (do! report d (Some r) HRIL_ERR_GENERIC_FAILURE PNull in fret None) Q s) as Hf.
  { apply (runs_seq _ _ (λ _, primes s)); [apply runs_keeps, keeps_report; [apply _|apply primes_same|apply primes_plain]|].
    cbn beta. intros ? s' Hp. by apply runs_ret, Hn. }
  apply runs_bind. unfold deref. apply runs_bind, runs_get. intros info s'. unfold fsome, fault.
  destruct (_ !! r) as [info'|]; [|done]. intros [= <- <-]. apply runs_bind. unfold service. destruct (_ || _) eqn:Eb.
  - by apply runs_ret.
  - apply runs_bind, runs_get, runs_ret. case_bool_decide; [|done]. apply runs_ret, Hs.
    apply orb_false_iff in Eb as [? ?]. unfold in_slots. bool_props. apply andb_true_iff. lia.
Qed.

Lemma say_eq i slot k c s :
  call i slot k c s = Some (tt, set_rl_log (rl_log s ++ [OCall (negb (bool_decide (slot ∈ rl_dead s))) i slot k c]) s).
Proof. done. Qed.
(** A new table, kept and sent. *)
Lemma primed_table s slot k profiles :
  primed s → in_slots slot = true →
  primed (set_rl_log (rl_log s ++ [OCall (negb (bool_decide (slot ∈ rl_dead s))) IData slot k (C_setDataProfile profiles)])
            (set_rl_profiles (<[Z.to_nat slot := profiles]> (rl_profiles s)) s)).
Proof.
  intros (H1 & H2 & H3) Hs. split_and!.
  - apply all_known_snoc; [done|]. intros sl p. cbn. by case_match.
  - cbn. by rewrite length_insert.
  - intros sl Hsl Hd. cbn in Hd |- *. rewrite modem_table_snoc. cbn. destruct (decide (slot = sl)) as [->|Hne].
    + rewrite bool_decide_eq_false_2 //= Z.eqb_refl /=. apply list_lookup_insert_eq.
      unfold in_slots, MAX_SLOTS in Hsl. bool_props. lia.
    + assert ((slot =? sl) = false) as -> by (apply Z.eqb_neq; done). rewrite list_lookup_insert_ne.
      * rewrite H3 //. by case_match.
      * unfold in_slots in *. bool_props. lia.
Qed.
Lemma runs_send_table (serial : M Z) slot profiles s :
  fkeeps same_view serial → primed s → in_slots slot = true →
  runs (do! aset set_rl_profiles (rl_profiles s) slot profiles in
        let! k := serial in call IData slot k (C_setDataProfile profiles))
    (λ _ s', primed s' ∧ (slot ∉ rl_dead s' → modem_table slot (rl_log s') = profiles)) s.
Proof.
  intros Hk H Hs. apply runs_bind. unfold aset. apply runs_bind. intros ? s1. unfold aget, fsome, fault.
  destruct (slot <? 0); [done|]. destruct (_ !! _); [|done]. intros [= _ <-]. apply runs_mod, runs_bind.
  intros k s2 E2. apply Hk in E2 as (_ & _ & E1 & E2 & E3). cbn in E1, E2, E3.
  intros ? s3. rewrite say_eq. intros [= _ <-].
  pose proof (primed_table s slot k profiles H Hs) as H'. split.
  - revert H'. unfold primed. cbn. by rewrite E1 E2 E3.
  - cbn. intros Hd. rewrite modem_table_snoc E2. rewrite E2 in Hd. rewrite bool_decide_eq_false_2 //= Z.eqb_refl //.
Qed.
(** The profile a modem brings up for another: everything it dials with is equal (the
    protocol while roaming is not looked at). *)
Record same_apn (q p : DataProfileInfo) : Prop := {
  sa_apn : pf_apn q = pf_apn p;
  sa_protocol : pf_protocol q = pf_protocol p;
  sa_types : pf_supportedApnTypesBitmap q = pf_supportedApnTypesBitmap p;
  sa_auth : pf_authType q = pf_authType p;
  sa_user : pf_user q = pf_user p;
  sa_password : pf_password q = pf_password p;
}.
Lemma SameProfile_same q p : Data.SameProfile q p = true → same_apn q p.
Proof.
  unfold Data.SameProfile. rewrite !andb_true_iff !bool_decide_eq_true !Z.eqb_eq. intros. by split; intuition.
Qed.
Lemma SameProfile_refl p : Data.SameProfile p p = true.
Proof. unfold Data.SameProfile. by rewrite !bool_decide_eq_true_2 // !Z.eqb_refl. Qed.
(** After RegisterProfile the modem, if it still lives, knows the profile. *)
Lemma runs_RegisterProfile slot p s :
  primed s → in_slots slot = true →
  runs (Data.RegisterProfile slot p)
    (λ _ s', primed s' ∧ (slot ∉ rl_dead s' → known slot p (rl_log s'))) s.
Proof.
  intros H Hs. unfold Data.RegisterProfile. rewrite Hs. cbn [negb]. apply runs_bind, runs_get, runs_bind.
  intros profiles s1. unfold aget at 1, fsome, fault. destruct (slot <? 0); [done|].
  destruct (rl_profiles s !! Z.to_nat slot) as [known'|] eqn:E; [|done]. intros [= <- <-].
  destruct (existsb _ _) eqn:Ex.
  - apply runs_ret. split; [done|]. intros Hd. destruct H as (_ & _ & H). rewrite H // in E. injection E as E.
    apply existsb_exists in Ex as (q & Hin & Hq). exists q. rewrite E. split; [by apply list_elem_of_In|done].
  - eapply runs_mono; [apply (runs_send_table NextSerial); [|done|done]|].
    { apply keeps_NextSerial; [apply _|done]. }
    intros _ s' [H' Ht]. split; [done|]. intros Hd. exists p. rewrite Ht //. split; [|apply SameProfile_refl].
    apply elem_of_app. right. by apply list_elem_of_singleton.
Qed.
(** Bringing up a profile that was registered just before. *)
Lemma runs_bring_up slot p r c s :
  in_slots slot = true → (∀ k, needs (OCall true IData slot k c) = Some (slot, p)) →
  (∀ b sl k, table_of sl (OCall b IData slot k c) = None) → primed s →
  runs (do! Data.RegisterProfile slot p in let! serial := Track r in call IData slot serial c)
    (λ _ s', primed s') s.
Proof.
  intros Hs Hn Ht H. eapply runs_seq; [by apply runs_RegisterProfile|]. intros _ s1 [H1 Hk]. apply runs_bind.
  intros k s2 E. assert (same_view s1 s2) as V by (eapply keeps_Track in E; [exact E|apply _|done]).
  destruct V as (V1 & V2 & V3 & V4 & V5). intros ? s3. rewrite say_eq. intros [= _ <-].
  apply primed_say; [intros sl; apply Ht| |by apply (primes_same s1)].
  intros sl q. case_bool_decide as Hd; cbn [negb]; [done|]. rewrite Hn. intros [= <- <-]. rewrite V5. apply Hk. by rewrite -V4.
Qed.
Lemma runs_primes {A} (m : M A) s : fkeeps primes m → primed s → runs m (λ _ s', primed s') s.
Proof. intros Hm H a s' E. by eapply Hm. Qed.
Lemma primes_report d r e p : fkeeps primes (report d r e p).
Proof. apply keeps_report; [apply _|apply primes_same|apply primes_plain]. Qed.
Lemma runs_AccessNetworkFor slot rat s (Q : AccessNetwork → Ril → Prop) :
  (∀ n, Q n s) → runs (Data.AccessNetworkFor slot rat) Q s.
Proof.
  intros HQ. unfold Data.AccessNetworkFor, Network.LastDataAccessNetwork, aget, fsome, fault.
  case_bool_decide; [by apply runs_ret|]. destruct (negb _); [by apply runs_ret|]. apply runs_bind, runs_get.
  intros n s'. destruct (_ <? 0); [done|]. destruct (_ !! _); [|done]. by intros [= <- <-].
Qed.
(** The four operations that touch the table. *)
Lemma runs_data_op (m : Z → M unit) r s :
  primed s → (∀ slot, in_slots slot = true → runs (m slot) (λ _ s', primed s') s) →
  runs (let! sv := require IData DData r in fopt sv m) (λ _ s', primed s') s.
Proof.
  intros H Hm. apply runs_bind, runs_require.
  - intros s' Hp. by apply runs_ret, Hp.
  - intros slot Hs. by apply Hm.
Qed.
Lemma primes_ActivateInternal r data bits : fkeeps primes (Data.ActivateInternal r data bits).
Proof.
  intros s a s' E H. revert E. apply runs_data_op; [done|]. intros slot Hs.
  destruct data as [d|]; [|by apply runs_primes; [apply primes_report|]].
  apply runs_bind, runs_AccessNetworkFor. intros n. by apply runs_bring_up; intros; try destruct b.
Qed.
Lemma primes_SetInitApnInfo r data : fkeeps primes (Data.SetInitApnInfo r data).
Proof.
  intros s a s' E H. revert E. apply runs_data_op; [done|]. intros slot Hs.
  destruct data as [d|]; [|by apply runs_primes; [apply primes_report|]].
  by apply runs_bring_up; intros; try destruct b.
Qed.
Lemma primes_SetDataProfileInfo r data : fkeeps primes (Data.SetDataProfileInfo r data).
Proof.
  intros s a s' E H. revert E. apply runs_data_op; [done|]. intros slot Hs.
  destruct data as [|d data]; [by apply runs_primes; [apply primes_report|]|].
  apply runs_bind. unfold Data.AdoptProfiles. rewrite Hs. cbn [negb]. apply runs_bind, runs_get.
  pose proof (runs_send_table (Track r) slot ((λ d, Data.BuildProfile d Data.APN_DEFAULT) <$> d :: data) s) as Hr.
  intros ? s1 E. specialize (Hr (keeps_Track same_view (λ _ _ H, H) r) H Hs).
  intros u s2 E2. eapply (Hr u s2). unfold fbind at 1. rewrite E. exact E2.
Qed.
(** The handlers that tell a radio state. *)
Lemma primes_notify d slot id p : fkeeps primes (notify d slot id p).
Proof.
  unfold notify. apply fkeeps_bind; [apply _|apply fkeeps_get, _|]. intros []; [|apply fkeeps_ret, _].
  apply fkeeps_mod. intros s. by apply primed_say.
Qed.
#[local] Hint Resolve keeps_aget keeps_AppAid keeps_TakePending primes_notify primes_report primes_same primes_plain
  primes_preorder : fkeeps.
Ltac primes_tac := repeat first [fkeeps_step | apply fkeeps_mod; intros ?; by apply primes_view].
Lemma primes_tell slot st : fkeeps primes (do! Modem.store_state slot st in Modem.notify_state slot st).
Proof. unfold Modem.store_state, Modem.notify_state, aset. primes_tac. Qed.
Lemma primes_act a : fkeeps primes (act a).
Proof.
  destruct a as [r info op|slotId serial error r|slotId ack n|slotId| | |slotId]; cbn [act].
  - apply fkeeps_bind; [apply _|apply fkeeps_mod; intros s; by apply primes_same|]. intros _.
    destruct (data_op op) eqn:E; [|by apply keeps_perform; auto with fkeeps].
    destruct op; try discriminate E; cbn [perform]; unfold Data.ActivatePdpContext, Data.ActivatePdpContextWithApnTypes;
      repeat case_match; auto using primes_SetInitApnInfo, primes_ActivateInternal, primes_SetDataProfileInfo, primes_report.
  - assert (r = RsetRadioPower ∨ r ≠ RsetRadioPower) as [-> | Hr] by (destruct r; by (left + right));
      [|by apply keeps_response; auto with fkeeps].
    cbn [handle_response]. unfold Modem.setRadioPowerResponse, Modem.store_state, Modem.notify_state, aset, deref.
    primes_tac.
  - destruct n; try apply primes_tell; by apply keeps_indication; auto with fkeeps.
  - apply fkeeps_mod. intros s. by apply primes_same.
  - unfold announce. primes_tac.
  - unfold nudge_round, SlotHasSimApp, CachedRadioState. primes_tac.
  - apply fkeeps_mod. intros s (H1 & H2 & H3). split_and!; [done|done|]. intros slot Hs Hd. apply H3; [done|]. set_solver.
Qed.
Lemma primed_run l s s' : primed s → ril_run l s = Some s' → primed s'.
Proof.
  revert s. induction l as [|a l IH]; cbn [ril_run]; [by intros s ? [= <-]|]. intros s H.
  destruct (act a s) as [[u s1]|] eqn:E; [|done]. apply IH. by eapply (primes_act a).
Qed.

(** C13: The modem knows every profile it is asked to bring up.  In every orderly run, when a
    setupDataCall or a setInitialAttachApn reaches rild, the last setDataProfile that
    reached it for that slot lists a profile with the same APN, protocol, types,
    authentication, user and password (the roaming protocol may differ): the bridge
    registers a new profile before it uses it, sends the whole table each time, and
    forgets what hril's own SetDataProfileInfo replaces. *)
Theorem data_profile_first (l : list Act) :
  orderly l Ril_start = true →
  ∃ s, ril_run l Ril_start = Some s ∧
    ∀ l1 o l2 slot p, rl_log s = l1 ++ o :: l2 → needs o = Some (slot, p) →
      ∃ q, q ∈ modem_table slot l1 ∧ same_apn q p.
Proof.
  intros Hl. destruct (run_wf l Ril_start wf_start Hl) as (s & E & _). exists s. split; [done|].
  assert (primed Ril_start) as Hs.
  { split_and!; [by intros []|done|]. intros slot Hs _. unfold in_slots, MAX_SLOTS in Hs. bool_props.
    assert (slot = 0 ∨ slot = 1) as [-> | ->] by lia; done. }
  intros l1 o l2 slot p Hlog Ho. destruct (proj1 (primed_run l Ril_start s Hs E) l1 o l2 slot p Hlog Ho)
    as (q & Hq & Hsame). exists q. split; [done|]. by apply SameProfile_same.
Qed.
Definition an_apn : Data.HRilDataInfo :=
  Data.mkDataInfo 1 0 RADIO_TECHNOLOGY_LTE 0 0 None None (Some "internet") (Some "IPV4V6") None.
Lemma data_profile_first_witness :
  let l := [ABind 0; ARequest 100 (mkReq 0 (HREQ_other 1)) (ActivatePdpContext (Some an_apn))] in
  let p := Data.BuildProfile an_apn Data.APN_DEFAULT in
  ∃ s, ril_run l Ril_start = Some s ∧
    rl_log s = [OCall true IData 0 1 (C_setDataProfile [p])] ++ OCall true IData 0 2 (C_setupDataCall AN_EUTRAN p false DR_NORMAL) :: [] ∧
    ∃ q, q ∈ modem_table 0 [OCall true IData 0 1 (C_setDataProfile [p])] ∧ same_apn q p.
Proof.
  intros l p. destruct (data_profile_first l) as (s & E & H); [vm_compute; reflexivity|]. exists s.
  assert (rl_log s = [OCall true IData 0 1 (C_setDataProfile [p])] ++ OCall true IData 0 2 (C_setupDataCall AN_EUTRAN p false DR_NORMAL) :: []) as El.
  { assert (rl_log <$> ril_run l Ril_start = Some ([OCall true IData 0 1 (C_setDataProfile [p])] ++ OCall true IData 0 2 (C_setupDataCall AN_EUTRAN p false DR_NORMAL) :: [])) as E' by (vm_compute; reflexivity).
    rewrite E in E'. by injection E'. }
  split; [exact E|]. split; [exact El|]. by eapply H; [exact El|].
Defined.

(** ** Signal levels *)

Definition is_int32 (z : Z) : bool := (- 2 ^ 31 <=? z) && (z <? 2 ^ 31).
(** The levels that are negated or shifted, as they arrive. *)
Definition shifted_levels (sig : SignalStrength) : list Z :=
  [ss_wcdma_ecno sig; ss_cdma_dbm sig; ss_cdma_ecio sig; ss_lte_rsrp sig; ss_lte_rsrq sig; ss_nr_ssRsrp sig; ss_nr_ssRsrq sig].
Definition negated_levels (sig : SignalStrength) : list Z := tail (shifted_levels sig).
Lemma NegDbm_defined v : is_int32 v = true → is_Some (Network.NegDbm v) ↔ v ≠ - 2 ^ 31.
Proof.
  unfold is_int32, Network.NegDbm, Network.int32, Network.AIDL_INVALID. intros H. bool_props.
  destruct (v =? _) eqn:E; bool_props; [split; [lia|by eexists]|]. case_match; bool_props; split; try lia; [by eexists|].
  intros []. done.
Qed.
Lemma ecno_defined v : is_int32 v = true → is_Some (Network.ecno_of v) ↔ v ≠ - 2 ^ 31.
Proof.
  unfold is_int32, Network.ecno_of, Network.int32, Network.AIDL_INVALID. intros H. bool_props.
  destruct (v =? _) eqn:E; bool_props; [split; [lia|by eexists]|]. case_match; bool_props; split; try lia; [by eexists|].
  intros []. done.
Qed.
Lemma ecio_defined v : is_int32 v = true → is_Some (Network.ecio_of v) ↔ - 2 ^ 31 + 49 <= v.
Proof.
  unfold is_int32, Network.ecio_of, Network.int32, Network.AIDL_INVALID. intros H. bool_props.
  destruct (_ || _) eqn:E; [split; [|by eexists]; intros _; apply orb_true_iff in E as [E|E]; bool_props; lia|].
  case_match; bool_props; split; try lia; [by eexists|]. intros []. done.
Qed.
Lemma rssi_defined sig :
  Forall (λ v, is_int32 v = true) (shifted_levels sig) →
  is_Some (Network.ToHrilRssi sig) ↔
    - 2 ^ 31 + 49 <= ss_wcdma_ecno sig ∧ Forall (λ v, v ≠ - 2 ^ 31) (negated_levels sig).
Proof.
  unfold shifted_levels, negated_levels. cbn [tail]. rewrite !Forall_cons !Forall_nil.
  intros (H1 & H2 & H3 & H4 & H5 & H6 & H7 & _).
  rewrite -(ecio_defined _ H1) -(NegDbm_defined _ H2) -(ecno_defined _ H3) -(NegDbm_defined _ H4)
    -(NegDbm_defined _ H5) -(NegDbm_defined _ H6) -(NegDbm_defined _ H7).
  unfold Network.ToHrilRssi. split.
  - intros [r Hr]. do 7 (apply bind_Some in Hr as (? & -> & Hr)). by split_and!.
  - intros ([a ->] & [b ->] & [c ->] & [d ->] & [f ->] & [g ->] & [h ->] & _). by eexists.
Qed.
Lemma IndexDbm_value v base top :
  top < 2 ^ 31 - 1 →
  Network.IndexDbm v base top = if (0 <=? v) && (v <=? top) then base + v else 255.
Proof.
  intros Ht. unfold Network.IndexDbm, Network.AIDL_INVALID, Network.INVALID_DBM.
  destruct (Z.eqb_spec v 2147483647), (Z.ltb_spec v 0), (Z.ltb_spec top v), (Z.leb_spec 0 v),
    (Z.leb_spec v top); cbn; lia.
Qed.
Lemma NegDbm_value v x : Network.NegDbm v = Some x → x = if v =? Network.AIDL_INVALID then Network.INVALID_DBM else - v.
Proof. unfold Network.NegDbm, Network.int32. destruct (v =? _); [by intros [= <-]|]. case_match; [by intros [= <-]|done]. Qed.
(** [tenths v x]: the decibels [x] are the tenths [v], cut towards zero. *)
Definition tenths (v x : Z) : Prop := Z.abs (10 * x - v) < 10 ∧ Z.abs x * 10 <= Z.abs v.
Lemma quot_tenths v : tenths v (Z.quot v 10).
Proof. unfold tenths. Z.to_euclidean_division_equations. lia. Qed.
Lemma ecno_value v x : Network.ecno_of v = Some x → if v =? 2 ^ 31 - 1 then x = 255 else tenths (- v) x.
Proof.
  unfold Network.ecno_of, Network.int32, Network.AIDL_INVALID, Network.INVALID_DBM.
  change (2 ^ 31 - 1) with 2147483647. destruct (v =? _); [by intros [= <-]|].
  case_match; [|done]. intros [= <-]. apply quot_tenths.
Qed.
Lemma TenthsDb_value v :
  if v =? 2 ^ 31 - 1 then Network.TenthsDb v = 255 else tenths v (Network.TenthsDb v).
Proof.
  unfold Network.TenthsDb, Network.AIDL_INVALID, Network.INVALID_DBM. change (2 ^ 31 - 1) with 2147483647.
  destruct (v =? _); [done|]. apply quot_tenths.
Qed.
Lemma ecio_value v x :
  Network.ecio_of v = Some x →
  (49 < v → x = 255) ∧ (0 <= v <= 49 → -24 <= x <= 0 ∧ Z.abs (2 * x - (v - 49)) <= 1).
Proof.
  unfold Network.ecio_of, Network.int32, Network.AIDL_INVALID, Network.INVALID_DBM.
  destruct (_ || _) eqn:E.
  - intros [= <-]. split; [done|]. intros Hv. exfalso. bool_props. lia.
  - apply orb_false_iff in E as [E1 E2]. bool_props. case_match; [|done]. intros [= <-].
    split; [lia|]. intros Hv. Z.to_euclidean_division_equations. lia.
Qed.

(** C33: Signal levels.  On 32-bit levels the conversion overflows exactly for an ecno within 49
    of the least integer and for a negated level that is the least integer.  Otherwise every
    level is the one of the radio on the framework's scale.  The GSM level and the WCDMA and
    TD-SCDMA code powers are the index on a scale of -111 to -48 dBm or -121 to -25 dBm, and
    255 for every index off the scale.  The WCDMA ecio is within -24 and 0, half the steps,
    for an index of 0 to 49, and 255 above 49.  The CDMA, LTE and NR powers are reported with
    their sign turned, whatever they are, the CDMA ecno and LTE snr as tenths cut to whole
    decibels, and what is only displayed as it is; in each of these the mark for no value
    comes out as the framework's (255, and 99 for what is displayed). *)
Theorem signal_levels (sig : SignalStrength) :
  Forall (λ v, is_int32 v = true) (shifted_levels sig) →
  (is_Some (Network.ToHrilRssi sig) ↔
    - 2 ^ 31 + 49 <= ss_wcdma_ecno sig ∧ Forall (λ v, v ≠ - 2 ^ 31) (negated_levels sig)) ∧
  ∀ r, Network.ToHrilRssi sig = Some r →
    (∀ v base top x, In (v, base, top, x)
        [(ss_gsm_signalStrength sig, -111, 63, gsm_rxlev r); (ss_wcdma_rscp sig, -121, 96, wcdma_rscp r);
         (ss_tdscdma_rscp sig, -121, 96, tdscdma_rscp r)] →
      x = if (0 <=? v) && (v <=? top) then base + v else 255) ∧
    (49 < ss_wcdma_ecno sig → wcdma_ecio r = 255) ∧
    (0 <= ss_wcdma_ecno sig <= 49 →
      -24 <= wcdma_ecio r <= 0 ∧ Z.abs (2 * wcdma_ecio r - (ss_wcdma_ecno sig - 49)) <= 1) ∧
    (∀ v x, In (v, x) [(ss_cdma_dbm sig, cdma_absoluteRssi r); (ss_lte_rsrp sig, lte_rsrp r);
                       (ss_lte_rsrq sig, lte_rsrq r); (ss_nr_ssRsrp sig, nr_rsrp r);
                       (ss_nr_ssRsrq sig, nr_rsrq r)] →
      x = if v =? 2 ^ 31 - 1 then 255 else - v) ∧
    (if ss_cdma_ecio sig =? 2 ^ 31 - 1 then cdma_ecno r = 255 else tenths (- ss_cdma_ecio sig) (cdma_ecno r)) ∧
    (if ss_lte_rssnr sig =? 2 ^ 31 - 1 then lte_snr r = 255 else tenths (ss_lte_rssnr sig) (lte_snr r)) ∧
    (∀ v x, In (v, x) [(ss_gsm_bitErrorRate sig, gsm_ber r); (ss_wcdma_signalStrength sig, wcdma_rxlev r);
                       (ss_wcdma_bitErrorRate sig, wcdma_ber r); (ss_lte_signalStrength sig, lte_rxlev r);
                       (ss_nr_ssSinr sig, nr_sinr r)] →
      x = if v =? 2 ^ 31 - 1 then 99 else v).
Proof.
  intros H. split; [by apply rssi_defined|]. intros r Hr. unfold Network.ToHrilRssi in Hr.
  apply bind_Some in Hr as (ecio & Hecio & Hr). apply bind_Some in Hr as (dbm & Hdbm%NegDbm_value & Hr).
  apply bind_Some in Hr as (ecno & Hecno & Hr).
  do 4 (apply bind_Some in Hr as (? & ?%NegDbm_value & Hr)).
  injection Hr as <-. cbn [gsm_rxlev wcdma_rscp tdscdma_rscp lte_rsrp lte_rsrq nr_rsrp nr_rsrq wcdma_ecio
    cdma_absoluteRssi cdma_ecno lte_snr gsm_ber wcdma_rxlev wcdma_ber lte_rxlev nr_sinr].
  split_and!; try by apply ecio_value.
  - intros v base top y Hin. repeat destruct Hin as [[= <- <- <- <-]|Hin]; try by apply IndexDbm_value. done.
  - intros v y Hin. repeat destruct Hin as [[= <- <-]|Hin]; done.
  - by apply ecno_value.
  - apply TenthsDb_value.
  - intros v y Hin. repeat destruct Hin as [[= <- <-]|Hin]; done.
Qed.
Lemma signal_levels_witness :
  let sig := mkSignal 20 0 (2 ^ 31 - 1) (2 ^ 31 - 1) 30 95 11 20 (2 ^ 31 - 1) 99 99 60 20 100 12 5 in
  ∃ r, Network.ToHrilRssi sig = Some r ∧ gsm_rxlev r = -91 ∧ lte_rsrp r = -95.
Proof.
  intros sig. destruct (signal_levels sig) as [_ H].
  - repeat (constructor; [reflexivity|]). constructor.
  - destruct (Network.ToHrilRssi sig) as [r|] eqn:E; [|vm_compute in E; discriminate E].
    exists r. split; [reflexivity|]. destruct (H r eq_refl) as (Hg & _ & _ & Hl & _). split.
    + apply (Hg 20 (-111) 63 (gsm_rxlev r)). left. reflexivity.
    + apply (Hl 95 (lte_rsrp r)). right. left. reflexivity.
Defined.

(** ** Messages *)

(** The reference decoder of a line of hexadecimal digits. *)
Definition hex_value (c : ascii) : option Z :=
  let n := Z.of_nat (Ascii.nat_of_ascii c) in
  if (48 <=? n) && (n <=? 57) then Some (n - 48)
  else if (65 <=? n) && (n <=? 70) then Some (n - 55) else None.
Fixpoint hex_bytes (s : string) : option bytes :=
  match s with
  | "" => Some []
  | String a (String b s) => x ← hex_value a; y ← hex_value b; l ← hex_bytes s; Some (16 * x + y :: l)
  | _ => None
  end.
Lemma hex_value_digit n : 0 <= n < 16 → hex_value (Sms.hex_digit n) = Some n.
Proof.
  intros Hn. assert (n = Z.of_nat (Z.to_nat n)) as -> by lia. assert (Z.to_nat n < 16)%nat as H by lia. revert H.
  generalize (Z.to_nat n). clear. intros k Hk. do 16 (destruct k as [|k]; [reflexivity|]). lia.
Qed.
Lemma hex_bytes_roundtrip l : Forall (λ b, 0 <= b < 256) l → hex_bytes (Sms.BytesToHex l) = Some l.
Proof.
  induction 1 as [|b l Hb _ IH]; [done|]. cbn [Sms.BytesToHex hex_bytes].
  assert (Z.land (Z.shiftr b 4) 15 = b / 16) as ->.
  { rewrite Z.shiftr_div_pow2 // (Z.land_ones _ 4) // Z.mod_small //. split; [apply Z.div_pos; lia|].
    apply Z.div_lt_upper_bound; lia. }
  rewrite (Z.land_ones _ 4) //. change (2 ^ 4) with 16.
  rewrite !hex_value_digit; [|split; [apply Z.div_pos; lia|apply Z.div_lt_upper_bound; lia]|by apply Z.mod_pos_bound].
  cbn. rewrite IH. cbn. do 2 f_equal. rewrite -Z.div_mod //.
Qed.

(** C30: No message is lost on its way up.  A new message's bytes can be read back from the
    hexadecimal text the framework is notified with, at once and before the indication is
    acknowledged to rild (which is when rild may drop it). *)
Theorem sms_pdu_survives (slotId : Z) (ack : bool) (pdu : bytes) (s : Ril) :
  rl_reportOps_ s = true → Forall (λ b, 0 <= b < 256) pdu →
  ∃ text s' acks, Sms.newSms slotId ack pdu s = Some (tt, s') ∧
    rl_log s' = rl_log s ++ ONotify DSms slotId HNOTI_SMS_NEW_SMS (PSms 0 text 0) :: acks ∧
    hex_bytes text = Some pdu ∧
    acks = if ack && in_slots slotId && bool_decide ((IMessaging, slotId) ∈ rl_services s)
           then [OAck IMessaging slotId] else [].
Proof.
  intros Ho Hp. exists (Sms.BytesToHex pdu). unfold Sms.newSms, notify, emit, fbind at 1 2, fget at 1, fmod at 1. rewrite Ho.
  set (s1 := set_rl_log _ s). unfold Sms.AckIndication, service, emit. pose proof (hex_bytes_roundtrip pdu Hp) as Hx.
  assert ((slotId <? 0) || (MAX_SLOTS <=? slotId) = negb (in_slots slotId)) as ->.
  { unfold in_slots. destruct (0 <=? slotId) eqn:E1, (slotId <? MAX_SLOTS) eqn:E2; bool_props;
      apply orb_true_iff || apply orb_false_iff; lia. }
  destruct ack, (in_slots slotId); cbn [negb andb]; unfold fbind, fget, fret, fmod, fwhen; try by eexists _, [].
  change (rl_services s1) with (rl_services s). destruct (bool_decide _); [|by eexists _, []].
  eexists _, _. split_and!; [done| |done|done]. cbn. by rewrite -app_assoc.
Qed.
Lemma sms_pdu_survives_witness :
  ∃ text s' acks, Sms.newSms 0 true [7; 145; 255] (reach [ABind 0]) = Some (tt, s') ∧
    rl_log s' = rl_log (reach [ABind 0]) ++ ONotify DSms 0 HNOTI_SMS_NEW_SMS (PSms 0 text 0) :: acks ∧
    hex_bytes text = Some [7; 145; 255] ∧
    acks = if true && in_slots 0 && bool_decide ((IMessaging, 0) ∈ rl_services (reach [ABind 0]))
           then [OAck IMessaging 0] else [].
Proof.
  apply (sms_pdu_survives 0 true [7; 145; 255] (reach [ABind 0])); [reflexivity|].
  repeat (constructor; [lia|]). constructor.
Defined.
(** The service centre address comes back as it was read. *)
Lemma smsc_roundtrip a : Sms.ApplyTosca (Sms.ToscaOf a) (Some a) = a.
Proof.
  unfold Sms.ApplyTosca, Sms.ToscaOf, text. cbn [default].
  destruct (Sms.starts_with_plus a) eqn:E; rewrite /= ?E ?andb_false_r //.
Qed.
(** Both tables of access networks agree on the technologies a registration can report. *)
Lemma access_network_coherent rat :
  Data.ToAccessNetwork (Network.ToHrilRat rat) = Network.ToAccessNetwork rat.
Proof. by destruct rat. Qed.
