(* ===== verification/SensorVdi.v ===== *)
(** * The sensor HAL (hybris_generic/hardware/sensor/src/hybris_sensor_vdi.cpp)

    The sensor interface on top of MediaTek's sensor hub: which sensors there are, which
    are enabled and how fast, and the samples on their way up.  The device answers through
    an [Env] per call; what it was told is kept in [sn_hub].  Numbers of the framework's
    sensor types are not needed: they are an inductive type.  A sample is kept as the
    quotient the code computes in floating point; ranges are in tenths. *)

From stdpp Require Import gmap.
From S2P Require Import Prelude.
Set Warnings "-rewrite-rw,-clear-no-such-hyp".
#[global] Open Scope Z_scope.

Module Sensor.
Inductive HdfCode := HDF_SUCCESS | HDF_FAILURE | HDF_ERR_NOT_SUPPORT | HDF_ERR_INVALID_PARAM.
#[export] Instance HdfCode_eq_dec : EqDecision HdfCode.
Proof. solve_decision. Defined.
(** HdfSensorTypeTag, an [int32_t]: the types the table names, or another. *)
Inductive SensorType :=
| HDF_SENSOR_TYPE_ACCELEROMETER | HDF_SENSOR_TYPE_GYROSCOPE | HDF_SENSOR_TYPE_MAGNETIC_FIELD
| HDF_SENSOR_TYPE_AMBIENT_LIGHT | HDF_SENSOR_TYPE_PROXIMITY | HDF_SENSOR_TYPE_other (z : Z).
#[export] Instance SensorType_eq_dec : EqDecision SensorType.
Proof. solve_decision. Defined.
#[export] Instance SensorType_countable : Countable SensorType.
Proof.
  refine (inj_countable'
    (λ t, match t with
          | HDF_SENSOR_TYPE_ACCELEROMETER => inl 0%nat | HDF_SENSOR_TYPE_GYROSCOPE => inl 1%nat
          | HDF_SENSOR_TYPE_MAGNETIC_FIELD => inl 2%nat | HDF_SENSOR_TYPE_AMBIENT_LIGHT => inl 3%nat
          | HDF_SENSOR_TYPE_PROXIMITY => inl 4%nat | HDF_SENSOR_TYPE_other z => inr z
          end)
    (λ s, match s with
          | inl 0%nat => HDF_SENSOR_TYPE_ACCELEROMETER | inl 1%nat => HDF_SENSOR_TYPE_GYROSCOPE
          | inl 2%nat => HDF_SENSOR_TYPE_MAGNETIC_FIELD | inl 3%nat => HDF_SENSOR_TYPE_AMBIENT_LIGHT
          | inl _ => HDF_SENSOR_TYPE_PROXIMITY | inr z => HDF_SENSOR_TYPE_other z
          end) _).
  by intros [].
Defined.

Definition HF_ACTION_DISABLE : Z := 0.
Definition HF_ACTION_ENABLE : Z := 1.
Definition HF_DATA_ACTION : Z := 0.
Definition DEFAULT_SAMPLING_NS : Z := 20000000.
Definition GROUP_TRADITIONAL : Z := 0.
Definition GROUP_MEDICAL : Z := 1.

Record SensorMapEntry := mkEntry {
  se_mtkType : Z; se_ohosType : SensorType; se_valueCount : nat; se_reportCount : nat;
  se_maxRange : Z; se_power : Z }.
Definition SENSOR_MAP : list SensorMapEntry :=
  [mkEntry 1 HDF_SENSOR_TYPE_ACCELEROMETER 3 3 392 5;
   mkEntry 4 HDF_SENSOR_TYPE_GYROSCOPE 3 3 349 9;
   mkEntry 2 HDF_SENSOR_TYPE_MAGNETIC_FIELD 3 3 49000 5;
   mkEntry 5 HDF_SENSOR_TYPE_AMBIENT_LIGHT 1 3 655350 1;
   mkEntry 8 HDF_SENSOR_TYPE_PROXIMITY 1 1 50 1].
Definition FindByOhosType (ohosType : SensorType) : option SensorMapEntry :=
  List.find (λ e, bool_decide (se_ohosType e = ohosType)) SENSOR_MAP.
Definition FindByMtkType (mtkType : Z) : option SensorMapEntry :=
  List.find (λ e, se_mtkType e =? mtkType) SENSOR_MAP.

(** What the SENSOR_INFO ioctl fills in, and what is published of it. *)
Record HfSensorInfo := mkRaw { hi_gain : Z; hi_name : string; hi_vendor : string }.
Record HdfSensorInformation := mkInfo {
  in_sensorName : string; in_vendorName : string; in_sensorId : SensorType; in_maxRange : Z;
  in_gain : Z;  (* accuracy is 1 / gain *)
  in_power : Z; in_minDelay : Z; in_maxDelay : Z }.

(** What the device does during one call; the argument is the number of polls so far. *)
Record Env := mkEnv {
  en_open : nat → bool; en_info : nat → Z → option HfSensorInfo; en_write : bool }.

Record SensorVdi := mkVdi {
  sn_fd : bool;  (* fd_ >= 0 *)
  sn_listSettled : bool; sn_bindListServed : bool; sn_running : bool;
  sn_readers : nat;  (* reader threads started *)
  sn_infoList : list HdfSensorInformation;
  sn_gain : gmap Z Z;
  sn_batch : gmap SensorType (Z * Z);
  sn_enabled : gmap SensorType bool;
  sn_callbacks : list Z; sn_medicalCallbacks : list Z;
  sn_hub : gmap Z (Z * Z);  (* the device: enabled types with delay and latency *)
}.
Definition SensorVdi_new : SensorVdi := mkVdi false false false false 0 [] ∅ ∅ ∅ [] [] ∅.
Definition set_fd (x : bool) (s : SensorVdi) : SensorVdi :=
  mkVdi x (sn_listSettled s) (sn_bindListServed s) (sn_running s) (sn_readers s) (sn_infoList s)
    (sn_gain s) (sn_batch s) (sn_enabled s) (sn_callbacks s) (sn_medicalCallbacks s) (sn_hub s).
Definition set_served (settled served : bool) (s : SensorVdi) : SensorVdi :=
  mkVdi (sn_fd s) settled served (sn_running s) (sn_readers s) (sn_infoList s)
    (sn_gain s) (sn_batch s) (sn_enabled s) (sn_callbacks s) (sn_medicalCallbacks s) (sn_hub s).
Definition start_reader (s : SensorVdi) : SensorVdi :=
  mkVdi (sn_fd s) (sn_listSettled s) (sn_bindListServed s) true (S (sn_readers s)) (sn_infoList s)
    (sn_gain s) (sn_batch s) (sn_enabled s) (sn_callbacks s) (sn_medicalCallbacks s) (sn_hub s).
Definition set_list (l : list HdfSensorInformation) (g : gmap Z Z) (s : SensorVdi) : SensorVdi :=
  mkVdi (sn_fd s) (sn_listSettled s) (sn_bindListServed s) (sn_running s) (sn_readers s) l g
    (sn_batch s) (sn_enabled s) (sn_callbacks s) (sn_medicalCallbacks s) (sn_hub s).
Definition set_batch (b : gmap SensorType (Z * Z)) (s : SensorVdi) : SensorVdi :=
  mkVdi (sn_fd s) (sn_listSettled s) (sn_bindListServed s) (sn_running s) (sn_readers s)
    (sn_infoList s) (sn_gain s) b (sn_enabled s) (sn_callbacks s) (sn_medicalCallbacks s) (sn_hub s).
Definition set_enabled (e : gmap SensorType bool) (s : SensorVdi) : SensorVdi :=
  mkVdi (sn_fd s) (sn_listSettled s) (sn_bindListServed s) (sn_running s) (sn_readers s)
    (sn_infoList s) (sn_gain s) (sn_batch s) e (sn_callbacks s) (sn_medicalCallbacks s) (sn_hub s).
Definition set_callbacks (c m : list Z) (s : SensorVdi) : SensorVdi :=
  mkVdi (sn_fd s) (sn_listSettled s) (sn_bindListServed s) (sn_running s) (sn_readers s)
    (sn_infoList s) (sn_gain s) (sn_batch s) (sn_enabled s) c m (sn_hub s).
Definition set_hub (h : gmap Z (Z * Z)) (s : SensorVdi) : SensorVdi :=
  mkVdi (sn_fd s) (sn_listSettled s) (sn_bindListServed s) (sn_running s) (sn_readers s)
    (sn_infoList s) (sn_gain s) (sn_batch s) (sn_enabled s) (sn_callbacks s) (sn_medicalCallbacks s) h.

(** ** The list of sensors *)

Definition publish (e : SensorMapEntry) (raw : HfSensorInfo) : HdfSensorInformation :=
  let gain := if 0 <? hi_gain raw then hi_gain raw else 1 in
  mkInfo (hi_name raw) (hi_vendor raw) (se_ohosType e) (se_maxRange e) gain (se_power e) 5000000 1000000000.
(** One turn of the loop over the table. *)
Definition enumerate_one (env : Env) (k : nat) (s : SensorVdi) (e : SensorMapEntry) : SensorVdi :=
  match en_info env k (se_mtkType e) with
  | None => s
  | Some raw =>
      let info := publish e raw in
      set_list (sn_infoList s ++ [info]) (<[se_mtkType e := in_gain info]> (sn_gain s)) s
  end.
Definition EnumerateLocked (env : Env) (k : nat) (s : SensorVdi) : SensorVdi :=
  foldl (enumerate_one env k) s SENSOR_MAP.
Definition EnsureOpenLocked (env : Env) (k : nat) (s : SensorVdi) : HdfCode * SensorVdi :=
  if sn_fd s then (HDF_SUCCESS, s)
  else if negb (en_open env k) then (HDF_FAILURE, s)
  else
    let s := EnumerateLocked env k (set_fd true s) in
    match sn_infoList s with
    | [] => (HDF_FAILURE, set_fd false s)
    | _ => (HDF_SUCCESS, start_reader s)
    end.
Definition CountReadyLocked (env : Env) (k : nat) (s : SensorVdi) : nat :=
  if sn_fd s || en_open env k
  then length (filter (λ e, is_Some (en_info env k (se_mtkType e))) SENSOR_MAP) else 0%nat.
(** The settle loop from poll [k], with [n] polls to go before SETTLE_MAX_MS; the polls
    done and the last count. *)
Definition POLL_MS : Z := 200.
Definition STABLE_MS : Z := 2000.
Definition SETTLE_MAX_MS : Z := 10000.
Fixpoint settle_loop (env : Env) (s : SensorVdi) (n k last : nat) (stableFor : Z) : nat * nat :=
  match n with
  | O => (k, last)
  | S n =>
      let c := CountReadyLocked env k s in
      if (0 <? c)%nat && (c =? last)%nat then
        let stableFor := stableFor + POLL_MS in
        if STABLE_MS <=? stableFor then (k, last) else settle_loop env s n (S k) last stableFor
      else settle_loop env s n (S k) c 0
  end.
Definition SettleSensorListLocked (env : Env) (s : SensorVdi) : nat * SensorVdi :=
  let '(k, last) := settle_loop env s (Z.to_nat (SETTLE_MAX_MS / POLL_MS)) 0 0 0 in
  (k, if sn_fd s && (length (sn_infoList s) <? last)%nat
      then EnumerateLocked env k (set_list [] (sn_gain s) s) else s).
Definition Init (env : Env) (s : SensorVdi) : HdfCode * SensorVdi := (HDF_SUCCESS, (EnsureOpenLocked env 0 s).2).
Definition GetAllSensorInfo (env : Env) (s : SensorVdi) : list HdfSensorInformation * SensorVdi :=
  let '(k, s) :=
    if negb (sn_bindListServed s) then (0%nat, set_served (sn_listSettled s) true s)
    else if negb (sn_listSettled s)
    then let '(k, s) := SettleSensorListLocked env s in (k, set_served true (sn_bindListServed s) s)
    else (0%nat, s) in
  let s := (EnsureOpenLocked env k s).2 in
  (sn_infoList s, s).
Definition GetDeviceSensorInfo (env : Env) (s : SensorVdi) : list HdfSensorInformation * SensorVdi :=
  GetAllSensorInfo env s.

(** ** Switching sensors *)

Definition SendCmdLocked (env : Env) (mtkType action delayNs latencyNs : Z) (s : SensorVdi) : HdfCode * SensorVdi :=
  if negb (sn_fd s) then (HDF_FAILURE, s)
  else if negb (en_write env) then (HDF_FAILURE, s)
  else
    (HDF_SUCCESS,
     set_hub (if Z.land action 15 =? HF_ACTION_ENABLE then <[mtkType := (delayNs, latencyNs)]> (sn_hub s)
              else delete mtkType (sn_hub s)) s).
Definition Enable (env : Env) (sensorId : SensorType) (s : SensorVdi) : HdfCode * SensorVdi :=
  match FindByOhosType sensorId with
  | None => (HDF_ERR_NOT_SUPPORT, s)
  | Some e =>
      let '(ret, s) := EnsureOpenLocked env 0 s in
      if bool_decide (ret ≠ HDF_SUCCESS) then (HDF_FAILURE, s)
      else
        let sampling := match sn_batch s !! sensorId with
                        | Some (samplingInterval, _) =>
                            if 0 <? samplingInterval then samplingInterval else DEFAULT_SAMPLING_NS
                        | None => DEFAULT_SAMPLING_NS
                        end in
        let '(ret, s) := SendCmdLocked env (se_mtkType e) HF_ACTION_ENABLE sampling 0 s in
        (ret, if bool_decide (ret = HDF_SUCCESS) then set_enabled (<[sensorId := true]> (sn_enabled s)) s else s)
  end.
Definition Disable (env : Env) (sensorId : SensorType) (s : SensorVdi) : HdfCode * SensorVdi :=
  match FindByOhosType sensorId with
  | None => (HDF_ERR_NOT_SUPPORT, s)
  | Some e =>
      let s := set_enabled (<[sensorId := false]> (sn_enabled s)) s in
      if negb (sn_fd s) then (HDF_SUCCESS, s)
      else SendCmdLocked env (se_mtkType e) HF_ACTION_DISABLE 0 0 s
  end.
Definition SetBatch (env : Env) (sensorId : SensorType) (samplingInterval reportInterval : Z) (s : SensorVdi) :
    HdfCode * SensorVdi :=
  match FindByOhosType sensorId with
  | None => (HDF_ERR_NOT_SUPPORT, s)
  | Some e =>
      if (samplingInterval <? 0) || (reportInterval <? 0) then (HDF_ERR_INVALID_PARAM, s)
      else
        let s := set_batch (<[sensorId := (samplingInterval, reportInterval)]> (sn_batch s)) s in
        (* enabled_[sensorId] makes the entry *)
        let on := default false (sn_enabled s !! sensorId) in
        let s := set_enabled (<[sensorId := on]> (sn_enabled s)) s in
        if on then
          SendCmdLocked env (se_mtkType e) HF_ACTION_ENABLE
            (if 0 <? samplingInterval then samplingInterval else DEFAULT_SAMPLING_NS) reportInterval s
        else (HDF_SUCCESS, s)
  end.
Definition SetSaBatch (s : SensorVdi) : HdfCode * SensorVdi := (HDF_SUCCESS, s).
Definition SENSOR_MODE_REALTIME : Z := 1.
Definition SENSOR_MODE_ON_CHANGE : Z := 2.
Definition SetMode (sensorId : SensorType) (mode : Z) (s : SensorVdi) : HdfCode * SensorVdi :=
  match FindByOhosType sensorId with
  | None => (HDF_ERR_NOT_SUPPORT, s)
  | Some _ =>
      (if negb (mode =? SENSOR_MODE_REALTIME) && negb (mode =? SENSOR_MODE_ON_CHANGE)
       then HDF_FAILURE else HDF_SUCCESS, s)
  end.
Definition SetOption (sensorId : SensorType) (s : SensorVdi) : HdfCode * SensorVdi :=
  (match FindByOhosType sensorId with Some _ => HDF_SUCCESS | None => HDF_ERR_NOT_SUPPORT end, s).

(** ** Callbacks and samples *)

Definition Register (groupId : Z) (callbackObj : option Z) (s : SensorVdi) : HdfCode * SensorVdi :=
  if (groupId <? GROUP_TRADITIONAL) || (GROUP_MEDICAL <? groupId) then (HDF_ERR_INVALID_PARAM, s)
  else
    match callbackObj with
    | None => (HDF_ERR_INVALID_PARAM, s)
    | Some cb =>
        let add l := if bool_decide (cb ∈ l) then l else l ++ [cb] in
        (HDF_SUCCESS,
         if groupId =? GROUP_TRADITIONAL then set_callbacks (add (sn_callbacks s)) (sn_medicalCallbacks s) s
         else set_callbacks (sn_callbacks s) (add (sn_medicalCallbacks s)) s)
    end.
Fixpoint erase_first (cb : Z) (l : list Z) : list Z :=
  match l with
  | [] => []
  | c :: l => if c =? cb then l else c :: erase_first cb l
  end.
Definition Unregister (groupId : Z) (callbackObj : option Z) (s : SensorVdi) : HdfCode * SensorVdi :=
  if (groupId <? GROUP_TRADITIONAL) || (GROUP_MEDICAL <? groupId) then (HDF_ERR_INVALID_PARAM, s)
  else
    let drop l := match callbackObj with Some cb => erase_first cb l | None => l end in
    (HDF_SUCCESS,
     if groupId =? GROUP_TRADITIONAL then set_callbacks (drop (sn_callbacks s)) (sn_medicalCallbacks s) s
     else set_callbacks (sn_callbacks s) (drop (sn_medicalCallbacks s)) s).

Record HfManagerEvent := mkEvent {
  ev_timestamp : Z; ev_sensorType : Z; ev_action : Z; ev_word : list Z (* 16 *) }.
(** A float of an event: the zero of the padding, or word / gain. *)
Inductive Sample := SZero | SQuot (word gain : Z).
Record HdfSensorEvents := mkOut {
  oe_sensorId : SensorType; oe_timestamp : Z; oe_dataLen : Z; oe_data : list Sample }.
(** [values] is an array of three; reading or writing outside of it or of [word] is [None]. *)
Fixpoint scale (word : list Z) (gain : Z) (i n : nat) (values : list Sample) : option (list Sample) :=
  match n with
  | O => Some values
  | S n =>
      w ← word !! i;
      if (i <? length values)%nat then scale word gain (S i) n (<[i := SQuot w gain]> values) else None
  end.
Definition DispatchEvent (ev : HfManagerEvent) (s : SensorVdi) : option (list (Z * HdfSensorEvents)) :=
  if negb (ev_action ev =? HF_DATA_ACTION) then Some []
  else
    match FindByMtkType (ev_sensorType ev) with
    | None => Some []
    | Some e =>
        let gain := default 1 (sn_gain s !! ev_sensorType ev) in
        values ← scale (ev_word ev) gain 0 (se_valueCount e) [SZero; SZero; SZero];
        if (length values <? se_reportCount e)%nat then None
        else
          let event := mkOut (se_ohosType e) (ev_timestamp ev) (4 * Z.of_nat (se_reportCount e))
                         (take (se_reportCount e) values) in
          Some ((λ cb, (cb, event)) <$> sn_callbacks s)
    end.

(** ** The machine *)

Inductive Call :=
| CInit | CGetAllSensorInfo | CEnable (id : SensorType) | CDisable (id : SensorType)
| CSetBatch (id : SensorType) (samplingInterval reportInterval : Z) | CSetSaBatch
| CSetMode (id : SensorType) (mode : Z) | CSetOption (id : SensorType)
| CRegister (groupId : Z) (cb : option Z) | CUnregister (groupId : Z) (cb : option Z).
Definition step (c : Call) (env : Env) (s : SensorVdi) : SensorVdi :=
  match c with
  | CInit => (Init env s).2
  | CGetAllSensorInfo => (GetAllSensorInfo env s).2
  | CEnable id => (Enable env id s).2
  | CDisable id => (Disable env id s).2
  | CSetBatch id a b => (SetBatch env id a b s).2
  | CSetSaBatch => (SetSaBatch s).2
  | CSetMode id m => (SetMode id m s).2
  | CSetOption id => (SetOption id s).2
  | CRegister g cb => (Register g cb s).2
  | CUnregister g cb => (Unregister g cb s).2
  end.
Definition sensor_run (l : list (Call * Env)) (s : SensorVdi) : SensorVdi := foldl (λ s c, step c.1 c.2 s) s l.

(** ** Lemmas on the table and the list *)

Lemma FindByOhosType_Some id e : FindByOhosType id = Some e → e ∈ SENSOR_MAP ∧ se_ohosType e = id.
Proof.
  intros H. apply List.find_some in H as [Hin H]. split; [by apply list_elem_of_In|]. by apply bool_decide_eq_true in H.
Qed.
Lemma map_nodup : NoDup (se_mtkType <$> SENSOR_MAP) ∧ NoDup (se_ohosType <$> SENSOR_MAP).
Proof. split; apply (bool_decide_unpack _); vm_compute; exact I. Qed.
Lemma map_inj e e' :
  e ∈ SENSOR_MAP → e' ∈ SENSOR_MAP → se_mtkType e = se_mtkType e' ∨ se_ohosType e = se_ohosType e' → e = e'.
Proof.
  assert (∀ {A} (f : SensorMapEntry → A), NoDup (f <$> SENSOR_MAP) →
    ∀ x y, x ∈ SENSOR_MAP → y ∈ SENSOR_MAP → f x = f y → x = y) as H.
  { intros A f Hn x y [i Hi]%list_elem_of_lookup [j Hj]%list_elem_of_lookup E.
    assert (i = j) as -> by (eapply NoDup_lookup; [exact Hn|rewrite list_lookup_fmap Hi //|rewrite list_lookup_fmap Hj /= E //]).
    congruence. }
  intros Hx Hy [E|E]; [exact (H _ _ (proj1 map_nodup) _ _ Hx Hy E)|exact (H _ _ (proj2 map_nodup) _ _ Hx Hy E)].
Qed.
(** All but the list and the gains. *)
Definition frame (s s' : SensorVdi) : Prop :=
  sn_fd s' = sn_fd s ∧ sn_running s' = sn_running s ∧ sn_readers s' = sn_readers s ∧
  sn_batch s' = sn_batch s ∧ sn_enabled s' = sn_enabled s ∧ sn_hub s' = sn_hub s.
Definition answer (env : Env) (k : nat) (e : SensorMapEntry) : option HdfSensorInformation :=
  publish e <$> en_info env k (se_mtkType e).
Lemma enumerate_frame env k l s : frame s (foldl (enumerate_one env k) s l).
Proof.
  revert s. induction l as [|e l IH]; intros s; cbn [foldl]; [by repeat split|].
  assert (frame s (enumerate_one env k s e)) as (? & ? & ? & ? & ? & ?).
  { unfold enumerate_one. destruct (en_info env k (se_mtkType e)); by repeat split. }
  destruct (IH (enumerate_one env k s e)) as (? & ? & ? & ? & ? & ?). repeat split; by etrans.
Qed.
Lemma enumerate_list env k l s :
  sn_infoList (foldl (enumerate_one env k) s l) = sn_infoList s ++ omap (answer env k) l.
Proof.
  revert s. induction l as [|e l IH]; intros s; cbn [foldl omap list_omap]; [by rewrite app_nil_r|].
  rewrite IH. unfold enumerate_one, answer at 2. destruct (en_info env k (se_mtkType e)); cbn; [by rewrite -app_assoc|done].
Qed.
Lemma enumerate_gain_other env k l s t :
  t ∉ se_mtkType <$> l → sn_gain (foldl (enumerate_one env k) s l) !! t = sn_gain s !! t.
Proof.
  revert s. induction l as [|e l IH]; intros s Ht; cbn [foldl]; [done|].
  rewrite fmap_cons not_elem_of_cons in Ht. destruct Ht as [Hne Ht]. rewrite (IH _ Ht).
  unfold enumerate_one. destruct (en_info env k (se_mtkType e)); [|done]. by apply lookup_insert_ne.
Qed.
Lemma enumerate_gain env k l s e info :
  NoDup (se_mtkType <$> l) → e ∈ l → answer env k e = Some info →
  sn_gain (foldl (enumerate_one env k) s l) !! se_mtkType e = Some (in_gain info).
Proof.
  revert s. induction l as [|x l IH]; intros s Hn Hin Ha; [by apply not_elem_of_nil in Hin|].
  rewrite fmap_cons in Hn. apply NoDup_cons in Hn as [Hx Hn]. cbn [foldl].
  apply elem_of_cons in Hin as [->|Hin]; [|by apply IH].
  rewrite (enumerate_gain_other env k l _ _ Hx). unfold enumerate_one. unfold answer in Ha.
  destruct (en_info env k (se_mtkType x)); [|done]. injection Ha as <-. apply lookup_insert_eq.
Qed.

(** ** The invariant

    The list names sensors of the table, in its order, each once, with the gain its
    samples are divided by; it is empty while the device is not open; there is one reader
    exactly while it is.  What is enabled runs on the hub; while every command was taken
    ([ok]), at the rate asked for, and nothing else runs. *)

Definition rate (s : SensorVdi) (id : SensorType) : Z :=
  match sn_batch s !! id with
  | Some (sampling, _) => if 0 <? sampling then sampling else DEFAULT_SAMPLING_NS
  | None => DEFAULT_SAMPLING_NS
  end.
Definition is_on (s : SensorVdi) (id : SensorType) : Prop := sn_enabled s !! id = Some true.
Definition listed_ok (s : SensorVdi) : Prop :=
  in_sensorId <$> sn_infoList s `sublist_of` se_ohosType <$> SENSOR_MAP ∧
  (∀ e info, e ∈ SENSOR_MAP → info ∈ sn_infoList s → in_sensorId info = se_ohosType e →
     sn_gain s !! se_mtkType e = Some (in_gain info) ∧ 1 <= in_gain info).
Definition open_ok (s : SensorVdi) : Prop :=
  if sn_fd s then sn_running s = true ∧ sn_readers s = 1%nat
  else sn_infoList s = [] ∧ sn_readers s = 0%nat ∧ sn_hub s = ∅ ∧ ∀ id, ¬ is_on s id.
Definition mirror (ok : bool) (s : SensorVdi) : Prop :=
  ∀ e, e ∈ SENSOR_MAP →
    (is_on s (se_ohosType e) → ∃ d l, sn_hub s !! se_mtkType e = Some (d, l) ∧ (ok = true → d = rate s (se_ohosType e))) ∧
    (ok = true → ¬ is_on s (se_ohosType e) → sn_hub s !! se_mtkType e = None).
Definition wf (ok : bool) (s : SensorVdi) : Prop := listed_ok s ∧ open_ok s ∧ mirror ok s.

Lemma mirror_frame ok s s' : frame s s' → mirror ok s → mirror ok s'.
Proof. intros (_ & _ & _ & E1 & E2 & E3). unfold mirror, is_on, rate. by rewrite E1 E2 E3. Qed.
Lemma answers_ids env k l : in_sensorId <$> omap (answer env k) l `sublist_of` se_ohosType <$> l.
Proof.
  induction l as [|e l IH]; [done|]. cbn [omap list_omap]. unfold answer at 1.
  destruct (en_info env k (se_mtkType e)); cbn; by constructor.
Qed.
Lemma publish_id e raw : in_sensorId (publish e raw) = se_ohosType e ∧ 1 <= in_gain (publish e raw).
Proof. split; [done|]. cbn. destruct (0 <? hi_gain raw) eqn:E; bool_props; lia. Qed.
Lemma enumerate_listed env k s : sn_infoList s = [] → listed_ok (EnumerateLocked env k s).
Proof.
  intros Hs. unfold EnumerateLocked. split.
  - rewrite enumerate_list Hs. apply answers_ids.
  - intros e info He. rewrite enumerate_list Hs. intros (x & Hx & Ha)%list_elem_of_omap Hid.
    assert (Ha' := Ha). unfold answer in Ha'. destruct (en_info env k (se_mtkType x)) as [raw|] eqn:E; [|done].
    injection Ha' as <-. assert (x = e) as -> by (apply map_inj; [done|done|by right]).
    split; [|apply publish_id]. eapply enumerate_gain; [apply map_nodup|done|exact Ha].
Qed.
Lemma EnsureOpen_wf ok env k s : wf ok s → wf ok (EnsureOpenLocked env k s).2.
Proof.
  intros (H1 & H2 & H3). unfold EnsureOpenLocked. destruct (sn_fd s) eqn:Ef; [done|].
  destruct (negb _); [done|]. unfold open_ok in H2. rewrite Ef in H2. destruct H2 as (Hl & Hr & Hh & Hon).
  destruct (enumerate_frame env k SENSOR_MAP (set_fd true s)) as (F1 & F2 & F3 & F4 & F5 & F6).
  fold (EnumerateLocked env k (set_fd true s)) in *.
  assert (listed_ok (EnumerateLocked env k (set_fd true s))) as HL by by apply enumerate_listed.
  set (s1 := EnumerateLocked _ _ _) in *.
  assert (mirror ok s1) as HM by (revert H3; unfold mirror, is_on, rate; by rewrite F4 F5 F6).
  destruct (sn_infoList s1) as [|i l] eqn:El; cbn [snd].
  - split_and!; [exact HL| |exact HM]. unfold open_ok, is_on. cbn. rewrite El F3 F6 F5. split_and!; done.
  - split_and!; [exact HL| |exact HM]. unfold open_ok. cbn. rewrite F1 F3 /=. cbn. by rewrite Hr.
Qed.
Lemma wf_view ok s s' :
  sn_fd s' = sn_fd s → sn_running s' = sn_running s → sn_readers s' = sn_readers s →
  sn_infoList s' = sn_infoList s → sn_gain s' = sn_gain s → sn_batch s' = sn_batch s →
  sn_enabled s' = sn_enabled s → sn_hub s' = sn_hub s → wf ok s → wf ok s'.
Proof. unfold wf, listed_ok, open_ok, mirror, is_on, rate. by intros -> -> -> -> -> -> -> ->. Qed.
Lemma wf_weaken ok s : wf ok s → wf false s.
Proof.
  intros (? & ? & H). split_and!; [done|done|]. intros e He. destruct (H e He) as [M _]. split; [|done].
  intros Hon. destruct (M Hon) as (d & l & E & _). by exists d, l.
Qed.
Lemma Settle_wf ok env s : wf ok s → wf ok (SettleSensorListLocked env s).2.
Proof.
  intros H. unfold SettleSensorListLocked. destruct (settle_loop _ _ _ _ _ _) as [k last].
  destruct (sn_fd s && _) eqn:E; [|done]. apply andb_true_iff in E as [Ef _]. destruct H as (H1 & H2 & H3).
  destruct (enumerate_frame env k SENSOR_MAP (set_list [] (sn_gain s) s)) as (F1 & F2 & F3 & F4 & F5 & F6).
  cbn [snd]. unfold open_ok in H2. rewrite Ef in H2. split_and!.
  - by apply enumerate_listed.
  - unfold open_ok, EnumerateLocked. rewrite F1 F2 F3. cbn. by rewrite Ef.
  - eapply mirror_frame; [|exact H3]. by repeat split.
Qed.
Lemma GetAll_wf ok env s : wf ok s → wf ok (GetAllSensorInfo env s).2.
Proof.
  intros H. unfold GetAllSensorInfo. destruct (negb (sn_bindListServed s)).
  - cbn [snd]. by apply EnsureOpen_wf, (wf_view ok s).
  - destruct (negb (sn_listSettled s)); [|by apply EnsureOpen_wf].
    pose proof (Settle_wf ok env s H) as Hs. destruct (SettleSensorListLocked env s) as [k s1]. cbn [snd] in *.
    by apply EnsureOpen_wf, (wf_view ok s1).
Qed.
(** A command that is taken switches one sensor of the hub. *)
Lemma SendCmd_cases env t a d l s :
  SendCmdLocked env t a d l s =
    if sn_fd s && en_write env
    then (HDF_SUCCESS, set_hub (if Z.land a 15 =? HF_ACTION_ENABLE then <[t := (d, l)]> (sn_hub s) else delete t (sn_hub s)) s)
    else (HDF_FAILURE, s).
Proof. unfold SendCmdLocked. by destruct (sn_fd s), (en_write env). Qed.
(** [s'] differs from [s] in what concerns the sensor of [e]: the rate, whether it is on,
    and what the hub was told of it. *)
Lemma wf_switch ok ok' e s s' :
  wf ok s → e ∈ SENSOR_MAP → sn_fd s = true → (ok' = true → ok = true) →
  sn_fd s' = true → sn_running s' = sn_running s → sn_readers s' = sn_readers s →
  sn_infoList s' = sn_infoList s → sn_gain s' = sn_gain s →
  (∀ id, id ≠ se_ohosType e → sn_batch s' !! id = sn_batch s !! id ∧ (is_on s' id ↔ is_on s id)) →
  (∀ t, t ≠ se_mtkType e → sn_hub s' !! t = sn_hub s !! t) →
  (is_on s' (se_ohosType e) → ∃ d l, sn_hub s' !! se_mtkType e = Some (d, l) ∧ (ok' = true → d = rate s' (se_ohosType e))) →
  (ok' = true → ¬ is_on s' (se_ohosType e) → sn_hub s' !! se_mtkType e = None) →
  wf ok' s'.
Proof.
  intros (H1 & H2 & H3) He Ef Hok Ef' E1 E2 E3 E4 Hid Ht Hon Hoff. split_and!.
  - unfold listed_ok. by rewrite E3 E4.
  - unfold open_ok in *. rewrite Ef in H2. by rewrite Ef' E1 E2.
  - intros x Hx. destruct (decide (se_ohosType x = se_ohosType e)) as [E|N1].
    { assert (x = e) as -> by (apply map_inj; auto). by split. }
    assert (se_mtkType x ≠ se_mtkType e) as N2 by (intros E; apply N1; f_equal; apply map_inj; auto).
    destruct (Hid _ N1) as [Eb Eo]. rewrite Eo (Ht _ N2). unfold rate. rewrite Eb. destruct (H3 x Hx) as [M1 M2]. split.
    + intros Ho. destruct (M1 Ho) as (d & l & E & Hd). exists d, l. split; [done|]. intros ?. by apply Hd, Hok.
    + intros ? Ho. by apply M2; [apply Hok|].
Qed.
Definition and_write (ok : bool) (env : Env) : bool := ok && en_write env.
Lemma wf_write ok env s : wf ok s → wf (and_write ok env) s.
Proof.
  intros H. unfold and_write. destruct (en_write env); [by rewrite andb_true_r|]. rewrite andb_false_r. by eapply wf_weaken.
Qed.
(** With the device closed nothing is on. *)
Lemma wf_closed ok ok' s s' :
  wf ok s → sn_fd s = false → sn_fd s' = false → sn_infoList s' = sn_infoList s → sn_gain s' = sn_gain s →
  sn_readers s' = sn_readers s → sn_hub s' = sn_hub s → (∀ id, ¬ is_on s' id) → wf ok' s'.
Proof.
  intros (H1 & H2 & _) Ef Ef' E1 E2 E3 E4 Hon. unfold open_ok in H2. rewrite Ef in H2. destruct H2 as (L & R & Hh & _).
  split_and!.
  - unfold listed_ok. by rewrite E1 E2.
  - unfold open_ok. by rewrite Ef' E1 E3 E4.
  - intros e He. split; [by intros ?%Hon|]. intros _ _. by rewrite E4 Hh.
Qed.
Lemma EnsureOpen_open env k s : (EnsureOpenLocked env k s).1 = HDF_SUCCESS → sn_fd (EnsureOpenLocked env k s).2 = true.
Proof.
  unfold EnsureOpenLocked. destruct (sn_fd s) eqn:Ef; [done|]. destruct (negb _); [done|].
  destruct (enumerate_frame env k SENSOR_MAP (set_fd true s)) as (F1 & _). fold (EnumerateLocked env k (set_fd true s)) in F1.
  destruct (sn_infoList _); [done|]. intros _. exact F1.
Qed.
Lemma is_on_insert s s' id id' b :
  sn_enabled s' = <[id := b]> (sn_enabled s) → is_on s' id' ↔ if bool_decide (id = id') then b = true else is_on s id'.
Proof.
  unfold is_on. intros ->. case_bool_decide; [subst; rewrite lookup_insert_eq|by rewrite lookup_insert_ne].
  split; [by intros [= ->]|by intros ->].
Qed.
Lemma is_on_other s s' id id' b : sn_enabled s' = <[id := b]> (sn_enabled s) → id' ≠ id → is_on s' id' ↔ is_on s id'.
Proof. intros E Hne. by rewrite (is_on_insert s s' id id' b E) bool_decide_eq_false_2. Qed.
Lemma is_on_same s s' id b : sn_enabled s' = <[id := b]> (sn_enabled s) → is_on s' id ↔ b = true.
Proof. intros E. by rewrite (is_on_insert s s' id id b E) bool_decide_eq_true_2. Qed.
Lemma Enable_wf ok env id s : wf ok s → wf (and_write ok env) (Enable env id s).2.
Proof.
  intros H. unfold Enable. destruct (FindByOhosType id) as [e|] eqn:Ee.
  2: by apply wf_write.
  apply FindByOhosType_Some in Ee as [He <-].
  pose proof (EnsureOpen_wf ok env 0 s H) as H1. pose proof (EnsureOpen_open env 0 s) as Ho.
  destruct (EnsureOpenLocked env 0 s) as [ret s1]. cbn [fst snd] in *.
  assert (wf (and_write ok env) s1) as Hs1 by by apply wf_write.
  case_bool_decide as Hr; [done|]. assert (sn_fd s1 = true) as Ef by (apply Ho; by destruct (decide (ret = HDF_SUCCESS))).
  rewrite SendCmd_cases Ef /=. destruct (en_write env) eqn:Ew; cbn [snd]; [|done].
  eapply (wf_switch _ _ e s1); [exact Hs1|done|done|done|done..| | | |].
  - intros x Hx. split; [done|]. by eapply is_on_other.
  - intros t Hne. cbn. by apply lookup_insert_ne.
  - intros _. eexists _, _. split; [apply lookup_insert_eq|]. intros _. done.
  - intros _ Hn. destruct Hn. by eapply is_on_same; [reflexivity|].
Qed.
Lemma Disable_wf ok env id s : wf ok s → wf (and_write ok env) (Disable env id s).2.
Proof.
  intros H. unfold Disable. destruct (FindByOhosType id) as [e|] eqn:Ee; [|by apply wf_write].
  apply FindByOhosType_Some in Ee as [He <-]. cbn [sn_fd set_enabled].
  destruct (sn_fd s) eqn:Ef; cbn [negb snd].
  - rewrite SendCmd_cases /= Ef /=. destruct (en_write env) eqn:Ew; cbn [snd].
    + eapply (wf_switch ok _ e s); [done|done|done|by intros [? _]%andb_true_iff|done..| | | |].
      * intros x Hx. split; [done|]. by eapply is_on_other.
      * intros t Hne. cbn. by apply lookup_delete_ne.
      * intros Hon. by eapply is_on_same in Hon; [|reflexivity].
      * intros _ _. cbn. apply lookup_delete_eq.
    + eapply (wf_switch ok _ e s); [done|done|done|by intros [? _]%andb_true_iff|done..| | | |].
      * intros x Hx. split; [done|]. by eapply is_on_other.
      * done.
      * intros Hon. by eapply is_on_same in Hon; [|reflexivity].
      * unfold and_write. rewrite Ew. by rewrite andb_false_r.
  - eapply (wf_closed ok); [exact H|done..|]. intros x Hon. eapply is_on_insert in Hon; [|done]. destruct H as (_ & H & _). unfold open_ok in H.
    rewrite Ef in H. destruct H as (_ & _ & _ & H). case_bool_decide; [done|]. by eapply H.
Qed.
Lemma SetBatch_wf ok env id a b s : wf ok s → wf (and_write ok env) (SetBatch env id a b s).2.
Proof.
  intros H. unfold SetBatch. destruct (FindByOhosType id) as [e|] eqn:Ee; [|by apply wf_write].
  apply FindByOhosType_Some in Ee as [He <-]. destruct (_ || _); [by apply wf_write|].
  set (s1 := set_batch _ s). change (sn_enabled s1) with (sn_enabled s). set (on := default false (sn_enabled s !! se_ohosType e)).
  set (s2 := set_enabled _ s1). assert (sn_enabled s2 = <[se_ohosType e := on]> (sn_enabled s)) as E2 by done.
  assert (is_on s (se_ohosType e) ↔ on = true) as Eon.
  { unfold is_on, on. by destruct (sn_enabled s !! se_ohosType e) as [[]|]. }
  assert (∀ x, is_on s2 x ↔ is_on s x) as Esame.
  { intros x. rewrite (is_on_insert s s2 _ x on E2). case_bool_decide as Ex; [by rewrite -Ex Eon|done]. }
  assert (Hm := proj2 (proj2 H) e He). assert (Hop := proj1 (proj2 H)). unfold open_ok in Hop.
  destruct (sn_fd s) eqn:Ef.
  2: { destruct Hop as (_ & _ & _ & Hn). destruct on eqn:Eo; [by destruct (Hn _ (proj2 Eon eq_refl))|].
       cbn [snd]. eapply (wf_closed ok); [exact H|done..|]. intros x Hx%Esame. by eapply Hn. }
  destruct on eqn:Eo.
  - rewrite SendCmd_cases. cbn [sn_fd s2 s1 set_enabled set_batch]. rewrite Ef /=. destruct (en_write env) eqn:Ew; cbn [snd].
    + eapply (wf_switch ok _ e s); [done|done|done|by intros [? _]%andb_true_iff|done..| | | |].
      * intros x Hx. split; [cbn; by rewrite lookup_insert_ne|apply Esame].
      * intros t Hne. cbn. by apply lookup_insert_ne.
      * intros _. eexists _, _. split; [apply lookup_insert_eq|]. intros _. unfold rate. cbn. by rewrite lookup_insert_eq.
      * intros _ Hn. destruct Hn. by apply (Esame (se_ohosType e)), Eon.
    + eapply (wf_switch ok _ e s); [done|done|done|by intros [? _]%andb_true_iff|done..| | | |].
      * intros x Hx. split; [cbn; by rewrite lookup_insert_ne|apply Esame].
      * done.
      * intros _. destruct Hm as [Hm _]. destruct Hm as (d & l & Ed & _); [by apply Eon|]. exists d, l.
        split; [exact Ed|]. unfold and_write. by rewrite Ew andb_false_r.
      * unfold and_write. by rewrite Ew andb_false_r.
  - cbn [snd]. apply wf_write. eapply (wf_switch ok _ e s); [done|done|done|done|done..| | | |].
    + intros x Hx. split; [cbn; by rewrite lookup_insert_ne|apply Esame].
    + done.
    + intros Hx%Esame%Eon. done.
    + intros Hk _. apply Hm; [done|]. by intros ?%Eon.
Qed.
Lemma Callbacks_wf ok c m s : wf ok s → wf ok (set_callbacks c m s).
Proof. by apply wf_view. Qed.
Lemma step_wf ok c env s : wf ok s → wf (and_write ok env) (step c env s).
Proof.
  intros H. destruct c; cbn [step];
    auto using Enable_wf, Disable_wf, SetBatch_wf, wf_write, GetAll_wf.
  - by apply wf_write, EnsureOpen_wf.
  - unfold SetMode. destruct (FindByOhosType id); by apply wf_write.
  - apply wf_write. unfold Register. repeat case_match; cbn [snd]; auto using Callbacks_wf.
  - apply wf_write. unfold Unregister. repeat case_match; cbn [snd]; auto using Callbacks_wf.
Qed.
Definition all_written (l : list (Call * Env)) : bool := forallb (λ c, en_write c.2) l.
Lemma sensor_run_wf l s ok : wf ok s → wf (ok && all_written l) (sensor_run l s).
Proof.
  revert s ok. induction l as [|[c env] l IH]; intros s ok H; [by rewrite andb_true_r|].
  cbn [sensor_run foldl all_written forallb fst snd]. rewrite andb_assoc. by apply IH, step_wf.
Qed.
Lemma new_wf : wf true SensorVdi_new.
Proof. split_and!; [split; [apply sublist_nil_l|by intros e info _ ?%not_elem_of_nil]|done|]. by intros e He. Qed.

(** The sensor list and the reader.  After every sequence of calls, with a device that
    comes, goes and fails as it likes, the published list holds each sensor at most once
    and in the order of the table, with a positive gain that is the one its samples are
    divided by; one reader thread runs while the device is open and none otherwise; and
    every sensor that counts as enabled was switched on at the hub. *)
Theorem sensor_list_sound (l : list (Call * Env)) :
  let s := sensor_run l SensorVdi_new in
  NoDup (in_sensorId <$> sn_infoList s) ∧
  in_sensorId <$> sn_infoList s `sublist_of` se_ohosType <$> SENSOR_MAP ∧
  (∀ e info, e ∈ SENSOR_MAP → info ∈ sn_infoList s → in_sensorId info = se_ohosType e →
     sn_gain s !! se_mtkType e = Some (in_gain info) ∧ 1 <= in_gain info) ∧
  sn_readers s = (if sn_fd s then 1 else 0)%nat ∧
  (∀ e, e ∈ SENSOR_MAP → sn_enabled s !! se_ohosType e = Some true → is_Some (sn_hub s !! se_mtkType e)).
Proof.
  intros s. destruct (sensor_run_wf l _ true new_wf) as ((H1 & H2) & H3 & H4). fold s in H1, H2, H3, H4. split_and!.
  - eapply sublist_NoDup; [apply map_nodup|exact H1].
  - exact H1.
  - exact H2.
  - unfold open_ok in H3. destruct (sn_fd s); [apply H3|]. apply H3.
  - intros e He Hon. destruct (H4 e He) as [H _]. destruct (H Hon) as (d & r & E & _). by exists (d, r).
Qed.

(** C21: The hub follows.  As long as the device takes every command, after any sequence of
    calls it runs exactly the sensors that are enabled, each at the sampling interval last
    set for it (50 Hz when none or 0 was). *)
Theorem sensor_hub_follows (l : list (Call * Env)) :
  all_written l = true →
  let s := sensor_run l SensorVdi_new in
  ∀ e, e ∈ SENSOR_MAP →
    fst <$> sn_hub s !! se_mtkType e =
      if bool_decide (sn_enabled s !! se_ohosType e = Some true) then Some (rate s (se_ohosType e)) else None.
Proof.
  intros Hl s e He. destruct (sensor_run_wf l _ true new_wf) as (_ & _ & H). rewrite Hl in H. fold s in H.
  destruct (H e He) as [H1 H2]. case_bool_decide as Hon.
  - destruct (H1 Hon) as (d & r & -> & Hd). cbn. by rewrite Hd.
  - by rewrite H2.
Qed.
Definition good_env : Env :=
  {| en_open := λ _, true; en_info := λ _ _, Some (mkRaw 1000 "s" "v"); en_write := true |}.
Lemma sensor_hub_follows_witness :
  let l := [(CInit, good_env); (CSetBatch HDF_SENSOR_TYPE_GYROSCOPE 5000000 0, good_env);
            (CEnable HDF_SENSOR_TYPE_GYROSCOPE, good_env)] in
  fst <$> sn_hub (sensor_run l SensorVdi_new) !! 4 = Some 5000000.
Proof.
  intros l. assert (all_written l = true) as Hl by reflexivity.
  assert (mkEntry 4 HDF_SENSOR_TYPE_GYROSCOPE 3 3 349 9 ∈ SENSOR_MAP) as He by (right; left).
  etransitivity; [exact (sensor_hub_follows l Hl _ He)|]. vm_compute. reflexivity.
Defined.

(** ** Settling *)

Lemma settle_spec env s n k last (m : nat) k' last' :
  settle_loop env s n k last (POLL_MS * Z.of_nat m) = (k', last') →
  (m < 10)%nat → (∀ j, (j < k)%nat → (k <= j + 1 + m)%nat → (0 < last)%nat → CountReadyLocked env j s = last) →
  (k' <= k + n)%nat ∧
  ((k' < k + n)%nat → (0 < last')%nat ∧ ∀ j, (j <= k')%nat → (k' <= j + 10)%nat → CountReadyLocked env j s = last').
Proof.
  revert k last m. induction n as [|n IH]; intros k last m; cbn [settle_loop].
  { intros [= <- <-] _ _. split; lia. }
  destruct (_ && _) eqn:E.
  - apply andb_true_iff in E as [E1%Nat.ltb_lt E2%Nat.eqb_eq]. rewrite E2 in E1.
    replace (POLL_MS * Z.of_nat m + POLL_MS) with (POLL_MS * Z.of_nat (S m)) by (unfold POLL_MS; lia).
    intros H Hm Hj. assert (∀ j, (j < S k)%nat → (S k <= j + 1 + S m)%nat → CountReadyLocked env j s = last) as Hj'.
    { intros j ? ?. destruct (decide (j = k)) as [->|]; [done|]. apply Hj; lia. }
    revert H. destruct (STABLE_MS <=? _) eqn:Es; unfold STABLE_MS, POLL_MS in Es; bool_props.
    + intros [= <- <-]. split; [lia|]. intros _. split; [done|]. intros j ? ?. apply Hj'; lia.
    + intros H. apply IH in H; [|lia|by auto]. destruct H as [H1 H2]. split; [lia|]. intros ?. apply H2. lia.
  - change 0 with (POLL_MS * Z.of_nat 0). intros H _ _. apply IH in H; [|lia|].
    + destruct H as [H1 H2]. split; [lia|]. intros ?. apply H2. lia.
    + intros j ? ? _. by assert (j = k) as -> by lia.
Qed.
Lemma answers_mem env k e :
  e ∈ SENSOR_MAP →
  se_ohosType e ∈ in_sensorId <$> omap (answer env k) SENSOR_MAP ↔ is_Some (en_info env k (se_mtkType e)).
Proof.
  intros He. rewrite list_elem_of_fmap. setoid_rewrite list_elem_of_omap. unfold answer. split.
  - intros (info & Hid & x & Hx & Ha). destruct (en_info env k (se_mtkType x)) eqn:E; [|done]. injection Ha as <-.
    assert (e = x) as -> by (apply map_inj; auto). by rewrite E.
  - intros [raw Hr]. exists (publish e raw). split; [done|]. exists e. by rewrite Hr.
Qed.
(** A list of sensors that all answer, as long as there are answers, names all that do. *)
Lemma complete_list env k (ids : list SensorType) :
  NoDup ids → ids `sublist_of` se_ohosType <$> SENSOR_MAP →
  (∀ e, e ∈ SENSOR_MAP → se_ohosType e ∈ ids → is_Some (en_info env k (se_mtkType e))) →
  (length (filter (λ e, is_Some (en_info env k (se_mtkType e))) SENSOR_MAP) <= length ids)%nat →
  ∀ e, e ∈ SENSOR_MAP → se_ohosType e ∈ ids ↔ is_Some (en_info env k (se_mtkType e)).
Proof.
  intros Hn Hs Ha Hlen e He. split; [by apply Ha|]. intros Hr.
  set (A := se_ohosType <$> filter (λ e, is_Some (en_info env k (se_mtkType e))) SENSOR_MAP).
  assert (ids ≡ₚ A) as ->.
  { apply submseteq_length_Permutation; [|unfold A; by rewrite length_fmap]. apply NoDup_submseteq; [done|].
    intros id Hid. assert (id ∈ se_ohosType <$> SENSOR_MAP) as (x & -> & Hx)%list_elem_of_fmap.
    { eapply elem_of_submseteq; [exact Hid|by apply sublist_submseteq]. }
    apply list_elem_of_fmap. exists x. split; [done|]. apply list_elem_of_filter. split; [by apply Ha|done]. }
  apply list_elem_of_fmap. exists e. split; [done|]. by apply list_elem_of_filter.
Qed.
Definition SETTLE_POLLS : nat := Z.to_nat (SETTLE_MAX_MS / POLL_MS).
Lemma EnsureOpen_list env k s :
  sn_fd s = false → en_open env k = true → sn_infoList s = [] →
  sn_infoList (EnsureOpenLocked env k s).2 = omap (answer env k) SENSOR_MAP.
Proof.
  intros Ef Eo El. unfold EnsureOpenLocked. rewrite Ef Eo. cbn [negb].
  assert (sn_infoList (EnumerateLocked env k (set_fd true s)) = omap (answer env k) SENSOR_MAP) as <-.
  { unfold EnumerateLocked. rewrite enumerate_list. by rewrite /= El. }
  by destruct (sn_infoList (EnumerateLocked env k (set_fd true s))) eqn:E; cbn [snd]; rewrite -E.
Qed.

(** C26: The second list is the whole list.  The list the sensor service fetches waits at
    most ten seconds.  If it waits less, the number of sensors that answer has been the
    same, and not zero, for two seconds, and the list names exactly the sensors that
    answer by then, also when the device was opened earlier with fewer; for a hub whose
    sensors do not go away again, and on which the sensors listed before still answer. *)
Theorem sensor_list_settles (l : list (Call * Env)) (env : Env) :
  let s := sensor_run l SensorVdi_new in
  sn_bindListServed s = true → sn_listSettled s = false →
  (∀ j k t, (j <= k)%nat → is_Some (en_info env j t) → is_Some (en_info env k t)) →
  (∀ e, e ∈ SENSOR_MAP → se_ohosType e ∈ in_sensorId <$> sn_infoList s → is_Some (en_info env 0 (se_mtkType e))) →
  let k := (SettleSensorListLocked env s).1 in
  (k <= SETTLE_POLLS)%nat ∧
  ((k < SETTLE_POLLS)%nat →
    (0 < CountReadyLocked env k s)%nat ∧
    (∀ j, (j <= k)%nat → (k <= j + 10)%nat → CountReadyLocked env j s = CountReadyLocked env k s) ∧
    ∀ e, e ∈ SENSOR_MAP →
      se_ohosType e ∈ in_sensorId <$> (GetAllSensorInfo env s).1 ↔ is_Some (en_info env k (se_mtkType e))).
Proof.
  intros s Hb Hs Hmono Hlist. destruct (sensor_run_wf l _ true new_wf) as ((W1 & _) & W2 & _). fold s in W1, W2.
  unfold GetAllSensorInfo. rewrite Hb Hs. cbn [negb]. unfold SettleSensorListLocked. fold SETTLE_POLLS.
  destruct (settle_loop env s SETTLE_POLLS 0 0 0) as [k last] eqn:E.
  change 0 with (POLL_MS * Z.of_nat 0) in E at 1. apply settle_spec in E as [H1 H2]; [|lia|lia]. cbn [fst].
  split; [exact H1|]. intros Hk. destruct (H2 Hk) as [Hp Hc]. assert (CountReadyLocked env k s = last) as Ek by (apply Hc; lia).
  split_and!; [lia|intros j ? ?; rewrite Ek; by apply Hc|]. intros e He.
  set (s1 := if sn_fd s && (length (sn_infoList s) <? last)%nat then _ else s).
  unfold CountReadyLocked in Ek. unfold open_ok in W2. destruct (sn_fd s) eqn:Ef.
  - assert (sn_fd s1 = true) as Ef1.
    { unfold s1. cbn [andb]. destruct (_ <? _)%nat; [|done].
      destruct (enumerate_frame env k SENSOR_MAP (set_list [] (sn_gain s) s)) as (F & _). unfold EnumerateLocked. by rewrite F. }
    unfold EnsureOpenLocked. cbn [sn_fd set_served]. rewrite Ef1. cbn [snd fst sn_infoList set_served].
    unfold s1. cbn [andb orb] in *. destruct (length _ <? last)%nat eqn:El.
    + unfold EnumerateLocked. rewrite enumerate_list. cbn [sn_infoList set_list app]. by apply answers_mem.
    + apply Nat.ltb_ge in El. apply complete_list; [|done| |by rewrite length_fmap Ek|done].
      * eapply sublist_NoDup; [apply map_nodup|exact W1].
      * intros x Hx Hin. eapply Hmono; [apply Nat.le_0_l|by apply Hlist].
  - cbn [orb] in Ek. destruct (en_open env k) eqn:Eo; [|lia]. unfold s1. cbn [andb fst].
    rewrite EnsureOpen_list //; [by apply answers_mem|]. apply W2.
Qed.
Lemma sensor_list_settles_witness :
  let late : Env := {| en_open := λ _, true;
    en_info := λ k t, if (5 <=? k)%nat || (t =? 1) then Some (mkRaw 1000 "s" "v") else None; en_write := true |} in
  let s := sensor_run [(CInit, late); (CGetAllSensorInfo, late)] SensorVdi_new in
  in_sensorId <$> sn_infoList s = [HDF_SENSOR_TYPE_ACCELEROMETER] ∧
  ((SettleSensorListLocked late s).1 < SETTLE_POLLS)%nat ∧
  ∀ e, e ∈ SENSOR_MAP →
    se_ohosType e ∈ in_sensorId <$> (GetAllSensorInfo late s).1 ↔
      is_Some (en_info late (SettleSensorListLocked late s).1 (se_mtkType e)).
Proof.
  intros late s. assert ((SettleSensorListLocked late s).1 < SETTLE_POLLS)%nat as Hk.
  { apply Nat.ltb_lt. vm_compute. reflexivity. }
  split; [vm_compute; reflexivity|]. split; [exact Hk|].
  refine (proj2 (proj2 (proj2 (sensor_list_settles [(CInit, late); (CGetAllSensorInfo, late)] late _ _ _ _) Hk))).
  - vm_compute. reflexivity.
  - vm_compute. reflexivity.
  - intros j k t Hjk. cbn [en_info late]. destruct (5 <=? j)%nat eqn:E; [|destruct (t =? 1); [intros _; rewrite orb_true_r; by eexists|by intros []]].
    apply Nat.leb_le in E. assert ((5 <=? k)%nat = true) as -> by (apply Nat.leb_le; lia). intros _. by eexists.
  - intros e He Hin. vm_compute in Hin. apply list_elem_of_singleton in Hin. unfold SENSOR_MAP in He.
    repeat (apply elem_of_cons in He as [->|He]; [first [discriminate Hin|by eexists]|]). by apply not_elem_of_nil in He.
Defined.

(** ** Samples *)

Lemma scale_fill word gain i n values :
  (i + n <= length values)%nat → (i + n <= length word)%nat →
  scale word gain i n values = Some (take i values ++ ((λ w, SQuot w gain) <$> take n (drop i word)) ++ drop (i + n) values).
Proof.
  revert i values. induction n as [|n IH]; intros i values Hv Hw; cbn [scale].
  - rewrite take_0 Nat.add_0_r /=. by rewrite take_drop.
  - destruct (lookup_lt_is_Some_2 word i) as [w Ew]; [lia|]. rewrite Ew. cbn [mbind option_bind].
    assert ((i <? length values)%nat = true) as -> by (apply Nat.ltb_lt; lia).
    rewrite IH; [|rewrite length_insert; lia|lia]. f_equal. rewrite (drop_S word w i Ew). cbn.
    rewrite (take_S_r _ i (SQuot w gain)); [|apply list_lookup_insert_eq; lia].
    rewrite take_insert_ge; [|lia]. rewrite drop_insert_lt; [|lia]. rewrite -app_assoc. cbn. do 3 f_equal. f_equal. lia.
Qed.

(** Samples arrive as they should.  An event of the hub is dispatched without leaving its
    sixteen words or the array of values.  Only a data event of a sensor of the table goes
    up, once to each registered callback: the words the sensor has, each over its gain,
    padded with zeros to the number of floats the framework expects. *)
Theorem sensor_event_exact (ev : HfManagerEvent) (s : SensorVdi) :
  length (ev_word ev) = 16%nat →
  DispatchEvent ev s = Some
    match FindByMtkType (ev_sensorType ev) with
    | Some e =>
        if ev_action ev =? HF_DATA_ACTION then
          let gain := default 1 (sn_gain s !! ev_sensorType ev) in
          (λ cb, (cb, mkOut (se_ohosType e) (ev_timestamp ev) (4 * Z.of_nat (se_reportCount e))
             (((λ w, SQuot w gain) <$> take (se_valueCount e) (ev_word ev)) ++
              replicate (se_reportCount e - se_valueCount e) SZero))) <$> sn_callbacks s
        else []
    | None => []
    end.
Proof.
  intros Hw. unfold DispatchEvent. destruct (ev_action ev =? HF_DATA_ACTION); cbn [negb]; [|by destruct (FindByMtkType _)].
  destruct (FindByMtkType (ev_sensorType ev)) as [e|] eqn:E; [|done]. apply List.find_some in E as [E _].
  assert (∃ v r, se_valueCount e = v ∧ se_reportCount e = r ∧ (v <= r <= 3)%nat ∧ v ≠ O) as (v & r & -> & -> & Hvr & Hv).
  { eexists _, _. split_and!; [done|done|..]; repeat (destruct E as [<-|E]; [cbn; lia|]); done. }
  rewrite scale_fill; [|cbn; lia|lia]. cbn [mbind option_bind]. rewrite take_0 drop_0 Nat.add_0_l app_nil_l.
  assert (drop v [SZero; SZero; SZero] = replicate (3 - v) SZero) as ->.
  { change [SZero; SZero; SZero] with (replicate 3 SZero). apply drop_replicate. }
  destruct (_ <? r)%nat eqn:El.
  { apply Nat.ltb_lt in El. rewrite length_app length_fmap length_take length_replicate in El. lia. }
  rewrite take_app take_replicate length_fmap length_take (take_ge (_ <$> _)); [|rewrite length_fmap length_take; lia].
  assert (((r - v `min` length (ev_word ev)) `min` (3 - v))%nat = (r - v)%nat) as -> by lia. done.
Qed.
Lemma sensor_event_exact_witness :
  let s := sensor_run [(CInit, good_env); (CRegister 0 (Some 7), good_env)] SensorVdi_new in
  let ev := mkEvent 99 5 0 (300 :: replicate 15 1) in
  DispatchEvent ev s =
    Some [(7, mkOut HDF_SENSOR_TYPE_AMBIENT_LIGHT 99 12 [SQuot 300 1000; SZero; SZero])].
Proof.
  intros s ev. etransitivity; [apply (sensor_event_exact ev s); reflexivity|]. vm_compute. reflexivity.
Defined.
End Sensor.
