(* ===== verification/SysfsVdi.v ===== *)
(** * The vibrator and the lights (hybris_generic/hardware/vibrator, hybris_generic/hardware/light)

    Two HALs that drive the motor and the indicator LEDs through files of sysfs.  The
    files are a map by path; a write replaces the contents of a file that exists and may
    be written, and is logged. *)

From stdpp Require Import gmap strings pretty.
From S2P Require Import Prelude.
Set Warnings "-rewrite-rw,-clear-no-such-hyp".
#[global] Open Scope Z_scope.

Inductive HdfStatus := SUCCESS | FAILURE | ERR_NOT_SUPPORT | ERR_INVALID_PARAM.
#[export] Instance HdfStatus_eq_dec : EqDecision HdfStatus.
Proof. solve_decision. Defined.
Record Sysfs := mkSysfs {
  fs_files : gmap string string; fs_readonly : gset string; fs_log : list (string * string) }.
(** [std::to_string] of a number that is not negative. *)
Definition to_string (z : Z) : string := pretty (Z.to_N z).
(** Open, write, close: [WriteSysfs] of the vibrator and [WriteFile] of the lights. *)
Definition WriteFile (path value : string) (f : Sysfs) : HdfStatus * Sysfs :=
  match fs_files f !! path with
  | Some _ =>
      if bool_decide (path ∈ fs_readonly f) then (FAILURE, f)
      else (SUCCESS, mkSysfs (<[path := value]> (fs_files f)) (fs_readonly f) (fs_log f ++ [(path, value)]))
  | None => (FAILURE, f)
  end.
Definition exists_ (path : string) (f : Sysfs) : bool := bool_decide (is_Some (fs_files f !! path)).

(** ** The vibrator *)
Module Vibrator.
Definition VIB_DIR : string := "/sys/class/leds/vibrator".
Record VibNodes := mkNodes { vn_activate : string; vn_duration : string }.
Definition VIB_NODES_STD : VibNodes := mkNodes "activate" "duration".
Definition VIB_NODES_AW : VibNodes := mkNodes "activate_aw" "duration_aw".
Definition VIB_TRANSIENT_STATE : string := "state".
Definition VIB_NODE_CANDIDATES : list VibNodes := [VIB_NODES_AW; VIB_NODES_STD].
Definition g_effectDurationMs : list (string * Z) :=
  [("haptic.default.effect", 40); ("haptic.clock.timer", 30); ("haptic.long_press.light", 40);
   ("haptic.long_press.medium", 50); ("haptic.long_press.heavy", 60); ("haptic.fail", 60);
   ("haptic.charging", 50); ("haptic.slide.light", 20); ("haptic.threshold", 30)].
Definition effect_duration (effectType : string) : option Z :=
  snd <$> List.find (λ e, bool_decide (e.1 = effectType)) g_effectDurationMs.
Definition path (file : string) : string := (VIB_DIR +:+ "/" +:+ file)%string.
Definition NodeExists (file : string) (f : Sysfs) : bool := exists_ (path file) f.
Definition WriteSysfs (file value : string) (f : Sysfs) : HdfStatus * Sysfs := WriteFile (path file) value f.

Record VibratorVdi := mkVib { vb_running : bool; vb_nodes : VibNodes; vb_fs : Sysfs }.
Definition VibratorVdi_new (f : Sysfs) : VibratorVdi := mkVib false VIB_NODES_STD f.
Definition Init (v : VibratorVdi) : HdfStatus * VibratorVdi :=
  match List.find (λ c, NodeExists (vn_activate c) (vb_fs v)) VIB_NODE_CANDIDATES with
  | Some c => (SUCCESS, mkVib (vb_running v) c (vb_fs v))
  | None => (FAILURE, v)
  end.
Definition BuzzLocked (durationMs : Z) (v : VibratorVdi) : HdfStatus * VibratorVdi :=
  if durationMs =? 0 then (SUCCESS, v)
  else
    let n := vb_nodes v in
    let '(r, f) :=
      if bool_decide (vn_activate n = vn_activate VIB_NODES_STD) && NodeExists VIB_TRANSIENT_STATE (vb_fs v)
      then WriteSysfs VIB_TRANSIENT_STATE "1" (vb_fs v) else (SUCCESS, vb_fs v) in
    if bool_decide (r ≠ SUCCESS) then (FAILURE, mkVib (vb_running v) n f)
    else
      let '(r, f) := WriteSysfs (vn_duration n) (to_string durationMs) f in
      if bool_decide (r ≠ SUCCESS) then (FAILURE, mkVib (vb_running v) n f)
      else
        let '(r, f) := WriteSysfs (vn_activate n) "1" f in
        (r, mkVib (if bool_decide (r = SUCCESS) then true else vb_running v) n f).
Definition StartOnce (duration : Z) (v : VibratorVdi) : HdfStatus * VibratorVdi := BuzzLocked duration v.
Definition Start (effectType : string) (v : VibratorVdi) : HdfStatus * VibratorVdi :=
  match effect_duration effectType with
  | None => (ERR_INVALID_PARAM, v)
  | Some d => BuzzLocked d v
  end.
Definition StartByIntensity (effectType : string) (intensity : Z) (v : VibratorVdi) : HdfStatus * VibratorVdi :=
  Start effectType v.
(** HdfVibratorModeVdi: an enumeration that may carry a value past its end. *)
Inductive Mode := MODE_ONCE | MODE_PRESET | MODE_HDHAPTIC | MODE_BUTT.
Definition Stop (mode : Mode) (v : VibratorVdi) : HdfStatus * VibratorVdi :=
  match mode with
  | MODE_BUTT => (ERR_INVALID_PARAM, v)
  | MODE_HDHAPTIC => (ERR_NOT_SUPPORT, v)
  | _ => let '(r, f) := WriteSysfs (vn_activate (vb_nodes v)) "0" (vb_fs v) in (r, mkVib false (vb_nodes v) f)
  end.
Definition GetEffectInfo (effectType : string) : bool * Z :=
  match effect_duration effectType with None => (false, 0) | Some d => (true, d) end.
Definition IsVibratorRunning (v : VibratorVdi) : bool := vb_running v.
Inductive Call := CStartOnce (duration : Z) | CStart (effect : string) | CStop (mode : Mode).
Definition step (c : Call) (v : VibratorVdi) : HdfStatus * VibratorVdi :=
  match c with CStartOnce d => StartOnce d v | CStart e => Start e v | CStop m => Stop m v end.
End Vibrator.

(** ** The lights *)
Module Light.
Definition LEDS_DIR : string := "/sys/class/leds".
Definition LIGHT_NOT_SUPPORT : Z := -1.
Definition LIGHT_NOT_FLASH : Z := -2.
(** HDF_SUCCESS, HDF_FAILURE and HDF_ERR_INVALID_PARAM, and LightStatus. *)
Inductive Result := Status (s : HdfStatus) | LightStatus (z : Z).
Record LedChannel := mkChannel { lc_dir : string; lc_maxBrightness : Z }.
Inductive LightType := SINGLE_COLOR | RGB_COLOR.
Record ProbedLight := mkLight { pl_type : LightType; pl_channels : list LedChannel }.
(** [lights_]; its only key is VDI_LIGHT_ID_NOTIFICATIONS. *)
Record LightVdi := mkLights { lt_lights : option ProbedLight; lt_fs : Sysfs }.
(** The C library's atoi and strstr. *)
Definition is_space (c : ascii) : bool :=
  let n := Z.of_N (Ascii.N_of_ascii c) in (n =? 32) || ((9 <=? n) && (n <=? 13)).
Fixpoint skip_space (s : string) : string :=
  match s with String c r => if is_space c then skip_space r else s | "" => "" end.
Fixpoint digits (s : string) (acc : Z) : Z :=
  match s with
  | String c r =>
      let n := Z.of_N (Ascii.N_of_ascii c) in
      if (48 <=? n) && (n <=? 57) then digits r (10 * acc + (n - 48)) else acc
  | "" => acc
  end.
Definition atoi (s : string) : Z :=
  match skip_space s with
  | String c r => if bool_decide (c = "-"%char) then - digits r 0
                  else if bool_decide (c = "+"%char) then digits r 0 else digits (String c r) 0
  | "" => 0
  end.
Definition strstr (s sub : string) : bool := bool_decide (is_Some (String.index 0 sub s)).
(** At most fifteen bytes of the file are read. *)
Definition ReadIntFile (p : string) (defval : Z) (f : Sysfs) : Z :=
  match fs_files f !! p with
  | None | Some "" => defval
  | Some c => let v := s32 (atoi (String.substring 0 15 c)) in if 0 <? v then v else defval
  end.
Definition channel (f : Sysfs) (name : string) : LedChannel :=
  let dir := (LEDS_DIR +:+ "/" +:+ name)%string in
  mkChannel dir (ReadIntFile (dir +:+ "/max_brightness") 255 f).
(** [names]: the directory's entries. *)
Definition Probe (names : gset string) (f : Sysfs) : option ProbedLight :=
  if bool_decide ("red" ∈ names) && bool_decide ("green" ∈ names) && bool_decide ("blue" ∈ names)
  then Some (mkLight RGB_COLOR [channel f "red"; channel f "green"; channel f "blue"])
  else if bool_decide ("white" ∈ names) then Some (mkLight SINGLE_COLOR [channel f "white"]) else None.
Definition Init (names : gset string) (l : LightVdi) : HdfStatus * LightVdi :=
  (SUCCESS, mkLights (Probe names (lt_fs l)) (lt_fs l)).
Definition HasTimerTrigger (light : ProbedLight) (f : Sysfs) : bool :=
  match pl_channels light with
  | [] => false
  | c :: _ => match fs_files f !! (lc_dir c +:+ "/trigger")%string with
              | None | Some "" => false
              | Some t => strstr (String.substring 0 511 t) "timer"
              end
  end.
Record Effect := mkEffect { ef_r : Z; ef_g : Z; ef_b : Z; ef_blink : bool; ef_onTime : Z; ef_offTime : Z }.
Definition channel_byte (light : ProbedLight) (e : Effect) (i : nat) : Z :=
  match pl_channels light with
  | [_] => if negb (ef_r e =? 0) || negb (ef_g e =? 0) || negb (ef_b e =? 0) then ef_r e else 255
  | _ => nth i [ef_r e; ef_g e; ef_b e] 0
  end.
(** In [uint32_t]. *)
Definition level (byte maxBrightness : Z) : Z := u32 (byte * u32 maxBrightness) / 255.
Fixpoint apply_from (light : ProbedLight) (e : Effect) (blink : bool) (i : nat) (l : list LedChannel)
    (ret : HdfStatus) (f : Sysfs) : HdfStatus * Sysfs :=
  match l with
  | [] => (ret, f)
  | c :: l =>
      let p s := (lc_dir c +:+ s)%string in
      let f := if blink then
                 (WriteFile (p "/delay_off") (to_string (ef_offTime e))
                   (WriteFile (p "/delay_on") (to_string (ef_onTime e)) (WriteFile (p "/trigger") "timer" f).2).2).2
               else (WriteFile (p "/trigger") "none" f).2 in
      let '(r, f) := WriteFile (p "/brightness") (to_string (level (channel_byte light e i) (lc_maxBrightness c))) f in
      apply_from light e blink (S i) l (if bool_decide (r ≠ SUCCESS) then FAILURE else ret) f
  end.
Definition Apply (light : ProbedLight) (e : Effect) (blink : bool) (f : Sysfs) : HdfStatus * Sysfs :=
  apply_from light e blink 0 (pl_channels light) SUCCESS f.
(** [here]: the id is VDI_LIGHT_ID_NOTIFICATIONS. *)
Definition find_light (here : bool) (l : LightVdi) : option ProbedLight := if here then lt_lights l else None.
Definition TurnOnLight (here : bool) (e : Effect) (l : LightVdi) : Result * LightVdi :=
  match find_light here l with
  | None => (LightStatus LIGHT_NOT_SUPPORT, l)
  | Some light =>
      if ef_blink e && negb (HasTimerTrigger light (lt_fs l)) then (LightStatus LIGHT_NOT_FLASH, l)
      else let '(r, f) := Apply light e (ef_blink e) (lt_fs l) in (Status r, mkLights (lt_lights l) f)
  end.
Definition TurnOnMultiLights (here : bool) (colors : list (Z * Z * Z)) (l : LightVdi) : Result * LightVdi :=
  match find_light here l with
  | None => (LightStatus LIGHT_NOT_SUPPORT, l)
  | Some light =>
      match colors with
      | [] => (Status ERR_INVALID_PARAM, l)
      | (r, g, b) :: _ =>
          let '(r, f) := Apply light (mkEffect r g b false 0 0) false (lt_fs l) in (Status r, mkLights (lt_lights l) f)
      end
  end.
Fixpoint off_from (l : list LedChannel) (ret : HdfStatus) (f : Sysfs) : HdfStatus * Sysfs :=
  match l with
  | [] => (ret, f)
  | c :: l =>
      let f := (WriteFile (lc_dir c +:+ "/trigger") "none" f).2 in
      let '(r, f) := WriteFile (lc_dir c +:+ "/brightness") "0" f in
      off_from l (if bool_decide (r ≠ SUCCESS) then FAILURE else ret) f
  end.
Definition TurnOffLight (here : bool) (l : LightVdi) : Result * LightVdi :=
  match find_light here l with
  | None => (LightStatus LIGHT_NOT_SUPPORT, l)
  | Some light => let '(r, f) := off_from (pl_channels light) SUCCESS (lt_fs l) in (Status r, mkLights (lt_lights l) f)
  end.
End Light.

(** ** What the vibrator writes *)

Import Vibrator.
Lemma WriteFile_cases p v f :
  (WriteFile p v f).1 = SUCCESS ∧ fs_log (WriteFile p v f).2 = fs_log f ++ [(p, v)] ∨
  (WriteFile p v f).1 = FAILURE ∧ (WriteFile p v f).2 = f.
Proof. unfold WriteFile. destruct (fs_files f !! p); [|by right]. case_bool_decide; [by right|by left]. Qed.
Ltac write_file :=
  match goal with
  | |- context [WriteFile ?p ?v ?f] =>
      let E := fresh "E" in let L := fresh "L" in
      destruct (WriteFile_cases p v f) as [[E L]|[E L]];
      destruct (WriteFile p v f) as [? ?]; cbn [fst snd] in E, L; subst; cbn
  end.
(** The level of the LED trigger, where the plain pair has one. *)
Definition state_writes (v : VibratorVdi) : list (string * string) :=
  if bool_decide (vn_activate (vb_nodes v) = vn_activate VIB_NODES_STD) && NodeExists VIB_TRANSIENT_STATE (vb_fs v)
  then [(path VIB_TRANSIENT_STATE, "1")] else [].

(** The motor is never started blind.  A buzz of no length writes nothing and
    succeeds.  Any other one that succeeds has written exactly the level (where the driver
    is the LED trigger), the duration and then the start; one that fails has written a
    part of this that does not start the motor. *)
Theorem vibrator_buzz_writes (d : Z) (v : VibratorVdi) :
  vb_nodes v ∈ VIB_NODE_CANDIDATES →
  let n := vb_nodes v in let '(r, v') := BuzzLocked d v in
  ∃ l, fs_log (vb_fs v') = fs_log (vb_fs v) ++ l ∧
    if d =? 0 then r = SUCCESS ∧ v' = v
    else match r with
         | SUCCESS => vb_running v' = true ∧
             l = state_writes v ++ [(path (vn_duration n), to_string d); (path (vn_activate n), "1")]
         | _ => vb_running v' = vb_running v ∧ ∀ x, (path (vn_activate n), x) ∉ l
         end.
Proof.
  intros Hn n. unfold BuzzLocked. fold n. destruct (d =? 0); [by exists []; rewrite app_nil_r|].
  assert (path (vn_activate n) ≠ path VIB_TRANSIENT_STATE ∧ path (vn_activate n) ≠ path (vn_duration n)) as [N1 N2].
  { unfold n. unfold VIB_NODE_CANDIDATES in Hn. rewrite !elem_of_cons in Hn. destruct Hn as [->|[->|Hn]]; [split; discriminate..|].
    by apply not_elem_of_nil in Hn. }
  fold n in Hn. unfold state_writes, WriteSysfs. fold n. destruct (_ && _); [write_file|];
    [|by (exists []; rewrite app_nil_r; split_and!; [done|done|]; intros x; apply not_elem_of_nil)|].
  - write_file; [write_file|].
    + eexists. split; [|by split]. by rewrite L1 L0 L -!app_assoc.
    + eexists. split; [by rewrite L0 L -!app_assoc|]. split; [done|]. intros x. rewrite /= !elem_of_cons elem_of_nil. naive_solver.
    + eexists. split; [exact L|]. split; [done|]. intros x. rewrite elem_of_cons elem_of_nil. naive_solver.
  - write_file; [write_file|].
    + eexists. split; [|by split]. by rewrite L0 L -!app_assoc.
    + eexists. split; [exact L|]. split; [done|]. intros x. rewrite elem_of_cons elem_of_nil. naive_solver.
    + exists []. rewrite app_nil_r. split_and!; [done|done|]. intros x. apply not_elem_of_nil.
Qed.
Lemma vibrator_buzz_writes_witness :
  let f := mkSysfs {[path "activate_aw" := ""; path "duration_aw" := ""]} ∅ [] in
  let v := (Vibrator.Init (VibratorVdi_new f)).2 in
  vb_nodes v = VIB_NODES_AW ∧
  let n := vb_nodes v in let '(r, v') := BuzzLocked 40 v in
  ∃ l, fs_log (vb_fs v') = fs_log (vb_fs v) ++ l ∧
    if 40 =? 0 then r = SUCCESS ∧ v' = v
    else match r with
         | SUCCESS => vb_running v' = true ∧
             l = state_writes v ++ [(path (vn_duration n), to_string 40); (path (vn_activate n), "1")]
         | _ => vb_running v' = vb_running v ∧ ∀ x, (path (vn_activate n), x) ∉ l
         end.
Proof. intros f v. split; [vm_compute; reflexivity|]. apply (vibrator_buzz_writes 40 v). left. Defined.
(** Once started the motor counts as running until it is stopped, however long ago its
    buzz has ended: no call but Stop clears it, and there is no clock. *)
Lemma running_until_stop (l : list Vibrator.Call) (v : VibratorVdi) :
  IsVibratorRunning v = true → Forall (λ c, ∀ m, c ≠ CStop m) l →
  IsVibratorRunning (foldl (λ v c, (Vibrator.step c v).2) v l) = true.
Proof.
  assert (∀ d w, vb_running w = true → vb_running (BuzzLocked d w).2 = true) as Hb.
  { intros d w Hw. unfold BuzzLocked. destruct (d =? 0); [done|]. by repeat case_match. }
  revert v. induction l as [|c l IH]; intros v Hv Hl; [done|]. apply Forall_cons in Hl as [Hc Hl]. cbn [foldl].
  apply IH; [|done]. destruct c as [d|e|m]; cbn [Vibrator.step]; [by apply Hb| |by destruct (Hc m)].
  unfold Start. destruct (effect_duration e); [by apply Hb|done].
Qed.

(** ** What the lights show *)

Import Light.
Lemma level_exact byte top :
  0 <= byte <= 255 → 0 <= top <= 2 ^ 32 / 255 → level byte top = byte * top / 255 ∧ 0 <= level byte top <= top.
Proof.
  intros Hb Ht. change (2 ^ 32 / 255) with 16843009 in Ht. assert (0 <= byte * top <= 255 * top) by nia. unfold level, u32.
  rewrite (Z.mod_small top); [|lia]. rewrite Z.mod_small; [|lia]. split; [done|]. split; [apply Z.div_pos; lia|].
  apply Z.div_le_upper_bound; lia.
Qed.
Definition brightness (name : string) : string := (LEDS_DIR +:+ "/" +:+ name +:+ "/brightness")%string.
Definition writable (f : Sysfs) (p : string) : Prop := is_Some (fs_files f !! p) ∧ p ∉ fs_readonly f.
Lemma WriteFile_ok p v f :
  writable f p → WriteFile p v f = (SUCCESS, mkSysfs (<[p := v]> (fs_files f)) (fs_readonly f) (fs_log f ++ [(p, v)])).
Proof. intros [[c Hc] Hr]. unfold WriteFile. rewrite Hc. by rewrite bool_decide_eq_false_2. Qed.
Lemma WriteFile_other p q v f : p ≠ q → fs_files (WriteFile p v f).2 !! q = fs_files f !! q.
Proof. intros Hne. unfold WriteFile. repeat case_match; [done|by apply lookup_insert_ne|done]. Qed.
Lemma WriteFile_writable p q v f : writable f q → writable (WriteFile p v f).2 q.
Proof.
  intros [H1 H2]. unfold WriteFile. repeat case_match; [done| |done]. split; [|done]. cbn.
  destruct (decide (p = q)) as [->|]; [rewrite lookup_insert_eq; by eexists|by rewrite lookup_insert_ne].
Qed.
(** The files one channel's turn writes before its brightness. *)
Definition prepare (c : LedChannel) (e : Effect) (blink : bool) (f : Sysfs) : Sysfs :=
  let p s := (lc_dir c +:+ s)%string in
  if blink then
    (WriteFile (p "/delay_off") (to_string (ef_offTime e))
      (WriteFile (p "/delay_on") (to_string (ef_onTime e)) (WriteFile (p "/trigger") "timer" f).2).2).2
  else (WriteFile (p "/trigger") "none" f).2.
Lemma prepare_writable c e blink f q : writable f q → writable (prepare c e blink f) q.
Proof. intros H. unfold prepare. destruct blink; auto using WriteFile_writable. Qed.
Lemma prepare_other c e blink f q :
  (∀ s, s ∈ ["/trigger"; "/delay_on"; "/delay_off"] → (lc_dir c +:+ s)%string ≠ q) →
  fs_files (prepare c e blink f) !! q = fs_files f !! q.
Proof.
  intros H. unfold prepare. destruct blink; rewrite !WriteFile_other //; apply H; set_solver.
Qed.
Definition set_file (p v : string) (f : Sysfs) : Sysfs :=
  mkSysfs (<[p := v]> (fs_files f)) (fs_readonly f) (fs_log f ++ [(p, v)]).
Definition shown (light : ProbedLight) (e : Effect) (i : nat) (c : LedChannel) : string :=
  to_string (level (channel_byte light e i) (lc_maxBrightness c)).
Lemma apply_step light e blink i c l ret f :
  writable f (lc_dir c +:+ "/brightness") →
  apply_from light e blink i (c :: l) ret f =
    apply_from light e blink (S i) l ret
      (set_file (lc_dir c +:+ "/brightness") (shown light e i c) (prepare c e blink f)).
Proof.
  intros H. cbn [apply_from]. fold (prepare c e blink f). fold (shown light e i c).
  rewrite (WriteFile_ok _ _ (prepare c e blink f)); [|by apply prepare_writable]. cbn. by case_bool_decide.
Qed.
Lemma set_file_writable p v f q : writable f q → writable (set_file p v f) q.
Proof.
  intros [H1 H2]. split; [|done]. cbn. destruct (decide (p = q)) as [->|]; [rewrite lookup_insert_eq; by eexists|].
  by rewrite lookup_insert_ne.
Qed.

Ltac other_path :=
  let s := fresh "s" in let Hs := fresh "Hs" in
  intros s Hs; rewrite !elem_of_cons in Hs; destruct Hs as [->|[->|[->|Hs]]]; [discriminate..|by apply not_elem_of_nil in Hs].
Ltac skip_files :=
  repeat first [rewrite lookup_insert_ne; [|discriminate] | rewrite prepare_other; [cbn [fs_files]|other_path]].

(** An RGB light shows the colour it is asked for.  When the brightness files can be
    written, turning on the red, green and blue channels succeeds and leaves in each file
    the byte of its colour scaled to the channel's range, between 0 and its maximum
    (for maxima that 255 does not carry over 32 bits). *)
Theorem light_rgb_shows (names : gset string) (f : Sysfs) (light : ProbedLight) (e : Effect) (blink : bool) :
  Probe names f = Some light → pl_type light = RGB_COLOR →
  Forall (λ b, 0 <= b <= 255) [ef_r e; ef_g e; ef_b e] →
  Forall (λ name, writable f (brightness name) ∧ lc_maxBrightness (channel f name) <= 2 ^ 32 / 255) ["red"; "green"; "blue"] →
  ∃ f', Apply light e blink f = (SUCCESS, f') ∧
    Forall (λ '(name, byte), let top := lc_maxBrightness (channel f name) in
        fs_files f' !! brightness name = Some (to_string (byte * top / 255)) ∧ 0 <= byte * top / 255 <= top)
      [("red", ef_r e); ("green", ef_g e); ("blue", ef_b e)].
Proof.
  intros Hp Ht Hb Hf. assert (light = mkLight RGB_COLOR [channel f "red"; channel f "green"; channel f "blue"]) as ->.
  { revert Hp Ht. unfold Probe. repeat case_match; intros [= <-]; done. }
  rewrite !Forall_cons Forall_nil in Hb, Hf. destruct Hb as (B1 & B2 & B3 & _), Hf as ((W1 & M1) & (W2 & M2) & (W3 & M3) & _).
  unfold Apply. cbn [pl_channels]. eexists. split.
  - rewrite apply_step; [|exact W1]. rewrite apply_step; [|by apply set_file_writable, prepare_writable].
    rewrite apply_step; [|by do 2 apply set_file_writable, prepare_writable]. reflexivity.
  - assert (∀ name, 0 <= lc_maxBrightness (channel f name)) as Mp.
    { intros name. cbn. unfold ReadIntFile. repeat case_match; bool_props; lia. }
    assert (∀ byte name, 0 <= byte <= 255 → lc_maxBrightness (channel f name) <= 2 ^ 32 / 255 →
      let top := lc_maxBrightness (channel f name) in
      level byte top = byte * top / 255 ∧ 0 <= byte * top / 255 <= top) as Hl.
    { intros byte name ? ? top. destruct (level_exact byte top) as [E R]; [done|split; [apply Mp|done]|]. by rewrite -E. }
    rewrite !Forall_cons Forall_nil. unfold set_file, shown. cbn [fs_files pl_channels channel_byte nth].
    destruct (Hl _ _ B1 M1) as [E1 R1], (Hl _ _ B2 M2) as [E2 R2], (Hl _ _ B3 M3) as [E3 R3]. cbn zeta in *.
    refine (conj (conj _ R1) (conj (conj _ R2) (conj (conj _ R3) I))).
    + skip_files. etransitivity; [apply lookup_insert_eq|]. by rewrite E1.
    + skip_files. etransitivity; [apply lookup_insert_eq|]. by rewrite E2.
    + etransitivity; [apply lookup_insert_eq|]. by rewrite E3.
Qed.
Lemma light_rgb_shows_witness :
  let files : gmap string string :=
    {[brightness "red" := "0"; brightness "green" := "0"; brightness "blue" := "0"]} in
  let f := mkSysfs (<["/sys/class/leds/red/max_brightness" := "100"]> files) ∅ [] in
  let light := mkLight RGB_COLOR [channel f "red"; channel f "green"; channel f "blue"] in
  let e := mkEffect 255 128 0 false 0 0 in
  lc_maxBrightness (channel f "red") = 100 ∧
  ∃ f', Apply light e false f = (SUCCESS, f') ∧
    Forall (λ '(name, byte), let top := lc_maxBrightness (channel f name) in
        fs_files f' !! brightness name = Some (to_string (byte * top / 255)) ∧ 0 <= byte * top / 255 <= top)
      [("red", ef_r e); ("green", ef_g e); ("blue", ef_b e)].
Proof.
  intros files f light e. split; [vm_compute; reflexivity|].
  apply (light_rgb_shows {["red"; "green"; "blue"]} f light e false).
  - vm_compute. reflexivity.
  - reflexivity.
  - repeat (constructor; [cbn; lia|]). constructor.
  - repeat (constructor; [split; [split; [vm_compute; eexists; reflexivity|apply not_elem_of_empty]|vm_compute; discriminate]|]).
    constructor.
Defined.
(** A white LED asked for pure green stays dark: only the red byte counts unless all three
    are zero. *)
Lemma white_green_dark f e c :
  pl_channels f = [c] → ef_r e = 0 → ef_g e ≠ 0 → level (channel_byte f e 0) (lc_maxBrightness c) = 0.
Proof.
  intros Hc Hr Hg. unfold channel_byte. rewrite Hc Hr. destruct (ef_g e =? 0) eqn:E; bool_props; [done|].
  by destruct (ef_b e =? 0).
Qed.
