(* ===== verification/OutSurface.v ===== *)
(** * Container buffers and where they are shown (waydroid/src/wlegl_import.cpp,
    waydroid/src/wl_output_surface.cpp)

    An Android buffer of the container arrives as a native handle; the importer turns it
    into an OHOS [BufferHandle] and keeps the resulting surface buffer for as long as
    the [wl_buffer] lives.  An [OutputSurface] is a queue of the render service that
    such buffers are flushed to: a node of the compositor's own, or an application's
    producer.  The composer HAL's way back to a native handle
    (display_composer/hybris_layer.cpp) is here too, because the two must agree. *)

From S2P Require Import Prelude.
Set Warnings "-rewrite-rw,-clear-no-such-hyp".

(** ** Formats *)

Definition HAL_RGBA_8888 : Z := 1.
Definition HAL_RGBX_8888 : Z := 2.
Definition HAL_RGB_888 : Z := 3.
Definition HAL_RGB_565 : Z := 4.
Definition HAL_BGRA_8888 : Z := 5.
Definition HAL_YV12 : Z := 0x32315659.
Definition HAL_YCRCB_420_SP : Z := 0x11.
Definition HAL_YCBCR_420_888 : Z := 0x23.

Module wlegl.
Definition PIXEL_FMT_RGB_565 : Z := 3.
Definition PIXEL_FMT_RGBX_8888 : Z := 8.
Definition PIXEL_FMT_RGBA_8888 : Z := 9.
Definition PIXEL_FMT_BGRA_8888 : Z := 12.
Definition PIXEL_FMT_RGB_888 : Z := 13.
Definition PIXEL_FMT_YCBCR_420_SP : Z := 34.
Definition PIXEL_FMT_YCRCB_420_SP : Z := 35.
Definition PIXEL_FMT_YCRCB_420_P : Z := 37.
End wlegl.

Definition BytesPerPixel (ohosFormat : Z) : Z :=
  if (ohosFormat =? wlegl.PIXEL_FMT_RGBA_8888) || (ohosFormat =? wlegl.PIXEL_FMT_RGBX_8888)
     || (ohosFormat =? wlegl.PIXEL_FMT_BGRA_8888) then 4
  else if ohosFormat =? wlegl.PIXEL_FMT_RGB_888 then 3
  else if ohosFormat =? wlegl.PIXEL_FMT_RGB_565 then 2
  else 1.

Definition AndroidFormatToOhos (androidFormat : Z) : Z :=
  if androidFormat =? HAL_RGBA_8888 then wlegl.PIXEL_FMT_RGBA_8888
  else if androidFormat =? HAL_RGBX_8888 then wlegl.PIXEL_FMT_RGBX_8888
  else if androidFormat =? HAL_RGB_888 then wlegl.PIXEL_FMT_RGB_888
  else if androidFormat =? HAL_RGB_565 then wlegl.PIXEL_FMT_RGB_565
  else if androidFormat =? HAL_BGRA_8888 then wlegl.PIXEL_FMT_BGRA_8888
  else if androidFormat =? HAL_YV12 then wlegl.PIXEL_FMT_YCRCB_420_P
  else if androidFormat =? HAL_YCRCB_420_SP then wlegl.PIXEL_FMT_YCRCB_420_SP
  else if androidFormat =? HAL_YCBCR_420_888 then wlegl.PIXEL_FMT_YCBCR_420_SP
  else 0.

(** display_common.h: the display HAL's idea of the same numbers. *)
Definition HybrisBytesPerPixelOhos (ohosFormat : Z) : Z :=
  if ohosFormat =? 3 then 2
  else if (ohosFormat =? 11) || (ohosFormat =? 12) then 4
  else if ohosFormat =? 13 then 3
  else if ohosFormat =? 14 then 2
  else if (ohosFormat =? 19) || (ohosFormat =? 20) then 4
  else 0.

(** ** Handles *)

Record native_handle := mkNative { nh_numFds : Z; nh_numInts : Z; nh_data : list Z }.
Record WleglBufferDesc := mkDesc {
  wd_width : Z; wd_height : Z; wd_stride : Z; wd_format : Z; wd_usage : Z }.
Record BufferHandle := mkBH {
  bh_fd : Z; bh_width : Z; bh_stride : Z; bh_height : Z; bh_size : Z; bh_format : Z;
  bh_usage : Z; bh_reserveFds : Z; bh_reserveInts : Z; bh_reserve : list Z }.
Definition kPtrSlots : Z := 4.

(** What the kernel answers while a handle is built: the result of the i-th [dup], which
    duplicates a descriptor, the size [fstat] gives for one, whether there is memory. *)
Record KEnv := mkKEnv { ke_dup : nat → Z → Z; ke_fstat : Z → option Z; ke_malloc : bool }.

Definition LargestFdBytes (e : KEnv) (nh : native_handle) : Z :=
  foldl (λ largest fd, match ke_fstat e fd with
                       | Some size => if largest <? size then size else largest
                       | None => largest
                       end) 0 (take (Z.to_nat (nh_numFds nh)) (nh_data nh)).

(** The loop over the further descriptors: how it ended and what was duplicated. *)
Fixpoint dup_loop (e : KEnv) (i : nat) (fds : list Z) (got : list Z) : bool * list Z :=
  match fds with
  | [] => (true, got)
  | nfd :: fds => let fd := ke_dup e (S i) nfd in
                  if fd <? 0 then (false, got) else dup_loop e (S i) fds (got ++ [fd])
  end.

Definition is_yuv420 (ohosFormat : Z) : bool :=
  (ohosFormat =? wlegl.PIXEL_FMT_YCRCB_420_P) || (ohosFormat =? wlegl.PIXEL_FMT_YCRCB_420_SP)
  || (ohosFormat =? wlegl.PIXEL_FMT_YCBCR_420_SP).
Definition logical_size (ohosFormat byteStride height : Z) : Z :=
  let logical := byteStride * height in
  if is_yuv420 ohosFormat then Z.quot (logical * 3) 2 else logical.

Definition fits_int32 (z : Z) : bool := (- 2 ^ 31 <=? z) && (z <? 2 ^ 31).
(** The result, the descriptors opened and those closed again; [None] when the counts
    of the handle lie about its data (the loops would leave it), and when the stride in
    bytes overflows a signed int. *)
Definition BuildBufferHandle (e : KEnv) (handle : option native_handle) (desc : WleglBufferDesc)
    : option (option BufferHandle * list Z * list Z) :=
  match handle with
  | None => Some (None, [], [])
  | Some nh =>
      if nh_numFds nh <? 1 then Some (None, [], [])
      else
        let ohosFormat := AndroidFormatToOhos (wd_format desc) in
        if ohosFormat =? 0 then Some (None, [], [])
        else
          let reserveFds := u32 (nh_numFds nh - 1) in
          let nativeInts := u32 (nh_numInts nh) in
          let reserveInts := u32 (nativeInts + kPtrSlots) in
          if negb (ke_malloc e) then Some (None, [], [])
          else if Z.of_nat (length (nh_data nh)) <? nh_numFds nh + nativeInts then None
          else if negb (fits_int32 (wd_stride desc * BytesPerPixel ohosFormat)) then None
          else
            let byteStride := wd_stride desc * BytesPerPixel ohosFormat in
            let fd := ke_dup e 0 (nth 0 (nh_data nh) 0) in
            if fd <? 0 then Some (None, [], [])
            else
              let '(ok, got) := dup_loop e 0 (take (Z.to_nat reserveFds) (drop 1 (nh_data nh))) [] in
              if negb ok then Some (None, fd :: got, fd :: got)
              else
                let ints := take (Z.to_nat nativeInts) (drop (Z.to_nat (nh_numFds nh)) (nh_data nh)) in
                let logical := logical_size ohosFormat byteStride (wd_height desc) in
                let allocated := LargestFdBytes e nh in
                let size := s32 (if (0 <? allocated) && (allocated <? logical) then allocated
                                 else logical) in
                Some (Some (mkBH fd (wd_width desc) byteStride (wd_height desc) size ohosFormat
                              (u64 (wd_usage desc)) reserveFds reserveInts
                              (got ++ ints ++ replicate (Z.to_nat kPtrSlots) 0)), fd :: got, [])
  end.

(** ** The way back (hybris_layer.cpp) *)

Record ANativeWindowBuffer := mkANWB {
  nb_width : Z; nb_height : Z; nb_stride : Z; nb_format : Z; nb_usage : Z;
  nb_handle : native_handle }.
(** [None] outside when [reserve] is too short, [None] inside when there is no memory. *)
Definition BuildNativeBuffer (create_ok : bool) (bh : BufferHandle)
    : option (option ANativeWindowBuffer) :=
  let numFds := s32 (1 + bh_reserveFds bh) in
  let numInts := s32 (if kPtrSlots <=? bh_reserveInts bh then bh_reserveInts bh - kPtrSlots
                      else bh_reserveInts bh) in
  if negb create_ok then Some None
  else if Z.of_nat (length (bh_reserve bh)) <? bh_reserveFds bh + Z.max 0 numInts then None
  else
    let fds := take (Z.to_nat (bh_reserveFds bh)) (bh_reserve bh) in
    let ints := take (Z.to_nat numInts) (drop (Z.to_nat (bh_reserveFds bh)) (bh_reserve bh)) in
    let bpp := HybrisBytesPerPixelOhos (u32 (bh_format bh)) in
    Some (Some (mkANWB (bh_width bh) (bh_height bh)
                  (if 0 <? bpp then Z.quot (bh_stride bh) bpp else bh_stride bh)
                  (bh_format bh) (bh_usage bh)
                  (mkNative numFds numInts (bh_fd bh :: fds ++ ints)))).

(** ** Theorems on handles *)

Lemma dup_loop_spec e i fds got :
  let '(ok, l) := dup_loop e i fds got in
  ∃ k, l = got ++ imap (λ j fd, ke_dup e (S (i + j)) fd) (take k fds) ∧ (k ≤ length fds)%nat ∧
       Forall (λ fd, 0 <= fd) (imap (λ j fd, ke_dup e (S (i + j)) fd) (take k fds)) ∧
       (ok = true → k = length fds).
Proof.
  revert i got. induction fds as [|nfd fds IH]; intros i got; simpl.
  { exists O. rewrite app_nil_r. split_and!; done. }
  destruct (Z.ltb_spec (ke_dup e (S i) nfd) 0) as [Hneg|Hpos].
  { exists O. simpl. rewrite app_nil_r. split_and!; try done; try lia. }
  specialize (IH (S i) (got ++ [ke_dup e (S i) nfd])).
  destruct (dup_loop e (S i) fds (got ++ [ke_dup e (S i) nfd])) as [ok l].
  destruct IH as (k & -> & Hk & Hall & H1). exists (S k). simpl.
  assert (imap ((λ j fd, ke_dup e (S (i + j)) fd) ∘ S) (take k fds)
          = imap (λ j fd, ke_dup e (S (S i + j)) fd) (take k fds)) as ->.
  { apply imap_ext. intros j x _. simpl. by rewrite Nat.add_succ_r. }
  rewrite Nat.add_0_r -app_assoc. split_and!; try done; [lia|by constructor|naive_solver].
Qed.
(** The duplicates of the descriptors of a handle, the i-th result for the i-th. *)
Definition dups (e : KEnv) (nh : native_handle) : list Z :=
  imap (ke_dup e) (take (Z.to_nat (nh_numFds nh)) (nh_data nh)).
Lemma opened_dups e nh :
  1 <= nh_numFds nh <= Z.of_nat (length (nh_data nh)) →
  ke_dup e 0 (nth 0 (nh_data nh) 0) ::
    imap (λ j fd, ke_dup e (S (0 + j)) fd) (take (Z.to_nat (nh_numFds nh - 1)) (drop 1 (nh_data nh)))
  = dups e nh.
Proof.
  intros [H1 H2]. unfold dups. destruct (nh_data nh) as [|fd l]; [simpl in H2; lia|].
  replace (Z.to_nat (nh_numFds nh)) with (S (Z.to_nat (nh_numFds nh - 1))) by lia. simpl.
  by rewrite skipn_O.
Qed.

(** C29: the importer neither leaks nor steals a descriptor.  Whatever the kernel
    answers, every descriptor it duplicated is either closed again, once, when no handle
    results, or is a descriptor of the handle, in the order of the original and one for
    each of its descriptors; descriptors of the original are not closed. *)
Theorem import_fds_balanced e handle desc r opened closed :
  BuildBufferHandle e handle desc = Some (r, opened, closed) →
  Forall (λ fd, 0 <= fd) opened ∧
  match r with
  | None => closed = opened
  | Some bh => closed = [] ∧
      bh_fd bh :: take (Z.to_nat (bh_reserveFds bh)) (bh_reserve bh) = opened ∧
      ∃ nh, handle = Some nh ∧ (nh_numFds nh < 2 ^ 32 → Z.of_nat (length opened) = nh_numFds nh)
  end.
Proof.
  unfold BuildBufferHandle. destruct handle as [nh|]; [|by intros [= <- <- <-]].
  destruct (Z.ltb_spec (nh_numFds nh) 1) as [|Hn]; [by intros [= <- <- <-]|].
  case_match; [by intros [= <- <- <-]|]. case_match; [by intros [= <- <- <-]|].
  destruct (Z.ltb_spec (Z.of_nat (length (nh_data nh))) (nh_numFds nh + u32 (nh_numInts nh))) as [|Hlen]; [done|].
  case_match; [done|].
  destruct (Z.ltb_spec (ke_dup e 0 (nth 0 (nh_data nh) 0)) 0) as [|Hfd0]; [by intros [= <- <- <-]|].
  set (fds := take _ (drop 1 (nh_data nh))).
  pose proof (dup_loop_spec e 0 fds []) as Hd.
  destruct (dup_loop _ _ _ _) as [ok got]. destruct Hd as (k & -> & Hk & Hall & Hkn).
  rewrite app_nil_l in Hall |- *. destruct ok; simpl; intros [= <- <- <-]; (split; [by constructor|]); [|done].
  rewrite (Hkn eq_refl) firstn_all. cbn [bh_fd bh_reserve bh_reserveFds]. split; [done|].
  assert (0 <= u32 (nh_numInts nh)) as Hu by (unfold u32; apply Z.mod_pos_bound; lia).
  assert (0 <= u32 (nh_numFds nh - 1) <= nh_numFds nh - 1) as Hv.
  { unfold u32. split; [apply Z.mod_pos_bound; lia|apply Z.mod_le; lia]. }
  assert (length fds = Z.to_nat (u32 (nh_numFds nh - 1))) as Hfds.
  { unfold fds. rewrite length_take length_drop. lia. }
  split.
  - by rewrite take_app_length' ?length_imap.
  - exists nh. split; [done|]. intros Hlt. simpl. rewrite length_imap Hfds.
    rewrite u32_id; unfold is_u32; lia.
Qed.

(** A native handle of two descriptors and three words. *)
Definition demo_native : native_handle := mkNative 2 3 [10; 11; 7; 8; 9].
Definition demo_kenv (third : Z) : KEnv :=
  mkKEnv (λ _ fd, if fd =? 10 then 20 else if fd =? 11 then third else -1) (λ _, Some 9000000) true.
Definition demo_desc (format : Z) : WleglBufferDesc := mkDesc 1080 2400 1088 format 0x300.
Lemma import_fds_balanced_witness :
  match BuildBufferHandle (demo_kenv (-1)) (Some demo_native) (demo_desc HAL_RGB_565) with
  | Some (None, opened, closed) => opened = [20] ∧ closed = opened
  | _ => False
  end.
Proof.
  destruct (BuildBufferHandle (demo_kenv (-1)) (Some demo_native) (demo_desc HAL_RGB_565))
    as [[[r opened] closed]|] eqn:E; [|discriminate E].
  destruct (import_fds_balanced _ _ _ _ _ _ E) as [_ H]. vm_compute in E.
  injection E as <- <- <-. split; [reflexivity|exact H].
Defined.

(** The handle the composer HAL makes of an imported buffer. *)
Lemma native_of_imported e nh desc bh opened closed :
  BuildBufferHandle e (Some nh) desc = Some (Some bh, opened, closed) →
  0 <= nh_numInts nh → nh_numFds nh + nh_numInts nh < 2 ^ 31 - kPtrSlots →
  BuildNativeBuffer true bh =
    Some (Some (mkANWB (wd_width desc) (wd_height desc)
      (let bpp := HybrisBytesPerPixelOhos (bh_format bh) in
       if 0 <? bpp then Z.quot (bh_stride bh) bpp else bh_stride bh)
      (AndroidFormatToOhos (wd_format desc)) (u64 (wd_usage desc))
      (mkNative (nh_numFds nh) (nh_numInts nh)
         (dups e nh ++ take (Z.to_nat (nh_numInts nh)) (drop (Z.to_nat (nh_numFds nh)) (nh_data nh)))))) ∧
  opened = dups e nh ∧
  bh_format bh = AndroidFormatToOhos (wd_format desc) ∧
  bh_stride bh = wd_stride desc * BytesPerPixel (bh_format bh).
Proof.
  unfold BuildBufferHandle, kPtrSlots. intros HB Hi Hlt. revert HB.
  destruct (Z.ltb_spec (nh_numFds nh) 1) as [|Hn]; [done|].
  destruct (AndroidFormatToOhos (wd_format desc) =? 0) eqn:Ef; [done|].
  destruct (ke_malloc e); simpl; [|done]. rewrite !(u32_id (nh_numInts nh)); [|unfold is_u32; lia].
  destruct (Z.ltb_spec (Z.of_nat (length (nh_data nh))) (nh_numFds nh + nh_numInts nh)); [done|].
  destruct (negb (fits_int32 _)); [done|].
  destruct (Z.ltb_spec (ke_dup e 0 (nth 0 (nh_data nh) 0)) 0); [done|].
  rewrite !(u32_id (nh_numFds nh - 1)); [|unfold is_u32; lia].
  pose proof (dup_loop_spec e 0 (take (Z.to_nat (nh_numFds nh - 1)) (drop 1 (nh_data nh))) []) as Hd.
  destruct (dup_loop _ _ _ _) as [ok got]. destruct Hd as (k & -> & Hk & Hall & Hkn).
  rewrite app_nil_l. destruct ok; simpl; intros [= <- <- _]. rewrite (Hkn eq_refl) firstn_all.
  pose proof (opened_dups e nh ltac:(lia)) as Hop.
  set (fds := imap _ (take (Z.to_nat (nh_numFds nh - 1)) _)) in *.
  set (ints := take _ (drop _ (nh_data nh))).
  assert (length fds = Z.to_nat (nh_numFds nh - 1)) as Hfds.
  { unfold fds. rewrite length_imap length_take length_drop. lia. }
  assert (length ints = Z.to_nat (nh_numInts nh)) as Hints.
  { unfold ints. rewrite length_take length_drop. lia. }
  split; [|done]. unfold BuildNativeBuffer, kPtrSlots. cbn [bh_reserveFds bh_reserveInts bh_reserve
    bh_format bh_stride bh_width bh_height bh_usage bh_fd negb].
  rewrite !(u32_id (nh_numInts nh + 4)); [|unfold is_u32; lia].
  destruct (Z.leb_spec 4 (nh_numInts nh + 4)); [|lia].
  replace (s32 (1 + (nh_numFds nh - 1))) with (nh_numFds nh) by width_lia.
  replace (s32 (nh_numInts nh + 4 - 4)) with (nh_numInts nh) by width_lia.
  rewrite !length_app Hfds Hints. cbn [length].
  match goal with |- context [?a <? ?b] => destruct (Z.ltb_spec a b) end; [lia|].
  rewrite !(take_app_length' fds) ?(drop_app_length' fds); [|lia..].
  rewrite (take_app_length' ints); [|lia]. rewrite -Hop.
  rewrite (u32_id (AndroidFormatToOhos _)); [done|].
  unfold AndroidFormatToOhos, is_u32. repeat case_match; vm_compute; split; congruence.
Qed.

(** C19: the handle survives the trip.  What the composer HAL rebuilds from an imported
    buffer has as many descriptors and words as the container's; its i-th descriptor is
    the duplicate of the container's i-th, its words are the container's (the bookkeeping
    slots the importer appends are cut off again), and the geometry is the one declared.
    For the formats the two sides number alike in width, which RGBA_8888 and RGBX_8888
    are not (see [rgba_stride_lost]), its stride is the pixel stride declared. *)
Theorem import_handle_roundtrip e nh desc bh opened closed :
  BuildBufferHandle e (Some nh) desc = Some (Some bh, opened, closed) →
  0 <= nh_numInts nh → nh_numFds nh + nh_numInts nh < 2 ^ 31 - kPtrSlots →
  ∃ nb, BuildNativeBuffer true bh = Some (Some nb) ∧
    nh_numFds (nb_handle nb) = nh_numFds nh ∧ nh_numInts (nb_handle nb) = nh_numInts nh ∧
    nh_data (nb_handle nb) =
      imap (ke_dup e) (take (Z.to_nat (nh_numFds nh)) (nh_data nh)) ++
      take (Z.to_nat (nh_numInts nh)) (drop (Z.to_nat (nh_numFds nh)) (nh_data nh)) ∧
    nb_width nb = wd_width desc ∧ nb_height nb = wd_height desc ∧
    (wd_format desc ≠ HAL_RGBA_8888 → wd_format desc ≠ HAL_RGBX_8888 → nb_stride nb = wd_stride desc).
Proof.
  intros HB Hi Hlt.
  destruct (native_of_imported _ _ _ _ _ _ HB Hi Hlt) as (Hnb & _ & Hf & Hst).
  eexists. split; [exact Hnb|]. split_and!; try done. intros Hf1 Hf2. cbn [nb_stride].
  assert (bh_format bh ≠ 0) as Hne.
  { intros H0. unfold BuildBufferHandle in HB. rewrite Hf in H0.
    repeat case_match; simplify_eq; bool_props; done. }
  rewrite Hst {Hst Hnb HB}. rewrite Hf in Hne |- *. unfold AndroidFormatToOhos in *.
  repeat case_match; bool_props; try done;
    cbn [HybrisBytesPerPixelOhos BytesPerPixel]; vm_compute (0 <? _); cbn iota;
    unfold BytesPerPixel; cbn; rewrite ?Z.quot_mul ?Z.mul_1_r; done.
Qed.
Lemma import_handle_roundtrip_witness :
  match BuildBufferHandle (demo_kenv 21) (Some demo_native) (demo_desc HAL_RGB_565) with
  | Some (Some bh, opened, _) =>
      ∃ nb, BuildNativeBuffer true bh = Some (Some nb) ∧ nb_stride nb = 1088 ∧
            nh_data (nb_handle nb) = [20; 21; 7; 8; 9]
  | _ => False
  end.
Proof.
  destruct (BuildBufferHandle (demo_kenv 21) (Some demo_native) (demo_desc HAL_RGB_565))
    as [[[[bh|] opened] closed]|] eqn:E; [|discriminate E..].
  destruct (import_handle_roundtrip _ _ _ _ _ _ E) as (nb & H1 & _ & _ & H2 & _ & _ & H3);
    [vm_compute; congruence|reflexivity|].
  exists nb. split; [exact H1|]. split; [apply H3; discriminate|]. exact H2.
Defined.

(** The container's own format loses its stride.  The importer numbers RGBA_8888 9
    and RGBX_8888 8 where the display HAL (and the buffer VDI) number them 12 and 11; the
    HAL takes the imported format for one without whole bytes per pixel and hands the
    stride on in bytes, four times what it is in pixels. *)
Theorem rgba_stride_lost e nh desc bh opened closed :
  BuildBufferHandle e (Some nh) desc = Some (Some bh, opened, closed) →
  0 <= nh_numInts nh → nh_numFds nh + nh_numInts nh < 2 ^ 31 - kPtrSlots →
  wd_format desc = HAL_RGBA_8888 ∨ wd_format desc = HAL_RGBX_8888 →
  ∃ nb, BuildNativeBuffer true bh = Some (Some nb) ∧ nb_stride nb = 4 * wd_stride desc.
Proof.
  intros HB Hi Hlt Hf12.
  destruct (native_of_imported _ _ _ _ _ _ HB Hi Hlt) as (Hnb & _ & Hf & Hst).
  eexists. split; [exact Hnb|]. cbn [nb_stride]. rewrite Hst {Hst Hnb HB} Hf {Hf}.
  destruct Hf12 as [-> | ->]; cbn; lia.
Qed.
Lemma rgba_stride_lost_witness :
  match BuildBufferHandle (demo_kenv 21) (Some demo_native) (demo_desc HAL_RGBA_8888) with
  | Some (Some bh, _, _) => ∃ nb, BuildNativeBuffer true bh = Some (Some nb) ∧ nb_stride nb = 4352
  | _ => False
  end.
Proof.
  destruct (BuildBufferHandle (demo_kenv 21) (Some demo_native) (demo_desc HAL_RGBA_8888))
    as [[[[bh|] opened] closed]|] eqn:E; [|discriminate E..].
  destruct (rgba_stride_lost _ _ _ _ _ _ E) as (nb & H1 & H2);
    [vm_compute; congruence|reflexivity|left; reflexivity|].
  exists nb. split; [exact H1|exact H2].
Defined.

Lemma s32_le x : 0 <= x → s32 x <= x.
Proof. intros. width_lia. Qed.
Lemma clamped_le a l : 0 < a → 0 <= l → s32 (if (0 <? a) && (a <? l) then a else l) <= a.
Proof.
  intros Ha Hl. destruct (Z.ltb_spec 0 a); [|lia]. destruct (Z.ltb_spec a l); simpl.
  - apply s32_le. lia.
  - etrans; [by apply s32_le|done].
Qed.
Lemma logical_size_nonneg f s h : 0 <= s → 0 <= h → 0 <= logical_size f s h.
Proof. intros. unfold logical_size. case_match; [apply Z.quot_pos; nia|nia]. Qed.

(** The size advertised is never more than the kernel says there is.  When the size
    of at least one descriptor can be read, and the client's stride and height do not
    make a negative plane, [size] is at most the largest descriptor's size, also where
    the product does not fit 32 bits. *)
Theorem import_size_bounded e nh desc bh opened closed :
  BuildBufferHandle e (Some nh) desc = Some (Some bh, opened, closed) →
  0 < LargestFdBytes e nh → 0 <= bh_stride bh → 0 <= wd_height desc →
  bh_size bh <= LargestFdBytes e nh.
Proof.
  unfold BuildBufferHandle. intros HB Ha Hs Hh. revert HB Hs.
  repeat (match goal with
          | |- (if ?c then _ else _) = _ → _ => destruct c
          | |- (let '(_, _) := ?x in _) = _ → _ => destruct x
          end; try done).
  intros [= <- _ _]. cbn [bh_size bh_stride]. intros Hs.
  apply clamped_le; [done|by apply logical_size_nonneg].
Qed.
Lemma import_size_bounded_witness :
  match BuildBufferHandle (demo_kenv 21) (Some demo_native) (demo_desc HAL_RGBA_8888) with
  | Some (Some bh, _, _) => bh_size bh <= 9000000
  | _ => False
  end.
Proof.
  destruct (BuildBufferHandle (demo_kenv 21) (Some demo_native) (demo_desc HAL_RGBA_8888))
    as [[[[bh|] opened] closed]|] eqn:E; [|discriminate E..].
  apply (import_size_bounded _ _ _ _ _ _ E); [reflexivity| |vm_compute; congruence].
  vm_compute in E. injection E as <- _ _. vm_compute. congruence.
Defined.

(** ** The output surface *)

Definition OUTPUT_QUEUE_SIZE : Z := 8.

Record BufferRequestConfig := mkCfg {
  rc_width : Z; rc_height : Z; rc_format : Z; rc_usage : Z }.
Definition zero_config : BufferRequestConfig := mkCfg 0 0 0 0.

(** What is asked of the render service. *)
Inductive RsOp :=
| RsAttach (node screen : Z) | RsDetach (node screen : Z) | RsVisible (node : Z) (b : bool)
| RsQueueSize (surface n : Z) | RsConnect (surface : Z) | RsDisconnect (surface : Z)
| RsCleanCache (surface : Z) (all : bool) | RsListener (surface : Z)
| RsFlush (surface buffer : Z) (cfg : BufferRequestConfig) | RsRefresh
| RsRequestAndDetach (surface : Z) (cfg : BufferRequestConfig).

Record OutputSurface := mkOut {
  os_surface : option Z; os_node : option Z; os_releaseCb : bool;
  os_screenId : Z; os_attachHealed : bool; os_width : Z; os_height : Z;
  os_lastConfig : BufferRequestConfig }.
Definition OutputSurface_new : OutputSurface := mkOut None None false 0 false 0 0 zero_config.

Definition InstallReleaseListenerLocked (o : OutputSurface) : list RsOp :=
  match os_surface o with
  | Some s => if os_releaseCb o then [RsListener s] else []
  | None => []
  end.
Definition SetReleaseCallback (o : OutputSurface) : OutputSurface * list RsOp :=
  let o := mkOut (os_surface o) (os_node o) true (os_screenId o) (os_attachHealed o) (os_width o)
             (os_height o) (os_lastConfig o) in
  (o, InstallReleaseListenerLocked o).
Definition AttachToDisplayLocked (o : OutputSurface) : list RsOp :=
  match os_node o with Some n => [RsAttach n (os_screenId o)] | None => [] end.

(** [create]: the node the render service makes, if it does, and its surface, if it has
    one. *)
Definition AttachSelfDrawingNode (create : option (Z * option Z)) (screenId width height : Z)
    (o : OutputSurface) : bool * OutputSurface * list RsOp :=
  match create with
  | None | Some (_, None) => (false, o, [])
  | Some (node, Some surface) =>
      let o := mkOut (Some surface) (Some node) (os_releaseCb o) screenId false width height
                 (os_lastConfig o) in
      (true, o, RsQueueSize surface OUTPUT_QUEUE_SIZE ::
                InstallReleaseListenerLocked o ++ AttachToDisplayLocked o)
  end.

(** The node is taken off the display it was put on. *)
Definition drop_node (o : OutputSurface) : OutputSurface * list RsOp :=
  match os_node o with
  | Some n => (mkOut (os_surface o) None (os_releaseCb o) 0 false (os_width o) (os_height o)
                 (os_lastConfig o), [RsDetach n (os_screenId o)])
  | None => (o, [])
  end.
Definition set_surface (s : option Z) (o : OutputSurface) : OutputSurface :=
  mkOut s (os_node o) (os_releaseCb o) (os_screenId o) (os_attachHealed o) (os_width o)
    (os_height o) (os_lastConfig o).

(** [surface]: what [CreateSurfaceAsProducer] makes of the producer. *)
Definition AttachProducer (surface : option Z) (o : OutputSurface)
    : bool * OutputSurface * list RsOp :=
  match surface with
  | None => (false, o, [])
  | Some s =>
      let '(o, ops) := drop_node o in
      let o := set_surface (Some s) o in
      (true, o, ops ++ RsConnect s :: RsQueueSize s OUTPUT_QUEUE_SIZE :: InstallReleaseListenerLocked o)
  end.

Definition Detach (o : OutputSurface) : OutputSurface * list RsOp :=
  match os_node o, os_surface o with
  | Some _, _ => let '(o, ops) := drop_node o in (set_surface None o, ops)
  | None, Some s => (set_surface None o, [RsCleanCache s true; RsDisconnect s])
  | None, None => (o, [])
  end.
Definition SetNodeVisible (visible : bool) (o : OutputSurface) : list RsOp :=
  match os_node o with Some n => [RsVisible n visible] | None => [] end.
Definition EnsureAttachedToDisplay (o : OutputSurface) : OutputSurface * list RsOp :=
  if bool_decide (os_node o = None) || os_attachHealed o then (o, [])
  else let o := mkOut (os_surface o) (os_node o) (os_releaseCb o) (os_screenId o) true (os_width o)
                  (os_height o) (os_lastConfig o) in
       (o, AttachToDisplayLocked o).
Definition ResetQueue (o : OutputSurface) : list RsOp :=
  match os_surface o with Some s => [RsCleanCache s false] | None => [] end.
Definition IsAttached (o : OutputSurface) : bool := bool_decide (os_surface o ≠ None).

(** [cfg] is the buffer's request config, which the flush may change; [err] what
    [AttachAndFlushBuffer] answers, [defaultUsage] the queue's. *)
Definition Flush (err defaultUsage : Z) (buffer : Z) (cfg : BufferRequestConfig) (o : OutputSurface)
    : bool * BufferRequestConfig * OutputSurface * list RsOp :=
  match os_surface o with
  | None => (false, cfg, o, [])
  | Some s =>
      let cfg := mkCfg (rc_width cfg) (rc_height cfg) (rc_format cfg)
                   (Z.lor (rc_usage cfg) defaultUsage) in
      let o := mkOut (os_surface o) (os_node o) (os_releaseCb o) (os_screenId o) (os_attachHealed o)
                 (os_width o) (os_height o) cfg in
      (err =? 0, cfg, o, [RsFlush s buffer cfg; RsRefresh])
  end.
(** [reclaim]: what [RequestAndDetachBuffer] hands out.  The buffer passed on to the
    callback. *)
Definition ReclaimReleased (reclaim : option Z) (o : OutputSurface) : option Z * list RsOp :=
  match os_surface o with
  | None => (None, [])
  | Some s =>
      if rc_width (os_lastConfig o) <=? 0 then (None, [])
      else (if os_releaseCb o then reclaim else None, [RsRequestAndDetach s (os_lastConfig o)])
  end.

(** ** The life of a node *)

Inductive OutCall :=
| CSelf (create : option (Z * option Z)) (screenId width height : Z) | CProducer (surface : option Z)
| CDetach | CVisible (b : bool) | CEnsure | CReset
| CFlush (err usage buffer : Z) (cfg : BufferRequestConfig) | CReclaim (reclaim : option Z) | CCallback.
Definition out_call (c : OutCall) (x : OutputSurface * list RsOp) : OutputSurface * list RsOp :=
  let '(o, log) := x in
  match c with
  | CSelf create s w h => let '(_, o, ops) := AttachSelfDrawingNode create s w h o in (o, log ++ ops)
  | CProducer s => let '(_, o, ops) := AttachProducer s o in (o, log ++ ops)
  | CDetach => let '(o, ops) := Detach o in (o, log ++ ops)
  | CVisible b => (o, log ++ SetNodeVisible b o)
  | CEnsure => let '(o, ops) := EnsureAttachedToDisplay o in (o, log ++ ops)
  | CReset => (o, log ++ ResetQueue o)
  | CFlush err u b cfg => let '(_, _, o, ops) := Flush err u b cfg o in (o, log ++ ops)
  | CReclaim r => (o, log ++ snd (ReclaimReleased r o))
  | CCallback => let '(o, ops) := SetReleaseCallback o in (o, log ++ ops)
  end.
Definition out_calls (l : list OutCall) (x : OutputSurface * list RsOp) : OutputSurface * list RsOp :=
  foldl (λ x c, out_call c x) x l.

(** The node a call makes the output's own. *)
Definition created (c : OutCall) : option Z :=
  match c with CSelf (Some (n, Some _)) _ _ _ => Some n | _ => None end.
(** The nodes a new one was put in the place of: [AttachSelfDrawingNode] overwrites
    [node_] without looking at it. *)
Definition replaces (c : OutCall) (o : OutputSurface) : list Z :=
  match created c with Some _ => option_list (os_node o) | None => [] end.
Fixpoint replaced (l : list OutCall) (x : OutputSurface * list RsOp) : list Z :=
  match l with [] => [] | c :: l => replaces c x.1 ++ replaced l (out_call c x) end.
(** Everything asked about a node. *)
Definition about_node (n : Z) (op : RsOp) : bool :=
  match op with RsAttach m _ | RsDetach m _ | RsVisible m _ => m =? n | _ => false end.
Definition node_ops (n : Z) (log : list RsOp) : list RsOp := filter (λ op, about_node n op = true) log.
Definition is_attach (op : RsOp) : bool := match op with RsAttach _ _ => true | _ => false end.
Definition attaches (l : list RsOp) : nat := length (filter (λ op, is_attach op = true) l).

(** A node in use: put on one screen first, then shown, hidden or put there again. *)
Definition used (n screen : Z) (again : nat) (ops : list RsOp) : Prop :=
  ∃ uses, ops = RsAttach n screen :: uses ∧ attaches uses = again ∧
    Forall (λ op, op = RsAttach n screen ∨ ∃ b, op = RsVisible n b) uses.
Lemma used_new n s : used n s 0 [RsAttach n s].
Proof. by exists []. Qed.
Lemma attaches_app l1 l2 : attaches (l1 ++ l2) = (attaches l1 + attaches l2)%nat.
Proof. unfold attaches. by rewrite filter_app length_app. Qed.
Lemma used_snoc n s k ops op :
  used n s k ops → op = RsAttach n s ∨ (∃ b, op = RsVisible n b) →
  used n s (k + attaches [op])%nat (ops ++ [op]).
Proof.
  intros (uses & -> & <- & Hall) Hop. exists (uses ++ [op]). split_and!; [done|by rewrite attaches_app|].
  apply Forall_app. by split; [|constructor].
Qed.

Record node_inv (nodes gone : list Z) (o : OutputSurface) (log : list RsOp) : Prop := {
  ni_new : ∀ n, n ∉ nodes → node_ops n log = [] ∧ n ∉ gone;
  ni_cur : ∀ n, os_node o = Some n →
    n ∈ nodes ∧ (n ∉ gone) ∧ used n (os_screenId o) (if os_attachHealed o then 1 else 0)%nat (node_ops n log);
  ni_old : ∀ n, n ∈ nodes → os_node o ≠ Some n →
    ∃ s k ops, (k ≤ 1)%nat ∧ used n s k ops ∧
      node_ops n log = ops ++ (if bool_decide (n ∈ gone) then [] else [RsDetach n s]) }.

Lemma node_ops_app n l1 l2 : node_ops n (l1 ++ l2) = node_ops n l1 ++ node_ops n l2.
Proof. apply filter_app. Qed.
(** The last operation, when it is about a node. *)
Lemma node_ops_last n m ops op :
  (∀ n, node_ops n ops = []) → about_node m op = true → (about_node n op = true → n = m) →
  node_ops n (ops ++ [op]) = if m =? n then [op] else [].
Proof.
  intros H0 Hm Hn. rewrite node_ops_app H0. unfold node_ops. simpl.
  destruct (Z.eqb_spec m n) as [->|Hne]; [by rewrite filter_cons_True|].
  rewrite filter_cons_False; [done|]. intros H. by destruct (Hn H).
Qed.
(** Operations that are about no node, and leave the node alone. *)
Lemma node_inv_other nodes gone o o' log ops :
  node_inv nodes gone o log → (∀ n, node_ops n ops = []) →
  os_node o' = os_node o → os_attachHealed o' = os_attachHealed o → os_screenId o' = os_screenId o →
  node_inv nodes gone o' (log ++ ops).
Proof.
  intros [H1 H2 H3] Hops E1 E2 E3.
  split; intros n; rewrite node_ops_app Hops app_nil_r ?E1 ?E2 ?E3; auto.
Qed.
(** One use of the current node. *)
Lemma node_inv_use nodes gone o o' log m op :
  node_inv nodes gone o log → os_node o = Some m → os_node o' = Some m → os_screenId o' = os_screenId o →
  op = RsAttach m (os_screenId o) ∨ (∃ b, op = RsVisible m b) →
  ((if os_attachHealed o then 1 else 0) + attaches [op] = if os_attachHealed o' then 1 else 0)%nat →
  node_inv nodes gone o' (log ++ [op]).
Proof.
  intros [H1 H2 H3] Em Em' Es Hop Hk.
  assert (∀ n, node_ops n (log ++ [op]) = node_ops n log ++ (if m =? n then [op] else [])) as Hops.
  { intros n. rewrite node_ops_app. f_equal. apply (node_ops_last n m []); [done| |];
      destruct Hop as [->|[b ->]]; simpl; [apply Z.eqb_refl..| |]; by intros ->%Z.eqb_eq. }
  split; intros n; rewrite Hops.
  - intros Hn. destruct (H1 n Hn) as [-> ?]. destruct (Z.eqb_spec m n) as [->|]; [|done].
    by destruct (H2 n Em).
  - rewrite Em'. intros [= <-]. destruct (H2 m Em) as (? & ? & Hu). split_and!; [done..|].
    rewrite Z.eqb_refl Es -Hk. by apply used_snoc.
  - intros Hn Hne. destruct (Z.eqb_spec m n) as [->|]; [done|]. rewrite app_nil_r. apply H3; congruence.
Qed.
Lemma node_inv_drop nodes gone o log :
  node_inv nodes gone o log →
  let x := drop_node o in node_inv nodes gone x.1 (log ++ x.2) ∧ os_node x.1 = None.
Proof.
  intros Hi. unfold drop_node. destruct (os_node o) as [m|] eqn:Em; simpl;
    [|rewrite app_nil_r; by split]. split; [|done]. destruct Hi as [H1 H2 H3].
  destruct (H2 m Em) as (Hm & Hg & Hu).
  assert (∀ n, node_ops n (log ++ [RsDetach m (os_screenId o)]) =
    node_ops n log ++ (if m =? n then [RsDetach m (os_screenId o)] else [])) as Hops.
  { intros n. rewrite node_ops_app. f_equal. apply (node_ops_last n m []); [done|simpl; apply Z.eqb_refl|].
    simpl. by intros ->%Z.eqb_eq. }
  split; simpl; [|done|]; intros n; rewrite Hops.
  - intros Hn. destruct (H1 n Hn) as [-> ?]. destruct (Z.eqb_spec m n) as [->|]; done.
  - intros Hn _. destruct (Z.eqb_spec m n) as [->|Hne].
    + eexists _, _, _. split; [|split; [exact Hu|by rewrite bool_decide_false]]. case_match; lia.
    + rewrite app_nil_r. apply H3; congruence.
Qed.
(** A new node: what was current is now a replaced one. *)
Lemma node_inv_new nodes gone o log n surface cb sc w h cfg ops :
  node_inv nodes gone o log → n ∉ nodes → (∀ m, node_ops m ops = []) →
  node_inv (nodes ++ [n]) (gone ++ option_list (os_node o))
    (mkOut surface (Some n) cb sc false w h cfg) (log ++ ops ++ [RsAttach n sc]).
Proof.
  intros [H1 H2 H3] Hnew Hops0. destruct (H1 n Hnew) as [Hn0 Hng].
  assert (∀ m, node_ops m (log ++ ops ++ [RsAttach n sc]) =
    node_ops m log ++ (if n =? m then [RsAttach n sc] else [])) as Hops.
  { intros m. rewrite node_ops_app. f_equal. apply node_ops_last; [done|simpl; apply Z.eqb_refl|].
    simpl. by intros ->%Z.eqb_eq. }
  split; simpl; intros m; rewrite Hops.
  - rewrite not_elem_of_app list_elem_of_singleton. intros [Hm Hne]. destruct (H1 m Hm) as [-> ?].
    destruct (Z.eqb_spec n m) as [->|]; [done|]. split; [done|]. rewrite not_elem_of_app. split; [done|].
    destruct (os_node o) as [q|] eqn:Eq; simpl; [|set_solver]. destruct (H2 q eq_refl) as (? & _). set_solver.
  - intros [= <-]. split_and!; [set_solver| |by rewrite Hn0 Z.eqb_refl; apply used_new].
    rewrite not_elem_of_app. split; [done|]. destruct (os_node o) as [q|] eqn:Eq; simpl; [|set_solver].
    destruct (H2 q eq_refl) as (? & _). set_solver.
  - intros Hm Hne. destruct (Z.eqb_spec n m) as [->|_]; [done|]. rewrite app_nil_r.
    assert (m ∈ nodes) as Hm' by set_solver.
    destruct (decide (os_node o = Some m)) as [Ho|Ho].
    + destruct (H2 m Ho) as (_ & _ & Hu). eexists _, _, _. split; [|split; [exact Hu|]]; [case_match; lia|].
      rewrite bool_decide_true ?app_nil_r //. rewrite Ho. set_solver.
    + destruct (H3 m Hm' Ho) as (s & k & ops' & Hk & Hu & ->). exists s, k, ops'. split_and!; [done..|].
      f_equal. assert (m ∈ gone ↔ m ∈ gone ++ option_list (os_node o)) as Hiff.
      { destruct (os_node o) as [q|]; simpl; set_solver. }
      by rewrite (bool_decide_ext _ _ Hiff).
Qed.

Lemma node_inv_call nodes gone c o log :
  node_inv nodes gone o log → (∀ n, created c = Some n → n ∉ nodes) →
  let x := out_call c (o, log) in
  node_inv (nodes ++ option_list (created c)) (gone ++ replaces c o) x.1 x.2.
Proof.
  intros Hi Hnew. destruct c as [[[n [s|]]|] sc w h|[s|]| |b| | |err u b cfg|r|]; unfold replaces; simpl in *;
    rewrite ?app_nil_r; try exact Hi; try (by eapply node_inv_other; [exact Hi|done..]).
  - (* a new node *)
    unfold InstallReleaseListenerLocked, AttachToDisplayLocked; simpl. rewrite app_comm_cons.
    apply node_inv_new; [done|by apply Hnew|]. intros m. by destruct (os_releaseCb o).
  - (* a producer *)
    destruct (node_inv_drop _ _ _ _ Hi) as [Hi' _]. destruct (drop_node o) as [o' ops]. simpl in *.
    rewrite app_assoc. eapply node_inv_other; [exact Hi'| |done..].
    intros k. unfold node_ops, InstallReleaseListenerLocked. simpl. by destruct (os_releaseCb o').
  - (* Detach *)
    destruct (node_inv_drop _ _ _ _ Hi) as [Hi' Hn]. unfold Detach, drop_node in *.
    destruct (os_node o) as [m|] eqn:Em; simpl in *.
    + rewrite -(app_nil_r (log ++ _)). by eapply node_inv_other; [exact Hi'|done..].
    + destruct (os_surface o); simpl; (eapply node_inv_other; [exact Hi|done..]).
  - (* shown or hidden *)
    unfold SetNodeVisible. destruct (os_node o) as [m|] eqn:Em; [|by eapply node_inv_other; [exact Hi|done..]].
    eapply node_inv_use; [exact Hi|exact Em|exact Em|done|right; by eexists|]. by rewrite Nat.add_0_r.
  - (* the heal *)
    unfold EnsureAttachedToDisplay, AttachToDisplayLocked.
    destruct (os_node o) as [m|] eqn:Em; simpl; [|rewrite app_nil_r; exact Hi].
    destruct (os_attachHealed o) eqn:Eh; simpl; [rewrite app_nil_r; exact Hi|].
    eapply node_inv_use; [exact Hi|exact Em|done|done|by left|by rewrite Eh].
  - unfold ResetQueue. destruct (os_surface o); (eapply node_inv_other; [exact Hi|done..]).
  - unfold Flush. destruct (os_surface o); simpl; (eapply node_inv_other; [exact Hi|done..]).
  - unfold ReclaimReleased. destruct (os_surface o); simpl; [case_match; simpl|];
      (eapply node_inv_other; [exact Hi|done..]).
  - unfold InstallReleaseListenerLocked. simpl.
    destruct (os_surface o); simpl; (eapply node_inv_other; [exact Hi|done..]).
Qed.

Lemma node_inv_calls l nodes gone o log :
  node_inv nodes gone o log → NoDup (nodes ++ omap created l) →
  let x := out_calls l (o, log) in node_inv (nodes ++ omap created l) (gone ++ replaced l (o, log)) x.1 x.2.
Proof.
  revert nodes gone o log. induction l as [|c l IH]; intros nodes gone o log Hi Hnd.
  { simpl. by rewrite !app_nil_r. }
  assert (omap created (c :: l) = option_list (created c) ++ omap created l) as E
    by (simpl; by destruct (created c)).
  rewrite E in Hnd |- *. rewrite app_assoc in Hnd |- *. cbn [replaced]. rewrite app_assoc.
  destruct (out_call c (o, log)) as [o' log'] eqn:Ec.
  assert (out_calls (c :: l) (o, log) = out_calls l (o', log')) as ->
    by (unfold out_calls; cbn [foldl]; by rewrite Ec).
  apply IH; [|done].
  pose proof (node_inv_call nodes gone c o log Hi) as H. rewrite Ec in H. apply H.
  intros n Hn. rewrite Hn -app_assoc in Hnd. apply NoDup_app in Hnd as (_ & Hdis & _).
  intros Hin. apply (Hdis n Hin). by left.
Qed.

(** C22: a node is put on its display once, healed at most once, taken off once, and not
    used after.  For every sequence of calls to an output (each node the render service
    makes being a new one), what is asked of the render service about one node is its
    attachment to a screen, then showing, hiding and at most one more attachment to that
    screen (a repeated attachment would disarm the render service's own recovery), and
    then its detachment from that screen and nothing more.  The detachment is there unless
    the node is still the output's, or another node was created in its place: a second
    [AttachSelfDrawingNode] drops the node it finds without detaching it. *)
Theorem node_attach_discipline l n :
  NoDup (omap created l) → n ∈ omap created l →
  let '(o, log) := out_calls l (OutputSurface_new, []) in
  ∃ uses screen, (attaches uses ≤ 1)%nat ∧
    Forall (λ op, op = RsAttach n screen ∨ ∃ b, op = RsVisible n b) uses ∧
    node_ops n log = RsAttach n screen :: uses ++
      (if bool_decide (os_node o = Some n) || bool_decide (n ∈ replaced l (OutputSurface_new, []))
       then [] else [RsDetach n screen]).
Proof.
  intros Hnd Hn.
  assert (node_inv [] [] OutputSurface_new []) as H0.
  { split; [set_solver|done|]. intros m Hm. by apply elem_of_nil in Hm. }
  pose proof (node_inv_calls l [] [] _ [] H0 Hnd) as Hi. simpl in Hi.
  destruct (out_calls l (OutputSurface_new, [])) as [o log]. simpl in Hi.
  case_bool_decide as Hc; simpl.
  - destruct (ni_cur _ _ _ _ Hi n Hc) as (_ & _ & uses & -> & Hk & Hall). exists uses, (os_screenId o).
    split_and!; [case_match; lia|done|by rewrite app_nil_r].
  - destruct (ni_old _ _ _ _ Hi n Hn Hc) as (s & k & ops & Hk & (uses & -> & <- & Hall) & ->).
    exists uses, s. split_and!; [lia|done|]. done.
Qed.
Lemma node_attach_discipline_witness :
  let l := [CSelf (Some (5, Some 6)) 3 1080 2400; CEnsure; CVisible true; CEnsure; CProducer (Some 9)] in
  node_ops 5 (out_calls l (OutputSurface_new, [])).2 =
    [RsAttach 5 3; RsAttach 5 3; RsVisible 5 true; RsDetach 5 3] ∧
  ∃ uses screen, (attaches uses ≤ 1)%nat ∧
    node_ops 5 (out_calls l (OutputSurface_new, [])).2 = RsAttach 5 screen :: uses ++ [RsDetach 5 screen].
Proof.
  intros l. split; [reflexivity|].
  pose proof (node_attach_discipline l 5) as H.
  destruct (out_calls l (OutputSurface_new, [])) as [o log] eqn:E.
  destruct H as (uses & s & Hk & _ & H); [repeat constructor; set_solver|left|].
  exists uses, s. split; [exact Hk|]. rewrite /= H. vm_compute in E. injection E as <- _. reflexivity.
Defined.
