(* ===== verification/WdSession.v ===== *)
(** * The container's session service (waydroid/include/waydroid_session.h,
    waydroid/src/waydroid_session.cpp)

    The compositor's IPC face to the Waydroid shell: who may call, the visibility lease
    that freezes and thaws the container, and the control plane into Android.  The
    compositor itself ([Server]) is the class [WlServer]; what the kernel, the clock,
    the parameter service and the binder library answer to one call is an [Env].  The
    critical sections of the threads are the actions of a machine. *)

From stdpp Require Import pretty.
From S2P Require Import Prelude.
Set Warnings "-rewrite-rw,-clear-no-such-hyp".

(** ** Constants and data *)

Inductive SessionError :=
| SESSION_OK | SESSION_EGENERIC | SESSION_EDENIED | SESSION_EFROZEN | SESSION_ENOTREADY
| SESSION_ETIMEDOUT | SESSION_ENOWINDOW | SESSION_EINVAL.
Definition SessionError_code (e : SessionError) : Z :=
  match e with
  | SESSION_OK => 0 | SESSION_EGENERIC => -1 | SESSION_EDENIED => -2 | SESSION_EFROZEN => -3
  | SESSION_ENOTREADY => -4 | SESSION_ETIMEDOUT => -5 | SESSION_ENOWINDOW => -6
  | SESSION_EINVAL => -7
  end.
Coercion SessionError_code : SessionError >-> Z.

Definition SESSION_STATE_BOOTING : Z := 0.
Definition SESSION_STATE_READY : Z := 1.
Definition SESSION_STATE_FROZEN : Z := 2.

Record SessionApp := mkSessionApp { app_name : string; app_package : string }.

Definition kVisibilityLeaseMs : Z := 10 * 1000.
Definition kShellBundle : string := "org.oniroproject.androidapps".
Definition kVisibleParam : string := "waydroid.session.visible".
Definition kGrabParam : string := "waydroid.input.grab".
Definition kMaxIconBytes : Z := 1024 * 1024.

(** ** The binder library (wdbinder.h) *)

Inductive WdbSettings := WDB_SETTINGS_SECURE | WDB_SETTINGS_SYSTEM | WDB_SETTINGS_GLOBAL.
Inductive WdbCall :=
| WdbGetprop (key : string) | WdbSetprop (key value : string)
| WdbPutInt (ns : WdbSettings) (key : string) (value : Z)
| WdbListApps | WdbLaunchApp (package : string).
Inductive WdbResult := WDB_OK | WDB_EOPEN | WDB_ENOSERVICE | WDB_ETIMEDOUT | WDB_EOTHER.
#[export] Instance WdbResult_eq_dec : EqDecision WdbResult.
Proof. solve_decision. Defined.

Definition FromWdb (rc : WdbResult) : SessionError :=
  match rc with
  | WDB_OK => SESSION_OK
  | WDB_EOPEN | WDB_ENOSERVICE => SESSION_ENOTREADY
  | WDB_ETIMEDOUT => SESSION_ETIMEDOUT
  | WDB_EOTHER => SESSION_EGENERIC
  end.

(** What the surroundings answer to one call.  [None] for the pid file means that it
    cannot be opened, [Some None] that it holds no number; [env_ns] is the inode of a
    process's pid namespace (0 if it cannot be read), [env_proc] the names in /proc;
    the clock and the overlay parameter are read several times. *)
Record Env := mkEnv {
  env_pidfile : option (option Z);
  env_ns : Z → Z;
  env_proc : option (list string);
  env_mkdir : bool;
  env_move : Z → bool;               (* writing a pid to cgroup.procs *)
  env_freeze : bool;                 (* writing cgroup.freeze *)
  env_now : nat → Z;
  env_overlay : nat → bool;
  env_wdb_new : bool;
  env_wdb : WdbCall → WdbResult;
  env_booted : option string;        (* sys.boot_completed *)
  env_apps : list (option string * string);
  env_icon : string → option (option (Z * list (list Z)));
      (* the file at a path: None if it cannot be opened, Some None if it is not a regular
         file, else its size and what the reads give *)
  env_iface_cast : Z → bool;         (* the remote object is a buffer producer *)
}.

(** ** The container's processes and its freezer *)

Definition is_digit (c : Ascii.ascii) : bool :=
  let n := Z.of_nat (Ascii.nat_of_ascii c) in (48 <=? n) && (n <=? 57).
Definition is_alpha (c : Ascii.ascii) : bool :=
  let n := Z.of_nat (Ascii.nat_of_ascii c) in ((65 <=? n) && (n <=? 90)) || ((97 <=? n) && (n <=? 122)).
(** [atol] on a name that starts with a digit. *)
Fixpoint atol (acc : Z) (s : string) : Z :=
  match s with
  | String.String c s => if is_digit c then atol (acc * 10 + (Z.of_nat (Ascii.nat_of_ascii c) - 48)) s
                         else acc
  | String.EmptyString => acc
  end.

Definition ReadContainerPid (e : Env) : Z :=
  match env_pidfile e with Some (Some pid) => s32 pid | _ => -1 end.
Definition container_proc (e : Env) (want : Z) (name : string) : option Z :=
  match name with
  | String.String c _ =>
      if is_digit c then
        let pid := s32 (atol 0 name) in
        if (0 <? pid) && (env_ns e pid =? want) then Some pid else None
      else None
  | String.EmptyString => None
  end.
Definition ContainerProcs (e : Env) (containerInit : Z) : list Z :=
  let want := env_ns e containerInit in
  if want =? 0 then []
  else match env_proc e with
       | None => []
       | Some names => omap (container_proc e want) names
       end.

Record Cgroup := mkCgroup { cg_frozen : bool; cg_procs : gset Z }.
Definition FreezeContainer (e : Env) (freeze : bool) (cg : Cgroup) : bool * Cgroup :=
  let init := ReadContainerPid e in
  if init <=? 0 then (false, cg)
  else if negb (env_mkdir e) then (false, cg)
  else
    let cg := if freeze
              then mkCgroup (cg_frozen cg)
                     (cg_procs cg ∪ list_to_set (filter (λ p, env_move e p = true) (ContainerProcs e init)))
              else cg in
    if negb (env_freeze e) then (false, cg) else (true, mkCgroup freeze (cg_procs cg)).

(** ** The state *)

Record Session := mkSession {
  g_visible : bool;
  g_thawed : bool;
  g_lastShowMs : Z;
  g_holdHiddenUntilMs : Z;
  g_readyFor : Z;
  g_provisionedFor : Z;
  g_plane : option Z;                 (* the generation its path points to *)
  g_events : list string;             (* queued for the shell *)
  g_workersRun : bool;
  ss_cgroup : Cgroup;
  ss_params : gmap string string;     (* the parameter service *)
  ss_calls : list WdbCall;            (* transactions into the container, oldest first *)
}.
Definition Session_new : Session :=
  mkSession false false 0 0 (-1) (-1) None [] false (mkCgroup false ∅) ∅ [].

(** The compositor, as the session uses it. *)
Class WlServer (S : Type) := {
  srv_AttachProducer : Z → S → bool * S;
  srv_Detach : S → S;
  srv_IsAttached : S → bool;
  srv_EnsureAttachedToDisplay : S → S;
  srv_SetNodeVisible : bool → S → S;
  srv_RevertToSelfDrawing : S → S;
  srv_ReleaseInFlightOf : Z → S → S;
  srv_InjectTouchFromAction : Z → Z → Z → Z → S → S;
  srv_CloseApp : string → S → S;
  srv_AttachWindow : string → Z → Z → Z → S → Z * S;
  srv_DetachWindow : Z → S → bool * S;
  srv_WindowTouch : Z → Z → Z → Z → Z → S → S;
  srv_WindowKey : Z → Z → bool → S → S;
  srv_SetWindowActive : Z → bool → S → S;
  srv_WindowAlive : Z → S → bool;
  srv_Toplevels : S → list (Z * string);   (* id and app_id *)
}.

(** Android's HOME activities (wl_server.cpp). *)
Definition IsHomePackage (package : string) : bool :=
  bool_decide (package = "org.lineageos.setupwizard") || bool_decide (package = "com.android.launcher3").

Definition set_visible (x : bool) (s : Session) : Session :=
  mkSession x (g_thawed s) (g_lastShowMs s) (g_holdHiddenUntilMs s) (g_readyFor s)
    (g_provisionedFor s) (g_plane s) (g_events s) (g_workersRun s) (ss_cgroup s) (ss_params s)
    (ss_calls s).
Definition set_thawed (x : bool) (s : Session) : Session :=
  mkSession (g_visible s) x (g_lastShowMs s) (g_holdHiddenUntilMs s) (g_readyFor s)
    (g_provisionedFor s) (g_plane s) (g_events s) (g_workersRun s) (ss_cgroup s) (ss_params s)
    (ss_calls s).
Definition set_lastShow (x : Z) (s : Session) : Session :=
  mkSession (g_visible s) (g_thawed s) x (g_holdHiddenUntilMs s) (g_readyFor s)
    (g_provisionedFor s) (g_plane s) (g_events s) (g_workersRun s) (ss_cgroup s) (ss_params s)
    (ss_calls s).
Definition set_hold (x : Z) (s : Session) : Session :=
  mkSession (g_visible s) (g_thawed s) (g_lastShowMs s) x (g_readyFor s)
    (g_provisionedFor s) (g_plane s) (g_events s) (g_workersRun s) (ss_cgroup s) (ss_params s)
    (ss_calls s).
Definition set_ready (r p : Z) (s : Session) : Session :=
  mkSession (g_visible s) (g_thawed s) (g_lastShowMs s) (g_holdHiddenUntilMs s) r p
    (g_plane s) (g_events s) (g_workersRun s) (ss_cgroup s) (ss_params s) (ss_calls s).
Definition set_plane (x : option Z) (s : Session) : Session :=
  mkSession (g_visible s) (g_thawed s) (g_lastShowMs s) (g_holdHiddenUntilMs s) (g_readyFor s)
    (g_provisionedFor s) x (g_events s) (g_workersRun s) (ss_cgroup s) (ss_params s) (ss_calls s).
Definition set_events (x : list string) (s : Session) : Session :=
  mkSession (g_visible s) (g_thawed s) (g_lastShowMs s) (g_holdHiddenUntilMs s) (g_readyFor s)
    (g_provisionedFor s) (g_plane s) x (g_workersRun s) (ss_cgroup s) (ss_params s) (ss_calls s).
Definition set_workersRun (x : bool) (s : Session) : Session :=
  mkSession (g_visible s) (g_thawed s) (g_lastShowMs s) (g_holdHiddenUntilMs s) (g_readyFor s)
    (g_provisionedFor s) (g_plane s) (g_events s) x (ss_cgroup s) (ss_params s) (ss_calls s).
Definition set_cgroup (x : Cgroup) (s : Session) : Session :=
  mkSession (g_visible s) (g_thawed s) (g_lastShowMs s) (g_holdHiddenUntilMs s) (g_readyFor s)
    (g_provisionedFor s) (g_plane s) (g_events s) (g_workersRun s) x (ss_params s) (ss_calls s).
Definition SetParameter (k v : string) (s : Session) : Session :=
  mkSession (g_visible s) (g_thawed s) (g_lastShowMs s) (g_holdHiddenUntilMs s) (g_readyFor s)
    (g_provisionedFor s) (g_plane s) (g_events s) (g_workersRun s) (ss_cgroup s)
    (<[k := v]> (ss_params s)) (ss_calls s).
(** A transaction into the container; its deadline is the binder library's affair. *)
Definition wdb (e : Env) (c : WdbCall) (s : Session) : WdbResult * Session :=
  (env_wdb e c,
   mkSession (g_visible s) (g_thawed s) (g_lastShowMs s) (g_holdHiddenUntilMs s) (g_readyFor s)
     (g_provisionedFor s) (g_plane s) (g_events s) (g_workersRun s) (ss_cgroup s) (ss_params s)
     (ss_calls s ++ [c])).
Definition freeze (e : Env) (b : bool) (s : Session) : Session :=
  set_cgroup (snd (FreezeContainer e b (ss_cgroup s))) s.

(** ** The control plane *)

(** [WithPlane]: the function gets the generation. *)
Definition WithPlane {A} (e : Env) (fail : SessionError → A) (fn : Z → Session → A * Session)
    (s : Session) : A * Session :=
  if negb (g_thawed s) then (fail SESSION_EFROZEN, s)
  else
    let init := ReadContainerPid e in
    if init <=? 0 then (fail SESSION_ENOTREADY, s)
    else if bool_decide (g_plane s = None) && negb (env_wdb_new e) then (fail SESSION_EGENERIC, s)
    else fn init (set_plane (Some init) s).

Fixpoint valid_chars (s : string) : bool :=
  match s with
  | String.EmptyString => true
  | String.String c s =>
      (is_digit c || is_alpha c || Ascii.eqb c "."%char || Ascii.eqb c "_"%char) && valid_chars s
  end.
Definition ValidPackageName (package : string) : bool :=
  negb (bool_decide (package = "")) && (String.length package <=? 255)%nat && valid_chars package.

Definition PublishTaskEvent (data : string) (s : Session) : Session :=
  set_events (g_events s ++ [data]) s.
(** A turn of [EventWorker]: the event it publishes. *)
Definition EventWorker_turn (s : Session) : option string * Session :=
  match g_events s with
  | [] => (None, s)
  | data :: events => (Some data, set_events events s)
  end.

(** The lambda of [PlaneWorker]: [None] when this generation is done already. *)
Definition provision (e : Env) (generation : Z) (s : Session) : option SessionError * Session :=
  if g_provisionedFor s =? generation then (None, s)
  else
    let '(r, s) := wdb e (WdbGetprop "sys.boot_completed") s in
    let up := bool_decide (r = WDB_OK) &&
              match env_booted e with Some (String.String c _) => Ascii.eqb c "1"%char | _ => false end in
    if negb up
    then (Some (FromWdb (if bool_decide (r = WDB_OK) then WDB_ENOSERVICE else r)), s)
    else
      let s := set_ready generation (g_provisionedFor s) s in
      let '(r, s) := wdb e (WdbPutInt WDB_SETTINGS_SECURE "user_setup_complete" 1) s in
      let '(r, s) := if bool_decide (r = WDB_OK)
                     then wdb e (WdbPutInt WDB_SETTINGS_GLOBAL "device_provisioned" 1) s else (r, s) in
      let '(r, s) := if bool_decide (r = WDB_OK)
                     then wdb e (WdbPutInt WDB_SETTINGS_SYSTEM "screen_off_timeout" (2 ^ 31 - 1)) s
                     else (r, s) in
      let s := if bool_decide (r = WDB_OK) then set_ready (g_readyFor s) generation s else s in
      (Some (FromWdb r), s).
Definition PlaneWorker_turn (e : Env) (s : Session) : Session :=
  let '(rc, s) := WithPlane e Some (provision e) s in
  match rc with Some SESSION_OK => PublishTaskEvent "ready" s | _ => s end.

Definition StartControlPlane (s : Session) : Session := set_workersRun true s.
Definition StopControlPlane (s : Session) : Session :=
  if negb (g_workersRun s) then s else set_plane None (set_workersRun false s).

(** ** Visibility *)

Section stub.
Context {S : Type} `{!WlServer S}.

(** [server] is [None] for a null pointer. *)
Definition ApplyVisibility (e : Env) (visible : bool) (st : Session * option S) : Session * option S :=
  let '(s, server) := st in
  match server with
  | None => st
  | Some srv =>
      if visible then
        if env_now e 0 <? g_holdHiddenUntilMs s then st
        else
          let s := set_lastShow (env_now e 1) s in
          if g_visible s then (s, server)
          else
            let s := set_visible true s in
            let srv := if env_overlay e 0
                       then if srv_IsAttached srv
                            then srv_SetNodeVisible true (srv_EnsureAttachedToDisplay srv)
                            else srv_RevertToSelfDrawing srv
                       else srv in
            let s := SetParameter kVisibleParam "1" (set_thawed true (freeze e false s)) in
            let s := if env_overlay e 1 then SetParameter kGrabParam "1" s else s in
            (s, Some srv)
      else
        let s := freeze e true (set_thawed false (set_visible false s)) in
        let s := SetParameter kVisibleParam "0" s in
        (SetParameter kGrabParam "0" s, Some (srv_SetNodeVisible false srv))
  end.
Definition HideAndHold (e : Env) (holdMs : Z) (st : Session * option S) : Session * option S :=
  ApplyVisibility e false (set_hold (env_now e 0 + holdMs) st.1, st.2).
(** The critical section of [CheckVisibilityLease]: whether it goes on to hide, which
    it does after having let the lock go. *)
Definition lease_expired (e : Env) (s : Session) : bool :=
  g_visible s && negb (env_now e 0 - g_lastShowMs s <? kVisibilityLeaseMs).
Definition CheckVisibilityLease (e e' : Env) (st : Session * option S) : Session * option S :=
  if lease_expired e st.1 then ApplyVisibility e' false st else st.

(** ** The interface *)

Abbreviation St := (Session * option S)%type.

Definition SetOutputSurface (e : Env) (producer : option Z) (st : St) : Z * St :=
  match st.2, producer with
  | Some srv, Some p =>
      if negb (env_iface_cast e p) then (-1, st)
      else let '(ok, srv) := srv_AttachProducer p srv in (if ok : bool then 0 else -1, (st.1, Some srv))
  | _, _ => (-1, st)
  end.
Definition ClearOutputSurface (e : Env) (st : St) : Z * St :=
  match st.2 with
  | None => (-1, st)
  | Some srv =>
      (0, (st.1, Some (if env_overlay e 0 then srv_RevertToSelfDrawing srv
                       else srv_ReleaseInFlightOf 0 (srv_Detach srv))))
  end.
Definition InjectTouch (action id x y : Z) (st : St) : Z * St :=
  match st.2 with
  | None => (-1, st)
  | Some srv => (0, (st.1, Some (srv_InjectTouchFromAction action id x y srv)))
  end.
Definition SetForeground (e : Env) (foreground : bool) (st : St) : Z * St :=
  (0, (set_thawed foreground (freeze e (negb foreground) st.1), st.2)).
Definition GetState (e : Env) (s : Session) : Z :=
  if negb (g_thawed s) then SESSION_STATE_FROZEN
  else
    let init := ReadContainerPid e in
    if (0 <? init) && (g_readyFor s =? init) then SESSION_STATE_READY else SESSION_STATE_BOOTING.

Definition ListApps (e : Env) (s : Session) : (SessionError * list SessionApp) * Session :=
  WithPlane e (λ err, (err, [])) (λ _ s,
    let '(rc, s) := wdb e WdbListApps s in
    if bool_decide (rc ≠ WDB_OK) then ((FromWdb rc, []), s)
    else ((SESSION_OK,
           (λ a : option string * string, mkSessionApp (default a.2 a.1) a.2) <$> env_apps e), s)) s.

Definition icon_path (init : Z) (package : string) : string :=
  ("/proc/" +:+ pretty init +:+ "/root/data/icons/" +:+ package +:+ ".png")%string.
(** [snprintf] into [char path[512]] keeps 511 characters. *)
Definition sizeof_path : nat := 512.
Definition path_opened (init : Z) (package : string) : string :=
  String.substring 0 (sizeof_path - 1) (icon_path init package).
(** The loop over [read]: each gives at most what is asked for; an empty read ends. *)
Fixpoint read_icon (size : nat) (got : list Z) (reads : list (list Z)) : list Z :=
  if (size <=? length got)%nat then got
  else match reads with
       | [] => got
       | chunk :: reads =>
           let chunk := take (size - length got) chunk in
           match chunk with [] => got | _ => read_icon size (got ++ chunk) reads end
       end.
Definition GetAppIcon (e : Env) (package : string) : SessionError * list Z :=
  if negb (ValidPackageName package) then (SESSION_EINVAL, [])
  else if ReadContainerPid e <=? 0 then (SESSION_ENOTREADY, [])
  else match env_icon e (path_opened (ReadContainerPid e) package) with
       | None => (SESSION_ENOTREADY, [])
       | Some None => (SESSION_EGENERIC, [])
       | Some (Some (size, reads)) =>
           if (size <=? 0) || (kMaxIconBytes <? size) then (SESSION_EGENERIC, [])
           else
             let got := read_icon (Z.to_nat size) [] reads in
             if (length got =? Z.to_nat size)%nat then (SESSION_OK, got) else (SESSION_EGENERIC, [])
       end.

Definition LaunchApp (e : Env) (package : string) (s : Session) : SessionError * Session :=
  if negb (ValidPackageName package) then (SESSION_EINVAL, s)
  else WithPlane e id (λ _ s,
    let '(r, s) := wdb e (WdbSetprop "waydroid.active_apps" package) s in
    if bool_decide (r ≠ WDB_OK) then (FromWdb r, s)
    else let '(r, s) := wdb e (WdbLaunchApp package) s in (FromWdb r, s)) s.
Definition CloseApp (package : string) (st : St) : Z * St :=
  match st.2 with
  | Some srv => if negb (ValidPackageName package) then (SESSION_EINVAL : Z, st)
                else (SESSION_OK : Z, (st.1, Some (srv_CloseApp package srv)))
  | None => (SESSION_EINVAL : Z, st)
  end.
Definition AttachWindow (e : Env) (package : string) (producer : option Z) (width height : Z) (st : St)
    : Z * St :=
  match st.2, producer with
  | Some srv, Some p =>
      if negb (bool_decide (package = "")) && negb (ValidPackageName package)
      then (SESSION_EINVAL : Z, st)
      else if negb (env_iface_cast e p) then (SESSION_EINVAL : Z, st)
      else let '(id, srv) := srv_AttachWindow package p width height srv in
           (if 0 <? id then id else SESSION_EGENERIC, (st.1, Some srv))
  | _, _ => (SESSION_EINVAL : Z, st)
  end.
Definition DetachWindow (window : Z) (st : St) : Z * St :=
  match st.2 with
  | Some srv => let '(ok, srv) := srv_DetachWindow window srv in
                (if ok : bool then SESSION_OK : Z else SESSION_ENOWINDOW : Z, (st.1, Some srv))
  | None => (SESSION_ENOWINDOW : Z, st)
  end.
Definition WindowTouch (window action id x y : Z) (st : St) : Z * St :=
  match st.2 with
  | Some srv => (SESSION_OK : Z, (st.1, Some (srv_WindowTouch window action id x y srv)))
  | None => (SESSION_EGENERIC : Z, st)
  end.
Definition WindowKey (window code : Z) (down : bool) (st : St) : Z * St :=
  match st.2 with
  | Some srv => if (code <=? 0) || (0x2ff <? code) then (SESSION_EINVAL : Z, st)
                else (SESSION_OK : Z, (st.1, Some (srv_WindowKey window code down srv)))
  | None => (SESSION_EINVAL : Z, st)
  end.
Definition SetWindowActive (window : Z) (active : bool) (st : St) : Z * St :=
  match st.2 with
  | Some srv => (SESSION_OK : Z, (st.1, Some (srv_SetWindowActive window active srv)))
  | None => (SESSION_EGENERIC : Z, st)
  end.
Definition WindowAlive (window : Z) (st : St) : Z :=
  match st.2 with Some srv => if srv_WindowAlive window srv then 1 else 0 | None => 0 end.

(** ** The gate and the dispatcher *)

(** The caller: whether the interface token is right; for a HAP token, whether its
    information can be read and its bundle; its uid. *)
Record Caller := mkCaller {
  cl_descriptor : bool; cl_hap : option (bool * string); cl_uid : Z }.
Definition caller_allowed (c : Caller) : bool :=
  match cl_hap c with
  | Some (ok, bundle) => ok && bool_decide (bundle = kShellBundle)
  | None => cl_uid c =? 0
  end.

Inductive Request :=
| SET_OUTPUT_SURFACE (obj : option Z) | CLEAR_OUTPUT_SURFACE
| INJECT_TOUCH (action id x y : Z) | SET_FOREGROUND (fg : bool)
| GET_STATE | LIST_APPS | GET_APP_ICON (package : string) | LAUNCH_APP (package : string)
| CLOSE_APP (package : string) | ATTACH_WINDOW (package : string) (obj : option Z) (w h : Z)
| DETACH_WINDOW (window : Z) | WINDOW_TOUCH (window action id x y : Z)
| WINDOW_KEY (window key : Z) (down : bool) | SET_WINDOW_ACTIVE (window : Z) (active : bool)
| WINDOW_ALIVE (window : Z)
| OTHER (code : Z).   (* left to the base class *)
Inductive ReplyItem := RInt32 (z : Z) | RString (s : string) | RBytes (l : list Z).
Inductive Status := ERR_NONE | ERR_INVALID_STATE | ERR_BASE.

Definition reply_int (r : Z * St) : Status * list ReplyItem * St := (ERR_NONE, [RInt32 r.1], r.2).
Definition dispatch (e : Env) (r : Request) (st : St) : Status * list ReplyItem * St :=
  match r with
  | SET_OUTPUT_SURFACE obj => reply_int (SetOutputSurface e obj st)
  | CLEAR_OUTPUT_SURFACE => reply_int (ClearOutputSurface e st)
  | INJECT_TOUCH a i x y => reply_int (InjectTouch a i x y st)
  | SET_FOREGROUND fg => reply_int (SetForeground e fg st)
  | GET_STATE => reply_int (GetState e st.1, st)
  | LIST_APPS =>
      let '((rc, apps), s) := ListApps e st.1 in
      (ERR_NONE, RInt32 rc :: match rc with
                              | SESSION_OK => RInt32 (Z.of_nat (length apps)) ::
                                  (apps ≫= λ a, [RString (app_name a); RString (app_package a)])
                              | _ => []
                              end, (s, st.2))
  | GET_APP_ICON package =>
      let '(rc, png) := GetAppIcon e package in
      (ERR_NONE, RInt32 rc :: match rc with SESSION_OK => [RBytes png] | _ => [] end, st)
  | LAUNCH_APP package => let '(rc, s) := LaunchApp e package st.1 in reply_int (rc : Z, (s, st.2))
  | CLOSE_APP package => reply_int (CloseApp package st)
  | ATTACH_WINDOW package obj w h => reply_int (AttachWindow e package obj w h st)
  | DETACH_WINDOW window => reply_int (DetachWindow window st)
  | WINDOW_TOUCH w a i x y => reply_int (WindowTouch w a i x y st)
  | WINDOW_KEY w k d => reply_int (WindowKey w k d st)
  | SET_WINDOW_ACTIVE w a => reply_int (SetWindowActive w a st)
  | WINDOW_ALIVE w => reply_int (WindowAlive w st, st)
  | OTHER _ => (ERR_BASE, [], st)
  end.
Definition OnRemoteRequest (e : Env) (c : Caller) (r : Request) (st : St)
    : Status * list ReplyItem * St :=
  if negb (cl_descriptor c) then (ERR_INVALID_STATE, [], st)
  else if negb (caller_allowed c) then (ERR_NONE, [RInt32 SESSION_EDENIED], st)
  else dispatch e r st.

(** ** Events for the shell *)

Inductive ToplevelEvent := TlCreated | TlUpdated | TlOnTop | TlInactive | TlDestroyed.
Definition event_package (appId : string) : string :=
  if String.prefix "waydroid." appId
  then String.substring 9 (String.length appId - 9) appId else "*".
Definition OnToplevelEvent (ev : ToplevelEvent) (appId : string) (st : St) : St :=
  let package := event_package appId in
  let '(s, server) := st in
  if IsHomePackage package then
    match ev with TlOnTop => (PublishTaskEvent "home" s, server) | _ => st end
  else
    match ev with
    | TlOnTop => (PublishTaskEvent ("ontop " +:+ package)%string s, server)
    | TlInactive => (PublishTaskEvent ("inactive " +:+ package)%string s, server)
    | TlDestroyed =>
        let s := PublishTaskEvent ("gone " +:+ package)%string s in
        match server with
        | Some srv => (if bool_decide (srv_Toplevels srv = []) then PublishTaskEvent "allgone" s else s,
                       server)
        | None => (s, server)
        end
    | _ => st
    end.

End stub.

(** ** The machine *)

Section machine.
Context {S : Type} `{!WlServer S}.
Abbreviation St := (Session * option S)%type.

(** What happens to the session, one critical section at a time: a request from
    anybody, the shell's SHOW and HIDE, the exit chord, the two halves of the lease
    check on the event loop, the workers, an event of the compositor.  Requests and the
    worker's turn are whole actions although [ApplyVisibility] may run during them: but
    for SET_FOREGROUND they write nothing it reads, and of what it writes they read
    [g_thawed] only, once, at their start. *)
Inductive session_action :=
| ARequest (c : Caller) (r : Request) | AShow | AHide | AHold (ms : Z)
| ALeaseCheck | ALeaseHide | APlane | AEvent | AToplevel (ev : ToplevelEvent) (appId : string).

(** The state, and whether a lease check has found the lease expired and not hidden
    yet. *)
Definition session_step (e : Env) (a : session_action) (x : St * bool) : St * bool :=
  let '(st, pending) := x in
  match a with
  | ARequest c r => ((OnRemoteRequest e c r st).2, pending)
  | AShow => (ApplyVisibility e true st, pending)
  | AHide => (ApplyVisibility e false st, pending)
  | AHold ms => (HideAndHold e ms st, pending)
  | ALeaseCheck => (st, pending || lease_expired e st.1)
  | ALeaseHide => (if pending then ApplyVisibility e false st else st, false)
  | APlane => ((PlaneWorker_turn e st.1, st.2), pending)
  | AEvent => (((EventWorker_turn st.1).2, st.2), pending)
  | AToplevel ev appId => (OnToplevelEvent ev appId st, pending)
  end.
Definition session_run (l : list (Env * session_action)) (x : St * bool) : St * bool :=
  foldl (λ x ea, session_step ea.1 ea.2 x) x l.

(** The part of the session the visibility is about. *)
Definition vis (s : Session) : bool * bool * Cgroup * option string * option string :=
  (g_visible s, g_thawed s, ss_cgroup s, ss_params s !! kVisibleParam, ss_params s !! kGrabParam).

(** The freezer does what it is told: the container has a pid and its cgroup can be
    written. *)
Definition freezer_works (e : Env) : Prop :=
  0 < ReadContainerPid e ∧ env_mkdir e = true ∧ env_freeze e = true.
Lemma freeze_works e b s :
  freezer_works e → ∃ procs, freeze e b s = set_cgroup (mkCgroup b procs) s.
Proof.
  intros (Hpid & Hm & Hf). unfold freeze, FreezeContainer. destruct (Z.leb_spec (ReadContainerPid e) 0); [lia|].
  rewrite Hm Hf. by destruct b; eexists.
Qed.

Record vis_ok (s : Session) : Prop := {
  vok_thawed : g_thawed s = g_visible s;
  vok_running : g_visible s = true → cg_frozen (ss_cgroup s) = false;
  vok_param : ss_params s !! kVisibleParam = Some "1" ↔ g_visible s = true;
  vok_hidden : g_visible s = false → is_Some (ss_params s !! kGrabParam) →
               cg_frozen (ss_cgroup s) = true;
  vok_grab : ss_params s !! kGrabParam = Some "1" → g_visible s = true;
}.
Lemma vis_ok_same s s' : vis s' = vis s → vis_ok s → vis_ok s'.
Proof. intros [= H1 H2 H3 H4 H5] [K1 K2 K3 K4 K5]. by split; rewrite ?H1 ?H2 ?H3 ?H4 ?H5. Qed.

Lemma vis_show e st : freezer_works e → vis_ok st.1 → vis_ok (ApplyVisibility e true st).1.
Proof.
  intros He Hok. destruct st as [s [srv|]]; [|done]. simpl. case_match; [done|].
  destruct (g_visible s) eqn:Ev; [by eapply vis_ok_same, Hok|].
  destruct (freeze_works e false (set_visible true (set_lastShow (env_now e 1) s)) He) as [procs ->].
  destruct Hok as [_ _ _ _ Hg]. split; destruct (env_overlay e 1); cbn; rewrite ?lookup_insert_eq
    ?(lookup_insert_ne _ kGrabParam kVisibleParam) ?(lookup_insert_ne _ kVisibleParam kGrabParam)
    ?lookup_insert_eq; try done.
Qed.
Lemma vis_hide e st : freezer_works e → vis_ok st.1 → vis_ok (ApplyVisibility e false st).1.
Proof.
  intros He Hok. destruct st as [s [srv|]]; [|done]. simpl.
  destruct (freeze_works e true (set_thawed false (set_visible false s)) He) as [procs ->].
  split; cbn; rewrite ?lookup_insert_eq ?(lookup_insert_ne _ kGrabParam kVisibleParam)
    ?lookup_insert_eq; done.
Qed.

(** Requests but [SET_FOREGROUND], the workers and events leave it alone. *)
Lemma vis_WithPlane {A} e (fail : SessionError → A) fn s :
  (∀ g s, vis (fn g s).2 = vis s) → vis (WithPlane e fail fn s).2 = vis s.
Proof. intros Hfn. unfold WithPlane. repeat case_match; try done. by rewrite Hfn. Qed.
Lemma vis_provision e g s : vis (provision e g s).2 = vis s.
Proof. unfold provision, wdb. repeat (case_match; simplify_eq/=); done. Qed.
Lemma vis_PlaneWorker e s : vis (PlaneWorker_turn e s) = vis s.
Proof.
  unfold PlaneWorker_turn. pose proof (vis_WithPlane e Some (provision e) s (vis_provision e)) as H.
  destruct (WithPlane _ _ _ _) as [rc s']. simpl in H. by repeat case_match.
Qed.
Lemma vis_request e c r st :
  (∀ fg, r ≠ SET_FOREGROUND fg) → vis (OnRemoteRequest e c r st).2.1 = vis st.1.
Proof.
  intros Hr. unfold OnRemoteRequest. do 2 (case_match; [done|]). destruct st as [s server].
  destruct r; cbn; try (by destruct (Hr fg)); try done;
    unfold SetOutputSurface, ClearOutputSurface, InjectTouch, CloseApp, AttachWindow, DetachWindow,
      WindowTouch, WindowKey, SetWindowActive; cbn.
  all: try (by repeat (case_match; simplify_eq/=)).
  - unfold ListApps. pose proof (vis_WithPlane e (λ err, (err, @nil SessionApp)) (λ _ s,
      let '(rc, s) := wdb e WdbListApps s in
      if bool_decide (rc ≠ WDB_OK) then ((FromWdb rc, []), s)
      else ((SESSION_OK, (λ a : option string * string, mkSessionApp (default a.2 a.1) a.2)
             <$> env_apps e), s)) s) as Hw.
    destruct (WithPlane _ _ _ _) as [[rc apps] s']. apply Hw. intros. simpl. by case_match.
  - unfold LaunchApp. destruct (ValidPackageName package); cbn [negb]; [|done].
    pose proof (vis_WithPlane e id (λ _ s,
      let '(r, s) := wdb e (WdbSetprop "waydroid.active_apps" package) s in
      if bool_decide (r ≠ WDB_OK) then (FromWdb r, s)
      else let '(r, s) := wdb e (WdbLaunchApp package) s in (FromWdb r, s)) s) as Hw.
    destruct (WithPlane _ _ _ _) as [rc s']. apply Hw. intros. simpl. by case_match.
Qed.
Lemma vis_toplevel ev appId st : vis (OnToplevelEvent ev appId st).1 = vis st.1.
Proof. destruct st as [s server]. unfold OnToplevelEvent. repeat (case_match; simplify_eq/=); done. Qed.

(** Actions of the product path: everything but the bring-up tool's [SET_FOREGROUND]. *)
Definition product (a : session_action) : Prop :=
  match a with ARequest _ (SET_FOREGROUND _) => False | _ => True end.

Lemma session_step_vis_ok e a x :
  freezer_works e → product a → vis_ok x.1.1 → vis_ok (session_step e a x).1.1.
Proof.
  intros He Ha Hok. destruct x as [st pending]. destruct a; simpl.
  - eapply vis_ok_same; [|exact Hok]. apply vis_request. intros fg ->. done.
  - by apply vis_show.
  - by apply vis_hide.
  - unfold HideAndHold. apply vis_hide; [done|]. by eapply vis_ok_same, Hok.
  - done.
  - destruct pending; [by apply vis_hide|done].
  - eapply vis_ok_same; [|exact Hok]. apply vis_PlaneWorker.
  - eapply vis_ok_same; [|exact Hok]. unfold EventWorker_turn. by case_match.
  - eapply vis_ok_same; [|exact Hok]. apply vis_toplevel.
Qed.
Lemma session_run_vis_ok l x :
  Forall (λ ea, freezer_works ea.1 ∧ product ea.2) l → vis_ok x.1.1 → vis_ok (session_run l x).1.1.
Proof.
  intros Hl. revert x. induction Hl as [|[e a] l [He Ha] _ IH]; intros x Hok; [done|].
  by apply IH, session_step_vis_ok.
Qed.
End machine.

(** ** Properties *)

(** The session when the event loop starts: the compositor's [main] has published it
    as hidden. *)
Definition Session_start : Session := SetParameter kVisibleParam "0" Session_new.

(** A compositor that does nothing, for examples. *)
#[export] Instance null_server : WlServer unit := {
  srv_AttachProducer _ s := (true, s); srv_Detach s := s; srv_IsAttached _ := true;
  srv_EnsureAttachedToDisplay s := s; srv_SetNodeVisible _ s := s; srv_RevertToSelfDrawing s := s;
  srv_ReleaseInFlightOf _ s := s; srv_InjectTouchFromAction _ _ _ _ s := s; srv_CloseApp _ s := s;
  srv_AttachWindow _ _ _ _ s := (1, s); srv_DetachWindow _ s := (true, s);
  srv_WindowTouch _ _ _ _ _ s := s; srv_WindowKey _ _ _ s := s; srv_SetWindowActive _ _ s := s;
  srv_WindowAlive _ _ := true; srv_Toplevels _ := [];
}.
Definition demo_env (now : Z) : Env :=
  mkEnv (Some (Some 4242)) (λ p, if p =? 4242 then 77 else 1) (Some ["4242"; "self"; "17"]) true
    (λ _, true) true (λ _, now) (λ _, true) true (λ _, WDB_OK) (Some "1") [(None, "org.example.app")]
    (λ _, Some (Some (3, [[1; 2]; [3]]))) (λ _, true).
Lemma demo_freezer now : freezer_works (demo_env now).
Proof. split; [by vm_compute|done]. Qed.
Definition demo_shell : Caller := mkCaller true (Some (true, kShellBundle)) 20010000.
Lemma vis_ok_start : vis_ok Session_start.
Proof. split; try done. by intros _ [x Hx]. Qed.

(** C16: touch is never stolen for a frozen container.  Whatever the shell, other
    callers, the event loop and the workers do, in whatever order (the lease check
    gives its lock up between looking and hiding), as long as the freezer takes every
    write and nobody uses SET_FOREGROUND (see [foreground_strands_touch]): the
    container is thawed for callers exactly while it is visible, a visible container
    is not frozen, one that has been hidden (which is what sets the grab parameter; it
    boots in the background before that) and is not visible is frozen, it is published
    as visible exactly while it is, and the touch screen is grabbed only then. *)
Theorem visibility_consistent {S} `{!WlServer S} l (srv : S) :
  Forall (λ ea, freezer_works ea.1 ∧ product ea.2) l →
  let s := (session_run l ((Session_start, Some srv), false)).1.1 in
  g_thawed s = g_visible s ∧
  (g_visible s = true → cg_frozen (ss_cgroup s) = false) ∧
  (g_visible s = false → is_Some (ss_params s !! kGrabParam) → cg_frozen (ss_cgroup s) = true) ∧
  (ss_params s !! kVisibleParam = Some "1" ↔ g_visible s = true) ∧
  (ss_params s !! kGrabParam = Some "1" → g_visible s = true ∧ cg_frozen (ss_cgroup s) = false).
Proof.
  intros Hl s. destruct (session_run_vis_ok l ((Session_start, Some srv), false) Hl vis_ok_start)
    as [H1 H2 H3 H4 H5]. split_and!; auto; apply H3.
Qed.
Lemma visibility_consistent_witness :
  let l := [(demo_env 1000, AShow); (demo_env 2000, ARequest demo_shell GET_STATE);
            (demo_env 11000, ALeaseCheck); (demo_env 11001, AShow); (demo_env 11002, ALeaseHide)] in
  let s := (session_run l ((Session_start, Some tt), false)).1.1 in
  g_thawed s = false ∧ cg_frozen (ss_cgroup s) = true ∧ ss_params s !! kGrabParam = Some "0".
Proof.
  intros l s.
  assert (Forall (λ ea, freezer_works ea.1 ∧ product ea.2) l) as Hl.
  { repeat (constructor; [split; [apply demo_freezer|done]|]). constructor. }
  destruct (visibility_consistent l tt Hl) as (H1 & _ & H2 & _).
  split; [exact H1|]. split; [apply H2; [exact H1|by eexists]|reflexivity].
Defined.

(** The shell's heartbeat. *)
Definition heartbeats {S} `{!WlServer S} (es : list Env) (st : Session * option S)
    : Session * option S := foldl (λ st e, ApplyVisibility e true st) st es.

(** The bring-up call [SET_FOREGROUND] can strand the touch screen.  It freezes
    the container without the lock and without looking at the visibility, so that a
    visible session with the touch screen grabbed is left frozen with the grab on; and
    since a SHOW of a session that is visible already only renews the lease, no
    heartbeat of the shell thaws it, for as long as it keeps coming. *)
Theorem foreground_strands_touch {S} `{!WlServer S} e c es st :
  cl_descriptor c = true → caller_allowed c = true → freezer_works e →
  g_visible st.1 = true → ss_params st.1 !! kGrabParam = Some "1" →
  let st' := heartbeats es (OnRemoteRequest e c (SET_FOREGROUND false) st).2 in
  g_visible st'.1 = true ∧ cg_frozen (ss_cgroup st'.1) = true ∧ g_thawed st'.1 = false ∧
  ss_params st'.1 !! kGrabParam = Some "1".
Proof.
  intros Hd Ha He Hv Hg. unfold OnRemoteRequest. rewrite Hd Ha. simpl.
  destruct (freeze_works e true st.1 He) as [procs ->].
  set (st0 := (_, _) : Session * option S).
  assert (g_visible st0.1 = true ∧ cg_frozen (ss_cgroup st0.1) = true ∧ g_thawed st0.1 = false ∧
          ss_params st0.1 !! kGrabParam = Some "1") as H0 by done.
  clearbody st0. revert st0 H0. induction es as [|e' es IH]; intros st0 H0; [done|].
  apply IH. destruct st0 as [s [srv|]]; [|done]. simpl. case_match; [done|].
  destruct H0 as (H1 & H0). simpl in H1. rewrite H1. done.
Qed.
Lemma foreground_strands_touch_witness :
  let st := (session_run [(demo_env 1000, AShow)] ((Session_start, Some tt), false)).1 in
  let st' := heartbeats [demo_env 3000; demo_env 5000]
               (OnRemoteRequest (demo_env 2000) demo_shell (SET_FOREGROUND false) st).2 in
  cg_frozen (ss_cgroup st'.1) = true ∧ ss_params st'.1 !! kGrabParam = Some "1".
Proof.
  intros st st'.
  destruct (foreground_strands_touch (demo_env 2000) demo_shell [demo_env 3000; demo_env 5000] st)
    as (_ & H1 & _ & H2); try reflexivity; [apply demo_freezer|]. by split.
Defined.

(** *** The control plane *)

(** What may be asked of the container. *)
Definition call_ok (c : WdbCall) : Prop :=
  match c with
  | WdbListApps => True
  | WdbLaunchApp p => ValidPackageName p = true
  | WdbSetprop k v => k = "waydroid.active_apps" ∧ ValidPackageName v = true
  | WdbGetprop _ | WdbPutInt _ _ _ => False
  end.

Lemma WithPlane_calls {A} e (fail : SessionError → A) fn s (P : WdbCall → Prop) :
  (∀ g s, ∃ new, ss_calls (fn g s).2 = ss_calls s ++ new ∧ Forall P new) →
  ∃ new, ss_calls (WithPlane e fail fn s).2 = ss_calls s ++ new ∧ Forall P new ∧
         (new ≠ [] → g_thawed s = true ∧ 0 < ReadContainerPid e).
Proof.
  intros Hfn. unfold WithPlane. destruct (g_thawed s); simpl; [|exists []; by rewrite app_nil_r].
  destruct (Z.leb_spec (ReadContainerPid e) 0); [exists []; by rewrite app_nil_r|].
  case_match; [exists []; by rewrite app_nil_r|].
  destruct (Hfn (ReadContainerPid e) (set_plane (Some (ReadContainerPid e)) s)) as (new & Hn & HP).
  by exists new.
Qed.
Lemma ListApps_calls e s :
  ∃ new, ss_calls (ListApps e s).2 = ss_calls s ++ new ∧ Forall call_ok new ∧
         (new ≠ [] → g_thawed s = true ∧ 0 < ReadContainerPid e).
Proof.
  apply WithPlane_calls. intros g s'. exists [WdbListApps]. simpl. by case_match; repeat constructor.
Qed.
Lemma LaunchApp_calls e package s :
  ∃ new, ss_calls (LaunchApp e package s).2 = ss_calls s ++ new ∧ Forall call_ok new ∧
         (new ≠ [] → g_thawed s = true ∧ 0 < ReadContainerPid e).
Proof.
  unfold LaunchApp. destruct (ValidPackageName package) eqn:Ev; cbn [negb];
    [|exists []; by rewrite app_nil_r].
  apply WithPlane_calls. intros g s'. simpl. case_match; simpl.
  - eexists. split; [done|]. by repeat constructor.
  - rewrite -app_assoc. eexists. split; [done|]. by repeat constructor.
Qed.

(** C24: nobody reaches the container uninvited.  Whoever sends whatever request, in
    whatever state: if it makes a transaction into the container then the caller is the
    shell's HAP or a root process that is not a HAP, the container was thawed and had a
    pid when it looked, and the transaction is one of listing applications, setting the active one or
    launching one, with a valid package name.  A caller that is not allowed changes
    nothing at all, and learns nothing but that it was refused. *)
Theorem container_access {S} `{!WlServer S} e c r (st : Session * option S) :
  let x := OnRemoteRequest e c r st in
  (∃ new, ss_calls x.2.1 = ss_calls st.1 ++ new ∧ Forall call_ok new ∧
     (new ≠ [] → cl_descriptor c = true ∧
        (cl_hap c = Some (true, kShellBundle) ∨ (cl_hap c = None ∧ cl_uid c = 0)) ∧
        g_thawed st.1 = true ∧ 0 < ReadContainerPid e)) ∧
  (caller_allowed c = false → x.2 = st ∧ (x.1.2 = [] ∨ x.1.2 = [RInt32 SESSION_EDENIED])).
Proof.
  intros x. unfold x, OnRemoteRequest. destruct (cl_descriptor c); cbn [negb];
    [|split; [exists []; by rewrite app_nil_r|auto]].
  destruct (caller_allowed c) eqn:Ea; cbn [negb]; [|split; [exists []; by rewrite app_nil_r|auto]].
  split; [|done]. assert (cl_hap c = Some (true, kShellBundle) ∨ cl_hap c = None ∧ cl_uid c = 0) as Hc.
  { unfold caller_allowed in Ea. destruct (cl_hap c) as [[[] b]|]; [|done|].
    - left. simpl in Ea. by apply bool_decide_eq_true in Ea as ->.
    - right. by apply Z.eqb_eq in Ea. }
  enough (∃ new, ss_calls (dispatch e r st).2.1 = ss_calls st.1 ++ new ∧ Forall call_ok new ∧
            (new ≠ [] → g_thawed st.1 = true ∧ 0 < ReadContainerPid e)) as (new & H1 & H2 & H3).
  { exists new. split_and!; [done|done|]. naive_solver. }
  destruct st as [s server]. destruct r; cbn;
    try (exists []; rewrite app_nil_r;
         unfold SetOutputSurface, ClearOutputSurface, InjectTouch, CloseApp, AttachWindow,
           DetachWindow, WindowTouch, WindowKey, SetWindowActive; cbn;
         by repeat (case_match; simplify_eq/=)).
  - destruct (ListApps_calls e s) as (new & H). exists new.
    destruct (ListApps e s) as [[rc apps] s']. by simpl in *.
  - destruct (LaunchApp_calls e package s) as (new & H). exists new.
    destruct (LaunchApp e package s) as [rc s']. by simpl in *.
Qed.

(** The transactions that provision a generation. *)
Definition provision_calls : list WdbCall :=
  [WdbGetprop "sys.boot_completed"; WdbPutInt WDB_SETTINGS_SECURE "user_setup_complete" 1;
   WdbPutInt WDB_SETTINGS_GLOBAL "device_provisioned" 1;
   WdbPutInt WDB_SETTINGS_SYSTEM "screen_off_timeout" (2 ^ 31 - 1)].

Lemma provision_turn e g s :
  let x := provision e g s in
  (x.1 ≠ Some SESSION_OK ∧ g_events x.2 = g_events s ∧
   g_provisionedFor x.2 = g_provisionedFor s ∧ (g_provisionedFor s = g → x.2 = s)) ∨
  (x.1 = Some SESSION_OK ∧ g_events x.2 = g_events s ∧ g_provisionedFor s ≠ g ∧
   g_provisionedFor x.2 = g ∧ g_readyFor x.2 = g ∧ ss_calls x.2 = ss_calls s ++ provision_calls).
Proof.
  unfold provision. destruct (Z.eqb_spec (g_provisionedFor s) g) as [|Hne]; [by left|].
  unfold wdb. destruct (env_wdb e (WdbGetprop _)); cbn; try (by left).
  destruct (match env_booted e with Some _ => _ | None => _ end); cbn; [|by left].
  destruct (env_wdb e (WdbPutInt WDB_SETTINGS_SECURE _ _)); cbn; try (by left).
  destruct (env_wdb e (WdbPutInt WDB_SETTINGS_GLOBAL _ _)); cbn; try (by left).
  destruct (env_wdb e (WdbPutInt WDB_SETTINGS_SYSTEM _ _)); cbn; try (by left).
  right. split_and!; try done.
  assert (bool_decide (WDB_OK = WDB_OK) = true) as Hok by done.
  by do 3 (rewrite ?Hok; cbn); rewrite -!app_assoc.
Qed.
Lemma plane_turn e s :
  let s' := PlaneWorker_turn e s in
  (g_events s' = g_events s ∧ g_provisionedFor s' = g_provisionedFor s ∧
   (g_provisionedFor s = ReadContainerPid e → g_readyFor s' = g_readyFor s)) ∨
  (g_events s' = g_events s ++ ["ready"] ∧ g_provisionedFor s ≠ ReadContainerPid e ∧
   g_provisionedFor s' = ReadContainerPid e ∧ g_readyFor s' = ReadContainerPid e ∧
   ss_calls s' = ss_calls s ++ provision_calls ∧ g_thawed s = true ∧ 0 < ReadContainerPid e).
Proof.
  unfold PlaneWorker_turn, WithPlane. destruct (g_thawed s) eqn:Et; cbn [negb]; [|by left].
  destruct (Z.leb_spec (ReadContainerPid e) 0); [by left|].
  destruct (bool_decide (g_plane s = None) && negb (env_wdb_new e)); [by left|].
  destruct (provision_turn e (ReadContainerPid e) (set_plane (Some (ReadContainerPid e)) s))
    as [(H1 & H2 & H3 & H4)|(H1 & H2 & H3 & H4 & H5 & H6)];
    destruct (provision _ _ _) as [rc s']; simpl in *.
  - left. assert (g_provisionedFor s = ReadContainerPid e → g_readyFor s' = g_readyFor s).
    { intros Hp. by rewrite (H4 Hp). }
    by destruct rc as [[]|].
  - right. subst rc. cbn. by rewrite H2.
Qed.
Lemma plane_thawed e s : g_thawed (PlaneWorker_turn e s) = g_thawed s.
Proof. by pose proof (vis_PlaneWorker e s) as [= _ -> _ _ _]. Qed.

(** Each Android generation is provisioned and announced at most once.  Over any
    number of turns of the worker on one container, whatever the binder library
    answers, either nothing is published, or exactly one "ready" and nothing else; in
    the second case the container was thawed and running and not provisioned before,
    it counts as provisioned afterwards, and the session answers READY. *)
Theorem ready_once es generation s :
  Forall (λ e, ReadContainerPid e = generation) es →
  let s' := foldl (λ s e, PlaneWorker_turn e s) s es in
  (g_events s' = g_events s ∧ g_provisionedFor s' = g_provisionedFor s) ∨
  (g_events s' = g_events s ++ ["ready"] ∧ g_provisionedFor s ≠ generation ∧
   g_provisionedFor s' = generation ∧ g_thawed s = true ∧
   ∀ e, ReadContainerPid e = generation → GetState e s' = SESSION_STATE_READY).
Proof.
  intros Hes s'.
  enough (g_thawed s' = g_thawed s ∧
    ((g_events s' = g_events s ∧ g_provisionedFor s' = g_provisionedFor s ∧
      (g_provisionedFor s = generation → g_readyFor s' = g_readyFor s)) ∨
     (g_events s' = g_events s ++ ["ready"] ∧ g_provisionedFor s ≠ generation ∧
      g_provisionedFor s' = generation ∧ g_thawed s = true ∧ g_readyFor s' = generation ∧
      0 < generation))) as (Ht & [(H1 & H2 & _)|(H1 & H2 & H3 & H4 & H5 & H6)]); [by left| |].
  { right. split_and!; try done. intros e He. unfold GetState. rewrite Ht H4 He H5. simpl.
    by rewrite (proj2 (Z.ltb_lt _ _) H6) Z.eqb_refl. }
  subst s'. revert s. induction Hes as [|e es He _ IH]; intros s; [by auto|]. cbn [foldl].
  destruct (IH (PlaneWorker_turn e s)) as [IHt IHd]. rewrite plane_thawed in IHt, IHd.
  split; [done|]. subst generation.
  destruct (plane_turn e s) as [(H1 & H2 & H3)|(H1 & H2 & H3 & H4 & _ & H5 & H6)].
  - rewrite H1 H2 in IHd. naive_solver congruence.
  - right. destruct IHd as [(K1 & K2 & K3)|(_ & K2 & _)]; [|by rewrite H3 in K2].
    rewrite K1 K2 (K3 H3) H1. done.
Qed.
Lemma ready_once_witness :
  let s := foldl (λ s e, PlaneWorker_turn e s) (set_thawed true Session_new)
             [demo_env 1; demo_env 2; demo_env 3] in
  g_events s = ["ready"] ∧ g_provisionedFor s = 4242.
Proof.
  intros s. destruct (ready_once [demo_env 1; demo_env 2; demo_env 3] 4242 (set_thawed true Session_new))
    as [[H _]|(H1 & _ & H2 & _)].
  - repeat constructor.
  - vm_compute in H. discriminate H.
  - split; [exact H1|exact H2].
Defined.

(** *** Icons *)

Lemma pretty_N_go_length k x s :
  (x < 10 ^ N.of_nat k)%N → (String.length (pretty_N_go x s) ≤ k + String.length s)%nat.
Proof.
  revert x s. induction k as [|k IH]; intros x s Hx.
  { assert (x = 0%N) as -> by (simpl in Hx; lia). by rewrite pretty_N_go_0. }
  destruct (decide (x = 0)%N) as [->|Hne]; [rewrite pretty_N_go_0; lia|].
  rewrite pretty_N_go_step; [|lia]. etrans; [apply IH|simpl; lia].
  apply N.Div0.div_lt_upper_bound. by rewrite Nat2N.inj_succ N.pow_succ_r' in Hx.
Qed.
Lemma pretty_pid_length pid : 0 < pid < 2 ^ 31 → (String.length (pretty pid) ≤ 10)%nat.
Proof.
  intros Hp. destruct pid as [|p|p]; try lia.
  change (pretty (Z.pos p)) with (if decide (N.pos p = 0)%N then "0"%string else pretty_N_go (N.pos p) "").
  case_decide; [done|]. etrans; [apply (pretty_N_go_length 10)|done]. simpl. lia.
Qed.
Lemma ReadContainerPid_range e : ReadContainerPid e < 2 ^ 31.
Proof. unfold ReadContainerPid. repeat case_match; width_lia. Qed.
Lemma substring_all s n : (String.length s ≤ n)%nat → String.substring 0 n s = s.
Proof.
  revert n. induction s as [|c s IH]; intros [|n] Hn; simpl in *; try done; try lia.
  by rewrite IH; [|lia].
Qed.
Lemma string_app_length s t : String.length (s +:+ t) = (String.length s + String.length t)%nat.
Proof. induction s as [|c s IH]; [done|]. simpl. by rewrite IH. Qed.
Lemma path_opened_exact pid package :
  0 < pid < 2 ^ 31 → ValidPackageName package = true → path_opened pid package = icon_path pid package.
Proof.
  intros Hp Hv. unfold path_opened. apply substring_all. unfold icon_path.
  rewrite !string_app_length. pose proof (pretty_pid_length pid Hp).
  unfold ValidPackageName in Hv. apply andb_prop in Hv as [Hv _]. apply andb_prop in Hv as [_ Hv].
  apply Nat.leb_le in Hv. unfold sizeof_path. simpl String.length. lia.
Qed.
Lemma read_icon_full size got reads :
  (size ≤ length got)%nat → read_icon size got reads = got.
Proof. intros H. destruct reads; simpl; by rewrite (proj2 (Nat.leb_le _ _) H). Qed.
Lemma read_icon_prefix size got reads :
  (length got ≤ size)%nat → read_icon size got reads `prefix_of` got ++ concat reads.
Proof.
  revert got. induction reads as [|chunk reads IH]; intros got Hg; simpl.
  { rewrite app_nil_r. by case_match. }
  destruct (Nat.leb_spec size (length got)); [by apply prefix_app_r|].
  destruct (take (size - length got) chunk) as [|b l] eqn:E; [by apply prefix_app_r|]. rewrite -E.
  destruct (decide (length chunk ≤ size - length got)%nat) as [Hc|Hc].
  - rewrite take_ge; [|done]. rewrite app_assoc. apply IH. rewrite length_app. lia.
  - rewrite read_icon_full; [|rewrite length_app length_take; lia].
    apply prefix_app. apply prefix_app_r, prefix_take.
Qed.

(** An icon comes from the container's icon directory and nowhere else, whole.
    Whatever string the caller sends as a package: when bytes are returned, the name
    had only letters, digits, dots and underscores (no slash), the container was
    running, the path opened was exactly that container's
    /root/data/icons/<package>.png (it fits the 512 byte buffer, so nothing of it was
    cut off), the file was a regular one of at most 1 MiB, and the bytes are exactly as
    many as its size says and are what the reads gave, in order.  Otherwise nothing is
    returned. *)
Theorem icon_confined e package :
  let '(rc, png) := GetAppIcon e package in
  match rc with
  | SESSION_OK =>
      valid_chars package = true ∧ 0 < ReadContainerPid e ∧
      ∃ size reads, env_icon e (icon_path (ReadContainerPid e) package) = Some (Some (size, reads)) ∧
        0 < size ≤ kMaxIconBytes ∧ Z.of_nat (length png) = size ∧ png `prefix_of` concat reads
  | _ => png = []
  end.
Proof.
  unfold GetAppIcon. destruct (ValidPackageName package) eqn:Ev; cbn [negb]; [|done].
  destruct (Z.leb_spec (ReadContainerPid e) 0) as [|Hpid]; [done|].
  rewrite path_opened_exact; [|split; [lia|apply ReadContainerPid_range]|done].
  destruct (env_icon e _) as [[[size reads]|]|] eqn:Ei; [|done..].
  destruct (Z.leb_spec size 0), (Z.ltb_spec kMaxIconBytes size); cbn [orb]; try done.
  destruct (Nat.eqb_spec (length (read_icon (Z.to_nat size) [] reads)) (Z.to_nat size)) as [Hl|]; [|done].
  apply andb_prop in Ev as [_ Hv]. split_and!; [done|lia|]. exists size, reads.
  split_and!; [done|lia..|]. apply (read_icon_prefix _ []). simpl. lia.
Qed.
