(* ===== verification/Compositor.v ===== *)
(** * The container's compositor (waydroid/src/wl_server.cpp, waydroid/include/wl_server.h)

    A small Wayland server: the container's hwcomposer is its client, OHOS windows are
    its outputs.  Wayland objects are linked by raw pointers; the model keeps the live
    [wl_resource]s in a table by address, and using one that is not there is a fault.
    What a [wl_resource]'s user data points to (a [Surface], an [XdgSurface]) lives as
    long as the resource and is kept in it.  Work for the Wayland thread that other
    threads post is data ([Posted]).  What the render service and the kernel answer are
    functions of the state; what its binder thread and the threads of callers do between
    two steps of a commit is [sv_meanwhile].  That libwayland is not safe for the releases
    callers' threads send is left out, as are time stamps, serial numbers and log output. *)

From S2P Require Import Prelude FaultMonad OutSurface WdSession.
Set Warnings "-rewrite-rw,-clear-no-such-hyp".
#[global] Open Scope fault_scope.

(** ** Data *)

Record ServerConfig := mkConfig {
  sc_width : Z; sc_height : Z; sc_refreshMHz : Z; sc_screenId : Z }.
Definition ServerConfig_default : ServerConfig := mkConfig 1080 2400 60000 0.

Inductive TouchKind := TouchDown | TouchUp | TouchMotion | TouchFrame | TouchCancel.
Record TouchOp := mkTouch { to_kind : TouchKind; to_id : Z; to_x : Z; to_y : Z }.

Record ToplevelInfo := mkInfo {
  ti_id : Z;
  ti_client : Z;
  ti_appId : string;
  ti_title : string;
  ti_mapped : bool;
  ti_frames : Z;
}.
Definition set_ti_appId (x : string) (i : ToplevelInfo) : ToplevelInfo := mkInfo (ti_id i)
  (ti_client i) x (ti_title i) (ti_mapped i) (ti_frames i).
Definition set_ti_title (x : string) (i : ToplevelInfo) : ToplevelInfo := mkInfo (ti_id i)
  (ti_client i) (ti_appId i) x (ti_mapped i) (ti_frames i).
Definition set_ti_mapped (x : bool) (i : ToplevelInfo) : ToplevelInfo := mkInfo (ti_id i)
  (ti_client i) (ti_appId i) (ti_title i) x (ti_frames i).
Definition set_ti_frames (x : Z) (i : ToplevelInfo) : ToplevelInfo := mkInfo (ti_id i) (ti_client
  i) (ti_appId i) (ti_title i) (ti_mapped i) x.
Definition ToplevelInfo_new : ToplevelInfo := mkInfo 0 0 "" "" false 0.
Record ToplevelRec := mkRec {
  tr_info : ToplevelInfo;
  tr_toplevel : Z;
  tr_xdgSurface : Z;
  tr_surface : option Z;
  tr_activated : bool;  (* what we last configured *)
  tr_entered : bool;  (* wl_surface.enter sent *)
  tr_home : bool;  (* Android's HOME: never shown *)
}.
Definition set_tr_info (x : ToplevelInfo) (t : ToplevelRec) : ToplevelRec := mkRec x (tr_toplevel
  t) (tr_xdgSurface t) (tr_surface t) (tr_activated t) (tr_entered t) (tr_home t).
Definition set_tr_toplevel (x : Z) (t : ToplevelRec) : ToplevelRec := mkRec (tr_info t) x
  (tr_xdgSurface t) (tr_surface t) (tr_activated t) (tr_entered t) (tr_home t).
Definition set_tr_xdgSurface (x : Z) (t : ToplevelRec) : ToplevelRec := mkRec (tr_info t)
  (tr_toplevel t) x (tr_surface t) (tr_activated t) (tr_entered t) (tr_home t).
Definition set_tr_surface (x : option Z) (t : ToplevelRec) : ToplevelRec := mkRec (tr_info t)
  (tr_toplevel t) (tr_xdgSurface t) x (tr_activated t) (tr_entered t) (tr_home t).
Definition set_tr_activated (x : bool) (t : ToplevelRec) : ToplevelRec := mkRec (tr_info t)
  (tr_toplevel t) (tr_xdgSurface t) (tr_surface t) x (tr_entered t) (tr_home t).
Definition set_tr_entered (x : bool) (t : ToplevelRec) : ToplevelRec := mkRec (tr_info t)
  (tr_toplevel t) (tr_xdgSurface t) (tr_surface t) (tr_activated t) x (tr_home t).
Definition set_tr_home (x : bool) (t : ToplevelRec) : ToplevelRec := mkRec (tr_info t)
  (tr_toplevel t) (tr_xdgSurface t) (tr_surface t) (tr_activated t) (tr_entered t) x.
Record Window := mkWindow {
  wi_id : Z;
  wi_package : string;
  wi_output : OutputSurface;
  wi_toplevelId : Z;  (* whose frames it showed last *)
  wi_active : bool;
}.
Definition set_wi_output (x : OutputSurface) (w : Window) : Window := mkWindow (wi_id w)
  (wi_package w) x (wi_toplevelId w) (wi_active w).
Definition set_wi_toplevelId (x : Z) (w : Window) : Window := mkWindow (wi_id w) (wi_package w)
  (wi_output w) x (wi_active w).
Definition set_wi_active (x : bool) (w : Window) : Window := mkWindow (wi_id w) (wi_package w)
  (wi_output w) (wi_toplevelId w) x.
Record InFlight := mkInFlight { if_wlBuffer : Z; if_window : Z }.

(** *** Wayland objects *)

Record SurfaceState := mkPending {
  ps_buffer : option Z; ps_frameCallback : option Z; ps_bufferChanged : bool }.
Record Surface := mkSurface {
  su_pending : SurfaceState;
  su_current : option Z;  (* committed wl_buffer *)
  su_xdg : option Z;  (* its xdg role *)
  su_toplevelId : Z;
}.
Definition set_su_pending (x : SurfaceState) (s : Surface) : Surface := mkSurface x (su_current s)
  (su_xdg s) (su_toplevelId s).
Definition set_su_current (x : option Z) (s : Surface) : Surface := mkSurface (su_pending s) x
  (su_xdg s) (su_toplevelId s).
Definition set_su_xdg (x : option Z) (s : Surface) : Surface := mkSurface (su_pending s)
  (su_current s) x (su_toplevelId s).
Definition set_su_toplevelId (x : Z) (s : Surface) : Surface := mkSurface (su_pending s)
  (su_current s) (su_xdg s) x.
Definition Surface_new : Surface := mkSurface (mkPending None None false) None None 0.
Record XdgSurface := mkXdg { xs_surface : option Z; xs_toplevelId : Z }.

(** A buffer is one of libwayland's shared memory, or one of libhybris' with, normally, a
    native handle. *)
Inductive BufferObj := BShm | BWlegl (buf : option (native_handle * WleglBufferDesc)).
Inductive Obj :=
| OSurface (s : Surface) | OXdgSurface (x : XdgSurface) | OToplevel (tid : Z)
| OBuffer (b : BufferObj) | OTouch | OKeyboard | OOutput | OCallback
| OOther.   (* globals, regions, positioners, pointers, subsurfaces: no state *)
Record Resource := mkRes { r_client : Z; r_obj : Obj }.

(** What clients are sent. *)
Inductive Event :=
| EvRelease (buffer : Z) | EvDone (callback : Z)
| EvConfigure (toplevel w h : Z) (activated : bool) | EvXdgConfigure (xdg : Z) | EvClose (toplevel : Z)
| EvEnter (surface output : Z) | EvLeave (surface output : Z)
| EvTouchDown (touch surface id x y : Z) | EvTouchUp (touch id : Z)
| EvTouchMotion (touch id x y : Z) | EvTouchFrame (touch : Z) | EvTouchCancel (touch : Z)
| EvKbdLeave (kb surface : Z) | EvKbdEnter (kb surface : Z) | EvKbdModifiers (kb : Z)
| EvKey (kb code : Z) (down : bool)
| EvGeometry (output : Z) | EvMode (output w h refresh : Z) | EvOutputDone (output : Z)
| EvScale (output : Z) | EvCapabilities (seat : Z) | EvSeatName (seat : Z).
(** The object an event is sent on, and the objects it mentions. *)
Definition ev_target (e : Event) : Z :=
  match e with
  | EvRelease r | EvDone r | EvConfigure r _ _ _ | EvXdgConfigure r | EvClose r
  | EvEnter r _ | EvLeave r _ | EvTouchDown r _ _ _ _ | EvTouchUp r _ | EvTouchMotion r _ _ _
  | EvTouchFrame r | EvTouchCancel r | EvKbdLeave r _ | EvKbdEnter r _ | EvKbdModifiers r
  | EvKey r _ _ | EvGeometry r | EvMode r _ _ _ | EvOutputDone r
  | EvScale r | EvCapabilities r | EvSeatName r => r
  end.
Definition ev_arg (e : Event) : option Z :=
  match e with
  | EvEnter _ r | EvLeave _ r | EvTouchDown _ r _ _ _ | EvKbdLeave _ r | EvKbdEnter _ r => Some r
  | _ => None
  end.

(** Closures posted to the Wayland thread. *)
Inductive Posted :=
| PResize (w h : Z) (resized : bool) | PDetach (window : Window)
| PTouch (window action id x y : Z) | PKey (window code : Z) (down : bool)
| PActivate (active : bool) | PCloseApp (package : string)
| PDebugClose (id : Z) | PDebugConfigure (id w h : Z) (activated : bool).

(** *** The server *)

(** What a thread of a caller does on the legacy output.  [ReleaseInFlightOf(0)] of a caller
    ([ClearOutputSurface]) is several steps: the section that holds the lock takes the
    buffers, and each release is sent after it. *)
Inductive LegacyCall :=
| LProducer | LDetach | LEnsure | LVisible (b : bool) | LRevert
| LTake | LSend (n : nat).
(** What other threads do between two steps of a commit: the render service hands a
    surface buffer back, or a caller takes a step. *)
Inductive Meanwhile := MwHandBack (buffer : Z) | MwCall (c : LegacyCall).

Record Server := mkServer {
  sv_objs : gmap Z Resource;  (* the live wl_resources, by address *)
  sv_config : ServerConfig;  (* config_ *)
  sv_output : OutputSurface;  (* output_, the legacy fullscreen output *)
  sv_cache : gmap Z (Z * BufferRequestConfig);  (* importer_: by wl_buffer, the surface buffer and its request config *)
  sv_nextSb : Z;  (* the next surface buffer to be made *)
  sv_windows : gmap Z Window;  (* windows_ *)
  sv_nextWindowId : Z;
  sv_activeWindow : Z;
  sv_activePackage : string;
  sv_outputWidth : Z;
  sv_outputHeight : Z;
  sv_inFlight : gmap Z InFlight;  (* inFlight_, by surface buffer *)
  sv_releasedPending : list Z;
  sv_releasing : list Z;  (* taken out of inFlight_ by a caller that has not sent their releases yet *)
  sv_watchedBuffers : gset Z;
  sv_touchPending : list TouchOp;
  sv_touchResources : list Z;
  sv_inputSurface : option Z;
  sv_outputResources : list Z;
  sv_keyboardResources : list Z;
  sv_keyboardFocus : option Z;
  sv_toplevels : gmap Z ToplevelRec;  (* toplevels_ *)
  sv_nextToplevelId : Z;
  sv_onTopId : Z;
  sv_clients : Z;
  sv_posted : list Posted;  (* posted_ *)
  sv_firstFrame : bool;  (* SurfaceCommit's static *)
  sv_events : list Event;  (* sent to clients, oldest first *)
  sv_rs : list RsOp;  (* asked of the render service *)
  sv_emitted : list (ToplevelEvent * ToplevelInfo);  (* told to the toplevel listener *)
  sv_asked : nat;  (* answers used so far *)
  sv_answers : nat → Z;  (* what the render service answers *)
  sv_kenv : nat → KEnv;  (* what the kernel answers *)
  sv_meanwhile : nat → list Meanwhile;  (* what other threads do during a commit *)
}.
Definition set_sv_objs (x : gmap Z Resource) (s : Server) : Server := mkServer x (sv_config s)
  (sv_output s) (sv_cache s) (sv_nextSb s) (sv_windows s) (sv_nextWindowId s) (sv_activeWindow s)
  (sv_activePackage s) (sv_outputWidth s) (sv_outputHeight s) (sv_inFlight s) (sv_releasedPending
  s) (sv_releasing s) (sv_watchedBuffers s) (sv_touchPending s) (sv_touchResources s)
  (sv_inputSurface s) (sv_outputResources s) (sv_keyboardResources s) (sv_keyboardFocus s)
  (sv_toplevels s) (sv_nextToplevelId s) (sv_onTopId s) (sv_clients s) (sv_posted s)
  (sv_firstFrame s) (sv_events s) (sv_rs s) (sv_emitted s) (sv_asked s) (sv_answers s) (sv_kenv s)
  (sv_meanwhile s).
Definition set_sv_config (x : ServerConfig) (s : Server) : Server := mkServer (sv_objs s) x
  (sv_output s) (sv_cache s) (sv_nextSb s) (sv_windows s) (sv_nextWindowId s) (sv_activeWindow s)
  (sv_activePackage s) (sv_outputWidth s) (sv_outputHeight s) (sv_inFlight s) (sv_releasedPending
  s) (sv_releasing s) (sv_watchedBuffers s) (sv_touchPending s) (sv_touchResources s)
  (sv_inputSurface s) (sv_outputResources s) (sv_keyboardResources s) (sv_keyboardFocus s)
  (sv_toplevels s) (sv_nextToplevelId s) (sv_onTopId s) (sv_clients s) (sv_posted s)
  (sv_firstFrame s) (sv_events s) (sv_rs s) (sv_emitted s) (sv_asked s) (sv_answers s) (sv_kenv s)
  (sv_meanwhile s).
Definition set_sv_output (x : OutputSurface) (s : Server) : Server := mkServer (sv_objs s)
  (sv_config s) x (sv_cache s) (sv_nextSb s) (sv_windows s) (sv_nextWindowId s) (sv_activeWindow
  s) (sv_activePackage s) (sv_outputWidth s) (sv_outputHeight s) (sv_inFlight s)
  (sv_releasedPending s) (sv_releasing s) (sv_watchedBuffers s) (sv_touchPending s)
  (sv_touchResources s) (sv_inputSurface s) (sv_outputResources s) (sv_keyboardResources s)
  (sv_keyboardFocus s) (sv_toplevels s) (sv_nextToplevelId s) (sv_onTopId s) (sv_clients s)
  (sv_posted s) (sv_firstFrame s) (sv_events s) (sv_rs s) (sv_emitted s) (sv_asked s) (sv_answers
  s) (sv_kenv s) (sv_meanwhile s).
Definition set_sv_cache (x : gmap Z (Z * BufferRequestConfig)) (s : Server) : Server := mkServer
  (sv_objs s) (sv_config s) (sv_output s) x (sv_nextSb s) (sv_windows s) (sv_nextWindowId s)
  (sv_activeWindow s) (sv_activePackage s) (sv_outputWidth s) (sv_outputHeight s) (sv_inFlight s)
  (sv_releasedPending s) (sv_releasing s) (sv_watchedBuffers s) (sv_touchPending s)
  (sv_touchResources s) (sv_inputSurface s) (sv_outputResources s) (sv_keyboardResources s)
  (sv_keyboardFocus s) (sv_toplevels s) (sv_nextToplevelId s) (sv_onTopId s) (sv_clients s)
  (sv_posted s) (sv_firstFrame s) (sv_events s) (sv_rs s) (sv_emitted s) (sv_asked s) (sv_answers
  s) (sv_kenv s) (sv_meanwhile s).
Definition set_sv_nextSb (x : Z) (s : Server) : Server := mkServer (sv_objs s) (sv_config s)
  (sv_output s) (sv_cache s) x (sv_windows s) (sv_nextWindowId s) (sv_activeWindow s)
  (sv_activePackage s) (sv_outputWidth s) (sv_outputHeight s) (sv_inFlight s) (sv_releasedPending
  s) (sv_releasing s) (sv_watchedBuffers s) (sv_touchPending s) (sv_touchResources s)
  (sv_inputSurface s) (sv_outputResources s) (sv_keyboardResources s) (sv_keyboardFocus s)
  (sv_toplevels s) (sv_nextToplevelId s) (sv_onTopId s) (sv_clients s) (sv_posted s)
  (sv_firstFrame s) (sv_events s) (sv_rs s) (sv_emitted s) (sv_asked s) (sv_answers s) (sv_kenv s)
  (sv_meanwhile s).
Definition set_sv_windows (x : gmap Z Window) (s : Server) : Server := mkServer (sv_objs s)
  (sv_config s) (sv_output s) (sv_cache s) (sv_nextSb s) x (sv_nextWindowId s) (sv_activeWindow s)
  (sv_activePackage s) (sv_outputWidth s) (sv_outputHeight s) (sv_inFlight s) (sv_releasedPending
  s) (sv_releasing s) (sv_watchedBuffers s) (sv_touchPending s) (sv_touchResources s)
  (sv_inputSurface s) (sv_outputResources s) (sv_keyboardResources s) (sv_keyboardFocus s)
  (sv_toplevels s) (sv_nextToplevelId s) (sv_onTopId s) (sv_clients s) (sv_posted s)
  (sv_firstFrame s) (sv_events s) (sv_rs s) (sv_emitted s) (sv_asked s) (sv_answers s) (sv_kenv s)
  (sv_meanwhile s).
Definition set_sv_nextWindowId (x : Z) (s : Server) : Server := mkServer (sv_objs s) (sv_config s)
  (sv_output s) (sv_cache s) (sv_nextSb s) (sv_windows s) x (sv_activeWindow s) (sv_activePackage
  s) (sv_outputWidth s) (sv_outputHeight s) (sv_inFlight s) (sv_releasedPending s) (sv_releasing
  s) (sv_watchedBuffers s) (sv_touchPending s) (sv_touchResources s) (sv_inputSurface s)
  (sv_outputResources s) (sv_keyboardResources s) (sv_keyboardFocus s) (sv_toplevels s)
  (sv_nextToplevelId s) (sv_onTopId s) (sv_clients s) (sv_posted s) (sv_firstFrame s) (sv_events
  s) (sv_rs s) (sv_emitted s) (sv_asked s) (sv_answers s) (sv_kenv s) (sv_meanwhile s).
Definition set_sv_activeWindow (x : Z) (s : Server) : Server := mkServer (sv_objs s) (sv_config s)
  (sv_output s) (sv_cache s) (sv_nextSb s) (sv_windows s) (sv_nextWindowId s) x (sv_activePackage
  s) (sv_outputWidth s) (sv_outputHeight s) (sv_inFlight s) (sv_releasedPending s) (sv_releasing
  s) (sv_watchedBuffers s) (sv_touchPending s) (sv_touchResources s) (sv_inputSurface s)
  (sv_outputResources s) (sv_keyboardResources s) (sv_keyboardFocus s) (sv_toplevels s)
  (sv_nextToplevelId s) (sv_onTopId s) (sv_clients s) (sv_posted s) (sv_firstFrame s) (sv_events
  s) (sv_rs s) (sv_emitted s) (sv_asked s) (sv_answers s) (sv_kenv s) (sv_meanwhile s).
Definition set_sv_activePackage (x : string) (s : Server) : Server := mkServer (sv_objs s)
  (sv_config s) (sv_output s) (sv_cache s) (sv_nextSb s) (sv_windows s) (sv_nextWindowId s)
  (sv_activeWindow s) x (sv_outputWidth s) (sv_outputHeight s) (sv_inFlight s) (sv_releasedPending
  s) (sv_releasing s) (sv_watchedBuffers s) (sv_touchPending s) (sv_touchResources s)
  (sv_inputSurface s) (sv_outputResources s) (sv_keyboardResources s) (sv_keyboardFocus s)
  (sv_toplevels s) (sv_nextToplevelId s) (sv_onTopId s) (sv_clients s) (sv_posted s)
  (sv_firstFrame s) (sv_events s) (sv_rs s) (sv_emitted s) (sv_asked s) (sv_answers s) (sv_kenv s)
  (sv_meanwhile s).
Definition set_sv_outputWidth (x : Z) (s : Server) : Server := mkServer (sv_objs s) (sv_config s)
  (sv_output s) (sv_cache s) (sv_nextSb s) (sv_windows s) (sv_nextWindowId s) (sv_activeWindow s)
  (sv_activePackage s) x (sv_outputHeight s) (sv_inFlight s) (sv_releasedPending s) (sv_releasing
  s) (sv_watchedBuffers s) (sv_touchPending s) (sv_touchResources s) (sv_inputSurface s)
  (sv_outputResources s) (sv_keyboardResources s) (sv_keyboardFocus s) (sv_toplevels s)
  (sv_nextToplevelId s) (sv_onTopId s) (sv_clients s) (sv_posted s) (sv_firstFrame s) (sv_events
  s) (sv_rs s) (sv_emitted s) (sv_asked s) (sv_answers s) (sv_kenv s) (sv_meanwhile s).
Definition set_sv_outputHeight (x : Z) (s : Server) : Server := mkServer (sv_objs s) (sv_config s)
  (sv_output s) (sv_cache s) (sv_nextSb s) (sv_windows s) (sv_nextWindowId s) (sv_activeWindow s)
  (sv_activePackage s) (sv_outputWidth s) x (sv_inFlight s) (sv_releasedPending s) (sv_releasing
  s) (sv_watchedBuffers s) (sv_touchPending s) (sv_touchResources s) (sv_inputSurface s)
  (sv_outputResources s) (sv_keyboardResources s) (sv_keyboardFocus s) (sv_toplevels s)
  (sv_nextToplevelId s) (sv_onTopId s) (sv_clients s) (sv_posted s) (sv_firstFrame s) (sv_events
  s) (sv_rs s) (sv_emitted s) (sv_asked s) (sv_answers s) (sv_kenv s) (sv_meanwhile s).
Definition set_sv_inFlight (x : gmap Z InFlight) (s : Server) : Server := mkServer (sv_objs s)
  (sv_config s) (sv_output s) (sv_cache s) (sv_nextSb s) (sv_windows s) (sv_nextWindowId s)
  (sv_activeWindow s) (sv_activePackage s) (sv_outputWidth s) (sv_outputHeight s) x
  (sv_releasedPending s) (sv_releasing s) (sv_watchedBuffers s) (sv_touchPending s)
  (sv_touchResources s) (sv_inputSurface s) (sv_outputResources s) (sv_keyboardResources s)
  (sv_keyboardFocus s) (sv_toplevels s) (sv_nextToplevelId s) (sv_onTopId s) (sv_clients s)
  (sv_posted s) (sv_firstFrame s) (sv_events s) (sv_rs s) (sv_emitted s) (sv_asked s) (sv_answers
  s) (sv_kenv s) (sv_meanwhile s).
Definition set_sv_releasedPending (x : list Z) (s : Server) : Server := mkServer (sv_objs s)
  (sv_config s) (sv_output s) (sv_cache s) (sv_nextSb s) (sv_windows s) (sv_nextWindowId s)
  (sv_activeWindow s) (sv_activePackage s) (sv_outputWidth s) (sv_outputHeight s) (sv_inFlight s)
  x (sv_releasing s) (sv_watchedBuffers s) (sv_touchPending s) (sv_touchResources s)
  (sv_inputSurface s) (sv_outputResources s) (sv_keyboardResources s) (sv_keyboardFocus s)
  (sv_toplevels s) (sv_nextToplevelId s) (sv_onTopId s) (sv_clients s) (sv_posted s)
  (sv_firstFrame s) (sv_events s) (sv_rs s) (sv_emitted s) (sv_asked s) (sv_answers s) (sv_kenv s)
  (sv_meanwhile s).
Definition set_sv_releasing (x : list Z) (s : Server) : Server := mkServer (sv_objs s) (sv_config
  s) (sv_output s) (sv_cache s) (sv_nextSb s) (sv_windows s) (sv_nextWindowId s) (sv_activeWindow
  s) (sv_activePackage s) (sv_outputWidth s) (sv_outputHeight s) (sv_inFlight s)
  (sv_releasedPending s) x (sv_watchedBuffers s) (sv_touchPending s) (sv_touchResources s)
  (sv_inputSurface s) (sv_outputResources s) (sv_keyboardResources s) (sv_keyboardFocus s)
  (sv_toplevels s) (sv_nextToplevelId s) (sv_onTopId s) (sv_clients s) (sv_posted s)
  (sv_firstFrame s) (sv_events s) (sv_rs s) (sv_emitted s) (sv_asked s) (sv_answers s) (sv_kenv s)
  (sv_meanwhile s).
Definition set_sv_watchedBuffers (x : gset Z) (s : Server) : Server := mkServer (sv_objs s)
  (sv_config s) (sv_output s) (sv_cache s) (sv_nextSb s) (sv_windows s) (sv_nextWindowId s)
  (sv_activeWindow s) (sv_activePackage s) (sv_outputWidth s) (sv_outputHeight s) (sv_inFlight s)
  (sv_releasedPending s) (sv_releasing s) x (sv_touchPending s) (sv_touchResources s)
  (sv_inputSurface s) (sv_outputResources s) (sv_keyboardResources s) (sv_keyboardFocus s)
  (sv_toplevels s) (sv_nextToplevelId s) (sv_onTopId s) (sv_clients s) (sv_posted s)
  (sv_firstFrame s) (sv_events s) (sv_rs s) (sv_emitted s) (sv_asked s) (sv_answers s) (sv_kenv s)
  (sv_meanwhile s).
Definition set_sv_touchPending (x : list TouchOp) (s : Server) : Server := mkServer (sv_objs s)
  (sv_config s) (sv_output s) (sv_cache s) (sv_nextSb s) (sv_windows s) (sv_nextWindowId s)
  (sv_activeWindow s) (sv_activePackage s) (sv_outputWidth s) (sv_outputHeight s) (sv_inFlight s)
  (sv_releasedPending s) (sv_releasing s) (sv_watchedBuffers s) x (sv_touchResources s)
  (sv_inputSurface s) (sv_outputResources s) (sv_keyboardResources s) (sv_keyboardFocus s)
  (sv_toplevels s) (sv_nextToplevelId s) (sv_onTopId s) (sv_clients s) (sv_posted s)
  (sv_firstFrame s) (sv_events s) (sv_rs s) (sv_emitted s) (sv_asked s) (sv_answers s) (sv_kenv s)
  (sv_meanwhile s).
Definition set_sv_touchResources (x : list Z) (s : Server) : Server := mkServer (sv_objs s)
  (sv_config s) (sv_output s) (sv_cache s) (sv_nextSb s) (sv_windows s) (sv_nextWindowId s)
  (sv_activeWindow s) (sv_activePackage s) (sv_outputWidth s) (sv_outputHeight s) (sv_inFlight s)
  (sv_releasedPending s) (sv_releasing s) (sv_watchedBuffers s) (sv_touchPending s) x
  (sv_inputSurface s) (sv_outputResources s) (sv_keyboardResources s) (sv_keyboardFocus s)
  (sv_toplevels s) (sv_nextToplevelId s) (sv_onTopId s) (sv_clients s) (sv_posted s)
  (sv_firstFrame s) (sv_events s) (sv_rs s) (sv_emitted s) (sv_asked s) (sv_answers s) (sv_kenv s)
  (sv_meanwhile s).
Definition set_sv_inputSurface (x : option Z) (s : Server) : Server := mkServer (sv_objs s)
  (sv_config s) (sv_output s) (sv_cache s) (sv_nextSb s) (sv_windows s) (sv_nextWindowId s)
  (sv_activeWindow s) (sv_activePackage s) (sv_outputWidth s) (sv_outputHeight s) (sv_inFlight s)
  (sv_releasedPending s) (sv_releasing s) (sv_watchedBuffers s) (sv_touchPending s)
  (sv_touchResources s) x (sv_outputResources s) (sv_keyboardResources s) (sv_keyboardFocus s)
  (sv_toplevels s) (sv_nextToplevelId s) (sv_onTopId s) (sv_clients s) (sv_posted s)
  (sv_firstFrame s) (sv_events s) (sv_rs s) (sv_emitted s) (sv_asked s) (sv_answers s) (sv_kenv s)
  (sv_meanwhile s).
Definition set_sv_outputResources (x : list Z) (s : Server) : Server := mkServer (sv_objs s)
  (sv_config s) (sv_output s) (sv_cache s) (sv_nextSb s) (sv_windows s) (sv_nextWindowId s)
  (sv_activeWindow s) (sv_activePackage s) (sv_outputWidth s) (sv_outputHeight s) (sv_inFlight s)
  (sv_releasedPending s) (sv_releasing s) (sv_watchedBuffers s) (sv_touchPending s)
  (sv_touchResources s) (sv_inputSurface s) x (sv_keyboardResources s) (sv_keyboardFocus s)
  (sv_toplevels s) (sv_nextToplevelId s) (sv_onTopId s) (sv_clients s) (sv_posted s)
  (sv_firstFrame s) (sv_events s) (sv_rs s) (sv_emitted s) (sv_asked s) (sv_answers s) (sv_kenv s)
  (sv_meanwhile s).
Definition set_sv_keyboardResources (x : list Z) (s : Server) : Server := mkServer (sv_objs s)
  (sv_config s) (sv_output s) (sv_cache s) (sv_nextSb s) (sv_windows s) (sv_nextWindowId s)
  (sv_activeWindow s) (sv_activePackage s) (sv_outputWidth s) (sv_outputHeight s) (sv_inFlight s)
  (sv_releasedPending s) (sv_releasing s) (sv_watchedBuffers s) (sv_touchPending s)
  (sv_touchResources s) (sv_inputSurface s) (sv_outputResources s) x (sv_keyboardFocus s)
  (sv_toplevels s) (sv_nextToplevelId s) (sv_onTopId s) (sv_clients s) (sv_posted s)
  (sv_firstFrame s) (sv_events s) (sv_rs s) (sv_emitted s) (sv_asked s) (sv_answers s) (sv_kenv s)
  (sv_meanwhile s).
Definition set_sv_keyboardFocus (x : option Z) (s : Server) : Server := mkServer (sv_objs s)
  (sv_config s) (sv_output s) (sv_cache s) (sv_nextSb s) (sv_windows s) (sv_nextWindowId s)
  (sv_activeWindow s) (sv_activePackage s) (sv_outputWidth s) (sv_outputHeight s) (sv_inFlight s)
  (sv_releasedPending s) (sv_releasing s) (sv_watchedBuffers s) (sv_touchPending s)
  (sv_touchResources s) (sv_inputSurface s) (sv_outputResources s) (sv_keyboardResources s) x
  (sv_toplevels s) (sv_nextToplevelId s) (sv_onTopId s) (sv_clients s) (sv_posted s)
  (sv_firstFrame s) (sv_events s) (sv_rs s) (sv_emitted s) (sv_asked s) (sv_answers s) (sv_kenv s)
  (sv_meanwhile s).
Definition set_sv_toplevels (x : gmap Z ToplevelRec) (s : Server) : Server := mkServer (sv_objs s)
  (sv_config s) (sv_output s) (sv_cache s) (sv_nextSb s) (sv_windows s) (sv_nextWindowId s)
  (sv_activeWindow s) (sv_activePackage s) (sv_outputWidth s) (sv_outputHeight s) (sv_inFlight s)
  (sv_releasedPending s) (sv_releasing s) (sv_watchedBuffers s) (sv_touchPending s)
  (sv_touchResources s) (sv_inputSurface s) (sv_outputResources s) (sv_keyboardResources s)
  (sv_keyboardFocus s) x (sv_nextToplevelId s) (sv_onTopId s) (sv_clients s) (sv_posted s)
  (sv_firstFrame s) (sv_events s) (sv_rs s) (sv_emitted s) (sv_asked s) (sv_answers s) (sv_kenv s)
  (sv_meanwhile s).
Definition set_sv_nextToplevelId (x : Z) (s : Server) : Server := mkServer (sv_objs s) (sv_config
  s) (sv_output s) (sv_cache s) (sv_nextSb s) (sv_windows s) (sv_nextWindowId s) (sv_activeWindow
  s) (sv_activePackage s) (sv_outputWidth s) (sv_outputHeight s) (sv_inFlight s)
  (sv_releasedPending s) (sv_releasing s) (sv_watchedBuffers s) (sv_touchPending s)
  (sv_touchResources s) (sv_inputSurface s) (sv_outputResources s) (sv_keyboardResources s)
  (sv_keyboardFocus s) (sv_toplevels s) x (sv_onTopId s) (sv_clients s) (sv_posted s)
  (sv_firstFrame s) (sv_events s) (sv_rs s) (sv_emitted s) (sv_asked s) (sv_answers s) (sv_kenv s)
  (sv_meanwhile s).
Definition set_sv_onTopId (x : Z) (s : Server) : Server := mkServer (sv_objs s) (sv_config s)
  (sv_output s) (sv_cache s) (sv_nextSb s) (sv_windows s) (sv_nextWindowId s) (sv_activeWindow s)
  (sv_activePackage s) (sv_outputWidth s) (sv_outputHeight s) (sv_inFlight s) (sv_releasedPending
  s) (sv_releasing s) (sv_watchedBuffers s) (sv_touchPending s) (sv_touchResources s)
  (sv_inputSurface s) (sv_outputResources s) (sv_keyboardResources s) (sv_keyboardFocus s)
  (sv_toplevels s) (sv_nextToplevelId s) x (sv_clients s) (sv_posted s) (sv_firstFrame s)
  (sv_events s) (sv_rs s) (sv_emitted s) (sv_asked s) (sv_answers s) (sv_kenv s) (sv_meanwhile s).
Definition set_sv_clients (x : Z) (s : Server) : Server := mkServer (sv_objs s) (sv_config s)
  (sv_output s) (sv_cache s) (sv_nextSb s) (sv_windows s) (sv_nextWindowId s) (sv_activeWindow s)
  (sv_activePackage s) (sv_outputWidth s) (sv_outputHeight s) (sv_inFlight s) (sv_releasedPending
  s) (sv_releasing s) (sv_watchedBuffers s) (sv_touchPending s) (sv_touchResources s)
  (sv_inputSurface s) (sv_outputResources s) (sv_keyboardResources s) (sv_keyboardFocus s)
  (sv_toplevels s) (sv_nextToplevelId s) (sv_onTopId s) x (sv_posted s) (sv_firstFrame s)
  (sv_events s) (sv_rs s) (sv_emitted s) (sv_asked s) (sv_answers s) (sv_kenv s) (sv_meanwhile s).
Definition set_sv_posted (x : list Posted) (s : Server) : Server := mkServer (sv_objs s)
  (sv_config s) (sv_output s) (sv_cache s) (sv_nextSb s) (sv_windows s) (sv_nextWindowId s)
  (sv_activeWindow s) (sv_activePackage s) (sv_outputWidth s) (sv_outputHeight s) (sv_inFlight s)
  (sv_releasedPending s) (sv_releasing s) (sv_watchedBuffers s) (sv_touchPending s)
  (sv_touchResources s) (sv_inputSurface s) (sv_outputResources s) (sv_keyboardResources s)
  (sv_keyboardFocus s) (sv_toplevels s) (sv_nextToplevelId s) (sv_onTopId s) (sv_clients s) x
  (sv_firstFrame s) (sv_events s) (sv_rs s) (sv_emitted s) (sv_asked s) (sv_answers s) (sv_kenv s)
  (sv_meanwhile s).
Definition set_sv_firstFrame (x : bool) (s : Server) : Server := mkServer (sv_objs s) (sv_config
  s) (sv_output s) (sv_cache s) (sv_nextSb s) (sv_windows s) (sv_nextWindowId s) (sv_activeWindow
  s) (sv_activePackage s) (sv_outputWidth s) (sv_outputHeight s) (sv_inFlight s)
  (sv_releasedPending s) (sv_releasing s) (sv_watchedBuffers s) (sv_touchPending s)
  (sv_touchResources s) (sv_inputSurface s) (sv_outputResources s) (sv_keyboardResources s)
  (sv_keyboardFocus s) (sv_toplevels s) (sv_nextToplevelId s) (sv_onTopId s) (sv_clients s)
  (sv_posted s) x (sv_events s) (sv_rs s) (sv_emitted s) (sv_asked s) (sv_answers s) (sv_kenv s)
  (sv_meanwhile s).
Definition set_sv_events (x : list Event) (s : Server) : Server := mkServer (sv_objs s) (sv_config
  s) (sv_output s) (sv_cache s) (sv_nextSb s) (sv_windows s) (sv_nextWindowId s) (sv_activeWindow
  s) (sv_activePackage s) (sv_outputWidth s) (sv_outputHeight s) (sv_inFlight s)
  (sv_releasedPending s) (sv_releasing s) (sv_watchedBuffers s) (sv_touchPending s)
  (sv_touchResources s) (sv_inputSurface s) (sv_outputResources s) (sv_keyboardResources s)
  (sv_keyboardFocus s) (sv_toplevels s) (sv_nextToplevelId s) (sv_onTopId s) (sv_clients s)
  (sv_posted s) (sv_firstFrame s) x (sv_rs s) (sv_emitted s) (sv_asked s) (sv_answers s) (sv_kenv
  s) (sv_meanwhile s).
Definition set_sv_rs (x : list RsOp) (s : Server) : Server := mkServer (sv_objs s) (sv_config s)
  (sv_output s) (sv_cache s) (sv_nextSb s) (sv_windows s) (sv_nextWindowId s) (sv_activeWindow s)
  (sv_activePackage s) (sv_outputWidth s) (sv_outputHeight s) (sv_inFlight s) (sv_releasedPending
  s) (sv_releasing s) (sv_watchedBuffers s) (sv_touchPending s) (sv_touchResources s)
  (sv_inputSurface s) (sv_outputResources s) (sv_keyboardResources s) (sv_keyboardFocus s)
  (sv_toplevels s) (sv_nextToplevelId s) (sv_onTopId s) (sv_clients s) (sv_posted s)
  (sv_firstFrame s) (sv_events s) x (sv_emitted s) (sv_asked s) (sv_answers s) (sv_kenv s)
  (sv_meanwhile s).
Definition set_sv_emitted (x : list (ToplevelEvent * ToplevelInfo)) (s : Server) : Server :=
  mkServer (sv_objs s) (sv_config s) (sv_output s) (sv_cache s) (sv_nextSb s) (sv_windows s)
  (sv_nextWindowId s) (sv_activeWindow s) (sv_activePackage s) (sv_outputWidth s) (sv_outputHeight
  s) (sv_inFlight s) (sv_releasedPending s) (sv_releasing s) (sv_watchedBuffers s)
  (sv_touchPending s) (sv_touchResources s) (sv_inputSurface s) (sv_outputResources s)
  (sv_keyboardResources s) (sv_keyboardFocus s) (sv_toplevels s) (sv_nextToplevelId s) (sv_onTopId
  s) (sv_clients s) (sv_posted s) (sv_firstFrame s) (sv_events s) (sv_rs s) x (sv_asked s)
  (sv_answers s) (sv_kenv s) (sv_meanwhile s).
Definition set_sv_asked (x : nat) (s : Server) : Server := mkServer (sv_objs s) (sv_config s)
  (sv_output s) (sv_cache s) (sv_nextSb s) (sv_windows s) (sv_nextWindowId s) (sv_activeWindow s)
  (sv_activePackage s) (sv_outputWidth s) (sv_outputHeight s) (sv_inFlight s) (sv_releasedPending
  s) (sv_releasing s) (sv_watchedBuffers s) (sv_touchPending s) (sv_touchResources s)
  (sv_inputSurface s) (sv_outputResources s) (sv_keyboardResources s) (sv_keyboardFocus s)
  (sv_toplevels s) (sv_nextToplevelId s) (sv_onTopId s) (sv_clients s) (sv_posted s)
  (sv_firstFrame s) (sv_events s) (sv_rs s) (sv_emitted s) x (sv_answers s) (sv_kenv s)
  (sv_meanwhile s).
Definition set_sv_answers (x : nat → Z) (s : Server) : Server := mkServer (sv_objs s) (sv_config
  s) (sv_output s) (sv_cache s) (sv_nextSb s) (sv_windows s) (sv_nextWindowId s) (sv_activeWindow
  s) (sv_activePackage s) (sv_outputWidth s) (sv_outputHeight s) (sv_inFlight s)
  (sv_releasedPending s) (sv_releasing s) (sv_watchedBuffers s) (sv_touchPending s)
  (sv_touchResources s) (sv_inputSurface s) (sv_outputResources s) (sv_keyboardResources s)
  (sv_keyboardFocus s) (sv_toplevels s) (sv_nextToplevelId s) (sv_onTopId s) (sv_clients s)
  (sv_posted s) (sv_firstFrame s) (sv_events s) (sv_rs s) (sv_emitted s) (sv_asked s) x (sv_kenv
  s) (sv_meanwhile s).
Definition set_sv_kenv (x : nat → KEnv) (s : Server) : Server := mkServer (sv_objs s) (sv_config
  s) (sv_output s) (sv_cache s) (sv_nextSb s) (sv_windows s) (sv_nextWindowId s) (sv_activeWindow
  s) (sv_activePackage s) (sv_outputWidth s) (sv_outputHeight s) (sv_inFlight s)
  (sv_releasedPending s) (sv_releasing s) (sv_watchedBuffers s) (sv_touchPending s)
  (sv_touchResources s) (sv_inputSurface s) (sv_outputResources s) (sv_keyboardResources s)
  (sv_keyboardFocus s) (sv_toplevels s) (sv_nextToplevelId s) (sv_onTopId s) (sv_clients s)
  (sv_posted s) (sv_firstFrame s) (sv_events s) (sv_rs s) (sv_emitted s) (sv_asked s) (sv_answers
  s) x (sv_meanwhile s).
Definition set_sv_meanwhile (x : nat → list Meanwhile) (s : Server) : Server := mkServer (sv_objs
  s) (sv_config s) (sv_output s) (sv_cache s) (sv_nextSb s) (sv_windows s) (sv_nextWindowId s)
  (sv_activeWindow s) (sv_activePackage s) (sv_outputWidth s) (sv_outputHeight s) (sv_inFlight s)
  (sv_releasedPending s) (sv_releasing s) (sv_watchedBuffers s) (sv_touchPending s)
  (sv_touchResources s) (sv_inputSurface s) (sv_outputResources s) (sv_keyboardResources s)
  (sv_keyboardFocus s) (sv_toplevels s) (sv_nextToplevelId s) (sv_onTopId s) (sv_clients s)
  (sv_posted s) (sv_firstFrame s) (sv_events s) (sv_rs s) (sv_emitted s) (sv_asked s) (sv_answers
  s) (sv_kenv s) x.

Section ops.
(** The order in which an [unordered_map] is walked. *)
Context (hash_order : ∀ A, gmap Z A → list (Z * A)).
Abbreviation M := (F Server).

(** ** Access *)

Definition ask : M Z := λ s,
  Some (sv_answers s (sv_asked s), set_sv_asked (S (sv_asked s)) s).
Definition ask_kenv : M KEnv := λ s,
  Some (sv_kenv s (sv_asked s), set_sv_asked (S (sv_asked s)) s).
Definition rs_log (ops : list RsOp) : M unit := fmod (λ s, set_sv_rs (sv_rs s ++ ops) s).

Definition get_obj (r : Z) : M Resource := λ s,
  match sv_objs s !! r with Some o => Some (o, s) | None => None end.
Definition get_surface (r : Z) : M Surface :=
  let! o := get_obj r in match r_obj o with OSurface u => fret u | _ => fault end.
Definition get_xdg (r : Z) : M XdgSurface :=
  let! o := get_obj r in match r_obj o with OXdgSurface x => fret x | _ => fault end.
Definition put_obj (r : Z) (b : Obj) : M unit :=
  let! o := get_obj r in
  fmod (λ s, set_sv_objs (<[r := mkRes (r_client o) b]> (sv_objs s)) s).
Definition upd_surface (r : Z) (f : Surface → Surface) : M unit :=
  let! u := get_surface r in put_obj r (OSurface (f u)).
Definition wl_resource_get_client (r : Z) : M Z := let! o := get_obj r in fret (r_client o).
(** An event: its objects are dereferenced. *)
Definition send (e : Event) : M unit :=
  do! get_obj (ev_target e) in
  do! fopt (ev_arg e) (λ r, do! get_obj r in fret tt) in
  fmod (λ s, set_sv_events (sv_events s ++ [e]) s).

(** The output a frame goes to. *)
Inductive OutRef := OutLegacy | OutWindow (id : Z).
Definition get_out (o : OutRef) : M OutputSurface :=
  match o with
  | OutLegacy => fget sv_output
  | OutWindow id => λ s, match sv_windows s !! id with Some w => Some (wi_output w, s) | None => None end
  end.
Definition put_out (r : OutRef) (o : OutputSurface) : M unit :=
  match r with
  | OutLegacy => fmod (set_sv_output o)
  | OutWindow id => fmod (λ s, set_sv_windows (alter (set_wi_output o) id (sv_windows s)) s)
  end.
Definition out_ResetQueue (r : OutRef) : M unit :=
  let! o := get_out r in do! ask in rs_log (ResetQueue o).

(** ** Buffers *)

(** Walking a map. *)
Definition walk {A} (m : gmap Z A) : list (Z * A) := hash_order A m.

Definition WatchBufferDestroy (wlBuffer : Z) : M unit :=
  fmod (λ s, set_sv_watchedBuffers ({[wlBuffer]} ∪ sv_watchedBuffers s) s).
Definition ForgetBuffer (wlBuffer : Z) : M unit :=
  do! fmod (λ s, set_sv_watchedBuffers (sv_watchedBuffers s ∖ {[wlBuffer]}) s) in
  do! fmod (λ s, set_sv_cache (delete wlBuffer (sv_cache s)) s) in
  do! fmod (λ s, set_sv_releasedPending (filter (λ b, b ≠ wlBuffer) (sv_releasedPending s))
       (set_sv_inFlight (filter (λ kv : Z * InFlight, if_wlBuffer kv.2 ≠ wlBuffer) (sv_inFlight s)) s)) in
  do! out_ResetQueue OutLegacy in
  let! windows := fget sv_windows in
  ffor (walk windows) (λ kv, out_ResetQueue (OutWindow kv.1)).

Definition TrackInFlight (buffer wlBuffer window : Z) : M unit :=
  fmod (λ s, set_sv_inFlight (<[buffer := mkInFlight wlBuffer window]> (sv_inFlight s)) s).
Definition UntrackInFlight (buffer : Z) : M unit :=
  fmod (λ s, set_sv_inFlight (delete buffer (sv_inFlight s)) s).
Definition ReleaseEverythingInFlight : M unit :=
  let! m := fget sv_inFlight in
  do! fmod (λ s, set_sv_releasedPending [] (set_sv_inFlight ∅ s)) in
  ffor (walk m) (λ kv, send (EvRelease (if_wlBuffer kv.2))).
(** [ReleaseInFlightOf]: the section that holds the lock, then the releases.  The Wayland
    thread runs both in a row: what it has taken no one destroys in between. *)
Definition take_in_flight (window : Z) : M (list Z) :=
  let! m := fget sv_inFlight in
  do! fmod (set_sv_inFlight (filter (λ kv : Z * InFlight, if_window kv.2 ≠ window) m)) in
  fret ((λ kv : Z * InFlight, if_wlBuffer kv.2) <$>
          filter (λ kv : Z * InFlight, if_window kv.2 = window) (walk m)).
Definition ReleaseInFlightOf (window : Z) : M unit :=
  let! resources := take_in_flight window in
  ffor resources (λ r, send (EvRelease r)).
(** On the render service's thread. *)
Definition OnBufferReleased (buffer : Z) : M unit :=
  let! m := fget sv_inFlight in
  match m !! buffer with
  | None => fret tt
  | Some f => fmod (λ s, set_sv_inFlight (delete buffer m)
                    (set_sv_releasedPending (sv_releasedPending s ++ [if_wlBuffer f]) s))
  end.
Definition DrainReleases : M unit :=
  let! pending := fget sv_releasedPending in
  do! fmod (set_sv_releasedPending []) in
  ffor pending (λ b, send (EvRelease b)).
Definition Import (key : Z) (handle : native_handle) (desc : WleglBufferDesc) : M (option Z) :=
  let! cache := fget sv_cache in
  match cache !! key with
  | Some (sb, _) => fret (Some sb)
  | None =>
      let! e := ask_kenv in
      let! r := fsome (BuildBufferHandle e (Some handle) desc) in
      match r.1.1 with
      | None => fret None
      | Some bh =>
          let! create := ask in
          if create =? 0 then fret None
          else
            let! sb := fget sv_nextSb in
            let cfg := mkCfg (wd_width desc) (wd_height desc) (bh_format bh) (bh_usage bh) in
            do! fmod (λ s, set_sv_nextSb (sb + 1) (set_sv_cache (<[key := (sb, cfg)]> (sv_cache s)) s)) in
            fret (Some sb)
      end
  end.
(** [Flush] of a buffer of the importer. *)
Definition out_Flush (r : OutRef) (key sb : Z) : M bool :=
  let! o := get_out r in
  let! usage := ask in
  let! err := ask in
  let! cache := fget sv_cache in
  let! c := fsome (cache !! key) in
  let '(ok, cfg, o, ops) := Flush err usage sb c.2 o in
  do! put_out r o in
  do! fmod (set_sv_cache (<[key := (c.1, cfg)]> cache)) in
  do! rs_log ops in
  fret ok.

(** ** The toplevel table *)

Definition PackageOfAppId (appId : string) : string :=
  if String.prefix "waydroid." appId
  then String.substring 9 (String.length appId - 9) appId else "".

Definition EmitToplevel (ev : ToplevelEvent) (info : ToplevelInfo) : M unit :=
  fmod (λ s, set_sv_emitted (sv_emitted s ++ [(ev, info)]) s).
Definition upd_toplevel (id : Z) (f : ToplevelRec → ToplevelRec) : M unit :=
  fmod (λ s, set_sv_toplevels (alter f id (sv_toplevels s)) s).

Definition NoteClientConnected : M Z :=
  do! fmod (λ s, set_sv_clients (u32 (sv_clients s + 1)) s) in fget sv_clients.

Definition AddToplevel (toplevel xdgSurface : Z) : M Z :=
  let! client := wl_resource_get_client toplevel in
  let! id := fget sv_nextToplevelId in
  let info := mkInfo id client "" "" false 0 in
  do! fmod (λ s, set_sv_nextToplevelId (u32 (id + 1))
       (set_sv_toplevels (<[id := mkRec info toplevel xdgSurface None false false false]>
          (sv_toplevels s)) s)) in
  do! EmitToplevel TlCreated info in
  fret id.
Definition RemoveToplevel (id : Z) : M unit :=
  let! m := fget sv_toplevels in
  match m !! id with
  | None => fret tt
  | Some rec =>
      do! fmod (set_sv_toplevels (delete id m)) in
      do! fmod (λ s, if sv_onTopId s =? id then set_sv_onTopId 0 s else s) in
      EmitToplevel TlDestroyed (tr_info rec)
  end.
Definition SetToplevelTitle (id : Z) (title : option string) : M unit :=
  let! m := fget sv_toplevels in
  match m !! id, title with
  | Some rec, Some title =>
      if bool_decide (ti_title (tr_info rec) = title) then fret tt
      else
        let info := set_ti_title title (tr_info rec) in
        do! upd_toplevel id (set_tr_info info) in
        EmitToplevel TlUpdated info
  | _, _ => fret tt
  end.
Definition NoteToplevelFrame (id : Z) : M unit :=
  let! m := fget sv_toplevels in
  match m !! id with
  | None => fret tt
  | Some rec =>
      let info := set_ti_mapped true (set_ti_frames (u64 (ti_frames (tr_info rec) + 1)) (tr_info rec)) in
      do! upd_toplevel id (set_tr_info info) in
      let! top := fget sv_onTopId in
      if top =? id then fret tt
      else do! fmod (set_sv_onTopId id) in EmitToplevel TlOnTop info
  end.
Definition NoteToplevelInactive (id : Z) : M unit :=
  let! m := fget sv_toplevels in
  let! top := fget sv_onTopId in
  match m !! id with
  | None => fret tt
  | Some rec => if negb (top =? id) then fret tt
                else do! fmod (set_sv_onTopId 0) in EmitToplevel TlInactive (tr_info rec)
  end.
Definition Toplevels : M (list ToplevelInfo) :=
  let! m := fget sv_toplevels in fret ((λ kv, tr_info kv.2) <$> walk m).
Definition NoteToplevelSurface (id surface : Z) : M unit :=
  upd_toplevel id (set_tr_surface (Some surface)).

Definition CloseToplevel (id : Z) : M unit :=
  let! m := fget sv_toplevels in
  match m !! id with Some rec => send (EvClose (tr_toplevel rec)) | None => fret tt end.
Definition ConfigureToplevel (id width height : Z) (activated : bool) : M unit :=
  let! m := fget sv_toplevels in
  ffor (filter (λ kv : Z * ToplevelRec, id = 0 ∨ kv.1 = id) (walk m)) (λ kv,
    let rec := kv.2 in
    do! upd_toplevel (ti_id (tr_info rec)) (set_tr_activated activated) in
    do! send (EvConfigure (tr_toplevel rec) width height activated) in
    send (EvXdgConfigure (tr_xdgSurface rec))).

(** ** Activation *)

Definition SendSurfaceOnOutput (toplevelId : Z) (shown : bool) : M unit :=
  let! m := fget sv_toplevels in
  match m !! toplevelId with
  | None => fret tt
  | Some rec =>
      match tr_surface rec with
      | None => fret tt
      | Some surface =>
          if Bool.eqb (tr_entered rec) shown then fret tt
          else
            do! upd_toplevel toplevelId (set_tr_entered shown) in
            let! owner := wl_resource_get_client surface in
            let! outs := fget sv_outputResources in
            ffor outs (λ out,
              let! c := wl_resource_get_client out in
              if negb (c =? owner) then fret tt
              else send (if shown then EvEnter surface out else EvLeave surface out))
      end
  end.

(** What [ApplyActivation] makes of one toplevel: nothing, a pulse, or a change. *)
Inductive Verdict := Keep | Pulse | Change (want : bool).
Definition wanted (active : string) (rec : ToplevelRec) : option bool :=
  let package := PackageOfAppId (ti_appId (tr_info rec)) in
  if negb (bool_decide (package = ""))
  then Some (negb (tr_home rec) && (bool_decide (active = "*") || bool_decide (package = active)))
  else if bool_decide (ti_appId (tr_info rec) = "") then None else Some true.
Definition verdict (active : string) (edge : bool) (rec : ToplevelRec) : Verdict :=
  match wanted active rec with
  | None => Keep
  | Some want =>
      if want && edge && tr_activated rec
         && negb (bool_decide (PackageOfAppId (ti_appId (tr_info rec)) = ""))
      then Pulse
      else if negb (Bool.eqb want (tr_activated rec)) then Change want else Keep
  end.
Definition ApplyActivation (edge : bool) : M unit :=
  let! active := fget sv_activePackage in
  let! w := fget sv_outputWidth in
  let! h := fget sv_outputHeight in
  let! out := fget sv_output in
  let active := if IsAttached out then "*" else active in
  let! m := fget sv_toplevels in
  let verdicts := (λ kv : Z * ToplevelRec, (kv.1, verdict active edge kv.2)) <$> walk m in
  let changes := omap (λ v : Z * Verdict, match v.2 with Change b => Some (v.1, b) | _ => None end)
                   verdicts in
  let pulse := omap (λ v : Z * Verdict, match v.2 with Pulse => Some v.1 | _ => None end) verdicts in
  do! ffor changes (λ c, upd_toplevel c.1 (set_tr_activated c.2)) in
  do! ffor changes (λ c, if c.2 : bool
                         then do! SendSurfaceOnOutput c.1 true in ConfigureToplevel c.1 w h true
                         else fret tt) in
  do! ffor changes (λ c, if c.2 : bool then fret tt
                         else do! ConfigureToplevel c.1 w h false in SendSurfaceOnOutput c.1 false) in
  ffor pulse (λ id,
    do! SendSurfaceOnOutput id true in
    do! ConfigureToplevel id w h false in
    ConfigureToplevel id w h true).

Definition SetToplevelAppId (id : Z) (appId : option string) : M unit :=
  let! m := fget sv_toplevels in
  match m !! id, appId with
  | Some rec, Some appId =>
      if bool_decide (ti_appId (tr_info rec) = appId) then fret tt
      else
        let info := set_ti_appId appId (tr_info rec) in
        do! upd_toplevel id (λ rec, set_tr_home (IsHomePackage (PackageOfAppId appId))
              (set_tr_info info rec)) in
        do! EmitToplevel TlUpdated info in
        ApplyActivation false
  | _, _ => fret tt
  end.

(** ** Touch and keys *)

Definition InjectTouchOps (ops : list TouchOp) : M unit :=
  fmod (λ s, set_sv_touchPending (sv_touchPending s ++ ops) s).
Definition InjectTouchFromAction (action id x y : Z) : M unit :=
  let kind := if action =? 2 then Some TouchDown else if action =? 3 then Some TouchMotion
              else if action =? 4 then Some TouchUp else if action =? 1 then Some TouchCancel
              else None in
  match kind with
  | None => fret tt
  | Some k => InjectTouchOps [mkTouch k id x y; mkTouch TouchFrame 0 0 0]
  end.
Definition AddTouchResource (touch : Z) : M unit :=
  fmod (λ s, set_sv_touchResources (sv_touchResources s ++ [touch]) s).
Definition RemoveTouchResource (touch : Z) : M unit :=
  fmod (λ s, set_sv_touchResources (filter (λ r, r ≠ touch) (sv_touchResources s)) s).
Definition NoteInputSurface (surface : Z) : M unit := fmod (set_sv_inputSurface (Some surface)).
Definition DropInputSurface (surface : Z) : M unit :=
  do! fmod (λ s, if bool_decide (sv_inputSurface s = Some surface) then set_sv_inputSurface None s
                 else s) in
  do! fmod (λ s, if bool_decide (sv_keyboardFocus s = Some surface) then set_sv_keyboardFocus None s
                 else s) in
  fmod (λ s, set_sv_toplevels
    ((λ rec, if bool_decide (tr_surface rec = Some surface)
             then set_tr_entered false (set_tr_surface None rec) else rec) <$> sv_toplevels s) s).

Definition wl_fixed_from_int (i : Z) : Z := s32 (i * 256).
Definition touch_event (tr surface : Z) (op : TouchOp) : Event :=
  match to_kind op with
  | TouchDown => EvTouchDown tr surface (to_id op) (wl_fixed_from_int (to_x op)) (wl_fixed_from_int (to_y op))
  | TouchUp => EvTouchUp tr (to_id op)
  | TouchMotion => EvTouchMotion tr (to_id op) (wl_fixed_from_int (to_x op)) (wl_fixed_from_int (to_y op))
  | TouchFrame => EvTouchFrame tr
  | TouchCancel => EvTouchCancel tr
  end.
Definition DrainTouchOps : M unit :=
  let! ops := fget sv_touchPending in
  do! fmod (set_sv_touchPending []) in
  match ops with
  | [] => fret tt
  | _ =>
      let! input := fget sv_inputSurface in
      let! touch := fget sv_touchResources in
      match input, touch with
      | Some surface, _ :: _ =>
          let! owner := wl_resource_get_client surface in
          ffor ops (λ op, ffor touch (λ tr,
            let! c := wl_resource_get_client tr in
            if negb (c =? owner) then fret tt else send (touch_event tr surface op)))
      | _, _ => fret tt
      end
  end.

Definition AddOutputResource (output : Z) : M unit :=
  fmod (λ s, set_sv_outputResources (sv_outputResources s ++ [output]) s).
Definition RemoveOutputResource (output : Z) : M unit :=
  fmod (λ s, set_sv_outputResources (filter (λ r, r ≠ output) (sv_outputResources s)) s).
Definition AddKeyboardResource (keyboard : Z) : M unit :=
  fmod (λ s, set_sv_keyboardResources (sv_keyboardResources s ++ [keyboard]) s).
Definition RemoveKeyboardResource (keyboard : Z) : M unit :=
  fmod (λ s, set_sv_keyboardResources (filter (λ r, r ≠ keyboard) (sv_keyboardResources s)) s).
Definition SendKeyboardFocus (surface : Z) : M unit :=
  let! focus := fget sv_keyboardFocus in
  if bool_decide (focus = Some surface) then fret tt
  else
    let! owner := wl_resource_get_client surface in
    let! kbs := fget sv_keyboardResources in
    do! ffor kbs (λ kb,
      let! c := wl_resource_get_client kb in
      if negb (c =? owner) then fret tt
      else
        do! fopt focus (λ f, send (EvKbdLeave kb f)) in
        do! send (EvKbdEnter kb surface) in
        send (EvKbdModifiers kb)) in
    fmod (set_sv_keyboardFocus (Some surface)).

(** ** Windows *)

Definition Post (p : Posted) : M unit := fmod (λ s, set_sv_posted (sv_posted s ++ [p]) s).
Definition OutputSize : M (Z * Z) :=
  let! w := fget sv_outputWidth in let! h := fget sv_outputHeight in fret (w, h).

(** [AttachWindow] up to the end of its critical section: the window, and whether the
    size changed. *)
Definition attach_window (package : string) (producer : option Z) (width height : Z)
    : M (option (Z * bool)) :=
  match producer with
  | None => fret None
  | Some p =>
      if (width <=? 0) || (height <=? 0) then fret None
      else
        let '(o, ops) := SetReleaseCallback OutputSurface_new in
        let! surface := ask in
        let '(ok, o, ops') := AttachProducer (if surface =? 0 then None else Some surface) o in
        do! rs_log (ops ++ ops') in
        if negb ok then fret None
        else
          let! id := fget sv_nextWindowId in
          let! ow := fget sv_outputWidth in
          let! oh := fget sv_outputHeight in
          do! fmod (λ s, set_sv_nextWindowId (s32 (id + 1))
               (set_sv_windows (<[id := mkWindow id package o 0 true]> (sv_windows s))
               (set_sv_outputWidth width (set_sv_outputHeight height s)))) in
          fret (Some (id, negb (ow =? width) || negb (oh =? height)))
  end.
Definition Server_AttachWindow (package : string) (producer : option Z) (width height : Z) : M Z :=
  let! r := attach_window package producer width height in
  match r with
  | None => fret (-1)
  | Some (id, resized) => do! Post (PResize width height resized) in fret id
  end.
(** [DetachWindow] up to what it posts. *)
Definition detach_window (id : Z) : M (option Posted) :=
  let! m := fget sv_windows in
  match m !! id with
  | None => fret None
  | Some window =>
      do! fmod (set_sv_windows (delete id m)) in
      do! fmod (λ s, if sv_activeWindow s =? id then set_sv_activePackage "" (set_sv_activeWindow 0 s)
                     else s) in
      fret (Some (PDetach window))
  end.
Definition Server_DetachWindow (id : Z) : M bool :=
  let! p := detach_window id in
  match p with None => fret false | Some p => do! Post p in fret true end.
Definition Server_WindowAlive (id : Z) : M bool :=
  let! m := fget sv_windows in fret (bool_decide (is_Some (m !! id))).

(** The walk of [OutputFor] over the windows: the first of the package, else the last
    that takes anything. *)
Fixpoint pick_window (package : string) (any : option Z) (l : list (Z * Window)) : option Z :=
  match l with
  | [] => any
  | (id, w) :: l =>
      if negb (bool_decide (package = "")) && bool_decide (wi_package w = package) then Some id
      else pick_window package (if bool_decide (wi_package w = "") then Some id else any) l
  end.
Definition OutputFor (toplevelId : Z) : M (option OutRef * Z) :=
  let! m := fget sv_toplevels in
  let rec := m !! toplevelId in
  if match rec with Some rec => tr_home rec | None => false end then fret (None, 0)
  else
    let package := match rec with Some rec => PackageOfAppId (ti_appId (tr_info rec)) | None => "" end in
    let! ws := fget sv_windows in
    match pick_window package None (walk ws) with
    | Some id =>
        do! fmod (set_sv_windows (alter (set_wi_toplevelId toplevelId) id ws)) in
        fret (Some (OutWindow id), id)
    | None => let! o := fget sv_output in fret (if IsAttached o then Some OutLegacy else None, 0)
    end.

Definition set_window_active (window : Z) (active : bool) : M (option Posted) :=
  let! m := fget sv_windows in
  match m !! window with
  | None => fret None
  | Some w =>
      do! fmod (set_sv_windows (<[window := set_wi_active active w]> m)) in
      do! fmod (λ s, if active
                     then set_sv_activePackage (if bool_decide (wi_package w = "") then "*" else wi_package w)
                            (set_sv_activeWindow window s)
                     else if sv_activeWindow s =? window
                     then set_sv_activePackage "" (set_sv_activeWindow 0 s) else s) in
      fret (Some (PActivate active))
  end.
Definition Server_SetWindowActive (window : Z) (active : bool) : M unit :=
  let! p := set_window_active window active in fopt p Post.
Definition Server_WindowTouch (window action id x y : Z) : M unit := Post (PTouch window action id x y).
Definition Server_WindowKey (window code : Z) (down : bool) : M unit := Post (PKey window code down).
Definition Server_CloseApp (package : string) : M unit := Post (PCloseApp package).
(** The posted closures. *)
Definition run_touch (window action id x y : Z) : M unit :=
  let! ws := fget sv_windows in
  match ws !! window with
  | None => fret tt
  | Some w =>
      let! m := fget sv_toplevels in
      do! fopt (m !! wi_toplevelId w ≫= tr_surface) NoteInputSurface in
      do! InjectTouchFromAction action id x y in
      DrainTouchOps
  end.
Definition run_key (window code : Z) (down : bool) : M unit :=
  let! ws := fget sv_windows in
  match ws !! window with
  | None => fret tt
  | Some w =>
      let! m := fget sv_toplevels in
      let! input := fget sv_inputSurface in
      let! kbs := fget sv_keyboardResources in
      let surface := match m !! wi_toplevelId w ≫= tr_surface with Some r => Some r | None => input end in
      match surface, kbs with
      | Some surface, _ :: _ =>
          do! SendKeyboardFocus surface in
          let! owner := wl_resource_get_client surface in
          ffor kbs (λ kb,
            let! c := wl_resource_get_client kb in
            if c =? owner then send (EvKey kb (u32 code) down) else fret tt)
      | _, _ => fret tt
      end
  end.
Definition run_posted (p : Posted) : M unit :=
  match p with
  | PResize w h resized =>
      if resized : bool then
        let! m := fget sv_toplevels in
        ffor (walk m) (λ kv, ConfigureToplevel kv.1 w h (tr_activated kv.2))
      else fret tt
  | PDetach window =>
      do! rs_log (snd (Detach (wi_output window))) in
      do! ReleaseInFlightOf (wi_id window) in
      ApplyActivation false
  | PTouch window action id x y => run_touch window action id x y
  | PKey window code down => run_key window code down
  | PActivate active => do! fmod (set_sv_onTopId 0) in ApplyActivation active
  | PCloseApp package =>
      let! m := fget sv_toplevels in
      ffor (filter (λ kv : Z * ToplevelRec, PackageOfAppId (ti_appId (tr_info kv.2)) = package) (walk m))
        (λ kv, CloseToplevel kv.1)
  | PDebugClose id => CloseToplevel id
  | PDebugConfigure id w h activated => ConfigureToplevel id w h activated
  end.
Definition DrainPosted : M unit :=
  let! work := fget sv_posted in
  do! fmod (set_sv_posted []) in
  ffor work run_posted.

(** ** The session's calls on the legacy output *)

Definition with_legacy (f : OutputSurface → OutputSurface * list RsOp) : M unit :=
  let! o := fget sv_output in
  let '(o, ops) := f o in
  do! fmod (set_sv_output o) in rs_log ops.
Definition legacy_AttachProducer : M bool :=
  let! o := fget sv_output in
  let! surface := ask in
  let '(ok, o, ops) := AttachProducer (if surface =? 0 then None else Some surface) o in
  do! fmod (set_sv_output o) in
  do! rs_log ops in
  fret ok.
Definition legacy_SetNodeVisible (b : bool) : M unit := with_legacy (λ o, (o, SetNodeVisible b o)).
Definition RevertToSelfDrawing : M unit :=
  let! cfg := fget sv_config in
  let! o := fget sv_output in
  let! node := ask in
  let! surface := ask in
  let create := if node =? 0 then None else Some (node, if surface =? 0 then None else Some surface) in
  let '(_, o, ops) := AttachSelfDrawingNode create (sc_screenId cfg) (sc_width cfg) (sc_height cfg) o in
  do! fmod (set_sv_output o) in rs_log ops.

(** A step of a caller's thread. *)
Definition legacy_call (c : LegacyCall) : M unit :=
  match c with
  | LProducer => do! legacy_AttachProducer in fret tt
  | LDetach => with_legacy Detach
  | LEnsure => with_legacy EnsureAttachedToDisplay
  | LVisible b => legacy_SetNodeVisible b
  | LRevert => RevertToSelfDrawing
  | LTake => let! l := take_in_flight 0 in fmod (λ s, set_sv_releasing (sv_releasing s ++ l) s)
  | LSend n =>
      let! l := fget sv_releasing in
      match l !! n with
      | None => fret tt
      | Some r => do! fmod (set_sv_releasing (delete n l)) in send (EvRelease r)
      end
  end.
Definition other_thread (m : Meanwhile) : M unit :=
  match m with MwHandBack sb => OnBufferReleased sb | MwCall c => legacy_call c end.
(** What the other threads do between two steps of a commit.  What they do to [windows_],
    to the queue of touches and to the posted work is not read by the rest of the commit,
    which holds its output: it is as if they did it before or after. *)
Definition meanwhile : M unit := λ s,
  ffor (sv_meanwhile s (sv_asked s)) other_thread (set_sv_asked (S (sv_asked s)) s).

(** ** Protocol requests

    [new] is the address of a resource the request creates, [None] when there is no
    memory for it. *)

Definition wl_resource_create (client : Z) (new : option Z) (b : Obj) : M unit :=
  fopt new (λ r, fmod (λ s, set_sv_objs (<[r := mkRes client b]> (sv_objs s)) s)).

Definition SurfaceAttach (resource : Z) (buffer : option Z) : M unit :=
  upd_surface resource (λ u, set_su_pending (mkPending buffer (ps_frameCallback (su_pending u)) true) u).
Definition SurfaceFrame (client resource : Z) (new : option Z) : M unit :=
  do! wl_resource_create client new OCallback in
  upd_surface resource (λ u, set_su_pending
    (mkPending (ps_buffer (su_pending u)) new (ps_bufferChanged (su_pending u))) u).

Definition get_buffer (r : Z) : M BufferObj :=
  let! o := get_obj r in match r_obj o with OBuffer b => fret b | _ => fault end.

(** The frame of a toplevel goes to its output, or straight back. *)
Definition show_frame (tid b : Z) (nh : native_handle) (desc : WleglBufferDesc) : M unit :=
  let! x := OutputFor tid in
  let '(out, window) := x in
  let! sb := match out with
             | None => fret None
             | Some _ => do! WatchBufferDestroy b in Import b nh desc
             end in
  match out, sb with
  | Some out, Some sb =>
      do! meanwhile in
      do! TrackInFlight sb b window in
      do! meanwhile in
      let! ok := out_Flush out b sb in
      if ok : bool then fret tt
      else
        do! UntrackInFlight sb in
        do! meanwhile in
        do! out_ResetQueue out in
        do! ReleaseInFlightOf window in
        do! meanwhile in
        do! TrackInFlight sb b window in
        do! meanwhile in
        let! ok := out_Flush out b sb in
        if ok : bool then fret tt
        else do! UntrackInFlight sb in send (EvRelease b)
  | _, _ => send (EvRelease b)
  end.

Definition commit_pending (resource : Z) : M unit :=
  upd_surface resource (λ u,
    if ps_bufferChanged (su_pending u)
    then mkSurface (mkPending (ps_buffer (su_pending u)) (ps_frameCallback (su_pending u)) false)
           (ps_buffer (su_pending u)) (su_xdg u) (su_toplevelId u)
    else u).
Definition commit_shm (resource : Z) : M unit :=
  let! u := get_surface resource in
  match su_current u with
  | None => fret tt
  | Some b =>
      let! k := get_buffer b in
      match k with
      | BShm =>
          do! NoteToplevelInactive (su_toplevelId u) in
          do! send (EvRelease b) in
          upd_surface resource (set_su_current None)
      | BWlegl _ => fret tt
      end
  end.
Definition commit_wlegl (resource : Z) : M unit :=
  let! u := get_surface resource in
  match su_current u with
  | None => fret tt
  | Some b =>
      let! k := get_buffer b in
      do! match k with
          | BWlegl (Some (nh, desc)) =>
              do! NoteInputSurface resource in
              do! NoteToplevelSurface (su_toplevelId u) resource in
              do! fmod (set_sv_firstFrame true) in
              do! NoteToplevelFrame (su_toplevelId u) in
              show_frame (su_toplevelId u) b nh desc
          | _ => fret tt
          end in
      upd_surface resource (set_su_current None)
  end.
Definition commit_callback (resource : Z) : M unit :=
  let! u := get_surface resource in
  match ps_frameCallback (su_pending u) with
  | None => fret tt
  | Some cb =>
      do! send (EvDone cb) in
      do! fmod (λ s, set_sv_objs (delete cb (sv_objs s)) s) in
      upd_surface resource (λ u, set_su_pending
        (mkPending (ps_buffer (su_pending u)) None (ps_bufferChanged (su_pending u))) u)
  end.
Definition SurfaceCommit (resource : Z) : M unit :=
  do! commit_pending resource in
  do! commit_shm resource in
  do! commit_wlegl resource in
  commit_callback resource.

Definition CompositorCreateSurface (client : Z) (new : option Z) : M unit :=
  wl_resource_create client new (OSurface Surface_new).
Definition SubcompositorGetSubsurface (client : Z) (new : option Z) (surface parent : Z) : M unit :=
  let! par := get_surface parent in
  do! upd_surface surface (set_su_toplevelId (su_toplevelId par)) in
  wl_resource_create client new OOther.
Definition OutputBind (client version : Z) (new : option Z) : M unit :=
  fopt new (λ res,
    do! wl_resource_create client (Some res) OOutput in
    do! AddOutputResource res in
    let! cfg := fget sv_config in
    do! send (EvGeometry res) in
    do! send (EvMode res (sc_width cfg) (sc_height cfg) (sc_refreshMHz cfg)) in
    if 2 <=? version then do! send (EvScale res) in send (EvOutputDone res) else fret tt).
Definition SeatGetKeyboard (client : Z) (new : option Z) : M unit :=
  fopt new (λ res, do! wl_resource_create client (Some res) OKeyboard in AddKeyboardResource res).
Definition SeatGetTouch (client : Z) (new : option Z) : M unit :=
  fopt new (λ res, do! wl_resource_create client (Some res) OTouch in AddTouchResource res).
Definition SeatBind (client version : Z) (new : option Z) : M unit :=
  fopt new (λ res,
    do! wl_resource_create client (Some res) OOther in
    do! send (EvCapabilities res) in
    if 2 <=? version then send (EvSeatName res) else fret tt).

Definition XdgWmBaseGetXdgSurface (client : Z) (new : option Z) (surface : Z) : M unit :=
  fopt new (λ res,
    do! wl_resource_create client (Some res) (OXdgSurface (mkXdg (Some surface) 0)) in
    upd_surface surface (set_su_xdg (Some res))).
Definition XdgSurfaceGetToplevel (client resource : Z) (new : option Z) : M unit :=
  fopt new (λ res,
    do! wl_resource_create client (Some res) OOther in
    let! xdg := get_xdg resource in
    let! tid := AddToplevel res resource in
    do! fopt (xs_surface xdg) (λ u, do! get_surface u in NoteToplevelSurface tid u) in
    do! put_obj resource (OXdgSurface (mkXdg (xs_surface xdg) tid)) in
    do! fopt (xs_surface xdg) (λ u, upd_surface u (set_su_toplevelId tid)) in
    do! put_obj res (OToplevel tid) in
    let! size := OutputSize in
    do! send (EvConfigure res size.1 size.2 false) in
    send (EvXdgConfigure resource)).
Definition XdgToplevelSetTitle (resource : Z) (title : option string) : M unit :=
  let! o := get_obj resource in
  match r_obj o with OToplevel tid => SetToplevelTitle tid title | _ => fault end.
Definition XdgToplevelSetAppId (resource : Z) (appId : option string) : M unit :=
  let! o := get_obj resource in
  match r_obj o with OToplevel tid => SetToplevelAppId tid appId | _ => fault end.

(** ** Destruction *)

Definition SurfaceResourceDestroy (resource : Z) (u : Surface) : M unit :=
  do! DropInputSurface resource in
  fopt (su_xdg u) (λ x,
    let! xdg := get_xdg x in put_obj x (OXdgSurface (mkXdg None (xs_toplevelId xdg)))).
(** The destructor of an xdg_surface (a lambda of [XdgWmBaseGetXdgSurface]). *)
Definition xdg_destroy (x : XdgSurface) : M unit :=
  fopt (xs_surface x) (λ u, upd_surface u (set_su_xdg None)).
(** [wl_resource_destroy]: listeners and destructor, and the resource is gone. *)
Definition wl_resource_destroy (r : Z) : M unit :=
  let! o := get_obj r in
  do! match r_obj o with
      | OSurface u => SurfaceResourceDestroy r u
      | OXdgSurface x => xdg_destroy x
      | OToplevel tid => RemoveToplevel tid
      | OBuffer _ => let! w := fget sv_watchedBuffers in
                     if bool_decide (r ∈ w) then ForgetBuffer r else fret tt
      | OTouch => RemoveTouchResource r
      | OKeyboard => RemoveKeyboardResource r
      | OOutput => RemoveOutputResource r
      | OCallback | OOther => fret tt
      end in
  fmod (λ s, set_sv_objs (delete r (sv_objs s)) s).

(** ** The session's interface *)

(** The compositor behind the session's interface; [None] is a compositor that has
    crashed. *)
Definition srv {A} (d : A) (m : M A) (s : option Server) : A * option Server :=
  match s with
  | None => (d, None)
  | Some s => match m s with Some (a, s) => (a, Some s) | None => (d, None) end
  end.
Definition compositor : WlServer (option Server) := {|
  srv_AttachProducer _ s := srv false legacy_AttachProducer s;
  srv_Detach s := (srv tt (with_legacy Detach) s).2;
  srv_IsAttached s := match s with Some s => IsAttached (sv_output s) | None => false end;
  srv_EnsureAttachedToDisplay s := (srv tt (with_legacy EnsureAttachedToDisplay) s).2;
  srv_SetNodeVisible b s := (srv tt (legacy_SetNodeVisible b) s).2;
  srv_RevertToSelfDrawing s := (srv tt RevertToSelfDrawing s).2;
  srv_ReleaseInFlightOf w s := (srv tt (ReleaseInFlightOf w) s).2;
  srv_InjectTouchFromAction a i x y s := (srv tt (InjectTouchFromAction a i x y) s).2;
  srv_CloseApp p s := (srv tt (Server_CloseApp p) s).2;
  srv_AttachWindow p o w h s := srv (-1) (Server_AttachWindow p (Some o) w h) s;
  srv_DetachWindow w s := srv false (Server_DetachWindow w) s;
  srv_WindowTouch w a i x y s := (srv tt (Server_WindowTouch w a i x y) s).2;
  srv_WindowKey w c d s := (srv tt (Server_WindowKey w c d) s).2;
  srv_SetWindowActive w b s := (srv tt (Server_SetWindowActive w b) s).2;
  srv_WindowAlive w s := (srv false (Server_WindowAlive w) s).1;
  srv_Toplevels s := (λ i, (ti_id i, ti_appId i)) <$> (srv [] Toplevels s).1;
|}.

(** ** The machine *)

(** A client's request, with the addresses of what it creates. *)
Inductive Req :=
| RCreateSurface (new : option Z) | RAttach (surface : Z) (buffer : option Z)
| RFrame (surface : Z) (new : option Z) | RCommit (surface : Z)
| RSubsurface (new : option Z) (surface parent : Z)
| RBindOutput (version : Z) (new : option Z) | RGetKeyboard (new : option Z)
| RGetTouch (new : option Z) | RBindSeat (version : Z) (new : option Z)
| RGetXdgSurface (new : option Z) (surface : Z) | RGetToplevel (xdg : Z) (new : option Z)
| RSetTitle (toplevel : Z) (title : option string) | RSetAppId (toplevel : Z) (appId : option string)
| RCreateBuffer (new : Z) (b : BufferObj)   (* by wl_shm or android_wlegl *)
| RCreateOther (new : option Z)
| RDestroy (r : Z).
Definition run_req (c : Z) (q : Req) : M unit :=
  match q with
  | RCreateSurface new => CompositorCreateSurface c new
  | RAttach u b => SurfaceAttach u b
  | RFrame u new => SurfaceFrame c u new
  | RCommit u => SurfaceCommit u
  | RSubsurface new u p => SubcompositorGetSubsurface c new u p
  | RBindOutput v new => OutputBind c v new
  | RGetKeyboard new => SeatGetKeyboard c new
  | RGetTouch new => SeatGetTouch c new
  | RBindSeat v new => SeatBind c v new
  | RGetXdgSurface new u => XdgWmBaseGetXdgSurface c new u
  | RGetToplevel x new => XdgSurfaceGetToplevel c x new
  | RSetTitle t title => XdgToplevelSetTitle t title
  | RSetAppId t appId => XdgToplevelSetAppId t appId
  | RCreateBuffer new b => wl_resource_create c (Some new) (OBuffer b)
  | RCreateOther new => wl_resource_create c new OOther
  | RDestroy r => wl_resource_destroy r
  end.

(** What libwayland checks before it dispatches a request, and what its allocator
    guarantees: objects are live, of the right interface and of that client; what is
    created has an address of its own. *)
Definition owns (s : Server) (c r : Z) (p : Obj → bool) : bool :=
  match sv_objs s !! r with Some o => (r_client o =? c) && p (r_obj o) | None => false end.
Definition is_surface (o : Obj) : bool := match o with OSurface _ => true | _ => false end.
Definition is_xdg (o : Obj) : bool := match o with OXdgSurface _ => true | _ => false end.
Definition is_toplevel (o : Obj) : bool := match o with OToplevel _ => true | _ => false end.
Definition is_buffer (o : Obj) : bool := match o with OBuffer _ => true | _ => false end.
Definition is_callback (o : Obj) : bool := match o with OCallback => true | _ => false end.
Definition fresh (s : Server) (new : option Z) : bool :=
  match new with Some r => bool_decide (sv_objs s !! r = None) | None => true end.
(** A handle whose counts are those of its data. *)
Definition handle_ok (b : BufferObj) : bool :=
  match b with
  | BWlegl (Some (nh, _)) => (0 <=? nh_numInts nh) && (nh_numInts nh <? 2 ^ 32)
      && (nh_numFds nh + nh_numInts nh <=? Z.of_nat (length (nh_data nh)))
  | _ => true
  end.
Definition req_ok (s : Server) (c : Z) (q : Req) : bool :=
  match q with
  | RCreateSurface new | RGetKeyboard new | RGetTouch new | RBindSeat _ new | RCreateOther new
  | RBindOutput _ new => fresh s new
  | RAttach u b => owns s c u is_surface && match b with Some b => owns s c b is_buffer | None => true end
  | RFrame u new => owns s c u is_surface && fresh s new
  | RCommit u => owns s c u is_surface
  | RSubsurface new u p => owns s c u is_surface && owns s c p is_surface && fresh s new
  | RGetXdgSurface new u => owns s c u is_surface && fresh s new
  | RGetToplevel x new => owns s c x is_xdg && fresh s new
  | RSetTitle t _ | RSetAppId t _ => owns s c t is_toplevel
  | RCreateBuffer new b => fresh s (Some new) && handle_ok b
  | RDestroy r => owns s c r (λ o, negb (is_callback o))
  end.

(** The critical section of a call from another thread, and what it posts. *)
Inductive Ipc :=
| IAttach (package : string) (producer : option Z) (w h : Z) | IDetach (window : Z)
| ISetActive (window : Z) (active : bool) | IPost (p : Posted)
| IInject (action id x y : Z) | IInjectOps (ops : list TouchOp)
| ILegacy (c : LegacyCall).
Definition ipc_section (i : Ipc) : M (option Posted) :=
  match i with
  | IAttach package p w h =>
      let! r := attach_window package p w h in
      fret (match r with Some (_, resized) => Some (PResize w h resized) | None => None end)
  | IDetach id => detach_window id
  | ISetActive id active => set_window_active id active
  | IPost p => fret (Some p)
  | IInject a i x y => do! InjectTouchFromAction a i x y in fret None
  | IInjectOps ops => do! InjectTouchOps ops in fret None
  | ILegacy c => do! legacy_call c in fret None
  end.

Inductive Act :=
| AReq (c : Z) (q : Req) | ADisconnect (c : Z) (order : list Z) | AConnect
| AReleases | ATouches | APosted
| AReclaim (out : OutRef) (reclaim : option Z)   (* the render service's thread *)
| AIpc (i : Ipc) | AThread (n : nat).            (* the n-th caller posts its work *)

(** The resources of a client are destroyed one after the other. *)
Definition client_objs (s : Server) (c : Z) : gset Z :=
  dom (filter (λ kv : Z * Resource, r_client kv.2 = c) (sv_objs s)).
(** The server, and the work calling threads have not posted yet. *)
Definition MState := (Server * list Posted)%type.
Definition on_server (m : M unit) (x : MState) : option MState :=
  match m x.1 with Some (_, s) => Some (s, x.2) | None => None end.
Definition step (a : Act) (x : MState) : option MState :=
  let '(s, threads) := x in
  match a with
  | AReq c q => if req_ok s c q then on_server (run_req c q) x else Some x
  | ADisconnect c order =>
      if bool_decide (NoDup order ∧ list_to_set order = client_objs s c)
      then on_server (ffor order wl_resource_destroy) x else Some x
  | AConnect => on_server (do! NoteClientConnected in fret tt) x
  | AReleases => on_server DrainReleases x
  | ATouches => on_server DrainTouchOps x
  | APosted => on_server DrainPosted x
  | AReclaim out reclaim =>
      match (match out with OutLegacy => Some (sv_output s) | OutWindow id => wi_output <$> sv_windows s !! id end) with
      | None => Some x
      | Some o => let '(b, ops) := ReclaimReleased reclaim o in
                  on_server (do! rs_log ops in fopt b OnBufferReleased) x
      end
  | AIpc i => match ipc_section i s with
              | Some (p, s) => Some (s, threads ++ option_list p)
              | None => None
              end
  | AThread n => match threads !! n with
                 | Some p => match Post p s with
                             | Some (_, s) => Some (s, delete n threads)
                             | None => None
                             end
                 | None => Some x
                 end
  end.
Fixpoint run (l : list Act) (x : MState) : option MState :=
  match l with
  | [] => Some x
  | a :: l => match step a x with Some x => run l x | None => None end
  end.
End ops.

(** The server as [Init] leaves it. *)
Definition Server_init (cfg : ServerConfig) (answers : nat → Z) (kenv : nat → KEnv)
    (others : nat → list Meanwhile) : Server :=
  mkServer ∅ cfg (fst (SetReleaseCallback OutputSurface_new)) ∅ 1 ∅ 1 0 "" (sc_width cfg)
    (sc_height cfg) ∅ [] [] ∅ [] [] None [] [] None ∅ 1 0 0 [] false [] [] [] 0 answers kenv others.
