(* ===== verification/CompositorFacts.v ===== *)
(** * The compositor's pointers

    The invariant of the server's object graph, and that every operation keeps it and
    does not fault: every resource the server remembers is live and of the right kind.
    [D] are the resources of a client that is going away: they are destroyed one by one,
    and what they point to may be gone already. *)

From S2P Require Import Prelude FaultMonad OutSurface WdSession Compositor.
Set Warnings "-rewrite-rw,-clear-no-such-hyp".

(** ** Kinds *)

Inductive Kind :=
| KSurface | KXdg | KToplevel (tid : Z) | KBuffer (b : BufferObj) | KTouch | KKeyboard | KOutput
| KCallback | KOther.
Definition kind_of (o : Obj) : Kind :=
  match o with
  | OSurface _ => KSurface | OXdgSurface _ => KXdg | OToplevel t => KToplevel t | OBuffer b => KBuffer b
  | OTouch => KTouch | OKeyboard => KKeyboard | OOutput => KOutput | OCallback => KCallback
  | OOther => KOther
  end.
Abbreviation Shape := (gmap Z (Z * Kind)).
Definition shape (objs : gmap Z Resource) : Shape :=
  (λ r, (r_client r, kind_of (r_obj r))) <$> objs.
#[global] Arguments shape : simpl never.
Lemma shape_at objs r c k :
  shape objs !! r = Some (c, k) ↔ ∃ o, objs !! r = Some (mkRes c o) ∧ kind_of o = k.
Proof.
  unfold shape. rewrite lookup_fmap fmap_Some. split.
  - intros ([c' o] & H & [= -> ->]). eauto.
  - intros (o & H & <-). by eexists.
Qed.
Lemma shape_surface objs r c : shape objs !! r = Some (c, KSurface) ↔
  ∃ u, objs !! r = Some (mkRes c (OSurface u)).
Proof.
  rewrite shape_at. split; [|by intros (u & H); eauto].
  intros ([] & H & Hk); try done. eauto.
Qed.
Lemma shape_xdg objs r c : shape objs !! r = Some (c, KXdg) ↔
  ∃ x, objs !! r = Some (mkRes c (OXdgSurface x)).
Proof.
  rewrite shape_at. split; [|by intros (u & H); eauto].
  intros ([] & H & Hk); try done. eauto.
Qed.
Lemma shape_buffer objs r c b : shape objs !! r = Some (c, KBuffer b) ↔
  objs !! r = Some (mkRes c (OBuffer b)).
Proof.
  rewrite shape_at. split; [|by intros H; eauto].
  intros ([] & H & Hk); try done. by injection Hk as ->.
Qed.
Lemma shape_insert objs r c o : shape (<[r := mkRes c o]> objs) = <[r := (c, kind_of o)]> (shape objs).
Proof. unfold shape. by rewrite fmap_insert. Qed.
Lemma shape_delete objs r : shape (delete r objs) = delete r (shape objs).
Proof. unfold shape. by rewrite fmap_delete. Qed.
Lemma shape_same objs r c o o' :
  objs !! r = Some (mkRes c o) → kind_of o' = kind_of o →
  shape (<[r := mkRes c o']> objs) = shape objs.
Proof.
  intros H Hk. rewrite shape_insert Hk. apply insert_id. apply shape_at. eauto.
Qed.

(** ** The invariant *)

Definition live (sh : Shape) (k : Kind) (r : Z) : Prop := ∃ c, sh !! r = Some (c, k).
Definition live_buffer (sh : Shape) (r : Z) : Prop := ∃ b, live sh (KBuffer b) r.

Definition wf_top (D : gset Z) (sh : Shape) (tops : gmap Z ToplevelRec) : Prop :=
  ∀ id rec, tops !! id = Some rec →
    ti_id (tr_info rec) = id ∧
    (∃ c, sh !! tr_toplevel rec = Some (c, KToplevel id) ∧
          (tr_toplevel rec ∉ D → sh !! tr_xdgSurface rec = Some (c, KXdg))) ∧
    (∀ u, tr_surface rec = Some u → live sh KSurface u).
Definition wf_tid (sh : Shape) (tops : gmap Z ToplevelRec) : Prop :=
  ∀ r c tid, sh !! r = Some (c, KToplevel tid) → ∃ rec, tops !! tid = Some rec ∧ tr_toplevel rec = r.
Definition wf_ids (next : Z) (tops : gmap Z ToplevelRec) : Prop :=
  0 < next ∧ ∀ id rec, tops !! id = Some rec → 0 < id < next.
Definition surf_ok (D : gset Z) (objs : gmap Z Resource) (r c : Z) (u : Surface) : Prop :=
  (∀ x, su_xdg u = Some x → ∃ xs, objs !! x = Some (mkRes c (OXdgSurface xs)) ∧ xs_surface xs = Some r) ∧
  (∀ b, r ∉ D → su_current u = Some b → ∃ k, shape objs !! b = Some (c, KBuffer k)) ∧
  (∀ b, r ∉ D → ps_bufferChanged (su_pending u) = true → ps_buffer (su_pending u) = Some b →
        ∃ k, shape objs !! b = Some (c, KBuffer k)) ∧
  (∀ cb, r ∉ D → ps_frameCallback (su_pending u) = Some cb → shape objs !! cb = Some (c, KCallback)).
Definition wf_surf (D : gset Z) (objs : gmap Z Resource) : Prop :=
  ∀ r c u, objs !! r = Some (mkRes c (OSurface u)) → surf_ok D objs r c u.
Definition wf_xdg (objs : gmap Z Resource) : Prop :=
  ∀ x c xs u, objs !! x = Some (mkRes c (OXdgSurface xs)) → xs_surface xs = Some u →
    ∃ su, objs !! u = Some (mkRes c (OSurface su)) ∧ su_xdg su = Some x.
(** A pending callback belongs to one surface. *)
Definition wf_cb (D : gset Z) (objs : gmap Z Resource) : Prop :=
  ∀ r c u r' c' u' cb, objs !! r = Some (mkRes c (OSurface u)) → objs !! r' = Some (mkRes c' (OSurface u')) →
    r ∉ D → r' ∉ D →
    ps_frameCallback (su_pending u) = Some cb → ps_frameCallback (su_pending u') = Some cb → r = r'.
Definition wf_flight (inFlight : gmap Z InFlight) (cache : gmap Z (Z * BufferRequestConfig)) : Prop :=
  ∀ sb f, inFlight !! sb = Some f → ∃ cfg, cache !! if_wlBuffer f = Some (sb, cfg).
Definition wf_cache (cache : gmap Z (Z * BufferRequestConfig)) (watched : gset Z) (next : Z) : Prop :=
  (∀ b sb cfg, cache !! b = Some (sb, cfg) → b ∈ watched ∧ sb < next) ∧
  (∀ b b' sb cfg cfg', cache !! b = Some (sb, cfg) → cache !! b' = Some (sb, cfg') → b = b').
Definition wf_watch (watched : gset Z) (sh : Shape) : Prop := ∀ b, b ∈ watched → live_buffer sh b.
Definition wf_pend (pending : list Z) (watched : gset Z) : Prop := ∀ b, b ∈ pending → b ∈ watched.
Definition wf_list (k : Kind) (l : list Z) (sh : Shape) : Prop := ∀ r, r ∈ l → live sh k r.
Definition wf_opt (o : option Z) (sh : Shape) : Prop := ∀ r, o = Some r → live sh KSurface r.
(** The stride of a buffer, in bytes, is an int. *)
Definition stride_ok (b : BufferObj) : bool :=
  match b with
  | BWlegl (Some (_, desc)) =>
      fits_int32 (wd_stride desc * BytesPerPixel (AndroidFormatToOhos (wd_format desc)))
  | _ => true
  end.
Definition importable (b : BufferObj) : bool := handle_ok b && stride_ok b.
Definition wf_handle (sh : Shape) : Prop :=
  ∀ r b, live sh (KBuffer b) r → importable b = true.
Definition wf_win (windows : gmap Z Window) (next : Z) : Prop :=
  0 < next ∧ ∀ id w, windows !! id = Some w → wi_id w = id ∧ 0 < id < next.

Definition wf (D : gset Z) (s : Server) : Prop :=
  let sh := shape (sv_objs s) in
  wf_top D sh (sv_toplevels s) ∧ wf_tid sh (sv_toplevels s) ∧
  wf_ids (sv_nextToplevelId s) (sv_toplevels s) ∧
  wf_surf D (sv_objs s) ∧ wf_xdg (sv_objs s) ∧ wf_cb D (sv_objs s) ∧
  wf_flight (sv_inFlight s) (sv_cache s) ∧ wf_cache (sv_cache s) (sv_watchedBuffers s) (sv_nextSb s) ∧
  wf_watch (sv_watchedBuffers s) sh ∧ wf_pend (sv_releasedPending s ++ sv_releasing s) (sv_watchedBuffers s) ∧
  wf_list KTouch (sv_touchResources s) sh ∧ wf_list KKeyboard (sv_keyboardResources s) sh ∧
  wf_list KOutput (sv_outputResources s) sh ∧
  wf_opt (sv_inputSurface s) sh ∧ wf_opt (sv_keyboardFocus s) sh ∧ wf_handle sh ∧
  wf_win (sv_windows s) (sv_nextWindowId s).
(** Outside a commit no surface holds a buffer. *)
Definition idle (objs : gmap Z Resource) : Prop :=
  ∀ r c u, objs !! r = Some (mkRes c (OSurface u)) → su_current u = None.

(** ** Operations that create and destroy nothing *)

Definition I (D : gset Z) (objs : gmap Z Resource) (s : Server) : Prop :=
  wf D s ∧ sv_objs s = objs.
(** The operation keeps the invariant over these objects, and does not fault. *)
Definition ok (D : gset Z) (objs : gmap Z Resource) {A} (m : F Server A) : Prop :=
  ∀ s, I D objs s → safe m (λ _ s', I D objs s') s.

Section ok.
Context {D : gset Z} {objs : gmap Z Resource}.
Abbreviation OK := (ok D objs).

Lemma ok_ret {A} (a : A) : OK (fret a).
Proof. by intros s H. Qed.
Lemma ok_bind {A B} (m : F Server A) (k : A → F Server B) :
  OK m → (∀ a, OK (k a)) → OK (fbind m k).
Proof. intros Hm Hk s H. eapply safe_seq; [by apply Hm|]. intros a s' H'. by apply Hk. Qed.
(** What is read satisfies what the invariant says of it. *)
Lemma ok_read {A B} (P : A → Prop) (f : Server → A) (k : A → F Server B) :
  (∀ s, I D objs s → P (f s)) → (∀ a, P a → OK (k a)) → OK (fbind (fget f) k).
Proof. intros HP Hk s H. apply safe_bind, safe_get. apply Hk; [by apply HP|done]. Qed.
Lemma ok_get {A B} (f : Server → A) (k : A → F Server B) : (∀ a, OK (k a)) → OK (fbind (fget f) k).
Proof. intros Hk. by apply (ok_read (λ _, True)). Qed.
Lemma ok_fget {A} (f : Server → A) : OK (fget f).
Proof. by intros s H. Qed.
Lemma ok_mod f : (∀ s, I D objs s → I D objs (f s)) → OK (fmod f).
Proof. intros Hf s H. apply safe_mod. by apply Hf. Qed.
Lemma ok_for {A} (l : list A) f : (∀ a, a ∈ l → OK (f a)) → OK (ffor l f).
Proof. intros Hf s H. apply (safe_for_each (I D objs)); [done|]. intros a s' Ha H'. by apply Hf. Qed.
Lemma ok_opt {A} (o : option A) f : (∀ a, o = Some a → OK (f a)) → OK (fopt o f).
Proof. unfold fopt. destruct o; [by intros H; apply H|intros _; apply ok_ret]. Qed.
Lemma ok_obj {B} r o (k : Resource → F Server B) :
  objs !! r = Some o → OK (k o) → OK (fbind (get_obj r) k).
Proof.
  intros Ho Hk s H. apply safe_bind. unfold safe, get_obj. destruct H as [Hwf <-]. rewrite Ho.
  by apply Hk.
Qed.
Lemma ok_client {B} r c k (f : Z → F Server B) :
  shape objs !! r = Some (c, k) → OK (f c) → OK (fbind (wl_resource_get_client r) f).
Proof.
  intros (o & Ho & _)%shape_at Hf s H. pose proof (Hf s H) as Hs. destruct H as [_ <-].
  unfold safe, fbind, wl_resource_get_client, fbind, get_obj. by rewrite Ho.
Qed.

(** The fields the invariant does not read. *)
Definition core (s : Server) :=
  (sv_objs s, sv_toplevels s, sv_nextToplevelId s, sv_inFlight s, sv_cache s, sv_nextSb s,
   sv_watchedBuffers s, sv_releasedPending s, sv_releasing s, sv_touchResources s, sv_keyboardResources s,
   sv_outputResources s, sv_inputSurface s, sv_keyboardFocus s, sv_windows s, sv_nextWindowId s).
Lemma I_core s s' : core s' = core s → I D objs s → I D objs s'.
Proof.
  intros [= H1 H2 H3 H4 H5 H6 H7 H8 H9 H10 H11 H12 H13 H14 H15 H16] [Hwf Ho].
  split; [|by rewrite H1]. unfold wf. rewrite H1 H2 H3 H4 H5 H6 H7 H8 H9 H10 H11 H12 H13 H14 H15 H16.
  exact Hwf.
Qed.
Lemma ok_core f : (∀ s, core (f s) = core s) → OK (fmod f).
Proof. intros Hf. apply ok_mod. intros s. by apply I_core. Qed.
Lemma ok_ask : OK ask.
Proof. intros s H. unfold safe, ask. by eapply I_core, H. Qed.
Lemma ok_ask_kenv : OK ask_kenv.
Proof. intros s H. unfold safe, ask_kenv. by eapply I_core, H. Qed.
Lemma ok_rs_log ops : OK (rs_log ops).
Proof. by apply ok_core. Qed.
Lemma ok_emit ev info : OK (EmitToplevel ev info).
Proof. by apply ok_core. Qed.
Lemma ok_send e :
  is_Some (shape objs !! ev_target e) → (∀ r, ev_arg e = Some r → is_Some (shape objs !! r)) →
  OK (send e).
Proof.
  intros [[c k] (o & Ho & _)%shape_at] Ha. unfold send. eapply ok_obj; [done|].
  apply ok_bind.
  - apply ok_opt. intros r Hr. destruct (Ha r Hr) as [[c' k'] (o' & Ho' & _)%shape_at].
    eapply ok_obj; [done|]. apply ok_ret.
  - intros _. by apply ok_core.
Qed.

(** Changes of a toplevel that keep its identity. *)
Lemma ok_upd_toplevel id f :
  (∀ rec, ti_id (tr_info rec) = id →
          ti_id (tr_info (f rec)) = id ∧ tr_toplevel (f rec) = tr_toplevel rec ∧
          tr_xdgSurface (f rec) = tr_xdgSurface rec ∧
          ∀ u, tr_surface (f rec) = Some u → tr_surface rec = Some u ∨ live (shape objs) KSurface u) →
  OK (upd_toplevel id f).
Proof.
  intros Hf. apply ok_mod. intros s [Hwf Ho]. split; [|done].
  destruct Hwf as (H1 & H2 & H3 & Hwf). split; [|split; [|split; [|exact Hwf]]]; cbn.
  - intros id' rec Hrec. destruct (decide (id' = id)) as [->|Hne].
    + rewrite lookup_alter_eq in Hrec. apply fmap_Some in Hrec as (rec0 & Hrec0 & ->).
      destruct (H1 _ _ Hrec0) as (K1 & K2 & K3). destruct (Hf rec0 K1) as (E1 & E2 & E3 & E4).
      rewrite E1 E2 E3. split_and!; [done|done|]. intros u Hu. destruct (E4 u Hu); [by apply K3|].
      by rewrite Ho.
    + rewrite lookup_alter_ne in Hrec; [|done]. by apply H1.
  - intros r c tid Hr. destruct (H2 r c tid Hr) as (rec & Hrec & <-).
    destruct (decide (tid = id)) as [->|Hne].
    + exists (f rec). rewrite lookup_alter_eq Hrec. destruct (H1 _ _ Hrec) as (K1 & _).
      by destruct (Hf rec K1) as (_ & -> & _).
    + exists rec. by rewrite lookup_alter_ne.
  - destruct H3 as [K1 K2]. split; [done|]. intros id' rec Hrec.
    destruct (decide (id' = id)) as [->|Hne].
    + rewrite lookup_alter_eq in Hrec. apply fmap_Some in Hrec as (rec0 & Hrec0 & ->). by eapply K2.
    + rewrite lookup_alter_ne in Hrec; [|done]. by eapply K2.
Qed.
Lemma ok_upd_soft id f :
  (∀ rec, ti_id (tr_info (f rec)) = ti_id (tr_info rec)) → (∀ rec, tr_toplevel (f rec) = tr_toplevel rec) →
  (∀ rec, tr_xdgSurface (f rec) = tr_xdgSurface rec) → (∀ rec, tr_surface (f rec) = tr_surface rec) →
  OK (upd_toplevel id f).
Proof.
  intros H1 H2 H3 H4. apply ok_upd_toplevel. intros rec Hid. rewrite H1 H2 H3. split_and!; [done..|].
  intros u. rewrite H4. auto.
Qed.

End ok.
Create HintDb ok.
#[export] Hint Resolve ok_ret ok_ask ok_ask_kenv ok_rs_log ok_emit ok_fget : ok.

Ltac ok_step :=
  first
  [ solve [eauto with ok]
  | lazymatch goal with
    | |- ok _ _ (fbind (fget _) _) => apply ok_get; intros ?
    | |- ok _ _ (fbind _ _) => apply ok_bind; [|intros ?]
    | |- ok _ _ (ffor _ _) => apply ok_for; intros ? ?
    | |- ok _ _ (fopt _ _) => apply ok_opt; intros ? ?
    | |- ok _ _ (fmod _) => by apply ok_core
    | |- ok _ _ (upd_toplevel _ _) => by apply ok_upd_soft
    | |- ok _ _ (match ?x with _ => _ end) => destruct x eqn:?
    end ].
Ltac ok_tac := repeat ok_step.

Section facts.
Context (hash_order : ∀ A, gmap Z A → list (Z * A)).
Context (Hord : ∀ A (m : gmap Z A), hash_order A m ≡ₚ map_to_list m).
Abbreviation walk := (walk hash_order).

Lemma elem_walk {A} (m : gmap Z A) k v : (k, v) ∈ walk m ↔ m !! k = Some v.
Proof. unfold Compositor.walk. rewrite Hord. apply elem_of_map_to_list. Qed.

Lemma ok_out_ResetQueue {D objs} r : (r = OutLegacy) → ok D objs (out_ResetQueue r).
Proof. intros ->. unfold out_ResetQueue, get_out. ok_tac. Qed.

(** *** Toplevels *)

(** What the invariant says of a toplevel, over fixed objects. *)
Definition rec_live (D : gset Z) (objs : gmap Z Resource) (id : Z) (rec : ToplevelRec) : Prop :=
  ti_id (tr_info rec) = id ∧
  (∃ c, shape objs !! tr_toplevel rec = Some (c, KToplevel id) ∧
        (tr_toplevel rec ∉ D → shape objs !! tr_xdgSurface rec = Some (c, KXdg))) ∧
  (∀ u, tr_surface rec = Some u → live (shape objs) KSurface u).
Definition tops_live (D : gset Z) (objs : gmap Z Resource) (m : gmap Z ToplevelRec) : Prop :=
  ∀ id rec, m !! id = Some rec → rec_live D objs id rec.
Lemma ok_toplevels {D objs B} (k : gmap Z ToplevelRec → F Server B) :
  (∀ m, tops_live D objs m → ok D objs (k m)) → ok D objs (fbind (fget sv_toplevels) k).
Proof. intros Hk. apply (ok_read (tops_live D objs)); [|done]. by intros s [(H & _) <-]. Qed.

(** Only the information of a toplevel changes, not its number. *)
Lemma ok_upd_info {D objs} id f :
  (∀ rec, ti_id (tr_info rec) = id → ti_id (tr_info (f rec)) = id) →
  (∀ rec, tr_toplevel (f rec) = tr_toplevel rec) → (∀ rec, tr_xdgSurface (f rec) = tr_xdgSurface rec) →
  (∀ rec, tr_surface (f rec) = tr_surface rec) → ok D objs (upd_toplevel id f).
Proof.
  intros H1 H2 H3 H4. apply ok_upd_toplevel. intros rec Hid. rewrite H2 H3.
  split_and!; [by apply H1|done..|]. intros u. rewrite H4. auto.
Qed.

Lemma ok_SetToplevelTitle {D objs} id t : ok D objs (SetToplevelTitle id t).
Proof.
  unfold SetToplevelTitle. apply ok_toplevels. intros m Hm. destruct (m !! id) as [rec|] eqn:E; ok_tac.
  apply ok_upd_info; try done. intros ? _. cbn. by destruct (Hm _ _ E).
Qed.
Lemma ok_NoteToplevelFrame {D objs} id : ok D objs (NoteToplevelFrame id).
Proof.
  unfold NoteToplevelFrame. apply ok_toplevels. intros m Hm. destruct (m !! id) as [rec|] eqn:E; ok_tac.
  apply ok_upd_info; try done. intros ? _. cbn. by destruct (Hm _ _ E).
Qed.
Lemma ok_NoteToplevelInactive {D objs} id : ok D objs (NoteToplevelInactive id).
Proof. unfold NoteToplevelInactive. ok_tac. Qed.
Lemma ok_NoteToplevelSurface {D objs} id u :
  live (shape objs) KSurface u → ok D objs (NoteToplevelSurface id u).
Proof.
  intros Hu. apply ok_upd_toplevel. intros rec Hid. cbn. split_and!; [done..|].
  intros u' [= <-]. by right.
Qed.

Lemma rec_live_target {objs id rec} :
  rec_live ∅ objs id rec → is_Some (shape objs !! tr_toplevel rec) ∧ is_Some (shape objs !! tr_xdgSurface rec).
Proof. intros (_ & (c & H1 & H2) & _). split; [by eexists|]. eexists. apply H2. set_solver. Qed.
Lemma ok_CloseToplevel {objs} id : ok ∅ objs (CloseToplevel id).
Proof.
  unfold CloseToplevel. apply ok_toplevels. intros m Hm. destruct (m !! id) as [rec|] eqn:E; ok_tac.
  apply ok_send; [|done]. by apply (rec_live_target (Hm _ _ E)).
Qed.
Lemma ok_ConfigureToplevel {objs} id w h b : ok ∅ objs (ConfigureToplevel hash_order id w h b).
Proof.
  unfold ConfigureToplevel. apply ok_toplevels. intros m Hm. apply ok_for.
  intros [k rec] [_ Hin%elem_walk]%list_elem_of_filter. apply Hm, rec_live_target in Hin as [H1 H2].
  cbn. ok_tac; by apply ok_send.
Qed.
Lemma ok_SendSurfaceOnOutput {objs} id b : ok ∅ objs (SendSurfaceOnOutput id b).
Proof.
  unfold SendSurfaceOnOutput. apply ok_toplevels. intros m Hm.
  destruct (m !! id) as [rec|] eqn:E; [|ok_tac]. destruct (tr_surface rec) as [u|] eqn:Eu; [|ok_tac].
  destruct (Hm _ _ E) as (_ & _ & H). destruct (H u Eu) as [c Hc].
  ok_step; [ok_tac|]. apply ok_bind; [by apply ok_upd_soft|intros _].
  eapply ok_client; [done|].
  apply (ok_read (λ l, wf_list KOutput l (shape objs))).
  { by intros s [(_&_&_&_&_&_&_&_&_&_&_&_&H'&_) <-]. }
  intros l Hl. apply ok_for. intros out [c' Hout]%Hl. eapply ok_client; [done|].
  ok_step; [ok_tac|]. destruct b; (apply ok_send; [by eexists|]); intros r [= <-]; by eexists.
Qed.
Lemma ok_ApplyActivation {objs} edge : ok ∅ objs (ApplyActivation hash_order edge).
Proof.
  pose proof (@ok_SendSurfaceOnOutput objs). pose proof (@ok_ConfigureToplevel objs).
  unfold ApplyActivation. ok_tac.
Qed.
Lemma ok_SetToplevelAppId {objs} id a : ok ∅ objs (SetToplevelAppId hash_order id a).
Proof.
  unfold SetToplevelAppId. apply ok_toplevels. intros m Hm. destruct (m !! id) as [rec|] eqn:E; ok_tac.
  - apply ok_upd_info; try done. intros ? _. cbn. by destruct (Hm _ _ E).
  - apply ok_ApplyActivation.
Qed.

(** *** Input *)

Lemma ok_input {D objs B} (k : option Z → F Server B) :
  (∀ o, wf_opt o (shape objs) → ok D objs (k o)) → ok D objs (fbind (fget sv_inputSurface) k).
Proof.
  intros Hk. apply (ok_read (λ o, wf_opt o (shape objs))); [|done].
  by intros s [(_&_&_&_&_&_&_&_&_&_&_&_&_&H&_) <-].
Qed.
Lemma ok_focus {D objs B} (k : option Z → F Server B) :
  (∀ o, wf_opt o (shape objs) → ok D objs (k o)) → ok D objs (fbind (fget sv_keyboardFocus) k).
Proof.
  intros Hk. apply (ok_read (λ o, wf_opt o (shape objs))); [|done].
  by intros s [(_&_&_&_&_&_&_&_&_&_&_&_&_&_&H&_) <-].
Qed.
Lemma ok_keyboards {D objs B} (k : list Z → F Server B) :
  (∀ l, wf_list KKeyboard l (shape objs) → ok D objs (k l)) →
  ok D objs (fbind (fget sv_keyboardResources) k).
Proof.
  intros Hk. apply (ok_read (λ l, wf_list KKeyboard l (shape objs))); [|done].
  by intros s [(_&_&_&_&_&_&_&_&_&_&_&H&_) <-].
Qed.
Lemma ok_touches {D objs B} (k : list Z → F Server B) :
  (∀ l, wf_list KTouch l (shape objs) → ok D objs (k l)) →
  ok D objs (fbind (fget sv_touchResources) k).
Proof.
  intros Hk. apply (ok_read (λ l, wf_list KTouch l (shape objs))); [|done].
  by intros s [(_&_&_&_&_&_&_&_&_&_&H&_) <-].
Qed.

Lemma ok_InjectTouchFromAction {D objs} a i x y : ok D objs (InjectTouchFromAction a i x y).
Proof. unfold InjectTouchFromAction, InjectTouchOps. ok_tac. Qed.
Lemma ok_DrainTouchOps {objs} : ok ∅ objs DrainTouchOps.
Proof.
  unfold DrainTouchOps. ok_step. ok_step; [ok_tac|].
  match goal with |- ok _ _ (match ?l with [] => _ | _ => _ end) => destruct l as [|op ops]; [ok_tac|] end.
  apply ok_input. intros [u|] Hu; (apply ok_touches; intros tl Htl); [|ok_tac].
  destruct tl as [|t0 tl]; [ok_tac|]. destruct (Hu u eq_refl) as [c Hc].
  eapply ok_client; [done|]. apply ok_for. intros op' _. apply ok_for. intros tr Htr.
  destruct (Htl tr Htr) as [c' Hc']. eapply ok_client; [done|]. ok_step; [ok_tac|].
  apply ok_send; unfold touch_event; destruct (to_kind op'); cbn; try done; try (by eexists).
  intros r [= <-]. by eexists.
Qed.
Lemma ok_NoteInputSurface {D objs} u : live (shape objs) KSurface u → ok D objs (NoteInputSurface u).
Proof.
  intros Hu. apply ok_mod. intros s [Hwf Ho]. split; [|done].
  destruct Hwf as (?&?&?&?&?&?&?&?&?&?&?&?&?&_&Hwf). unfold wf. cbn. split_and!; try done; try apply Hwf.
  intros r [= <-]. by rewrite Ho.
Qed.
Lemma ok_SendKeyboardFocus {objs} u : live (shape objs) KSurface u → ok ∅ objs (SendKeyboardFocus u).
Proof.
  intros Hu. destruct Hu as [c Hc]. unfold SendKeyboardFocus. apply ok_focus. intros f Hf.
  ok_step; [ok_tac|]. eapply ok_client; [done|]. apply ok_keyboards. intros l Hl.
  apply ok_bind; [|intros _].
  - apply ok_for. intros kb Hkb. destruct (Hl kb Hkb) as [c' Hc']. eapply ok_client; [done|].
    ok_step; [ok_tac|]. apply ok_bind; [|intros _; apply ok_bind; [|intros _]].
    + apply ok_opt. intros f' ->. destruct (Hf f' eq_refl) as [cf Hcf].
      apply ok_send; [by eexists|]. intros r [= <-]. by eexists.
    + apply ok_send; [by eexists|]. intros r [= <-]. by eexists.
    + apply ok_send; [by eexists|done].
  - apply ok_mod. intros s [Hwf Ho]. split; [|done].
    destruct Hwf as (?&?&?&?&?&?&?&?&?&?&?&?&?&?&_&Hwf). unfold wf. cbn. split_and!; try done; try apply Hwf.
    intros r [= <-]. rewrite Ho. by exists c.
Qed.
Lemma ok_run_touch {objs} w a i x y : ok ∅ objs (run_touch w a i x y).
Proof.
  unfold run_touch. ok_step. ok_step; [|ok_tac]. apply ok_toplevels. intros m Hm.
  apply ok_bind; [|intros _; apply ok_bind; [apply ok_InjectTouchFromAction|intros _; apply ok_DrainTouchOps]].
  apply ok_opt. intros u (rec & Hrec & Hu)%bind_Some. apply ok_NoteInputSurface.
  by destruct (Hm _ _ Hrec) as (_ & _ & H); apply H.
Qed.
Lemma ok_run_key {objs} w code d : ok ∅ objs (run_key w code d).
Proof.
  unfold run_key. ok_step. ok_step; [|ok_tac]. apply ok_toplevels. intros m Hm.
  apply ok_input. intros inp Hinp. apply ok_keyboards. intros kbs Hkbs.
  match goal with |- ok _ _ (match ?x with _ => _ end) => destruct x as [u|] eqn:Eu; [|ok_tac] end.
  destruct kbs as [|kb0 kbs]; [ok_tac|].
  assert (live (shape objs) KSurface u) as [c Hc].
  { destruct (m !! _ ≫= tr_surface) as [u'|] eqn:E; [|by apply Hinp]. injection Eu as <-.
    apply bind_Some in E as (rec & Hrec & Hu'). by destruct (Hm _ _ Hrec) as (_ & _ & H); apply H. }
  apply ok_bind; [apply ok_SendKeyboardFocus; by exists c|intros _]. eapply ok_client; [done|].
  apply ok_for. intros kb Hkb. destruct (Hkbs kb Hkb) as [c' Hc']. eapply ok_client; [done|].
  ok_step; [|ok_tac]. apply ok_send; [by eexists|done].
Qed.

(** *** Buffers *)

Lemma ok_release {D objs} sb f :
  (∀ s, I D objs s → sv_inFlight s !! sb = Some f → live_buffer (shape objs) (if_wlBuffer f)).
Proof.
  intros s [Hwf <-] Hf. destruct Hwf as (_&_&_&_&_&_&H7&[H8 _]&H9&_).
  destruct (H7 _ _ Hf) as [cfg Hc]. apply H9. by eapply H8.
Qed.
(** Buffers move from in flight to the releases, and from there away. *)
Lemma I_moved {D objs} s m l q :
  I D objs s → (∀ k f, m !! k = Some f → sv_inFlight s !! k = Some f) →
  (∀ b, b ∈ l ++ q → b ∈ sv_releasedPending s ++ sv_releasing s ∨
        ∃ k f, sv_inFlight s !! k = Some f ∧ b = if_wlBuffer f) →
  I D objs (set_sv_inFlight m (set_sv_releasedPending l (set_sv_releasing q s))).
Proof.
  intros [Hwf Ho] Hm Hl. split; [|done].
  destruct Hwf as (?&?&?&?&?&?&H7&H8&H9&H10&Hwf). unfold wf. cbn. split_and!; try done; try apply Hwf.
  - intros sb f Hf. by apply H7, Hm.
  - intros b [Hb|(k & f & Hf & ->)]%Hl; [by apply H10|].
    destruct (H7 _ _ Hf) as [cfg Hc]. by eapply H8.
Qed.
Lemma I_fewer {D objs} s m l :
  I D objs s → (∀ k f, m !! k = Some f → sv_inFlight s !! k = Some f) →
  (∀ b, b ∈ l → b ∈ sv_releasedPending s ∨ ∃ k f, sv_inFlight s !! k = Some f ∧ b = if_wlBuffer f) →
  I D objs (set_sv_inFlight m (set_sv_releasedPending l s)).
Proof.
  intros HI Hm Hl. eapply I_core; [|apply (I_moved s m l (sv_releasing s) HI Hm)]; [done|].
  intros b [[Hb|?]%Hl|Hb]%elem_of_app; [left|by right|left]; apply elem_of_app; auto.
Qed.
(** What waits to be released is there. *)
Lemma owed_live {D objs} s b :
  I D objs s → b ∈ sv_releasedPending s ++ sv_releasing s → is_Some (shape objs !! b).
Proof.
  intros [Hwf <-] Hb. destruct Hwf as (_&_&_&_&_&_&_&_&H9&H10&_).
  destruct (H9 b (H10 b Hb)) as (k & c & Hk). by eexists.
Qed.
Lemma ok_OnBufferReleased {D objs} sb : ok D objs (OnBufferReleased sb).
Proof.
  intros s H. unfold OnBufferReleased. apply safe_bind, safe_get.
  destruct (sv_inFlight s !! sb) as [f|] eqn:E; [|by apply safe_ret]. apply safe_mod.
  apply I_fewer; [done| |].
  - intros k g. rewrite lookup_delete_Some. by intros [_ ?].
  - intros b [Hb|Hb]%elem_of_app; [by left|]. apply list_elem_of_singleton in Hb as ->. right. eauto.
Qed.
Lemma ok_UntrackInFlight {D objs} sb : ok D objs (UntrackInFlight sb).
Proof.
  intros s H. apply safe_mod.
  eapply (I_core (D := D) (objs := objs) (set_sv_inFlight (delete sb (sv_inFlight s))
    (set_sv_releasedPending (sv_releasedPending s) s))); [done|].
  apply I_fewer; [done| |auto]. intros k g. rewrite lookup_delete_Some. by intros [_ ?].
Qed.
(** What is taken out of the buffers in flight is there. *)
Lemma safe_take {D objs} w s :
  I D objs s → safe (take_in_flight hash_order w) (λ l s', I D objs s' ∧
    (∀ b, b ∈ l → b ∈ sv_watchedBuffers s' ∧ is_Some (shape objs !! b))) s.
Proof.
  intros H. unfold take_in_flight. apply safe_bind, safe_get, safe_bind, safe_mod, safe_ret. split.
  - eapply (I_core (D := D) (objs := objs) (set_sv_inFlight _
      (set_sv_releasedPending (sv_releasedPending s) s))); [done|].
    apply I_fewer; [done| |auto]. intros k g. rewrite map_lookup_filter_Some. by intros [? _].
  - intros b Hb. apply list_elem_of_fmap in Hb as ([sb f] & -> & [_ Hf%elem_walk]%list_elem_of_filter). cbn. split.
    + destruct H as [(_&_&_&_&_&_&H7&[H8 _]&_) _]. destruct (H7 _ _ Hf) as [cfg Hc]. by eapply H8.
    + destruct (ok_release sb f s H Hf) as (b & c & Hb). by eexists.
Qed.
Lemma ok_ReleaseInFlightOf {D objs} w : ok D objs (ReleaseInFlightOf hash_order w).
Proof.
  intros s H. unfold ReleaseInFlightOf. eapply safe_seq; [by apply (safe_take (D := D) (objs := objs))|]. intros l s' [H' Hl].
  apply (ok_for (D := D) (objs := objs)); [|done]. intros b Hb. apply ok_send; [|done]. by apply Hl.
Qed.
Lemma ok_ReleaseEverything {objs} : ok ∅ objs (ReleaseEverythingInFlight hash_order).
Proof.
  intros s H. unfold ReleaseEverythingInFlight. apply safe_bind, safe_get, safe_bind, safe_mod.
  apply (ok_for (D := ∅) (objs := objs)).
  - intros [sb f] Hf%elem_walk. cbn. apply ok_send; [|done].
    destruct (ok_release sb f s H Hf) as (b & c & Hb). by eexists.
  - eapply (I_core (D := ∅) (objs := objs) (set_sv_inFlight ∅ (set_sv_releasedPending [] s))); [done|].
    apply I_fewer; [done|by intros k f; rewrite lookup_empty|]. intros b Hb. by apply elem_of_nil in Hb.
Qed.
Lemma ok_DrainReleases {objs} : ok ∅ objs DrainReleases.
Proof.
  intros s H. unfold DrainReleases. apply safe_bind, safe_get, safe_bind, safe_mod.
  apply (ok_for (D := ∅) (objs := objs)).
  - intros b Hb. apply ok_send; [|done]. apply (owed_live (D := ∅) s); [done|]. apply elem_of_app. by left.
  - eapply (I_core (D := ∅) (objs := objs) (set_sv_inFlight (sv_inFlight s) (set_sv_releasedPending [] s)));
      [done|]. apply I_fewer; [done|auto|]. intros b Hb. by apply elem_of_nil in Hb.
Qed.

(** *** Callers' threads *)

Lemma ok_with_legacy {D objs} f : ok D objs (with_legacy f).
Proof. unfold with_legacy. ok_tac. Qed.
Lemma ok_legacy_AttachProducer {D objs} : ok D objs legacy_AttachProducer.
Proof. unfold legacy_AttachProducer. ok_tac. Qed.
Lemma ok_RevertToSelfDrawing {D objs} : ok D objs RevertToSelfDrawing.
Proof. unfold RevertToSelfDrawing. ok_tac. Qed.
Lemma ok_LTake {D objs} : ok D objs (legacy_call hash_order LTake).
Proof.
  intros s H. cbn [legacy_call]. eapply safe_seq; [by apply (safe_take (D := D) (objs := objs))|]. intros l s' [[Hwf Ho] Hl].
  apply safe_mod. split; [|done]. destruct Hwf as (?&?&?&?&?&?&?&?&?&H10&Hwf). unfold wf. cbn.
  split_and!; try done; try apply Hwf.
  intros b [Hb|[Hb|Hb]%elem_of_app]%elem_of_app; [apply H10, elem_of_app; by left|
    apply H10, elem_of_app; by right|by apply Hl].
Qed.
Lemma ok_LSend {D objs} n : ok D objs (legacy_call hash_order (LSend n)).
Proof.
  intros s H. cbn [legacy_call]. apply safe_bind, safe_get.
  destruct (sv_releasing s !! n) as [b|] eqn:E; [|by apply safe_ret].
  pose proof (list_elem_of_lookup_2 _ _ _ E) as Hb. apply safe_bind, safe_mod.
  apply (ok_send (D := D) (objs := objs)); [apply (owed_live (D := D) s); [done|]; apply elem_of_app; by right|done|].
  eapply I_core; [|apply (I_moved s (sv_inFlight s) (sv_releasedPending s) (delete n (sv_releasing s)) H)];
    [done|auto|].
  intros b' [Hb'|Hb']%elem_of_app; left; apply elem_of_app; [by left|right].
  by eapply list_elem_of_delete_inv.
Qed.
Lemma ok_legacy_call {D objs} c : ok D objs (legacy_call hash_order c).
Proof.
  destruct c; [|apply ok_with_legacy..|apply ok_RevertToSelfDrawing|apply ok_LTake|apply ok_LSend].
  apply ok_bind; [apply ok_legacy_AttachProducer|intros; apply ok_ret].
Qed.
Lemma ok_other_thread {D objs} m : ok D objs (other_thread hash_order m).
Proof. destruct m; [apply ok_OnBufferReleased|apply ok_legacy_call]. Qed.
Lemma ok_meanwhile {D objs} : ok D objs (meanwhile hash_order).
Proof.
  intros s H. unfold meanwhile.
  apply (ok_for (D := D) (objs := objs) _ (other_thread hash_order) (λ m _, ok_other_thread m)).
  by eapply I_core, H.
Qed.

(** *** Windows *)

Lemma I_windows {D objs} s ws n : I D objs s → wf_win ws n →
  I D objs (set_sv_windows ws (set_sv_nextWindowId n s)).
Proof.
  intros [Hwf Ho] Hw. split; [|done]. destruct Hwf as (?&?&?&?&?&?&?&?&?&?&?&?&?&?&?&?&_).
  unfold wf. cbn. split_and!; done.
Qed.
Lemma I_alter_window {D objs} s id f :
  I D objs s → (∀ w, wi_id (f w) = wi_id w) →
  I D objs (set_sv_windows (alter f id (sv_windows s)) s).
Proof.
  intros H Hf. eapply (I_core (D := D) (objs := objs) (set_sv_windows _ (set_sv_nextWindowId (sv_nextWindowId s) s)));
    [done|]. apply I_windows; [done|].
  destruct H as [(_&_&_&_&_&_&_&_&_&_&_&_&_&_&_&_&[H1 H2]) _]. split; [done|].
  intros id' w Hw. destruct (decide (id' = id)) as [->|Hne].
  - rewrite lookup_alter_eq in Hw. apply fmap_Some in Hw as (w0 & Hw0 & ->). rewrite Hf. by apply H2.
  - rewrite lookup_alter_ne in Hw; [|done]. by apply H2.
Qed.
Lemma ok_OutputFor {D objs} tid : ok D objs (OutputFor hash_order tid).
Proof.
  intros s H. unfold OutputFor. apply safe_bind, safe_get. apply safe_if; intros _; [by apply safe_ret|].
  apply safe_bind, safe_get. destruct (pick_window _ _ _) as [id|].
  - apply safe_bind, safe_mod, safe_ret. by apply I_alter_window.
  - by apply safe_bind, safe_get, safe_ret.
Qed.
(** What it answers is there. *)
Lemma pick_window_elem package any l id :
  pick_window package any l = Some id → any = Some id ∨ ∃ w, (id, w) ∈ l.
Proof.
  revert any. induction l as [|[i w] l IH]; intros any; simpl; [by left|].
  case_match; [intros [= <-]; right; exists w; by left|].
  intros [Ha|(w' & Hw)]%IH; [|right; exists w'; by right].
  case_match; [|by left]. injection Ha as <-. right. exists w. by left.
Qed.
Definition out_live (out : option OutRef) (s : Server) : Prop :=
  ∀ id, out = Some (OutWindow id) → is_Some (sv_windows s !! id).
Lemma OutputFor_live tid s :
  safe (OutputFor hash_order tid) (λ x s', out_live x.1 s') s.
Proof.
  unfold OutputFor. apply safe_bind, safe_get. apply safe_if; intros _; [by apply safe_ret|].
  apply safe_bind, safe_get. destruct (pick_window _ _ _) as [id|] eqn:E.
  - apply safe_bind, safe_mod, safe_ret. intros id' [= <-]. cbn. rewrite lookup_alter_eq.
    apply pick_window_elem in E as [?|(w & Hw%elem_walk)]; [done|]. rewrite Hw. by eexists.
  - apply safe_bind, safe_get, safe_ret. intros id'. cbn. by destruct (IsAttached _).
Qed.

(** *** A frame *)

Lemma build_total e nh desc :
  importable (BWlegl (Some (nh, desc))) = true → ∃ r, BuildBufferHandle e (Some nh) desc = Some r.
Proof.
  intros H. unfold importable in H. cbn in H. apply andb_prop in H as [[[H1 H2]%andb_prop H3]%andb_prop H4]. bool_props.
  unfold BuildBufferHandle. repeat (case_match; [by eexists|]).
  destruct (Z.ltb_spec (Z.of_nat (length (nh_data nh))) (nh_numFds nh + u32 (nh_numInts nh))) as [Hlt|];
    [exfalso; rewrite u32_id in Hlt; unfold is_u32; lia|].
  rewrite H4. cbn [negb]. repeat case_match; by eexists.
Qed.
(** The buffer is in the cache, and its output is there. *)
Definition ready (objs : gmap Z Resource) (out : OutRef) (b sb : Z) (s : Server) : Prop :=
  I ∅ objs s ∧ out_live (Some out) s ∧ ∃ cfg, sv_cache s !! b = Some (sb, cfg).
Definition quiet (s s' : Server) : Prop :=
  sv_windows s' = sv_windows s ∧ sv_cache s' = sv_cache s.
#[local] Instance quiet_preorder : PreOrder quiet.
Proof. split; [by intros s|]. intros s1 s2 s3 [H1 H2] [H3 H4]. split; congruence. Qed.
Lemma quiet_send e : fkeeps quiet (send e).
Proof.
  unfold send. repeat first [apply fkeeps_mod; by intros|fkeeps_step].
  all: intros s x s'; unfold get_obj; case_match; [|done]; by intros [= _ <-].
Qed.
Lemma quiet_OnBufferReleased sb : fkeeps quiet (OnBufferReleased sb).
Proof. unfold OnBufferReleased. repeat first [apply fkeeps_mod; by intros|fkeeps_step]. Qed.
Lemma quiet_ask : fkeeps quiet ask.
Proof. by intros s a s' [= _ <-]. Qed.
Lemma quiet_take w : fkeeps quiet (take_in_flight hash_order w).
Proof. unfold take_in_flight. repeat first [apply fkeeps_mod; by intros|fkeeps_step]. Qed.
Lemma quiet_other_thread m : fkeeps quiet (other_thread hash_order m).
Proof.
  destruct m as [sb|[]]; cbn [other_thread legacy_call]; unfold legacy_SetNodeVisible, with_legacy,
    legacy_AttachProducer, with_legacy, RevertToSelfDrawing, rs_log;
  repeat first [apply quiet_OnBufferReleased|apply quiet_take|apply quiet_send|apply quiet_ask
               |apply fkeeps_mod; by intros|fkeeps_step].
Qed.
Lemma quiet_meanwhile : fkeeps quiet (meanwhile hash_order).
Proof.
  intros s a s' E. unfold meanwhile in E.
  pose proof (fkeeps_for quiet _ _ quiet_other_thread _ _ _ E) as H. by destruct H.
Qed.
Lemma quiet_ReleaseInFlightOf w : fkeeps quiet (ReleaseInFlightOf hash_order w).
Proof.
  unfold ReleaseInFlightOf. repeat first [apply quiet_take|apply quiet_send|fkeeps_step].
Qed.
Lemma ready_quiet {objs out b sb} (m : F Server unit) s :
  ok ∅ objs m → fkeeps quiet m → ready objs out b sb s → safe m (λ _ s', ready objs out b sb s') s.
Proof.
  intros Hok Hq (HI & Ho & Hc). eapply safe_mono; [by apply safe_keeps, Hok|].
  intros _ s' [HI' [E1 E2]]. split; [done|]. unfold out_live in *. by rewrite E1 E2.
Qed.
Lemma ready_Track {objs out b sb} w s :
  ready objs out b sb s → safe (TrackInFlight sb b w) (λ _ s', ready objs out b sb s') s.
Proof.
  intros ([Hwf Ho] & Hl & Hc). apply safe_mod. split; [|by split]. split; [|done].
  destruct Hwf as (?&?&?&?&?&?&H7&Hwf). unfold wf. cbn. split_and!; try done; try apply Hwf.
  intros sb' f. rewrite lookup_insert_Some. intros [[<- <-]|[_ Hf]]; [done|by apply H7].
Qed.
Lemma ready_Reset {objs out b sb} s :
  ready objs out b sb s → safe (out_ResetQueue out) (λ _ s', ready objs out b sb s') s.
Proof.
  intros (HI & Hl & Hc). unfold out_ResetQueue. destruct out as [|id]; unfold get_out.
  - apply safe_bind, safe_get, safe_bind. unfold safe, ask. cbn. split; [by eapply I_core, HI|by split].
  - destruct (Hl id eq_refl) as [w Hw]. unfold safe, fbind. rewrite Hw. cbn.
    split; [by eapply I_core, HI|by split].
Qed.
Lemma ready_Flush {objs out b sb} s :
  ready objs out b sb s → safe (out_Flush out b sb) (λ _ s', ready objs out b sb s') s.
Proof.
  intros (HI & Hl & cfg & Hc).
  assert (∃ o, get_out out s = Some (o, s)) as [o Ho].
  { destruct out as [|id]; cbn; [by eexists|]. destruct (Hl id eq_refl) as [w ->]. by eexists. }
  unfold out_Flush, safe, fbind. rewrite Ho. unfold ask, fget, fsome. cbn. rewrite Hc.
  destruct (Flush _ _ _ _ _) as [[[r cfg'] o'] ops]. cbn.
  set (s1 := set_sv_asked _ _). set (s2 := match put_out out o' s1 with Some (_, s2) => s2 | None => s1 end).
  assert (put_out out o' s1 = Some (tt, s2)) as -> by (by destruct out).
  assert (I ∅ objs s2 ∧ out_live (Some out) s2 ∧ sv_cache s2 = sv_cache s) as (HI2 & Hl2 & Hc2).
  { destruct out as [|id]; cbn in s2.
    - split_and!; [by eapply I_core, HI|done|done].
    - split_and!; [|intros id' [= <-]|done].
      + apply (I_alter_window s1 id (set_wi_output o')); [|done]. by eapply I_core, HI.
      + cbn. rewrite lookup_alter_eq. destruct (Hl id eq_refl) as [w ->]. by eexists. }
  unfold rs_log, fmod, fret. cbn. split; [|split; [done|]].
  - destruct HI2 as [Hwf Hobj]. split; [|done].
    destruct Hwf as (?&?&?&?&?&?&H7&[H8 H8']&Hwf). rewrite Hc2 in H7, H8, H8'. unfold wf. cbn.
    split_and!; try done; try apply Hwf.
    + intros sb' f Hf. destruct (H7 _ _ Hf) as [c Hc']. destruct (decide (if_wlBuffer f = b)) as [E|Hne].
      * rewrite E Hc in Hc'. injection Hc' as <- _. exists cfg'. by rewrite E lookup_insert_eq.
      * exists c. by rewrite lookup_insert_ne.
    + split.
      * intros b' sb' c'. rewrite lookup_insert_Some. intros [[<- [= <- <-]]|[_ H']]; by eapply H8.
      * intros b1 b2 sb' c1 c2 K1 K2.
        assert (∃ c, sv_cache s !! b1 = Some (sb', c)) as [d1 Hd1].
        { apply lookup_insert_Some in K1 as [[<- [= <- _]]|[_ K1]]; by eexists. }
        assert (∃ c, sv_cache s !! b2 = Some (sb', c)) as [d2 Hd2].
        { apply lookup_insert_Some in K2 as [[<- [= <- _]]|[_ K2]]; by eexists. }
        by eapply H8'.
  - exists cfg'. by rewrite lookup_insert_eq.
Qed.
Lemma safe_Watch {objs} b s :
  I ∅ objs s → live_buffer (shape objs) b →
  safe (WatchBufferDestroy b) (λ _ s', I ∅ objs s' ∧ b ∈ sv_watchedBuffers s' ∧ sv_windows s' = sv_windows s) s.
Proof.
  intros [Hwf Ho] Hb. apply safe_mod. split; [|split; [cbn; set_solver|done]]. split; [|done].
  destruct Hwf as (?&?&?&?&?&?&?&[H8 H8']&H9&H10&Hwf). unfold wf. cbn. split_and!; try done; try apply Hwf.
  - split; [|done]. intros b' sb cfg H'. destruct (H8 _ _ _ H'). split; [set_solver|done].
  - intros b' [->%elem_of_singleton|Hb']%elem_of_union; [by rewrite Ho|by apply H9].
  - intros b' Hb'. apply elem_of_union. right. by apply H10.
Qed.
Lemma safe_Import {objs} b nh desc s :
  I ∅ objs s → b ∈ sv_watchedBuffers s → importable (BWlegl (Some (nh, desc))) = true →
  safe (Import b nh desc) (λ r s', I ∅ objs s' ∧ sv_windows s' = sv_windows s ∧
    ∀ sb, r = Some sb → ∃ cfg, sv_cache s' !! b = Some (sb, cfg)) s.
Proof.
  intros HI Hb Hh. unfold Import. apply safe_bind, safe_get.
  destruct (sv_cache s !! b) as [[sb cfg]|] eqn:E.
  { apply safe_ret. split_and!; [done..|]. intros sb' [= <-]. eauto. }
  apply safe_bind. unfold safe at 1, ask_kenv. apply safe_bind.
  destruct (build_total (sv_kenv s (sv_asked s)) nh desc Hh) as [r Hr]. eapply safe_some; [done|].
  destruct (r.1.1) as [bh|]; [|apply safe_ret; split_and!; [by eapply I_core, HI|done..]].
  apply safe_bind. unfold safe at 1, ask. cbn. apply safe_if; intros _.
  { apply safe_ret. split_and!; [by eapply I_core, HI|done..]. }
  apply safe_bind, safe_get, safe_bind, safe_mod, safe_ret. split_and!; [|done|].
  - destruct HI as [Hwf Ho]. split; [|done].
    destruct Hwf as (?&?&?&?&?&?&H7&[H8 H8']&Hwf). unfold wf. cbn. split_and!; try done; try apply Hwf.
    + intros sb' f Hf. destruct (H7 _ _ Hf) as [c Hc]. exists c. rewrite lookup_insert_ne; [done|congruence].
    + split.
      * intros b' sb' c'. rewrite lookup_insert_Some. intros [[<- [= <- <-]]|[_ H']].
        -- split; [done|lia].
        -- destruct (H8 _ _ _ H'). split; [done|lia].
      * intros b1 b2 sb' c1 c2. rewrite !lookup_insert_Some.
        intros [[<- [= <- _]]|[Hn1 K1]] [[<- K2]|[Hn2 K2]]; [done| | |by eapply H8'].
        -- destruct (H8 _ _ _ K2). lia.
        -- injection K2 as <- _. destruct (H8 _ _ _ K1). lia.
  - intros sb' [= <-]. cbn. rewrite lookup_insert_eq. eauto.
Qed.

Lemma ok_show_frame {objs} tid b nh desc :
  live (shape objs) (KBuffer (BWlegl (Some (nh, desc)))) b → ok ∅ objs (show_frame hash_order tid b nh desc).
Proof.
  intros Hb s HI.
  assert (importable (BWlegl (Some (nh, desc))) = true) as Hh.
  { destruct HI as [(_&_&_&_&_&_&_&_&_&_&_&_&_&_&_&H&_) <-]. by eapply H. }
  assert (ok ∅ objs (send (EvRelease b))) as Hrel.
  { apply ok_send; [|done]. destruct Hb as [c Hc]. by eexists. }
  unfold show_frame. eapply safe_seq; [apply safe_conj; [by apply (ok_OutputFor (D := ∅) (objs := objs) tid)|apply OutputFor_live]|].
  intros [out window] s1 [HI1 Hl1]. cbn [fst] in Hl1.
  destruct out as [out|]; cbn; [|apply safe_bind, safe_ret; by apply Hrel].
  apply safe_bind. eapply safe_seq; [eapply safe_Watch; [done|by eexists]|].
  intros ? s2 (HI2 & Hw2 & E2). eapply safe_mono; [by eapply (safe_Import b nh desc)|].
  intros sb s3 (HI3 & E3 & Hsb). cbn beta. destruct sb as [sb|]; [|by apply Hrel].
  assert (ready objs out b sb s3) as Hr.
  { split; [done|]. split; [|by apply Hsb]. intros id Hid. rewrite E3 E2. by apply Hl1. }
  clear -Hr Hrel Hord.
  eapply safe_seq; [eapply ready_quiet; [apply ok_meanwhile|apply quiet_meanwhile|exact Hr]|]. clear Hr. intros ? s0 Hr.
  eapply safe_seq; [eapply ready_Track; exact Hr|]. intros ? s4 H4.
  eapply safe_seq; [eapply ready_quiet; [apply ok_meanwhile|apply quiet_meanwhile|exact H4]|]. intros ? s5 H5.
  eapply safe_seq; [eapply ready_Flush; exact H5|]. intros ok1 s6 H6.
  apply safe_if; intros _; [apply safe_ret, H6|].
  eapply safe_seq; [eapply ready_quiet; [apply ok_UntrackInFlight|by apply fkeeps_mod|exact H6]|]. intros ? s7 H7.
  eapply safe_seq; [eapply ready_quiet; [apply ok_meanwhile|apply quiet_meanwhile|exact H7]|]. intros ? s8 H8.
  eapply safe_seq; [eapply ready_Reset; exact H8|]. intros ? s9 H9.
  eapply safe_seq; [eapply ready_quiet; [apply ok_ReleaseInFlightOf|apply quiet_ReleaseInFlightOf|exact H9]|].
  intros ? s10 H10.
  eapply safe_seq; [eapply ready_quiet; [apply ok_meanwhile|apply quiet_meanwhile|exact H10]|]. intros ? s11 H11.
  eapply safe_seq; [eapply ready_Track; exact H11|]. intros ? s12 H12.
  eapply safe_seq; [eapply ready_quiet; [apply ok_meanwhile|apply quiet_meanwhile|exact H12]|]. intros ? s13 H13.
  eapply safe_seq; [eapply ready_Flush; exact H13|]. intros ok2 s14 H14.
  apply safe_if; intros _; [apply safe_ret, H14|].
  eapply safe_seq; [eapply ready_quiet; [apply ok_UntrackInFlight|by apply fkeeps_mod|exact H14]|].
  intros ? s15 H15. by apply Hrel, H15.
Qed.

(** *** Calls from other threads *)

Lemma ok_attach_window {D objs} package p w h s :
  I D objs s → sv_nextWindowId s < 2 ^ 31 - 1 →
  safe (attach_window package p w h) (λ _ s', I D objs s') s.
Proof.
  intros HI Hn. unfold attach_window. destruct p as [p|]; [|by apply safe_ret].
  apply safe_if; intros _; [by apply safe_ret|].
  destruct (SetReleaseCallback OutputSurface_new) as [o0 ops0].
  apply safe_bind. unfold safe at 1, ask. destruct (AttachProducer _ _) as [[r o] ops].
  apply safe_bind. unfold rs_log. apply safe_mod. apply safe_if; intros _; [apply safe_ret; by eapply I_core, HI|].
  do 3 apply safe_bind, safe_get. apply safe_bind, safe_mod, safe_ret.
  eapply (I_core (D := D) (objs := objs) (set_sv_windows
    (<[sv_nextWindowId s := mkWindow (sv_nextWindowId s) package o 0 true]> (sv_windows s))
    (set_sv_nextWindowId (s32 (sv_nextWindowId s + 1)) s))); [done|]. apply I_windows; [done|].
  destruct HI as [(_&_&_&_&_&_&_&_&_&_&_&_&_&_&_&_&[H1 H2]) _].
  replace (s32 (sv_nextWindowId s + 1)) with (sv_nextWindowId s + 1) by width_lia. split; [lia|].
  intros id w'. rewrite lookup_insert_Some. intros [[<- <-]|[_ Hw]]; [cbn; lia|].
  destruct (H2 _ _ Hw). split; [done|lia].
Qed.
Lemma ok_detach_window {D objs} id : ok D objs (detach_window id).
Proof.
  intros s HI. unfold detach_window. apply safe_bind, safe_get.
  destruct (sv_windows s !! id) as [w|] eqn:E; [|by apply safe_ret].
  apply safe_bind, safe_mod, safe_bind, safe_mod, safe_ret.
  assert (I D objs (set_sv_windows (delete id (sv_windows s)) s)) as H.
  { eapply (I_core (D := D) (objs := objs) (set_sv_windows (delete id (sv_windows s))
      (set_sv_nextWindowId (sv_nextWindowId s) s))); [done|]. apply I_windows; [done|].
    destruct HI as [(_&_&_&_&_&_&_&_&_&_&_&_&_&_&_&_&[H1 H2]) _]. split; [done|].
    intros id' w'. rewrite lookup_delete_Some. intros [_ Hw]. by apply H2. }
  case_match; [by eapply I_core, H|done].
Qed.
Lemma ok_set_window_active {D objs} id b : ok D objs (set_window_active id b).
Proof.
  intros s HI. unfold set_window_active. apply safe_bind, safe_get.
  destruct (sv_windows s !! id) as [w|] eqn:E; [|by apply safe_ret].
  apply safe_bind, safe_mod, safe_bind, safe_mod, safe_ret.
  assert (I D objs (set_sv_windows (<[id := set_wi_active b w]> (sv_windows s)) s)) as H.
  { eapply (I_core (D := D) (objs := objs) (set_sv_windows (<[id := set_wi_active b w]> (sv_windows s))
      (set_sv_nextWindowId (sv_nextWindowId s) s))); [done|]. apply I_windows; [done|].
    destruct HI as [(_&_&_&_&_&_&_&_&_&_&_&_&_&_&_&_&[H1 H2]) _]. split; [done|].
    intros id' w'. rewrite lookup_insert_Some. intros [[<- <-]|[_ Hw]]; [by apply (H2 _ w)|by apply H2]. }
  repeat case_match; by eapply I_core, H.
Qed.
Lemma ok_Post {D objs} p : ok D objs (Post p).
Proof. unfold Post. ok_tac. Qed.

Lemma ok_run_posted {objs} p : ok ∅ objs (run_posted hash_order p).
Proof.
  pose proof (@ok_ConfigureToplevel objs). pose proof (@ok_CloseToplevel objs).
  pose proof (@ok_ReleaseInFlightOf ∅ objs). pose proof (@ok_ApplyActivation objs).
  destruct p; cbn; auto using ok_run_touch, ok_run_key; ok_tac.
Qed.
Lemma ok_DrainPosted {objs} : ok ∅ objs (DrainPosted hash_order).
Proof. pose proof (@ok_run_posted objs). unfold DrainPosted. ok_tac. Qed.

(** ** Objects that change *)

(** New objects over old: what was there keeps its kind. *)
Lemma wf_objs D s objs' :
  wf D s → (∀ x v, shape (sv_objs s) !! x = Some v → shape objs' !! x = Some v) →
  wf_tid (shape objs') (sv_toplevels s) → wf_handle (shape objs') →
  wf_surf D objs' → wf_xdg objs' → wf_cb D objs' → wf D (set_sv_objs objs' s).
Proof.
  intros (H1&_&H3&_&_&_&H7&H8&H9&H10&H11&H12&H13&H14&H15&_&H17) Hm K1 K2 K3 K4 K5.
  assert (∀ k r, live (shape (sv_objs s)) k r → live (shape objs') k r) as Hl.
  { intros k r [c Hc]. exists c. by apply Hm. }
  unfold wf. cbn. split_and!; try done.
  - intros id rec Hrec. destruct (H1 id rec Hrec) as (E1 & (c & E2 & E3) & E4). split_and!; [done| |].
    + exists c. split; [by apply Hm|]. intros HD. apply Hm. by apply E3.
    + intros u Hu. by apply Hl, E4.
  - intros b Hb. destruct (H9 b Hb) as [k Hk]. exists k. by apply Hl.
  - intros r Hr. by apply Hl, H11.
  - intros r Hr. by apply Hl, H12.
  - intros r Hr. by apply Hl, H13.
  - intros r Hr. by apply Hl, H14.
  - intros r Hr. by apply Hl, H15.
Qed.

(** *** One object is updated in place *)

Lemma wf_upd_surface D s r c u u' :
  wf D s → sv_objs s !! r = Some (mkRes c (OSurface u)) →
  surf_ok D (sv_objs s) r c u' → su_xdg u' = su_xdg u →
  (∀ cb r' c' v, r ∉ D → r' ∉ D → ps_frameCallback (su_pending u') = Some cb → r' ≠ r →
     sv_objs s !! r' = Some (mkRes c' (OSurface v)) → ps_frameCallback (su_pending v) ≠ Some cb) →
  wf D (set_sv_objs (<[r := mkRes c (OSurface u')]> (sv_objs s)) s).
Proof.
  intros Hwf Hr Hu' Hx Hcb. pose proof Hwf as (_&H2&_&H4&H5&H6&_&_&_&_&_&_&_&_&_&H16&_).
  pose proof (shape_same (sv_objs s) r c (OSurface u) (OSurface u') Hr eq_refl) as Hsh.
  apply wf_objs; [done|by rewrite Hsh|by rewrite Hsh|by rewrite Hsh| | |].
  - intros r' c' v. rewrite lookup_insert_Some. intros [[<- [= <- <-]]|[Hne Hv]].
    + destruct Hu' as (K1 & K2 & K3 & K4). unfold surf_ok. rewrite Hsh. split_and!; try done.
      intros x Hxs. destruct (K1 x Hxs) as (xs & Hxo & Hxs'). exists xs. split; [|done].
      rewrite lookup_insert_ne; [done|]. intros <-. by rewrite Hr in Hxo.
    + destruct (H4 _ _ _ Hv) as (K1 & K2 & K3 & K4). unfold surf_ok. rewrite Hsh. split_and!; try done.
      intros x Hxs. destruct (K1 x Hxs) as (xs & Hxo & Hxs'). exists xs. split; [|done].
      rewrite lookup_insert_ne; [done|]. intros <-. by rewrite Hr in Hxo.
  - intros x c' xs v Hxo Hxs. rewrite lookup_insert_Some in Hxo. destruct Hxo as [[_ ?]|[Hne Hxo]]; [done|].
    destruct (H5 _ _ _ _ Hxo Hxs) as (su & Hsu & Hsx). destruct (decide (v = r)) as [->|Hvr].
    + rewrite Hr in Hsu. injection Hsu as <- <-. exists u'. rewrite lookup_insert_eq Hx. done.
    + exists su. by rewrite lookup_insert_ne.
  - intros r1 c1 u1 r2 c2 u2 cb. rewrite !lookup_insert_Some.
    intros [[<- [= <- <-]]|[Hn1 Hr1]] [[<- [= <- <-]]|[Hn2 Hr2]] HD1 HD2 K1 K2; [done| | |by eapply H6].
    + by destruct (Hcb cb r2 c2 u2 HD1 HD2 K1 (not_eq_sym Hn2) Hr2).
    + by destruct (Hcb cb r1 c1 u1 HD2 HD1 K2 (not_eq_sym Hn1) Hr1).
Qed.
(** A change that leaves what is pending alone. *)
Lemma wf_upd_surface_soft D s r c u u' :
  wf D s → sv_objs s !! r = Some (mkRes c (OSurface u)) →
  su_xdg u' = su_xdg u → su_pending u' = su_pending u → su_current u' = su_current u ∨ su_current u' = None →
  wf D (set_sv_objs (<[r := mkRes c (OSurface u')]> (sv_objs s)) s).
Proof.
  intros Hwf Hr Hx Hp Hcur. pose proof Hwf as (_&_&_&H4&_&H6&_).
  eapply wf_upd_surface; [done|done| |done|].
  - destruct (H4 _ _ _ Hr) as (K1 & K2 & K3 & K4). unfold surf_ok. rewrite Hx Hp. split_and!; try done.
    intros b HD Hb. apply K2; [done|]. destruct Hcur as [E|E]; congruence.
  - intros cb r' c' v HD HD' Hcb Hne Hv Hv'. rewrite Hp in Hcb. apply Hne. symmetry.
    by eapply (H6 r c u r' c' v cb).
Qed.

Lemma safe_upd_surface r f (Q : unit → Server → Prop) s c u :
  sv_objs s !! r = Some (mkRes c (OSurface u)) →
  Q tt (set_sv_objs (<[r := mkRes c (OSurface (f u))]> (sv_objs s)) s) → safe (upd_surface r f) Q s.
Proof.
  intros Hr HQ. unfold safe, upd_surface, get_surface, put_obj, fbind, get_obj. rewrite Hr. cbn.
  rewrite Hr. exact HQ.
Qed.
Lemma safe_get_surface r (Q : Surface → Server → Prop) s c u :
  sv_objs s !! r = Some (mkRes c (OSurface u)) → Q u s → safe (get_surface r) Q s.
Proof. intros Hr HQ. unfold safe, get_surface, fbind, get_obj. by rewrite Hr. Qed.
Lemma safe_put_obj r o (Q : unit → Server → Prop) s c o0 :
  sv_objs s !! r = Some (mkRes c o0) → Q tt (set_sv_objs (<[r := mkRes c o]> (sv_objs s)) s) →
  safe (put_obj r o) Q s.
Proof. intros Hr HQ. unfold safe, put_obj, fbind, get_obj. by rewrite Hr. Qed.
Lemma idle_upd objs r c u : idle objs → su_current u = None → idle (<[r := mkRes c (OSurface u)]> objs).
Proof.
  intros H Hu r' c' u'. rewrite lookup_insert_Some. intros [[_ [= _ <-]]|[_ H']]; [done|by eapply H].
Qed.
Lemma idle_other objs r c o : idle objs → is_surface o = false → idle (<[r := mkRes c o]> objs).
Proof.
  intros H Ho r' c' u'. rewrite lookup_insert_Some. intros [[_ [= _ ->]]|[_ H']]; [done|by eapply H].
Qed.

(** *** A surface and its role part *)

Definition unlinked (objs : gmap Z Resource) (c u x : Z) (su : Surface) (xs : XdgSurface) :=
  <[u := mkRes c (OSurface (set_su_xdg None su))]>
    (<[x := mkRes c (OXdgSurface (mkXdg None (xs_toplevelId xs)))]> objs).
Lemma wf_unlink D s c u x su xs :
  wf D s → sv_objs s !! u = Some (mkRes c (OSurface su)) → su_xdg su = Some x →
  sv_objs s !! x = Some (mkRes c (OXdgSurface xs)) → xs_surface xs = Some u →
  wf D (set_sv_objs (unlinked (sv_objs s) c u x su xs) s).
Proof.
  intros Hwf Hu Hsx Hx Hxu. pose proof Hwf as (_&H2&_&H4&H5&H6&_&_&_&_&_&_&_&_&_&H16&_).
  assert (u ≠ x) as Hux by (intros ->; by rewrite Hu in Hx).
  assert (shape (unlinked (sv_objs s) c u x su xs) = shape (sv_objs s)) as Hsh.
  { unfold unlinked. erewrite shape_same; [|by rewrite lookup_insert_ne|done].
    by erewrite shape_same. }
  assert (∀ r c' v, unlinked (sv_objs s) c u x su xs !! r = Some (mkRes c' (OSurface v)) →
    ∃ v0, sv_objs s !! r = Some (mkRes c' (OSurface v0)) ∧ su_pending v = su_pending v0 ∧
          su_current v = su_current v0 ∧ (∀ y, su_xdg v = Some y → su_xdg v0 = Some y ∧ y ≠ x)) as Hs.
  { intros r c' v. unfold unlinked. rewrite lookup_insert_Some. intros [[<- [= <- <-]]|[Hne Hv]].
    - exists su. split_and!; done.
    - rewrite lookup_insert_Some in Hv. destruct Hv as [[_ ?]|[Hnx Hv]]; [done|].
      exists v. split_and!; try done. intros y Hy. split; [done|]. intros ->.
      destruct (H4 _ _ _ Hv) as (K1 & _). destruct (K1 x Hy) as (xs' & Hx' & Hxs').
      rewrite Hx in Hx'. injection Hx' as <- <-. congruence. }
  apply wf_objs; [done|by rewrite Hsh|by rewrite Hsh|by rewrite Hsh| | |].
  - intros r c' v Hv. destruct (Hs _ _ _ Hv) as (v0 & Hv0 & Ep & Ec & Ex).
    destruct (H4 _ _ _ Hv0) as (K1 & K2 & K3 & K4). unfold surf_ok. rewrite Hsh Ep Ec. split_and!; try done.
    intros y Hy. destruct (Ex y Hy) as [Hy0 Hne]. destruct (K1 y Hy0) as (xs' & Hxo & Hxs').
    exists xs'. split; [|done]. unfold unlinked. rewrite lookup_insert_ne; [by rewrite lookup_insert_ne|].
    intros <-. by rewrite Hu in Hxo.
  - intros y c' ys v Hy Hys. unfold unlinked in Hy. rewrite lookup_insert_Some in Hy.
    destruct Hy as [[_ ?]|[Hne Hy]]; [done|]. rewrite lookup_insert_Some in Hy.
    destruct Hy as [[_ [= _ <-]]|[Hne' Hy]]; [done|].
    destruct (H5 _ _ _ _ Hy Hys) as (v0 & Hv0 & Hv0x). exists v0. split; [|done].
    unfold unlinked. rewrite lookup_insert_ne; [rewrite lookup_insert_ne; [done|]|].
    + intros <-. by rewrite Hx in Hv0.
    + intros <-. rewrite Hu in Hv0. injection Hv0 as <- <-. congruence.
  - intros r1 c1 u1 r2 c2 u2 cb Hr1 Hr2 HD1 HD2 E1 E2.
    destruct (Hs _ _ _ Hr1) as (v1 & Hv1 & Ep1 & _). destruct (Hs _ _ _ Hr2) as (v2 & Hv2 & Ep2 & _).
    rewrite Ep1 in E1. rewrite Ep2 in E2. by eapply (H6 r1 c1 v1 r2 c2 v2 cb).
Qed.

(** *** A new object *)

Definition pointerless (o : Obj) : Prop :=
  match o with
  | OSurface u => u = Surface_new
  | OXdgSurface x => xs_surface x = None
  | OToplevel _ => False
  | OBuffer b => importable b = true
  | _ => True
  end.
Lemma shape_grows objs r c o :
  objs !! r = None → ∀ x v, shape objs !! x = Some v → shape (<[r := mkRes c o]> objs) !! x = Some v.
Proof.
  intros Hr x v Hx. rewrite shape_insert lookup_insert_ne; [done|]. intros <-.
  destruct v as [c' k]. apply shape_at in Hx as (o' & Ho & _). congruence.
Qed.
Lemma surf_ok_grows D objs r c o x c' u :
  objs !! r = None → surf_ok D objs x c' u → surf_ok D (<[r := mkRes c o]> objs) x c' u.
Proof.
  intros Hr (K1 & K2 & K3 & K4). pose proof (shape_grows objs r c o Hr) as Hg. split_and!.
  - intros y Hy. destruct (K1 y Hy) as (ys & Hys & E). exists ys. split; [|done].
    rewrite lookup_insert_ne; [done|]. congruence.
  - intros b HD Hb. destruct (K2 b HD Hb) as [k Hk]. eauto.
  - intros b HD Hc Hb. destruct (K3 b HD Hc Hb) as [k Hk]. eauto.
  - eauto.
Qed.
Lemma wf_new D s r c o :
  wf D s → sv_objs s !! r = None → pointerless o →
  wf D (set_sv_objs (<[r := mkRes c o]> (sv_objs s)) s).
Proof.
  intros Hwf Hr Ho. pose proof Hwf as (_&H2&_&H4&H5&H6&_&_&_&_&_&_&_&_&_&H16&_).
  pose proof (shape_grows (sv_objs s) r c o Hr) as Hg.
  apply wf_objs; [done|done| | | | |].
  - intros x c' tid. rewrite shape_insert lookup_insert_Some. intros [[<- [= <- Hk]]|[_ Hx]].
    + by destruct o.
    + by eapply H2.
  - intros x b [c' Hx]. rewrite shape_insert lookup_insert_Some in Hx.
    destruct Hx as [[<- [= <- Hk]]|[_ Hx]].
    + destruct o; try done. cbn in Hk. by injection Hk as <-.
    + eapply H16. by exists c'.
  - intros x c' u. rewrite lookup_insert_Some. intros [[<- [= <- ->]]|[_ Hx]].
    + cbn in Ho. subst u. by split_and!.
    + apply surf_ok_grows; [done|]. by apply H4.
  - intros x c' xs u. rewrite lookup_insert_Some. intros [[<- [= <- ->]]|[_ Hx]] Hu.
    + cbn in Ho. congruence.
    + destruct (H5 _ _ _ _ Hx Hu) as (su & Hsu & E). exists su. split; [|done].
      rewrite lookup_insert_ne; [done|]. congruence.
  - intros r1 c1 u1 r2 c2 u2 cb. rewrite !lookup_insert_Some.
    intros [[<- [= <- ->]]|[Hn1 Hr1]] [[<- E]|[Hn2 Hr2]] HD1 HD2 K1 K2; [done| | |by eapply H6].
    + cbn in Ho. by subst u1.
    + injection E as <- ->. cbn in Ho. by subst u2.
Qed.
Lemma idle_new objs r c o : idle objs → pointerless o → idle (<[r := mkRes c o]> objs).
Proof.
  intros H Ho r' c' u'. rewrite lookup_insert_Some. intros [[_ [= _ ->]]|[_ H']]; [|by eapply H].
  cbn in Ho. by subst u'.
Qed.

(** The xdg role of a surface that has none. *)
Lemma wf_new_xdg D s r c u su :
  wf D s → sv_objs s !! r = None → sv_objs s !! u = Some (mkRes c (OSurface su)) → su_xdg su = None →
  wf D (set_sv_objs (<[u := mkRes c (OSurface (set_su_xdg (Some r) su))]>
         (<[r := mkRes c (OXdgSurface (mkXdg (Some u) 0))]> (sv_objs s))) s).
Proof.
  intros Hwf Hr Hu Hx. pose proof Hwf as (_&H2&_&H4&H5&H6&_&_&_&_&_&_&_&_&_&H16&_).
  assert (u ≠ r) as Hur by congruence. set (o := OXdgSurface (mkXdg (Some u) 0)).
  set (objs' := <[u := _]> _).
  assert (shape objs' = shape (<[r := mkRes c o]> (sv_objs s))) as Hsh.
  { unfold objs'. erewrite shape_same; [done|by rewrite lookup_insert_ne|done]. }
  pose proof (shape_grows (sv_objs s) r c o Hr) as Hg. rewrite -Hsh in Hg.
  assert (∀ x c' v, objs' !! x = Some (mkRes c' (OSurface v)) →
    ∃ v0, sv_objs s !! x = Some (mkRes c' (OSurface v0)) ∧ su_pending v = su_pending v0 ∧
          su_current v = su_current v0 ∧ ((x = u ∧ c' = c ∧ su_xdg v = Some r) ∨ (x ≠ u ∧ v = v0))) as Hs.
  { intros x c' v. unfold objs'. rewrite !lookup_insert_Some.
    intros [[<- [= <- <-]]|[Hn [[_ ?]|[_ Hv]]]]; [|done|]; eauto 10. }
  apply wf_objs; [done|done| | | | |].
  - intros x c' tid. rewrite Hsh shape_insert lookup_insert_Some. intros [[_ ?]|[_ H]]; [done|by eapply H2].
  - intros x b [c' Hb]. rewrite Hsh shape_insert lookup_insert_Some in Hb.
    destruct Hb as [[_ ?]|[_ Hb]]; [done|]. eapply H16. by exists c'.
  - intros x c' v Hv. destruct (Hs _ _ _ Hv) as (v0 & Hv0 & Ep & Ec & Ex).
    destruct (H4 _ _ _ Hv0) as (K1 & K2 & K3 & K4). unfold surf_ok. rewrite Ep Ec. split_and!.
    + intros y Hy. destruct Ex as [(-> & -> & E)|[Hn ->]].
      * rewrite E in Hy. injection Hy as <-. exists (mkXdg (Some u) 0). unfold objs'.
        rewrite lookup_insert_ne; [|done]. by rewrite lookup_insert_eq.
      * destruct (K1 y Hy) as (ys & Hys & E). exists ys. split; [|done]. unfold objs'.
        rewrite !lookup_insert_ne; [done|congruence..].
    + intros b HD Hb. destruct (K2 b HD Hb) as [k Hk]. eauto.
    + intros b HD Hc Hb. destruct (K3 b HD Hc Hb) as [k Hk]. eauto.
    + eauto.
  - intros x c' xs v. unfold objs'. rewrite !lookup_insert_Some.
    intros [[_ ?]|[Hn [[<- [= <- <-]]|[Hn' Hxo]]]] Hv; [done| |].
    + injection Hv as <-. eexists. by rewrite lookup_insert_eq.
    + destruct (H5 _ _ _ _ Hxo Hv) as (v0 & Hv0 & E). exists v0. split; [|done].
      rewrite !lookup_insert_ne; [done|congruence..].
  - intros r1 c1 u1 r2 c2 u2 cb Hr1 Hr2 HD1 HD2 E1 E2.
    destruct (Hs _ _ _ Hr1) as (v1 & Hv1 & Ep1 & _). destruct (Hs _ _ _ Hr2) as (v2 & Hv2 & Ep2 & _).
    rewrite Ep1 in E1. rewrite Ep2 in E2. by eapply (H6 r1 c1 v1 r2 c2 v2 cb).
Qed.

(** A toplevel with a number of its own. *)
Lemma wf_new_toplevel D s r c x xs rec :
  wf D s → sv_objs s !! r = None → sv_objs s !! x = Some (mkRes c (OXdgSurface xs)) →
  sv_nextToplevelId s < 2 ^ 32 - 1 →
  ti_id (tr_info rec) = sv_nextToplevelId s → tr_toplevel rec = r → tr_xdgSurface rec = x →
  (∀ u, tr_surface rec = Some u → live (shape (sv_objs s)) KSurface u) →
  wf D (set_sv_nextToplevelId (u32 (sv_nextToplevelId s + 1))
    (set_sv_toplevels (<[sv_nextToplevelId s := rec]> (sv_toplevels s))
    (set_sv_objs (<[r := mkRes c (OToplevel (sv_nextToplevelId s))]> (sv_objs s)) s))).
Proof.
  intros Hwf Hr Hx Hlt Hid Hrt Hrx Hru.
  destruct Hwf as (H1&H2&[H3 H3']&H4&H5&H6&H7&H8&H9&H10&H11&H12&H13&H14&H15&H16&H17).
  set (n := sv_nextToplevelId s) in *.
  pose proof (shape_grows (sv_objs s) r c (OToplevel n) Hr) as Hg.
  assert (∀ k y, live (shape (sv_objs s)) k y → live (shape (<[r := mkRes c (OToplevel n)]> (sv_objs s))) k y)
    as Hl by (intros k y [c' Hc]; eexists; eauto).
  assert (sv_toplevels s !! n = None) as Hn.
  { destruct (sv_toplevels s !! n) eqn:E; [|done]. destruct (H3' _ _ E). lia. }
  remember (<[r := mkRes c (OToplevel n)]> (sv_objs s)) as objs' eqn:Ho.
  remember (<[n := rec]> (sv_toplevels s)) as tops' eqn:Ht.
  unfold wf. cbn. split_and!; try done; subst objs' tops'.
  - intros id rec'. rewrite lookup_insert_Some. intros [[<- <-]|[Hne Hrec]].
    + split_and!; [done| |].
      * exists c. rewrite Hrt. split; [by rewrite shape_insert lookup_insert_eq|]. intros _.
        apply Hg. rewrite Hrx. apply shape_xdg. eauto.
      * intros u Hu. by apply Hl, Hru.
    + destruct (H1 _ _ Hrec) as (E1 & (c' & E2 & E3) & E4). split_and!; [done| |].
      * exists c'. split; [by apply Hg|]. intros HD. by apply Hg, E3.
      * intros u Hu. by apply Hl, E4.
  - intros y c' tid. rewrite shape_insert lookup_insert_Some. intros [[<- [= <- <-]]|[Hne Hy]].
    + exists rec. by rewrite lookup_insert_eq.
    + destruct (H2 _ _ _ Hy) as (rec' & Hrec & E). exists rec'. split; [|done].
      rewrite lookup_insert_ne; [done|]. congruence.
  - rewrite /u32 Z.mod_small; [|lia]. split; [lia|]. intros id rec'. rewrite lookup_insert_Some.
    intros [[<- _]|[_ Hrec]]; [lia|]. destruct (H3' _ _ Hrec). lia.
  - intros y c' u. rewrite lookup_insert_Some. intros [[_ ?]|[_ Hy]]; [done|].
    apply surf_ok_grows; [done|]. by apply H4.
  - intros y c' ys u. rewrite lookup_insert_Some. intros [[_ ?]|[_ Hy]] Hu; [done|].
    destruct (H5 _ _ _ _ Hy Hu) as (su & Hsu & E). exists su. split; [|done].
    rewrite lookup_insert_ne; [done|]. congruence.
  - intros r1 c1 u1 r2 c2 u2 cb. rewrite !lookup_insert_Some.
    intros [[_ ?]|[_ Hr1]] [[_ ?]|[_ Hr2]]; [done..|]. by eapply H6.
  - intros b Hb. destruct (H9 b Hb) as [k Hk]. exists k. by apply Hl.
  - intros y Hy. by apply Hl, H11.
  - intros y Hy. by apply Hl, H12.
  - intros y Hy. by apply Hl, H13.
  - intros y Hy. by apply Hl, H14.
  - intros y Hy. by apply Hl, H15.
  - intros y b [c' Hb]. rewrite shape_insert lookup_insert_Some in Hb.
    destruct Hb as [[_ ?]|[_ Hb]]; [done|]. eapply H16. by exists c'.
Qed.

(** *** An object is gone *)

(** The toplevels [tops] and the rest of the server do not point to [r]. *)
Definition unref (D : gset Z) (s : Server) (tops : gmap Z ToplevelRec) (r : Z) : Prop :=
  (∀ id rec, tops !! id = Some rec →
     tr_toplevel rec ≠ r ∧ (tr_toplevel rec ∉ D → tr_xdgSurface rec ≠ r) ∧ tr_surface rec ≠ Some r) ∧
  (∀ x c u, sv_objs s !! x = Some (mkRes c (OSurface u)) →
     su_xdg u ≠ Some r ∧
     (x ∉ D → su_current u ≠ Some r ∧
        (ps_bufferChanged (su_pending u) = true → ps_buffer (su_pending u) ≠ Some r) ∧
        ps_frameCallback (su_pending u) ≠ Some r)) ∧
  (∀ x c xs, sv_objs s !! x = Some (mkRes c (OXdgSurface xs)) → xs_surface xs ≠ Some r) ∧
  (r ∉ sv_watchedBuffers s) ∧ (r ∉ sv_touchResources s) ∧ (r ∉ sv_keyboardResources s) ∧
  (r ∉ sv_outputResources s) ∧ sv_inputSurface s ≠ Some r ∧ sv_keyboardFocus s ≠ Some r.
Definition loose (D : gset Z) (s : Server) (tops : gmap Z ToplevelRec) (r : Z) (o : Obj) : Prop :=
  match o with
  | OSurface u => (∀ id rec, tops !! id = Some rec → tr_surface rec ≠ Some r) ∧ su_xdg u = None ∧
      sv_inputSurface s ≠ Some r ∧ sv_keyboardFocus s ≠ Some r
  | OXdgSurface xs => xs_surface xs = None ∧
      ∀ id rec, tops !! id = Some rec → tr_toplevel rec ∉ D → tr_xdgSurface rec ≠ r
  | OToplevel tid => tops !! tid = None
  | OBuffer _ => (r ∉ sv_watchedBuffers s) ∧
      ∀ x c u, sv_objs s !! x = Some (mkRes c (OSurface u)) → x ∉ D → su_current u ≠ Some r ∧
        (ps_bufferChanged (su_pending u) = true → ps_buffer (su_pending u) ≠ Some r)
  | OTouch => r ∉ sv_touchResources s
  | OKeyboard => r ∉ sv_keyboardResources s
  | OOutput => r ∉ sv_outputResources s
  | OCallback => ∀ x c u, sv_objs s !! x = Some (mkRes c (OSurface u)) → x ∉ D →
      ps_frameCallback (su_pending u) ≠ Some r
  | OOther => True
  end.
Lemma live_kind objs r c o k : objs !! r = Some (mkRes c o) → live (shape objs) k r → kind_of o = k.
Proof. intros Hr [c' (o' & Ho & <-)%shape_at]. congruence. Qed.
Lemma shape_kind objs r c o c' k :
  objs !! r = Some (mkRes c o) → shape objs !! r = Some (c', k) → c' = c ∧ kind_of o = k.
Proof. intros Hr (o' & Ho & <-)%shape_at. rewrite Hr in Ho. by injection Ho as <- <-. Qed.

Lemma loose_unref D s tops r c o :
  wf D s → (∀ id rec, tops !! id = Some rec → sv_toplevels s !! id = Some rec) →
  sv_objs s !! r = Some (mkRes c o) → loose D s tops r o → unref D s tops r.
Proof.
  intros (H1&_&_&H4&H5&_&_&_&H9&_&H11&H12&H13&H14&H15&_&_) Hsub Hr Hl.
  pose proof (λ k, live_kind (sv_objs s) r c o k Hr) as Hk.
  pose proof (λ c' k, shape_kind (sv_objs s) r c o c' k Hr) as Hk'.
  unfold unref. split_and!.
  - intros id rec Hrec. pose proof (Hsub _ _ Hrec) as Hrec'.
    destruct (H1 _ _ Hrec') as (_ & (c' & E2 & E3) & E4). split_and!.
    + intros E. rewrite E in E2. destruct (Hk' _ _ E2) as [_ E']. destruct o; try done.
      cbn in E', Hl. injection E' as ->. congruence.
    + intros HD E. pose proof (E3 HD) as E3'. rewrite E in E3'. destruct (Hk' _ _ E3') as [_ E'].
      destruct o; try done. destruct Hl as [_ Hl]. by eapply Hl.
    + intros E. pose proof (Hk _ (E4 _ E)) as E'. destruct o; try done. destruct Hl as [Hl _]. by eapply Hl.
  - intros x c' u Hx. destruct (H4 _ _ _ Hx) as (K1 & K2 & K3 & K4). split; [|intros HD; split_and!].
    + intros E. destruct (K1 _ E) as (xs & Hxs & Exs). rewrite Hr in Hxs. injection Hxs as -> ->.
      cbn in Hl. destruct Hl as [Hl _]. congruence.
    + intros E. destruct (K2 _ HD E) as [k Hkk]. destruct (Hk' _ _ Hkk) as [_ E'].
      destruct o; try done. by apply (proj1 (proj2 Hl _ _ _ Hx HD)).
    + intros Ec E. destruct (K3 _ HD Ec E) as [k Hkk]. destruct (Hk' _ _ Hkk) as [_ E'].
      destruct o; try done. by apply (proj2 (proj2 Hl _ _ _ Hx HD) Ec).
    + intros E. destruct (Hk' _ _ (K4 _ HD E)) as [_ E']. destruct o; try done. by eapply Hl.
  - intros x c' xs Hx E. destruct (H5 _ _ _ _ Hx E) as (su & Hsu & Ex). rewrite Hr in Hsu.
    injection Hsu as -> ->. cbn in Hl. destruct Hl as (_ & Hl & _). congruence.
  - intros E. destruct (H9 _ E) as [b Hb]. pose proof (Hk _ Hb). destruct o; try done. by destruct Hl as [Hl _].
  - intros E. pose proof (Hk _ (H11 _ E)). by destruct o.
  - intros E. pose proof (Hk _ (H12 _ E)). by destruct o.
  - intros E. pose proof (Hk _ (H13 _ E)). by destruct o.
  - intros E. pose proof (Hk _ (H14 _ E)). destruct o; try done. by destruct Hl as (_ & _ & Hl & _).
  - intros E. pose proof (Hk _ (H15 _ E)). destruct o; try done. by destruct Hl as (_ & _ & _ & Hl).
Qed.

Lemma shape_del objs r x v : shape objs !! x = Some v → x ≠ r → shape (delete r objs) !! x = Some v.
Proof. intros Hx Hne. by rewrite shape_delete lookup_delete_ne. Qed.
Lemma live_del objs r k x : live (shape objs) k x → x ≠ r → live (shape (delete r objs)) k x.
Proof. intros [c Hc] Hne. exists c. by apply shape_del. Qed.
Lemma surf_ok_del D s tops r x c u :
  unref D s tops r → sv_objs s !! x = Some (mkRes c (OSurface u)) →
  surf_ok D (sv_objs s) x c u → surf_ok D (delete r (sv_objs s)) x c u.
Proof.
  intros (_ & U & _) Hx (K1 & K2 & K3 & K4). destruct (U _ _ _ Hx) as (U1 & U2). split_and!.
  - intros y Hy. destruct (K1 y Hy) as (ys & Hys & E). exists ys. split; [|done].
    rewrite lookup_delete_ne; [done|]. congruence.
  - intros b HD Hb. destruct (K2 b HD Hb) as [k Hk]. exists k. apply shape_del; [done|].
    destruct (U2 HD) as (U2a & _). congruence.
  - intros b HD Hc Hb. destruct (K3 b HD Hc Hb) as [k Hk]. exists k. apply shape_del; [done|].
    destruct (U2 HD) as (_ & U2b & _). pose proof (U2b Hc). congruence.
  - intros cb HD Hb. apply shape_del; [by apply K4|]. destruct (U2 HD) as (_ & _ & U2c). congruence.
Qed.
Lemma wf_gone D s tops r :
  wf D s → (∀ id rec, tops !! id = Some rec → sv_toplevels s !! id = Some rec) →
  (∀ x c tid, x ≠ r → shape (sv_objs s) !! x = Some (c, KToplevel tid) → tops !! tid = sv_toplevels s !! tid) →
  unref D s tops r →
  wf D (set_sv_objs (delete r (sv_objs s)) (set_sv_toplevels tops s)).
Proof.
  intros (H1&H2&[H3 H3']&H4&H5&H6&H7&H8&H9&H10&H11&H12&H13&H14&H15&H16&H17) Hsub Hkeep Hun.
  pose proof Hun as (U1&U2&U3&U4&U5&U6&U7&U8&U9).
  remember (delete r (sv_objs s)) as objs' eqn:Ho. unfold wf. cbn. split_and!; try done; subst objs'.
  - intros id rec Hrec. destruct (U1 _ _ Hrec) as (V1 & V2 & V3).
    destruct (H1 _ _ (Hsub _ _ Hrec)) as (E1 & (c' & E2 & E3) & E4). split_and!; [done| |].
    + exists c'. split; [by apply shape_del|]. intros HD. apply shape_del; auto.
    + intros u Hu. apply live_del; [by apply E4|]. congruence.
  - intros x c tid. rewrite shape_delete lookup_delete_Some. intros [Hne Hx].
    destruct (H2 _ _ _ Hx) as (rec & Hrec & E). exists rec. by erewrite Hkeep.
  - split; [done|]. intros id rec Hrec. eauto.
  - intros x c u. rewrite lookup_delete_Some. intros [Hne Hx]. eapply surf_ok_del; [done..|]. by apply H4.
  - intros x c xs u. rewrite lookup_delete_Some. intros [Hne Hx] Hu.
    destruct (H5 _ _ _ _ Hx Hu) as (su & Hsu & E). exists su. split; [|done].
    rewrite lookup_delete_ne; [done|]. intros <-. by destruct (U3 _ _ _ Hx).
  - intros r1 c1 u1 r2 c2 u2 cb. rewrite !lookup_delete_Some. intros [_ Hr1] [_ Hr2]. by eapply H6.
  - intros b Hb. destruct (H9 b Hb) as [k Hk]. exists k. apply live_del; [done|]. congruence.
  - intros x Hx. apply live_del; [by apply H11|]. congruence.
  - intros x Hx. apply live_del; [by apply H12|]. congruence.
  - intros x Hx. apply live_del; [by apply H13|]. congruence.
  - intros x Hx. apply live_del; [by apply H14|]. congruence.
  - intros x Hx. apply live_del; [by apply H15|]. congruence.
  - intros x b [c Hb]. rewrite shape_delete lookup_delete_Some in Hb. eapply H16. exists c. apply Hb.
Qed.
Lemma wf_gone_same D s r c o :
  wf D s → sv_objs s !! r = Some (mkRes c o) → loose D s (sv_toplevels s) r o →
  wf D (set_sv_objs (delete r (sv_objs s)) s).
Proof.
  intros Hwf Hr Hl. apply (wf_gone D s (sv_toplevels s) r); try done.
  by eapply loose_unref.
Qed.
Lemma idle_del objs r : idle objs → idle (delete r objs).
Proof. intros H x c u. rewrite lookup_delete_Some. intros [_ Hx]. by eapply H. Qed.

(** ** Destruction *)

Definition gone (D : gset Z) (r : Z) (s s' : Server) : Prop :=
  wf D s' ∧ idle (sv_objs s') ∧ shape (sv_objs s') = delete r (shape (sv_objs s)).

Lemma safe_DropInputSurface {D objs} u s :
  I D objs s →
  safe (DropInputSurface u) (λ _ s', I D objs s' ∧ sv_inputSurface s' ≠ Some u ∧
    sv_keyboardFocus s' ≠ Some u ∧
    ∀ id rec, sv_toplevels s' !! id = Some rec → tr_surface rec ≠ Some u) s.
Proof.
  intros [Hwf Ho]. unfold DropInputSurface. apply safe_bind, safe_mod, safe_bind, safe_mod, safe_mod.
  set (drop := λ rec, if bool_decide (tr_surface rec = Some u)
                      then set_tr_entered false (set_tr_surface None rec) else rec).
  assert (∀ rec, ti_id (tr_info (drop rec)) = ti_id (tr_info rec) ∧ tr_toplevel (drop rec) = tr_toplevel rec ∧
    tr_xdgSurface (drop rec) = tr_xdgSurface rec ∧
    (∀ v, tr_surface (drop rec) = Some v → tr_surface rec = Some v ∧ v ≠ u)) as Hdrop.
  { intros rec. unfold drop. case_bool_decide as E; cbn; split_and!; try done.
    intros v Hv. split; [done|]. congruence. }
  set (s1 := if bool_decide (sv_inputSurface s = Some u) then _ else s).
  set (s2 := if bool_decide (sv_keyboardFocus s1 = Some u) then _ else s1).
  assert (wf D s1 ∧ sv_inputSurface s1 ≠ Some u ∧ sv_objs s1 = objs) as (Hwf1 & Hi1 & Ho1).
  { unfold s1. case_bool_decide; [|by split_and!]. split_and!; try done.
    destruct Hwf as (?&?&?&?&?&?&?&?&?&?&?&?&?&_&?&?&?). unfold wf. cbn. by split_and!. }
  assert (wf D s2 ∧ sv_inputSurface s2 ≠ Some u ∧ sv_keyboardFocus s2 ≠ Some u ∧ sv_objs s2 = objs)
    as (Hwf2 & Hi2 & Hf2 & Ho2).
  { unfold s2. case_bool_decide; [|by split_and!]. split_and!; try done.
    destruct Hwf1 as (?&?&?&?&?&?&?&?&?&?&?&?&?&?&_&?&?). unfold wf. cbn. by split_and!. }
  clearbody s1 s2. cbn. split_and!; try done.
  - split; [|done]. destruct Hwf2 as (H1&H2&[H3 H3']&Hrest).
    assert (∀ id rec, (drop <$> sv_toplevels s2) !! id = Some rec →
      ∃ rec0, sv_toplevels s2 !! id = Some rec0 ∧ rec = drop rec0) as Hl.
    { intros id rec. rewrite lookup_fmap fmap_Some. naive_solver. }
    split; [|split; [|split; [|exact Hrest]]]; cbn.
    + intros id rec (rec0 & Hrec0 & ->)%Hl. destruct (Hdrop rec0) as (-> & -> & -> & E).
      destruct (H1 _ _ Hrec0) as (K1 & K2 & K3). split_and!; try done.
      intros v Hv. apply K3. by apply E.
    + intros r c tid Hr. destruct (H2 _ _ _ Hr) as (rec & Hrec & E). exists (drop rec).
      rewrite lookup_fmap Hrec. split; [done|]. by destruct (Hdrop rec) as (_ & -> & _).
    + split; [done|]. intros id rec (rec0 & Hrec0 & ->)%Hl. eauto.
  - intros id rec. rewrite lookup_fmap fmap_Some. intros (rec0 & Hrec0 & ->) E.
    by destruct (Hdrop rec0) as (_ & _ & _ & Hd); destruct (Hd _ E).
Qed.

Lemma safe_ForgetBuffer {D objs} b s :
  I D objs s → b ∉ sv_releasing s →
  safe (ForgetBuffer hash_order b) (λ _ s', I D objs s' ∧ b ∉ sv_watchedBuffers s') s.
Proof.
  intros [Hwf Ho] Hnr. unfold ForgetBuffer. do 3 apply safe_bind, safe_mod.
  set (s1 := set_sv_releasedPending _ _).
  assert (I D objs s1 ∧ b ∉ sv_watchedBuffers s1) as H1.
  { split; [|cbn; set_solver]. split; [|done].
    destruct Hwf as (?&?&?&?&?&?&H7&[H8 H8']&H9&H10&?&?&?&?&?&?&?). unfold wf, s1. cbn. split_and!; try done.
    - intros sb f. rewrite map_lookup_filter_Some. intros [Hf Hne]. destruct (H7 _ _ Hf) as [cfg Hc].
      exists cfg. by rewrite lookup_delete_ne.
    - split.
      + intros b' sb cfg. rewrite lookup_delete_Some. intros [Hne Hc]. destruct (H8 _ _ _ Hc). set_solver.
      + intros b1 b2 sb c1 c2. rewrite !lookup_delete_Some. intros [_ Hc1] [_ Hc2]. by eapply H8'.
    - intros b' Hb'. apply H9. set_solver.
    - intros b' [[Hne Hb']%list_elem_of_filter|Hb']%elem_of_app.
      + pose proof (H10 b' (proj2 (elem_of_app _ _ _) (or_introl Hb'))). set_solver.
      + pose proof (H10 b' (proj2 (elem_of_app _ _ _) (or_intror Hb'))).
        assert (b' ≠ b) by congruence. set_solver. }
  clearbody s1. clear Hwf Ho Hnr s. rename s1 into s. destruct H1 as [HI Hb].
  eapply safe_seq.
  { unfold out_ResetQueue, get_out. apply safe_bind, safe_get, safe_bind. unfold safe, ask.
    instantiate (1 := λ _ s', I D objs s' ∧ b ∉ sv_watchedBuffers s'). cbn. split; [|done].
    by eapply I_core, HI. }
  intros ? s' [HI' Hb']. apply safe_bind, safe_get.
  eapply safe_mono; [apply (safe_for_each (λ s'', (I D objs s'' ∧ b ∉ sv_watchedBuffers s'') ∧
    sv_windows s'' = sv_windows s'))|by intros ? ? [? _]]; [by split|].
  intros [id w] s'' Hw%elem_walk [[HI'' Hb''] E]. unfold out_ResetQueue, get_out, safe, fbind, ask, rs_log, fmod.
  cbn. rewrite E Hw. cbn. by split_and!.
Qed.

(** What must hold of an object that a request destroys. *)
Definition may_go (D : gset Z) (s : Server) (r : Z) (o : Obj) : Prop :=
  match o with
  | OXdgSurface _ => ∀ id rec, sv_toplevels s !! id = Some rec → tr_toplevel rec ∉ D → tr_xdgSurface rec ≠ r
  | OBuffer _ => (r ∉ sv_releasing s) ∧
      ∀ x c u, sv_objs s !! x = Some (mkRes c (OSurface u)) → x ∉ D →
      ps_bufferChanged (su_pending u) = true → ps_buffer (su_pending u) ≠ Some r
  | OCallback => ∀ x c u, sv_objs s !! x = Some (mkRes c (OSurface u)) → x ∉ D →
      ps_frameCallback (su_pending u) ≠ Some r
  | _ => True
  end.

Lemma gone_same D s s' r c o :
  wf D s' → sv_objs s' = sv_objs s → idle (sv_objs s) → sv_objs s !! r = Some (mkRes c o) →
  loose D s' (sv_toplevels s') r o → gone D r s (set_sv_objs (delete r (sv_objs s')) s').
Proof.
  intros Hwf Ho Hi Hr Hl. split_and!.
  - eapply wf_gone_same; [done|by rewrite Ho|done].
  - cbn. rewrite Ho. by apply idle_del.
  - cbn. by rewrite Ho shape_delete.
Qed.
(** A list of resources forgets one. *)
Lemma filter_out r (l : list Z) : r ∉ filter (λ x, x ≠ r) l.
Proof. by intros [? _]%list_elem_of_filter. Qed.
Lemma wf_list_filter k r l sh : wf_list k l sh → wf_list k (filter (λ x, x ≠ r) l) sh.
Proof. intros H x [_ Hx]%list_elem_of_filter. by apply H. Qed.

Lemma destroy_toplevel D s r c tid :
  wf D s → idle (sv_objs s) → sv_objs s !! r = Some (mkRes c (OToplevel tid)) →
  safe (RemoveToplevel tid) (λ _ s', gone D r s (set_sv_objs (delete r (sv_objs s')) s')) s.
Proof.
  intros Hwf Hi Hr. pose proof Hwf as (H1&H2&_).
  destruct (H2 r c tid) as (rec & Hrec & E); [by apply shape_at; eauto|].
  unfold RemoveToplevel. apply safe_bind, safe_get. rewrite Hrec.
  apply safe_bind, safe_mod, safe_bind, safe_mod, safe_mod.
  assert (wf D (set_sv_objs (delete r (sv_objs s)) (set_sv_toplevels (delete tid (sv_toplevels s)) s))) as Hw.
  { assert (∀ id rec', delete tid (sv_toplevels s) !! id = Some rec' → sv_toplevels s !! id = Some rec') as Hsub.
    { intros id rec'. rewrite lookup_delete_Some. by intros [_ ?]. }
    apply wf_gone; [done|done| |].
    - intros x c' t Hne Hx. rewrite lookup_delete_ne; [done|]. intros <-.
      destruct (H2 _ _ _ Hx) as (rec' & Hrec' & E'). congruence.
    - eapply loose_unref; [done|done|done|]. by rewrite /loose lookup_delete_eq. }
  split_and!.
  - cbn. case_match; exact Hw.
  - case_match; by apply idle_del.
  - case_match; by rewrite -shape_delete.
Qed.

Lemma destroy_xdg D s r c xs :
  wf D s → idle (sv_objs s) → sv_objs s !! r = Some (mkRes c (OXdgSurface xs)) →
  may_go D s r (OXdgSurface xs) →
  safe (xdg_destroy xs) (λ _ s', gone D r s (set_sv_objs (delete r (sv_objs s')) s')) s.
Proof.
  intros Hwf Hi Hr Hgo. unfold xdg_destroy. apply safe_opt.
  - intros u Hu. pose proof Hwf as (_&_&_&_&H5&_). destruct (H5 _ _ _ _ Hr Hu) as (su & Hsu & Ex).
    assert (u ≠ r) as Hne by congruence.
    eapply safe_upd_surface; [done|].
    pose proof (wf_unlink D s c u r su xs Hwf Hsu Ex Hr Hu) as Hw.
    pose proof (wf_gone_same D _ r c (OXdgSurface (mkXdg None (xs_toplevelId xs))) Hw) as Hw'.
    unfold unlinked in Hw'. cbn [sv_objs set_sv_objs] in Hw'.
    rewrite delete_insert_ne in Hw'; [|done]. rewrite delete_insert_eq in Hw'.
    rewrite lookup_insert_ne in Hw'; [|done]. rewrite lookup_insert_eq in Hw'.
    unfold gone. cbn [sv_objs set_sv_objs]. rewrite delete_insert_ne; [|done]. split_and!.
    + apply Hw'; [done|]. split; [done|]. exact Hgo.
    + apply idle_upd; [by apply idle_del|]. cbn. by eapply Hi.
    + rewrite shape_insert shape_delete insert_id; [done|]. rewrite lookup_delete_ne; [|done].
      apply shape_surface. eauto.
  - intros E. eapply gone_same; [done..|]. by split.
Qed.

Lemma destroy_surface D s r c u :
  wf D s → idle (sv_objs s) → sv_objs s !! r = Some (mkRes c (OSurface u)) →
  safe (SurfaceResourceDestroy r u) (λ _ s', gone D r s (set_sv_objs (delete r (sv_objs s')) s')) s.
Proof.
  intros Hwf Hi Hr. unfold SurfaceResourceDestroy.
  eapply safe_seq; [by eapply (safe_DropInputSurface (D := D) (objs := sv_objs s))|].
  intros ? s' ([Hwf' Ho] & Hin & Hfo & Htop). rewrite -Ho in Hr. apply safe_opt.
  - intros x Hx. pose proof Hwf' as (_&_&_&H4&_). destruct (H4 _ _ _ Hr) as (K1 & _).
    destruct (K1 _ Hx) as (xs & Hxs & Exs). assert (x ≠ r) as Hne by congruence.
    pose proof (wf_unlink D s' c r x u xs Hwf' Hr Hx Hxs Exs) as Hw.
    pose proof (wf_gone_same D _ r c (OSurface (set_su_xdg None u)) Hw) as Hw'.
    unfold unlinked in Hw'. cbn [sv_objs set_sv_objs] in Hw'.
    rewrite delete_insert_eq delete_insert_ne in Hw'; [|done]. rewrite lookup_insert_eq in Hw'.
    apply safe_bind. unfold safe, get_xdg, fbind, get_obj. rewrite Hxs. cbn.
    eapply safe_put_obj; [done|]. unfold gone. cbn [sv_objs set_sv_objs]. rewrite delete_insert_ne; [|done].
    split_and!.
    + apply Hw'; [done|]. by split_and!.
    + apply idle_other; [|done]. apply idle_del. by rewrite Ho.
    + rewrite shape_insert shape_delete insert_id; [by rewrite Ho|]. rewrite lookup_delete_ne; [|done].
      apply shape_xdg. eauto.
  - intros E. eapply gone_same; [done|done|done|by rewrite -Ho|]. by split_and!.
Qed.

Lemma destroy_ok D s r c o :
  wf D s → idle (sv_objs s) → sv_objs s !! r = Some (mkRes c o) → may_go D s r o →
  safe (wl_resource_destroy hash_order r) (λ _ s', gone D r s s') s.
Proof.
  intros Hwf Hi Hr Hgo. unfold wl_resource_destroy. apply safe_bind. unfold safe, get_obj. rewrite Hr.
  apply safe_bind. change (r_obj (mkRes c o)) with o. destruct o.
  - by eapply destroy_surface.
  - by eapply destroy_xdg.
  - by eapply destroy_toplevel.
  - destruct Hgo as [Hnr Hgo]. apply safe_bind, safe_get. case_bool_decide as Hin.
    + eapply safe_mono; [by eapply (safe_ForgetBuffer (D := D) (objs := sv_objs s))|].
      intros _ s' [[Hwf' Ho] Hnw]. eapply gone_same; [done..|]. split; [done|]. rewrite Ho.
      intros x c' u Hx HD. split; [by rewrite (Hi _ _ _ Hx)|by eapply Hgo].
    + eapply gone_same; [done..|]. split; [done|].
      intros x c' u Hx HD. split; [by rewrite (Hi _ _ _ Hx)|by eapply Hgo].
  - apply safe_mod. eapply gone_same; [|done..|apply filter_out].
    destruct Hwf as (?&?&?&?&?&?&?&?&?&?&H11&?&?&?&?&?&?). unfold wf. cbn. split_and!; try done.
    by apply wf_list_filter.
  - apply safe_mod. eapply gone_same; [|done..|apply filter_out].
    destruct Hwf as (?&?&?&?&?&?&?&?&?&?&?&H12&?&?&?&?&?). unfold wf. cbn. split_and!; try done.
    by apply wf_list_filter.
  - apply safe_mod. eapply gone_same; [|done..|apply filter_out].
    destruct Hwf as (?&?&?&?&?&?&?&?&?&?&?&?&H13&?&?&?&?). unfold wf. cbn. split_and!; try done.
    by apply wf_list_filter.
  - by eapply gone_same.
  - by eapply gone_same.
Qed.

(** No release is taken or sent by it. *)
Lemma destroy_releasing r :
  fkeeps (λ s s', sv_releasing s' = sv_releasing s) (wl_resource_destroy hash_order r).
Proof.
  assert (PreOrder (λ s s' : Server, sv_releasing s' = sv_releasing s)).
  { split; [done|]. intros ? ? ? ? ?. congruence. }
  assert (∀ x, fkeeps (λ s s', sv_releasing s' = sv_releasing s) (get_obj x)) as Ho.
  { intros x s a s'. unfold get_obj. case_match; [|done]. by intros [= _ <-]. }
  assert (∀ o, fkeeps (λ s s', sv_releasing s' = sv_releasing s) (get_out o)) as Hg.
  { intros [|id] s a s'; cbn; [by intros [= _ <-]|]. case_match; [|done]. by intros [= _ <-]. }
  assert (fkeeps (λ s s', sv_releasing s' = sv_releasing s) ask) as Ha by (by intros s a s' [= _ <-]).
  unfold wl_resource_destroy, SurfaceResourceDestroy, xdg_destroy, RemoveToplevel, RemoveTouchResource,
    RemoveKeyboardResource, RemoveOutputResource, DropInputSurface, ForgetBuffer, out_ResetQueue, rs_log,
    upd_surface, get_surface, get_xdg, put_obj, EmitToplevel.
  repeat first [apply Ho|apply Hg|apply Ha|apply fkeeps_mod; intros; by repeat case_match|fkeeps_step].
Qed.

(** ** A client goes away *)

Lemma wf_going D s : wf ∅ s → wf D s.
Proof.
  intros (H1&H2&H3&H4&H5&H6&Hrest). refine (conj _ (conj H2 (conj H3 (conj _ (conj H5 (conj _ Hrest)))))).
  - intros id rec Hrec. destruct (H1 _ _ Hrec) as (E1 & (c & E2 & E3) & E4). split_and!; try done.
    exists c. split; [done|]. intros _. by apply E3.
  - intros r c u Hr. destruct (H4 _ _ _ Hr) as (K1 & K2 & K3 & K4).
    split_and!; [done|intros b _; by apply K2|intros b _; by apply K3|intros cb _; by apply K4].
  - intros r c u r' c' u' cb Hr Hr' _ _. by eapply H6.
Qed.
Lemma wf_went D s : wf D s → (∀ r, r ∈ D → sv_objs s !! r = None) → wf ∅ s.
Proof.
  intros (H1&H2&H3&H4&H5&H6&Hrest) HD.
  assert (∀ r o, sv_objs s !! r = Some o → r ∉ D) as Hl.
  { intros r o Hr Hin. by rewrite (HD r Hin) in Hr. }
  refine (conj _ (conj H2 (conj H3 (conj _ (conj H5 (conj _ Hrest)))))).
  - intros id rec Hrec. destruct (H1 _ _ Hrec) as (E1 & (c & E2 & E3) & E4). split_and!; try done.
    exists c. split; [done|]. intros _. apply E3. apply shape_at in E2 as (o & Ho & _). by eapply Hl.
  - intros r c u Hr. pose proof (Hl _ _ Hr). destruct (H4 _ _ _ Hr) as (K1 & K2 & K3 & K4).
    split_and!; [done|intros b _; by apply K2|intros b _; by apply K3|intros cb _; by apply K4].
  - intros r c u r' c' u' cb Hr Hr' _ _. eapply H6; [done..|by eapply Hl|by eapply Hl].
Qed.

Lemma elem_client_objs s c r k c' :
  shape (sv_objs s) !! r = Some (c', k) → r ∈ client_objs s c ↔ c' = c.
Proof.
  intros (o & Ho & _)%shape_at. unfold client_objs. rewrite elem_of_dom. split.
  - intros [o' [Hr Hc]%map_lookup_filter_Some]. rewrite Ho in Hr. by injection Hr as <-.
  - intros <-. exists (mkRes c' o). by apply map_lookup_filter_Some.
Qed.
Lemma client_objs_live s c r :
  r ∈ client_objs s c → ∃ k, shape (sv_objs s) !! r = Some (c, k).
Proof.
  unfold client_objs. rewrite elem_of_dom. intros [[c' o] [Hr Hc]%map_lookup_filter_Some].
  cbn in Hc. subst c'. exists (kind_of o). apply shape_at. eauto.
Qed.

(** What is left of a client's objects as they are destroyed. *)
Definition leaving (s0 : Server) (c : Z) (l : list Z) (s : Server) : Prop :=
  let D := client_objs s0 c in
  wf D s ∧ idle (sv_objs s) ∧ NoDup l ∧ (∀ r, r ∈ l → r ∈ D ∧ r ∉ sv_releasing s) ∧
  ∀ r v, shape (sv_objs s) !! r = Some v ↔ shape (sv_objs s0) !! r = Some v ∧ (r ∈ D → r ∈ l).
Lemma leaving_same s0 c l s r c' k :
  leaving s0 c l s → shape (sv_objs s) !! r = Some (c', k) → r ∈ client_objs s0 c ↔ c' = c.
Proof. intros (_&_&_&_&H) [H0 _]%H. by eapply elem_client_objs. Qed.
Lemma leaving_may_go s0 c r l s o :
  leaving s0 c (r :: l) s → sv_objs s !! r = Some (mkRes c o) → may_go (client_objs s0 c) s r o.
Proof.
  intros Hl Hr. pose proof Hl as ((H1&_&_&H4&_)&_&_&Hrel&_).
  assert (shape (sv_objs s) !! r = Some (c, kind_of o)) as Hs by (apply shape_at; eauto).
  destruct o; try done; cbn.
  - intros id rec Hrec HD E. destruct (H1 _ _ Hrec) as (_ & (c' & E2 & E3) & _). pose proof (E3 HD) as E3'.
    rewrite E Hs in E3'. injection E3' as <-. by apply HD, (leaving_same _ _ _ _ _ _ _ Hl E2).
  - split; [apply Hrel; by left|].
    intros x c' u Hx HD Hch Hb. destruct (H4 _ _ _ Hx) as (_ & _ & K3 & _).
    destruct (K3 _ HD Hch Hb) as [k Hk]. rewrite Hs in Hk. injection Hk as <- _.
    apply HD, (leaving_same _ _ _ _ _ c KSurface Hl); [|done]. apply shape_surface. eauto.
  - intros x c' u Hx HD Hb. destruct (H4 _ _ _ Hx) as (_ & _ & _ & K4).
    pose proof (K4 _ HD Hb) as Hk. rewrite Hs in Hk. injection Hk as <-.
    apply HD, (leaving_same _ _ _ _ _ c KSurface Hl); [|done]. apply shape_surface. eauto.
Qed.
Lemma leaving_step s0 c r l s :
  leaving s0 c (r :: l) s → safe (wl_resource_destroy hash_order r) (λ _ s', leaving s0 c l s') s.
Proof.
  intros Hl. pose proof Hl as (Hwf & Hi & [Hnd Hnd']%NoDup_cons & Hin & Hsh).
  destruct (client_objs_live s0 c r) as [k Hk]; [by apply Hin; left|].
  assert (shape (sv_objs s) !! r = Some (c, k)) as Hr by (apply Hsh; split; [done|by left]).
  apply shape_at in Hr as (o & Ho & _).
  eapply safe_mono; [eapply safe_keeps; [apply destroy_releasing|eapply destroy_ok; [done|done|done|by eapply leaving_may_go]]|].
  intros _ s' [(Hwf' & Hi' & E) Er]. split_and!; [done..|by intros x Hx; rewrite Er; apply Hin; right|].
  intros x v. rewrite E lookup_delete_Some Hsh. split.
  - intros (Hne & Hx & HxD). split; [done|]. intros HD. pose proof (HxD HD) as Hx'.
    apply list_elem_of_In in Hx'. destruct Hx' as [->|Hx']; [done|]. by apply list_elem_of_In.
  - intros (Hx & HxD). split_and!; [|done|].
    + intros <-. apply Hnd, HxD, Hin. by left.
    + intros HD. right. by apply HxD.
Qed.

(** ** Requests *)

Definition good (s : Server) : Prop := wf ∅ s ∧ idle (sv_objs s).
Definition keeps_good {A} (m : F Server A) (s : Server) : Prop := safe m (λ _ s', good s') s.

Lemma good_ok {A} (m : F Server A) s : (∀ objs, ok ∅ objs m) → good s → keeps_good m s.
Proof.
  intros Hm [Hwf Hi]. eapply safe_mono; [by apply (Hm (sv_objs s))|].
  intros ? s' [Hwf' Ho]. split; [done|by rewrite Ho].
Qed.
(** The same, when the operation needs something of the objects. *)
Lemma good_at {A} (m : F Server A) s : ok ∅ (sv_objs s) m → good s → keeps_good m s.
Proof.
  intros Hm [Hwf Hi]. eapply safe_mono; [by apply Hm|].
  intros ? s' [Hwf' Ho]. split; [done|by rewrite Ho].
Qed.
Lemma owns_spec s c r p : owns s c r p = true → ∃ o, sv_objs s !! r = Some (mkRes c o) ∧ p o = true.
Proof.
  unfold owns. destruct (sv_objs s !! r) as [[c' o]|]; [|done]. cbn. intros [H1 H2]%andb_prop.
  bool_props. subst. eauto.
Qed.
Lemma owns_surface s c r : owns s c r is_surface = true → ∃ u, sv_objs s !! r = Some (mkRes c (OSurface u)).
Proof. intros ([] & Ho & Hp)%owns_spec; try done. eauto. Qed.
Lemma owns_xdg s c r : owns s c r is_xdg = true → ∃ u, sv_objs s !! r = Some (mkRes c (OXdgSurface u)).
Proof. intros ([] & Ho & Hp)%owns_spec; try done. eauto. Qed.
Lemma owns_toplevel s c r : owns s c r is_toplevel = true → ∃ t, sv_objs s !! r = Some (mkRes c (OToplevel t)).
Proof. intros ([] & Ho & Hp)%owns_spec; try done. eauto. Qed.
Lemma owns_buffer s c r : owns s c r is_buffer = true → ∃ b, sv_objs s !! r = Some (mkRes c (OBuffer b)).
Proof. intros ([] & Ho & Hp)%owns_spec; try done. eauto. Qed.

Lemma good_new s r c o :
  good s → sv_objs s !! r = None → pointerless o → good (set_sv_objs (<[r := mkRes c o]> (sv_objs s)) s).
Proof. intros [Hwf Hi] Hr Ho. split; [by apply wf_new|by apply idle_new]. Qed.
Lemma fresh_Some s r : fresh s (Some r) = true → sv_objs s !! r = None.
Proof. unfold fresh. by intros H%bool_decide_eq_true. Qed.
Lemma good_create s c new o :
  good s → fresh s new = true → pointerless o → keeps_good (wl_resource_create c new o) s.
Proof.
  intros Hg Hf Ho. unfold wl_resource_create. apply safe_opt; [|done].
  intros r ->. apply fresh_Some in Hf. apply safe_mod. by apply good_new.
Qed.
(** A resource that is put on one of the server's lists. *)
Lemma good_create_then s c r o (m : F Server unit) :
  good s → fresh s (Some r) = true → pointerless o →
  ok ∅ (<[r := mkRes c o]> (sv_objs s)) m →
  keeps_good (fbind (wl_resource_create c (Some r) o) (λ _, m)) s.
Proof.
  intros Hg Hf%fresh_Some Ho Hm. apply safe_bind, safe_mod. apply good_at; [done|]. by apply good_new.
Qed.
Lemma live_new r c o objs : live (shape (<[r := mkRes c o]> objs)) (kind_of o) r.
Proof. exists c. by rewrite shape_insert lookup_insert_eq. Qed.
Lemma wf_list_snoc k l r sh : wf_list k l sh → live sh k r → wf_list k (l ++ [r]) sh.
Proof.
  intros Hl Hr x [Hx|Hx]%elem_of_app; [by apply Hl|]. apply list_elem_of_singleton in Hx. by subst x.
Qed.
Lemma ok_AddTouch {D objs} r : live (shape objs) KTouch r → ok D objs (AddTouchResource r).
Proof.
  intros Hr. apply ok_mod. intros s [Hwf Ho]. split; [|done].
  destruct Hwf as (?&?&?&?&?&?&?&?&?&?&H11&?&?&?&?&?&?). unfold wf. cbn. split_and!; try done.
  rewrite Ho. rewrite Ho in H11. by apply wf_list_snoc.
Qed.
Lemma ok_AddKeyboard {D objs} r : live (shape objs) KKeyboard r → ok D objs (AddKeyboardResource r).
Proof.
  intros Hr. apply ok_mod. intros s [Hwf Ho]. split; [|done].
  destruct Hwf as (?&?&?&?&?&?&?&?&?&?&?&H12&?&?&?&?&?). unfold wf. cbn. split_and!; try done.
  rewrite Ho. rewrite Ho in H12. by apply wf_list_snoc.
Qed.
Lemma ok_AddOutput {D objs} r : live (shape objs) KOutput r → ok D objs (AddOutputResource r).
Proof.
  intros Hr. apply ok_mod. intros s [Hwf Ho]. split; [|done].
  destruct Hwf as (?&?&?&?&?&?&?&?&?&?&?&?&H13&?&?&?&?). unfold wf. cbn. split_and!; try done.
  rewrite Ho. rewrite Ho in H13. by apply wf_list_snoc.
Qed.
Lemma live_Some sh k r : live sh k r → is_Some (sh !! r).
Proof. intros [c ->]. by eexists. Qed.
Lemma good_OutputBind s c v new :
  good s → fresh s new = true → keeps_good (OutputBind c v new) s.
Proof.
  intros Hg Hf. unfold OutputBind. apply safe_opt; [|done]. intros r ->.
  apply good_create_then; [done..|]. pose proof (live_new r c OOutput (sv_objs s)) as Hl.
  apply ok_bind; [by apply ok_AddOutput|intros _]. apply ok_get. intros cfg.
  assert (∀ e, ev_target e = r → ev_arg e = None →
    ok ∅ (<[r := mkRes c OOutput]> (sv_objs s)) (send e)) as Hs.
  { intros e E1 E2. apply ok_send; [rewrite E1; by eapply live_Some|by rewrite E2]. }
  apply ok_bind; [by apply Hs|intros _]. apply ok_bind; [by apply Hs|intros _].
  case_match; [|apply ok_ret]. apply ok_bind; [by apply Hs|intros _]. by apply Hs.
Qed.
Lemma good_SeatBind s c v new : good s → fresh s new = true → keeps_good (SeatBind c v new) s.
Proof.
  intros Hg Hf. unfold SeatBind. apply safe_opt; [|done]. intros r ->. apply good_create_then; [done..|].
  assert (∀ e, ev_target e = r → ev_arg e = None → ok ∅ (<[r := mkRes c OOther]> (sv_objs s)) (send e)) as Hs.
  { intros e E1 E2. apply ok_send; [rewrite E1; eapply live_Some, live_new|by rewrite E2]. }
  apply ok_bind; [by apply Hs|intros _]. case_match; [by apply Hs|apply ok_ret].
Qed.
Lemma good_SeatGetKeyboard s c new : good s → fresh s new = true → keeps_good (SeatGetKeyboard c new) s.
Proof.
  intros Hg Hf. unfold SeatGetKeyboard. apply safe_opt; [|done]. intros r ->.
  apply good_create_then; [done..|]. apply ok_AddKeyboard, (live_new r c OKeyboard).
Qed.
Lemma good_SeatGetTouch s c new : good s → fresh s new = true → keeps_good (SeatGetTouch c new) s.
Proof.
  intros Hg Hf. unfold SeatGetTouch. apply safe_opt; [|done]. intros r ->.
  apply good_create_then; [done..|]. apply ok_AddTouch, (live_new r c OTouch).
Qed.

Lemma good_SurfaceAttach s c r b :
  good s → owns s c r is_surface = true →
  match b with Some b => owns s c b is_buffer = true | None => True end →
  keeps_good (SurfaceAttach r b) s.
Proof.
  intros [Hwf Hi] (u & Hu)%owns_surface Hb. eapply safe_upd_surface; [done|]. split.
  - pose proof Hwf as (_&_&_&H4&_&H6&_). eapply wf_upd_surface; [done|done| |done|].
    + destruct (H4 _ _ _ Hu) as (K1 & K2 & _ & K4). split_and!; [done|done| |done].
      intros b' _ _ [= ->]. apply owns_buffer in Hb as (k & Hk). exists k. by apply shape_buffer.
    + intros cb r' c' v HD HD' Hcb Hne Hv Hv'. apply Hne. symmetry. by eapply (H6 r c u r' c' v cb).
  - apply idle_upd; [done|]. cbn. by eapply Hi.
Qed.
Lemma good_SurfaceFrame s c r new :
  good s → owns s c r is_surface = true → fresh s new = true → keeps_good (SurfaceFrame c r new) s.
Proof.
  intros Hg (u & Hu)%owns_surface Hf. unfold SurfaceFrame.
  eapply safe_seq; [|intros ? s' H; exact H]. unfold wl_resource_create. apply safe_opt.
  - intros cb ->. apply fresh_Some in Hf. apply safe_mod.
    pose proof (good_new s cb c OCallback Hg Hf Logic.I) as [Hwf Hi]. set (s1 := set_sv_objs _ s) in *.
    assert (r ≠ cb) as Hne by congruence.
    assert (sv_objs s1 !! r = Some (mkRes c (OSurface u))) as Hu1.
    { unfold s1. cbn [sv_objs set_sv_objs]. by rewrite lookup_insert_ne. }
    eapply safe_upd_surface; [done|]. split; [|apply idle_upd; [done|]; cbn; by eapply Hi].
    pose proof Hwf as (_&_&_&H4&_). eapply wf_upd_surface; [done|done| |done|].
    + destruct (H4 _ _ _ Hu1) as (K1 & K2 & K3 & _). split_and!; [done..|].
      intros cb' _ [= <-]. unfold s1. cbn [sv_objs set_sv_objs]. by rewrite shape_insert lookup_insert_eq.
    + intros cb' r' c' v _ _ [= <-] Hn Hv Hv'. unfold s1 in Hv. cbn [sv_objs set_sv_objs] in Hv.
      rewrite lookup_insert_Some in Hv. destruct Hv as [[_ ?]|[Hn' Hv]]; [done|].
      destruct Hg as [(_&_&_&K&_) _]. destruct (K _ _ _ Hv) as (_ & _ & _ & K4).
      apply (K4 cb ltac:(set_solver)) in Hv'. apply shape_at in Hv' as (o & Ho & _). congruence.
  - intros ->. destruct Hg as [Hwf Hi]. eapply safe_upd_surface; [done|].
    split; [|apply idle_upd; [done|]; cbn; by eapply Hi]. pose proof Hwf as (_&_&_&H4&_).
    eapply wf_upd_surface; [done|done| |done|done].
    destruct (H4 _ _ _ Hu) as (K1 & K2 & K3 & _). by split_and!.
Qed.

(** *** A commit *)

(** In the middle of the commit of [r]. *)
Definition committing (c r : Z) (s : Server) : Prop :=
  wf ∅ s ∧ (∃ u, sv_objs s !! r = Some (mkRes c (OSurface u))) ∧
  ∀ x c' u, sv_objs s !! x = Some (mkRes c' (OSurface u)) → x ≠ r → su_current u = None.
Lemma committing_pending s c r :
  good s → owns s c r is_surface = true → safe (commit_pending r) (λ _ s', committing c r s') s.
Proof.
  intros [Hwf Hi] (u & Hu)%owns_surface. eapply safe_upd_surface; [done|].
  match goal with |- context [OSurface (if ?b then ?v1 else ?v2)] => set (u' := if b then v1 else v2) end.
  assert (su_xdg u' = su_xdg u ∧ ps_frameCallback (su_pending u') = ps_frameCallback (su_pending u)) as [Ex Ef].
  { unfold u'. by case_match. }
  split_and!.
  - pose proof Hwf as (_&_&_&H4&_&H6&_). eapply wf_upd_surface; [done|done| |done|].
    + destruct (H4 _ _ _ Hu) as (K1 & K2 & K3 & K4). unfold u'. case_match eqn:E; [|by apply H4].
      split_and!; [done| |done|done]. cbn. intros b HD Hb. by apply K3.
    + intros cb r' c' v HD HD' Hcb Hne Hv Hv'. rewrite Ef in Hcb. apply Hne. symmetry.
      by eapply (H6 r c u r' c' v cb).
  - exists u'. cbn [sv_objs set_sv_objs]. by rewrite lookup_insert_eq.
  - intros x c' v. cbn [sv_objs set_sv_objs]. rewrite lookup_insert_Some.
    intros [[-> _]|[_ Hv]] Hne; [done|by eapply Hi].
Qed.
Lemma committing_done s c r :
  committing c r s → safe (upd_surface r (set_su_current None)) (λ _ s', good s' ∧ committing c r s') s.
Proof.
  intros (Hwf & (u & Hu) & Hi). eapply safe_upd_surface; [done|].
  assert (wf ∅ (set_sv_objs (<[r := mkRes c (OSurface (set_su_current None u))]> (sv_objs s)) s)) as Hw.
  { eapply wf_upd_surface_soft; try done. by right. }
  assert (∀ x c' v, <[r := mkRes c (OSurface (set_su_current None u))]> (sv_objs s) !! x =
    Some (mkRes c' (OSurface v)) → su_current v = None) as Hi'.
  { intros x c' v. rewrite lookup_insert_Some. intros [[_ [= _ <-]]|[Hne Hv]]; [done|]. by eapply Hi. }
  split; [by split|]. split_and!; [done| |].
  - eexists. cbn [sv_objs set_sv_objs]. by rewrite lookup_insert_eq.
  - intros x c' v Hx _. by eapply Hi'.
Qed.
(** An operation that leaves the objects alone, within a commit. *)
Lemma committing_ok (m : F Server unit) s c r :
  ok ∅ (sv_objs s) m → committing c r s →
  safe m (λ _ s', committing c r s' ∧ sv_objs s' = sv_objs s) s.
Proof.
  intros Hm (Hwf & Hu & Hi). eapply safe_mono; [by apply Hm|]. intros _ s' [Hwf' Ho].
  split; [|done]. unfold committing. by rewrite Ho.
Qed.
Lemma committing_current s c r u b :
  committing c r s → sv_objs s !! r = Some (mkRes c (OSurface u)) → su_current u = Some b →
  ∃ k, sv_objs s !! b = Some (mkRes c (OBuffer k)).
Proof.
  intros ((_&_&_&H4&_) & _) Hu Hb. destruct (H4 _ _ _ Hu) as (_ & K2 & _).
  destruct (K2 b) as [k Hk]; [set_solver|done|]. exists k. by apply shape_buffer.
Qed.
Lemma good_committing s c r :
  good s → (∃ u, sv_objs s !! r = Some (mkRes c (OSurface u))) → committing c r s.
Proof. intros [Hwf Hi] Hu. split_and!; [done..|]. intros x c' u Hx _. by eapply Hi. Qed.

Lemma safe_get_buffer r (Q : BufferObj → Server → Prop) s c b :
  sv_objs s !! r = Some (mkRes c (OBuffer b)) → Q b s → safe (get_buffer r) Q s.
Proof. intros Hr HQ. unfold safe, get_buffer, fbind, get_obj. by rewrite Hr. Qed.
Lemma committing_shm s c r : committing c r s → safe (commit_shm r) (λ _ s', committing c r s') s.
Proof.
  intros Hc. pose proof Hc as (_ & (u & Hu) & _). unfold commit_shm.
  apply safe_bind. eapply safe_get_surface; [done|]. destruct (su_current u) as [b|] eqn:E; [|done].
  destruct (committing_current s c r u b Hc Hu E) as [k Hk]. apply safe_bind.
  eapply safe_get_buffer; [done|]. destruct k; [|done].
  eapply safe_seq; [by apply (committing_ok (NoteToplevelInactive (su_toplevelId u))); [apply ok_NoteToplevelInactive|]|].
  intros ? s' [Hc' Ho]. eapply safe_seq.
  { eapply (committing_ok (send (EvRelease b))); [|done]. apply ok_send; [|done]. rewrite Ho.
    exists (c, KBuffer BShm). by apply shape_buffer. }
  intros ? s'' [Hc'' _]. eapply safe_mono; [by apply committing_done|]. by intros ? ? [_ ?].
Qed.
Lemma committing_wlegl s c r :
  committing c r s → safe (commit_wlegl hash_order r) (λ _ s', good s' ∧ committing c r s') s.
Proof.
  intros Hc. pose proof Hc as (Hwf & (u & Hu) & Hi). unfold commit_wlegl.
  apply safe_bind. eapply safe_get_surface; [done|]. destruct (su_current u) as [b|] eqn:E.
  2: { apply safe_ret. split; [|done]. split; [done|]. intros x c' v Hx.
       destruct (decide (x = r)) as [->|Hne]; [|by eapply Hi]. rewrite Hu in Hx. by injection Hx as _ <-. }
  destruct (committing_current s c r u b Hc Hu E) as [k Hk]. apply safe_bind.
  eapply safe_get_buffer; [done|].
  eapply (safe_seq _ _ (λ _ s', committing c r s')); [|by intros ? s'; apply committing_done].
  assert (live (shape (sv_objs s)) KSurface r) as Hl by (exists c; apply shape_surface; eauto).
  destruct k as [|[[nh desc]|]]; [done| |done].
  eapply (safe_mono _ (λ _ s', committing c r s' ∧ sv_objs s' = sv_objs s)); [|by intros ? ? [? _]].
  apply committing_ok; [|done].
  apply ok_bind; [by apply ok_NoteInputSurface|intros _].
  apply ok_bind; [by apply ok_NoteToplevelSurface|intros _].
  apply ok_bind; [by apply ok_core|intros _].
  apply ok_bind; [apply ok_NoteToplevelFrame|intros _]. apply ok_show_frame.
  exists c. by apply shape_buffer.
Qed.
(** The callback of a frame is told, and is gone. *)
Lemma good_callback s c r : good s → committing c r s → keeps_good (commit_callback r) s.
Proof.
  intros [Hwf Hi] (_ & (u & Hu) & _). unfold commit_callback. apply safe_bind.
  eapply safe_get_surface; [done|]. destruct (ps_frameCallback _) as [cb|] eqn:E; [|done].
  pose proof Hwf as (_&_&_&H4&_&H6&_). destruct (H4 _ _ _ Hu) as (K1 & K2 & K3 & K4).
  pose proof (K4 cb ltac:(set_solver) E) as Hcb.
  eapply safe_seq; [by apply (ok_send (D := ∅) (objs := sv_objs s) (EvDone cb)); [eexists| |]|].
  intros ? s' [Hwf' Ho]. apply safe_bind, safe_mod.
  apply shape_at in Hcb as ([] & Hcb & Hk); try done. assert (r ≠ cb) as Hne by congruence.
  eapply safe_upd_surface.
  { cbn [sv_objs set_sv_objs]. rewrite lookup_delete_ne; [|done]. by rewrite Ho. }
  cbn [sv_objs set_sv_objs]. set (u' := set_su_pending _ u). rewrite -delete_insert_ne; [|done].
  set (s1 := set_sv_objs (<[r := mkRes c (OSurface u')]> (sv_objs s')) s').
  assert (wf ∅ s1) as Hw1.
  { eapply wf_upd_surface; [done|by rewrite Ho| |done|done]. rewrite Ho. by split_and!. }
  split; [|apply idle_del, idle_upd; [by rewrite Ho|]; cbn; by eapply Hi].
  eapply (wf_gone_same ∅ s1 cb c OCallback Hw1).
  - unfold s1. cbn [sv_objs set_sv_objs]. rewrite lookup_insert_ne; [|done]. by rewrite Ho.
  - intros x c' v. unfold s1. cbn [sv_objs set_sv_objs]. rewrite lookup_insert_Some Ho.
    intros [[<- [= _ <-]]|[Hn Hv]] HD; [done|]. intros Hv'. apply Hn.
    by eapply (H6 r c u x c' v cb).
Qed.
Lemma good_SurfaceCommit s c r :
  good s → owns s c r is_surface = true → keeps_good (SurfaceCommit hash_order r) s.
Proof.
  intros Hg Ho. unfold SurfaceCommit. eapply safe_seq; [by apply (committing_pending s c)|].
  intros ? s1 H1. eapply safe_seq; [by apply (committing_shm s1 c)|]. intros ? s2 H2.
  eapply safe_seq; [by apply (committing_wlegl s2 c)|]. intros ? s3 [Hg3 H3]. by eapply good_callback.
Qed.

(** *** Roles *)

Lemma good_Subsurface s c new u p :
  good s → owns s c u is_surface = true → owns s c p is_surface = true → fresh s new = true →
  keeps_good (SubcompositorGetSubsurface c new u p) s.
Proof.
  intros [Hwf Hi] (su & Hu)%owns_surface (sp & Hp)%owns_surface Hf. unfold SubcompositorGetSubsurface.
  apply safe_bind. eapply safe_get_surface; [done|]. apply safe_bind. eapply safe_upd_surface; [done|].
  apply good_create; [|..|done].
  - split; [eapply wf_upd_surface_soft; try done; by left|]. apply idle_upd; [done|]. cbn. by eapply Hi.
  - destruct new as [r|]; [|done]. apply fresh_Some in Hf. unfold fresh. apply bool_decide_eq_true.
    cbn [sv_objs set_sv_objs]. rewrite lookup_insert_ne; [done|]. congruence.
Qed.
Lemma good_GetXdgSurface s c new u su :
  good s → sv_objs s !! u = Some (mkRes c (OSurface su)) → su_xdg su = None → fresh s new = true →
  keeps_good (XdgWmBaseGetXdgSurface c new u) s.
Proof.
  intros [Hwf Hi] Hu Hx Hf. unfold XdgWmBaseGetXdgSurface. apply safe_opt; [|done]. intros r ->.
  apply fresh_Some in Hf. apply safe_bind, safe_mod. assert (u ≠ r) as Hne by congruence.
  eapply safe_upd_surface; [cbn [sv_objs set_sv_objs]; by rewrite lookup_insert_ne|].
  split; [exact (wf_new_xdg ∅ s r c u su Hwf Hf Hu Hx)|]. apply idle_upd; [by apply idle_other|]. cbn. by eapply Hi.
Qed.

Lemma safe_get_xdg r (Q : XdgSurface → Server → Prop) s c x :
  sv_objs s !! r = Some (mkRes c (OXdgSurface x)) → Q x s → safe (get_xdg r) Q s.
Proof. intros Hr HQ. unfold safe, get_xdg, fbind, get_obj. by rewrite Hr. Qed.
(** The number of a toplevel is written into its role and its surface. *)
Lemma wf_xdg_tid D s x c xs t :
  wf D s → sv_objs s !! x = Some (mkRes c (OXdgSurface xs)) →
  wf D (set_sv_objs (<[x := mkRes c (OXdgSurface (mkXdg (xs_surface xs) t))]> (sv_objs s)) s).
Proof.
  intros Hwf Hx. pose proof Hwf as (_&H2&_&H4&H5&H6&_&_&_&_&_&_&_&_&_&H16&_).
  pose proof (shape_same (sv_objs s) x c (OXdgSurface xs) (OXdgSurface (mkXdg (xs_surface xs) t)) Hx eq_refl) as Hsh.
  apply wf_objs; [done|by rewrite Hsh|by rewrite Hsh|by rewrite Hsh| | |].
  - intros r c' u. rewrite lookup_insert_Some. intros [[_ ?]|[Hne Hu]]; [done|].
    destruct (H4 _ _ _ Hu) as (K1 & K2 & K3 & K4). unfold surf_ok. rewrite Hsh. split_and!; try done.
    intros y Hy. destruct (K1 y Hy) as (ys & Hys & E). destruct (decide (y = x)) as [->|Hn].
    + rewrite Hx in Hys. injection Hys as <- <-. eexists. by rewrite lookup_insert_eq.
    + exists ys. by rewrite lookup_insert_ne.
  - intros y c' ys u. rewrite lookup_insert_Some. intros [[<- [= <- <-]]|[Hne Hy]] Hu.
    + destruct (H5 _ _ _ _ Hx Hu) as (su & Hsu & E). exists su. split; [|done].
      rewrite lookup_insert_ne; [done|]. congruence.
    + destruct (H5 _ _ _ _ Hy Hu) as (su & Hsu & E). exists su. split; [|done].
      rewrite lookup_insert_ne; [done|]. congruence.
  - intros r1 c1 u1 r2 c2 u2 cb. rewrite !lookup_insert_Some.
    intros [[_ ?]|[_ Hr1]] [[_ ?]|[_ Hr2]]; [done..|]. by eapply H6.
Qed.
Lemma wf_surface_tid s x c xs t :
  wf ∅ s → idle (sv_objs s) → sv_objs s !! x = Some (mkRes c (OXdgSurface xs)) →
  let objs1 := <[x := mkRes c (OXdgSurface (mkXdg (xs_surface xs) t))]> (sv_objs s) in
  let objs2 := match xs_surface xs with
               | Some u => match sv_objs s !! u with
                           | Some (mkRes _ (OSurface su)) => <[u := mkRes c (OSurface (set_su_toplevelId t su))]> objs1
                           | _ => objs1
                           end
               | None => objs1
               end in
  wf ∅ (set_sv_objs objs2 s) ∧ idle objs2 ∧ shape objs2 = shape (sv_objs s).
Proof.
  intros Hwf Hi Hx objs1. pose proof (wf_xdg_tid ∅ s x c xs t Hwf Hx) as Hw1.
  assert (shape objs1 = shape (sv_objs s)) as Hs1 by by eapply shape_same.
  assert (idle objs1) as Hi1 by by apply idle_other.
  destruct (xs_surface xs) as [u|] eqn:Eu; [|by split_and!].
  pose proof Hwf as (_&_&_&_&H5&_). destruct (H5 _ _ _ _ Hx Eu) as (su & Hsu & _). rewrite Hsu.
  assert (u ≠ x) as Hne by congruence.
  assert (objs1 !! u = Some (mkRes c (OSurface su))) as Hu1 by (unfold objs1; by rewrite lookup_insert_ne).
  intros objs2. split_and!.
  - exact (wf_upd_surface_soft ∅ (set_sv_objs objs1 s) u c su (set_su_toplevelId t su) Hw1 Hu1
             eq_refl eq_refl (or_introl eq_refl)).
  - apply idle_upd; [done|]. cbn. by eapply Hi.
  - unfold objs2. by erewrite shape_same.
Qed.

(** The state once a toplevel [r] has been made for the role [x]. *)
Definition with_tid (objs : gmap Z Resource) (c x : Z) (xs : XdgSurface) (t : Z) : gmap Z Resource :=
  let objs1 := <[x := mkRes c (OXdgSurface (mkXdg (xs_surface xs) t))]> objs in
  match xs_surface xs with
  | Some u => match objs !! u with
              | Some (mkRes _ (OSurface su)) => <[u := mkRes c (OSurface (set_su_toplevelId t su))]> objs1
              | _ => objs1
              end
  | None => objs1
  end.
Definition with_toplevel (c x r : Z) (xs : XdgSurface) (s : Server) : Server :=
  let n := sv_nextToplevelId s in
  set_sv_nextToplevelId (u32 (n + 1))
    (set_sv_toplevels
       (<[n := mkRec (mkInfo n c "" "" false 0) r x (xs_surface xs) false false false]> (sv_toplevels s))
    (set_sv_objs (<[r := mkRes c (OToplevel n)]> (with_tid (sv_objs s) c x xs n)) s)).
Lemma good_with_toplevel s c x r xs :
  good s → sv_objs s !! x = Some (mkRes c (OXdgSurface xs)) → sv_objs s !! r = None →
  sv_nextToplevelId s < 2 ^ 32 - 1 →
  good (with_toplevel c x r xs s) ∧
  shape (sv_objs (with_toplevel c x r xs s)) = <[r := (c, KToplevel (sv_nextToplevelId s))]> (shape (sv_objs s)).
Proof.
  intros [Hwf Hi] Hx Hf Hn. set (n := sv_nextToplevelId s) in *.
  destruct (wf_surface_tid s x c xs n Hwf Hi Hx) as (Hw2 & Hi2 & Hs2).
  change (wf ∅ (set_sv_objs (with_tid (sv_objs s) c x xs n) s)) in Hw2.
  change (idle (with_tid (sv_objs s) c x xs n)) in Hi2.
  change (shape (with_tid (sv_objs s) c x xs n) = shape (sv_objs s)) in Hs2.
  split; [split|].
  - assert (shape (with_tid (sv_objs s) c x xs n) !! x = Some (c, KXdg)) as (xs' & Hx')%shape_xdg
      by (rewrite Hs2; apply shape_xdg; eauto).
    apply (wf_new_toplevel ∅ (set_sv_objs (with_tid (sv_objs s) c x xs n) s) r c x xs'); try done.
    + cbn [sv_objs set_sv_objs]. destruct (with_tid (sv_objs s) c x xs n !! r) as [[c' o]|] eqn:E; [|done].
      assert (shape (sv_objs s) !! r = Some (c', kind_of o)) as (o' & Ho & _)%shape_at
        by (rewrite -Hs2; apply shape_at; eauto). congruence.
    + cbn [sv_objs set_sv_objs tr_surface]. rewrite Hs2. intros u Hu. destruct Hwf as (_&_&_&_&H5&_).
      destruct (H5 _ _ _ _ Hx Hu) as (su & Hsu & _). exists c. apply shape_surface. eauto.
  - by apply idle_other.
  - cbn [sv_objs with_toplevel set_sv_objs set_sv_toplevels set_sv_nextToplevelId].
    by rewrite shape_insert Hs2.
Qed.
(** The last steps: the configuration is sent. *)
Lemma good_announce s s' c x r xs :
  good (with_toplevel c x r xs s) → sv_objs s !! x = Some (mkRes c (OXdgSurface xs)) → x ≠ r →
  shape (sv_objs (with_toplevel c x r xs s)) = <[r := (c, KToplevel (sv_nextToplevelId s))]> (shape (sv_objs s)) →
  core s' = core (with_toplevel c x r xs s) →
  keeps_good (let! size := OutputSize in
    do! send (EvConfigure r size.1 size.2 false) in send (EvXdgConfigure x)) s'.
Proof.
  intros [Hw Hi] Hx Hne Hs Hc. set (sF := with_toplevel c x r xs s) in *.
  assert (sv_objs s' = sv_objs sF) as Ho by by injection Hc.
  apply good_at; rewrite ?Ho.
  - apply ok_bind; [unfold OutputSize; ok_tac|intros size].
    apply ok_bind; [|intros _]; apply ok_send; try done; rewrite Hs; cbn [ev_target].
    + rewrite lookup_insert_eq. by eexists.
    + rewrite lookup_insert_ne; [|done]. exists (c, KXdg). apply shape_xdg. eauto.
  - split; [|by rewrite Ho].
    by destruct (I_core (D := ∅) (objs := sv_objs sF) sF s' Hc) as [? _].
Qed.
(** What the code does between: the object first has no user data, and the toplevel no
    surface. *)
Lemma with_tid_through objs c x r xs n su (u : Z) :
  x ≠ r → u ≠ r → u ≠ x → xs_surface xs = Some u → objs !! u = Some (mkRes c (OSurface su)) →
  <[r := mkRes c (OToplevel n)]> (<[u := mkRes c (OSurface (set_su_toplevelId n su))]>
    (<[x := mkRes c (OXdgSurface (mkXdg (xs_surface xs) n))]> (<[r := mkRes c OOther]> objs))) =
  <[r := mkRes c (OToplevel n)]> (with_tid objs c x xs n).
Proof.
  intros H1 H2 H3 Hu Ho. unfold with_tid. rewrite Hu Ho. apply map_eq. intros i.
  destruct (decide (i = r)) as [->|Hir]; [by rewrite !lookup_insert_eq|]. rewrite !(lookup_insert_ne _ r i); [|done..].
  destruct (decide (i = u)) as [->|Hiu]; [by rewrite !lookup_insert_eq|]. rewrite !(lookup_insert_ne _ u i); [|done..].
  destruct (decide (i = x)) as [->|Hix]; [by rewrite !lookup_insert_eq|]. rewrite !(lookup_insert_ne _ x i); [|done..].
  by rewrite lookup_insert_ne.
Qed.
Lemma safe_get_client r (Q : Z → Server → Prop) s c o :
  sv_objs s !! r = Some (mkRes c o) → Q c s → safe (wl_resource_get_client r) Q s.
Proof. intros Hr HQ. unfold safe, wl_resource_get_client, fbind, get_obj. by rewrite Hr. Qed.
Lemma good_GetToplevel s c x new :
  good s → owns s c x is_xdg = true → fresh s new = true → sv_nextToplevelId s < 2 ^ 32 - 1 →
  keeps_good (XdgSurfaceGetToplevel c x new) s.
Proof.
  intros Hg (xs & Hx)%owns_xdg Hf Hn. unfold XdgSurfaceGetToplevel. apply safe_opt; [|done].
  intros r ->. apply fresh_Some in Hf. assert (x ≠ r) as Hxr by congruence.
  destruct (good_with_toplevel s c x r xs Hg Hx Hf Hn) as [HgF Hsh].
  apply safe_bind, safe_mod, safe_bind.
  eapply safe_get_xdg; [cbn [sv_objs set_sv_objs]; by rewrite lookup_insert_ne|].
  apply safe_bind. unfold AddToplevel. apply safe_bind.
  eapply safe_get_client; [cbn [sv_objs set_sv_objs]; by rewrite lookup_insert_eq|].
  apply safe_bind, safe_get, safe_bind, safe_mod, safe_bind, safe_mod, safe_ret.
  destruct (xs_surface xs) as [u|] eqn:Eu; unfold fopt; apply safe_bind.
  - assert (∃ su, sv_objs s !! u = Some (mkRes c (OSurface su)) ∧ u ≠ r ∧ u ≠ x) as (su & Hu & Hur & Hux).
    { destruct Hg as [(_&_&_&_&H5&_) _]. destruct (H5 _ _ _ _ Hx Eu) as (su & Hsu & _).
      exists su. split_and!; [done|congruence..]. }
    apply safe_bind. eapply safe_get_surface; [cbn -[lookup insert]; by rewrite lookup_insert_ne|].
    apply safe_mod, safe_bind. eapply safe_put_obj; [cbn -[lookup insert]; by rewrite lookup_insert_ne|].
    apply safe_bind. eapply safe_upd_surface; [cbn -[lookup insert]; by rewrite !lookup_insert_ne|].
    apply safe_bind. eapply safe_put_obj.
    { cbn -[lookup insert]. do 2 (rewrite lookup_insert_ne; [|done]). by rewrite lookup_insert_eq. }
    apply (good_announce s _ c x r xs); [done..|]. unfold core, with_toplevel. cbn -[lookup insert alter].
    rewrite -Eu (with_tid_through _ c x r xs (sv_nextToplevelId s) su u) // Eu alter_insert_eq //.
  - apply safe_ret, safe_bind. eapply safe_put_obj; [cbn -[lookup insert]; by rewrite lookup_insert_ne|].
    apply safe_bind, safe_ret, safe_bind. eapply safe_put_obj.
    { cbn -[lookup insert]. rewrite lookup_insert_ne; [|done]. by rewrite lookup_insert_eq. }
    apply (good_announce s _ c x r xs); [done..|]. unfold core, with_toplevel, with_tid. rewrite Eu.
    cbn -[lookup insert alter]. rewrite (insert_insert_ne _ r x) // insert_insert_eq insert_insert_ne //.
Qed.

(** ** The machine *)

(** What the code takes for granted, and does not check: a surface takes one role, a role
    outlives its toplevels, a buffer outlives its attachment and the release a caller's
    thread has on the way for it; the stride of a buffer in bytes is an int; the numbers
    of toplevels and windows do not wrap. *)
Definition polite_req (s : Server) (q : Req) : bool :=
  match q with
  | RGetXdgSurface (Some _) u =>
      match sv_objs s !! u with
      | Some (mkRes _ (OSurface su)) => bool_decide (su_xdg su = None)
      | _ => true
      end
  | RGetToplevel _ (Some _) => sv_nextToplevelId s <? 2 ^ 32 - 1
  | RDestroy r =>
      match sv_objs s !! r with
      | Some (mkRes _ (OXdgSurface _)) =>
          forallb (λ kv : Z * ToplevelRec, negb (tr_xdgSurface kv.2 =? r)) (map_to_list (sv_toplevels s))
      | Some (mkRes _ (OBuffer _)) =>
          forallb (λ kv : Z * Resource,
            match r_obj kv.2 with
            | OSurface u => negb (ps_bufferChanged (su_pending u)
                                  && bool_decide (ps_buffer (su_pending u) = Some r))
            | _ => true
            end) (map_to_list (sv_objs s))
          && bool_decide (r ∉ sv_releasing s)
      | _ => true
      end
  | RCreateBuffer _ b => stride_ok b
  | _ => true
  end.
Definition polite (a : Act) (s : Server) : bool :=
  match a with
  | AReq _ q => polite_req s q
  | ADisconnect c _ => forallb (λ r, negb (owns s c r (λ _, true))) (sv_releasing s)
  | AIpc (IAttach _ _ _ _) => sv_nextWindowId s <? 2 ^ 31 - 1
  | _ => true
  end.
Fixpoint disciplined (l : list Act) (x : MState) : bool :=
  match l with
  | [] => true
  | a :: l => polite a x.1 && match step hash_order a x with Some x' => disciplined l x' | None => true end
  end.

Lemma forallb_map {A} (p : Z * A → bool) (m : gmap Z A) :
  forallb p (map_to_list m) = true → ∀ k v, m !! k = Some v → p (k, v) = true.
Proof.
  intros H k v Hk. rewrite forallb_forall in H. apply H, list_elem_of_In, elem_of_map_to_list, Hk.
Qed.
Lemma polite_may_go s c r o :
  polite_req s (RDestroy r) = true → sv_objs s !! r = Some (mkRes c o) → negb (is_callback o) = true →
  may_go ∅ s r o.
Proof.
  intros Hp Hr Hcb. cbn in Hp. rewrite Hr in Hp. destruct o; try done; cbn.
  - intros id rec Hrec _ E. pose proof (forallb_map _ _ Hp _ _ Hrec) as H. cbn in H. bool_props. done.
  - apply andb_prop in Hp as [Hp Hnr%bool_decide_eq_true]. split; [done|].
    intros x c' u Hx _ Hch Hb. pose proof (forallb_map _ _ Hp _ _ Hx) as H. cbn in H.
    rewrite Hch Hb bool_decide_eq_true_2 in H; done.
Qed.
Lemma good_Destroy s c r :
  good s → owns s c r (λ o, negb (is_callback o)) = true → polite_req s (RDestroy r) = true →
  keeps_good (wl_resource_destroy hash_order r) s.
Proof.
  intros [Hwf Hi] (o & Ho & Hcb)%owns_spec Hp.
  eapply safe_mono; [eapply destroy_ok; [done..|by eapply polite_may_go]|]. by intros _ s' (? & ? & _).
Qed.
Lemma good_XdgToplevel s c t (f : Z → F Server unit) :
  good s → owns s c t is_toplevel = true → (∀ tid objs, ok ∅ objs (f tid)) →
  keeps_good (let! o := get_obj t in match r_obj o with OToplevel tid => f tid | _ => fault end) s.
Proof.
  intros Hg (tid & Ht)%owns_toplevel Hf. apply safe_bind. unfold safe, get_obj. rewrite Ht.
  by apply good_ok.
Qed.
Lemma good_req s c q :
  good s → req_ok s c q = true → polite_req s q = true → keeps_good (run_req hash_order c q) s.
Proof.
  intros Hg Hok Hp. destruct q; cbn [run_req]; cbn [req_ok] in Hok;
    repeat match goal with H : _ && _ = true |- _ => apply andb_prop in H as [? ?] end.
  - by apply good_create.
  - eapply good_SurfaceAttach; [done..|]. by case_match.
  - by apply good_SurfaceFrame.
  - by eapply good_SurfaceCommit.
  - by apply good_Subsurface.
  - by apply good_OutputBind.
  - by apply good_SeatGetKeyboard.
  - by apply good_SeatGetTouch.
  - by apply good_SeatBind.
  - destruct (owns_surface s c surface) as (su & Hsu); [done|]. destruct new as [r|]; [|done].
    eapply good_GetXdgSurface; [done..| |done]. cbn in Hp. rewrite Hsu in Hp.
    by apply bool_decide_eq_true in Hp.
  - destruct new as [r|]; [|done]. apply good_GetToplevel; [done..|]. cbn in Hp. by bool_props.
  - eapply good_XdgToplevel; [done..|]. intros. apply ok_SetToplevelTitle.
  - eapply good_XdgToplevel; [done..|]. intros. apply ok_SetToplevelAppId.
  - apply good_create; [done..|]. cbn in Hp |- *. unfold importable. by apply andb_true_intro.
  - by apply good_create.
  - by eapply good_Destroy.
Qed.
Lemma good_disconnect s c order :
  good s → polite (ADisconnect c order) s = true → NoDup order → list_to_set order = client_objs s c →
  keeps_good (ffor order (wl_resource_destroy hash_order)) s.
Proof.
  intros [Hwf Hi] Hp Hnd Hset. cbn in Hp. rewrite forallb_forall in Hp.
  apply (safe_for (λ l s', leaving s c l s')).
  - split_and!; [by apply wf_going|done|done| |].
    + intros r Hr. assert (r ∈ client_objs s c) as HD by (rewrite -Hset; by apply elem_of_list_to_set).
      split; [done|]. intros Hrel%list_elem_of_In%Hp. destruct (client_objs_live s c r HD) as (k & (o & Ho & _)%shape_at).
      unfold owns in Hrel. rewrite Ho in Hrel. cbn in Hrel. by rewrite Z.eqb_refl in Hrel.
    + intros r v. split; [|by intros [? _]]. intros H. split; [done|]. rewrite -Hset. by intros ?%elem_of_list_to_set.
  - intros r l s'. apply leaving_step.
  - intros s' (Hwf' & Hi' & _ & _ & Hsh). split; [|done]. eapply wf_went; [done|]. intros r Hr.
    destruct (sv_objs s' !! r) as [[c' o]|] eqn:E; [|done].
    assert (shape (sv_objs s') !! r = Some (c', kind_of o)) as [_ H]%Hsh by (apply shape_at; eauto).
    by apply H in Hr as ?%not_elem_of_nil.
Qed.

Lemma good_ipc s i :
  good s → polite (AIpc i) s = true → keeps_good (ipc_section hash_order i) s.
Proof.
  intros Hg Hp. destruct i; cbn [ipc_section].
  - destruct Hg as [Hwf Hi]. cbn in Hp. eapply safe_seq.
    { apply (ok_attach_window (D := ∅) (objs := sv_objs s)); [done|]. by bool_props. }
    intros ? s' [Hwf' Ho]. apply safe_ret. split; [done|by rewrite Ho].
  - apply good_ok; [|done]. intros. apply ok_detach_window.
  - apply good_ok; [|done]. intros. apply ok_set_window_active.
  - done.
  - apply good_ok; [|done]. intros. apply ok_bind; [apply ok_InjectTouchFromAction|intros; apply ok_ret].
  - apply good_ok; [|done]. intros. apply ok_bind; [by apply ok_core|intros; apply ok_ret].
  - apply good_ok; [|done]. intros. apply ok_bind; [apply ok_legacy_call|intros; apply ok_ret].
Qed.
Lemma on_server_good (m : F Server unit) s th :
  keeps_good m s → ∃ x', on_server m (s, th) = Some x' ∧ good x'.1.
Proof.
  intros ([] & s' & E & H)%safe_run. exists (s', th). unfold on_server. cbn. by rewrite E.
Qed.
Lemma good_step a x : good x.1 → polite a x.1 = true → ∃ x', step hash_order a x = Some x' ∧ good x'.1.
Proof.
  destruct x as [s th]. cbn [fst]. intros Hg Hp. destruct a; cbn [step].
  - case_match eqn:E; [|by eexists]. by apply on_server_good, good_req.
  - case_bool_decide as E; [|by eexists]. apply on_server_good. by eapply good_disconnect; [| |apply E..].
  - apply on_server_good, good_ok; [|done]. intros objs. apply ok_bind; [|intros; apply ok_ret].
    unfold NoteClientConnected. apply ok_bind; [by apply ok_core|intros; apply ok_fget].
  - apply on_server_good, good_ok; [|done]. intros. apply ok_DrainReleases.
  - apply on_server_good, good_ok; [|done]. intros. apply ok_DrainTouchOps.
  - apply on_server_good, good_ok; [|done]. intros. apply ok_DrainPosted.
  - case_match; [|by eexists]. destruct (ReclaimReleased _ _) as [b ops].
    apply on_server_good, good_ok; [|done]. intros. apply ok_bind; [apply ok_rs_log|intros _].
    apply ok_opt. intros sb _. apply ok_OnBufferReleased.
  - destruct (safe_run _ _ _ (good_ipc s i Hg Hp)) as (p & s' & E & H). rewrite E. by eexists.
  - case_match; [|by eexists]. by eexists.
Qed.
Lemma good_run l x : good x.1 → disciplined l x = true → ∃ x', run hash_order l x = Some x' ∧ good x'.1.
Proof.
  revert x. induction l as [|a l IH]; intros x Hg Hd; cbn; [by eexists|].
  cbn in Hd. apply andb_prop in Hd as [Hp Hd]. destruct (good_step a x Hg Hp) as (x' & E & Hg').
  rewrite E in Hd |- *. by apply IH.
Qed.
Lemma good_init cfg answers kenv others : good (Server_init cfg answers kenv others).
Proof.
  split; [|by intros r c u]. unfold wf, Server_init. cbn. split_and!; try done.
  all: first [by intros ? ?%not_elem_of_nil|by intros r b [c Hc]].
Qed.
End facts.
