(* ===== verification/CompositorProps.v ===== *)
(** * What the compositor guarantees

    Theorems about whole runs of the machine of [Compositor]: any interleaving of client
    requests, disconnections, calls from other threads and answers of the render
    service. *)

From S2P Require Import Prelude FaultMonad OutSurface WdSession Compositor CompositorFacts.
Set Warnings "-rewrite-rw,-clear-no-such-hyp".

Section props.
Context (hash_order : ∀ A, gmap Z A → list (Z * A)).
Context (Hord : ∀ A (m : gmap Z A), hash_order A m ≡ₚ map_to_list m).
Abbreviation M := (F Server).

(** ** No dangling pointer is used *)

(** C3: Whatever clients, callers' threads and the render service do, in whatever order and
    also between the steps of a commit, the compositor never uses a Wayland object that is
    gone, never reads outside a buffer's handle and never looks up what it does not find:
    a run faults at no step, as long as each surface takes one role at a time, an
    xdg_surface outlives its toplevels, a buffer outlives the commit of its attachment,
    no buffer is destroyed (nor its client disconnected) while a caller's thread that
    has taken it in [ReleaseInFlightOf(0)] has still to send its release, the stride of a
    buffer in bytes is an int, and the 32-bit counters do not wrap.  Disconnecting a
    client, in any order of its objects, needs no other care. *)
Theorem compositor_no_fault cfg answers kenv others l :
  disciplined hash_order l (Server_init cfg answers kenv others, []) = true →
  ∃ x, run hash_order l (Server_init cfg answers kenv others, []) = Some x.
Proof.
  intros Hd. destruct (good_run hash_order Hord l (Server_init cfg answers kenv others, [])) as (x & E & _);
    eauto using good_init.
Qed.

Lemma on_server_run (m : M unit) s th s' : m s = Some (tt, s') → on_server m (s, th) = Some (s', th).
Proof. intros E. unfold on_server. cbn. by rewrite E. Qed.
Lemma run_cons a l x x' : step hash_order a x = Some x' → run hash_order (a :: l) x = run hash_order l x'.
Proof. intros E. cbn. by rewrite E. Qed.

Lemma upd_surface_run r f s c u :
  sv_objs s !! r = Some (mkRes c (OSurface u)) →
  upd_surface r f s = Some (tt, set_sv_objs (<[r := mkRes c (OSurface (f u))]> (sv_objs s)) s).
Proof.
  intros Hr. destruct (safe_run (upd_surface r f) (λ _ s', s' = set_sv_objs
    (<[r := mkRes c (OSurface (f u))]> (sv_objs s)) s) s) as ([] & s' & E & ->); [|done].
  by eapply safe_upd_surface.
Qed.
Lemma ForgetBuffer_objs b s : safe (ForgetBuffer hash_order b) (λ _ s', sv_objs s' = sv_objs s) s.
Proof using Hord.
  unfold ForgetBuffer. do 3 apply safe_bind, safe_mod. set (s1 := set_sv_releasedPending _ _).
  change (sv_objs s) with (sv_objs s1). clearbody s1. eapply safe_seq.
  { instantiate (1 := λ _ s', sv_objs s' = sv_objs s1). unfold out_ResetQueue, get_out.
    apply safe_bind, safe_get, safe_bind. by unfold safe, ask. }
  intros ? s2 E. apply safe_bind, safe_get. eapply safe_mono.
  - apply (safe_for_each (λ s', sv_objs s' = sv_objs s1 ∧ sv_windows s' = sv_windows s2)); [by split|].
    intros [id w] s' Hw%(elem_walk hash_order Hord) [Eo Ew].
    unfold out_ResetQueue, get_out, safe, fbind, ask, rs_log, fmod. cbn. rewrite Ew Hw. cbn. by split.
  - by intros ? s' [? _].
Qed.
(** A buffer can always be destroyed. *)
Lemma buffer_destroyed b s c k :
  sv_objs s !! b = Some (mkRes c (OBuffer k)) →
  ∃ s', wl_resource_destroy hash_order b s = Some (tt, s') ∧ sv_objs s' = delete b (sv_objs s).
Proof using Hord.
  intros Hb. destruct (safe_run (wl_resource_destroy hash_order b) (λ _ s', sv_objs s' = delete b (sv_objs s)) s)
    as ([] & s' & ? & ?); [|by eexists].
  unfold wl_resource_destroy. apply safe_bind. unfold safe, get_obj. rewrite Hb. apply safe_bind. cbn [r_obj].
  apply safe_bind, safe_get. case_bool_decide; [|done].
  eapply safe_mono; [apply ForgetBuffer_objs|]. intros [] s2 Ho. apply safe_mod. cbn [sv_objs set_sv_objs]. by rewrite Ho.
Qed.
(** The care is needed: a caller clears the output while the render service still shows a
    buffer, the client destroys the buffer before the caller's thread gets to send the
    release, and the release is sent on an object that is gone. *)
Theorem caller_release_use_after_free s th c b k n :
  sv_objs s !! b = Some (mkRes c (OBuffer k)) → sv_releasing s !! n = Some b →
  run hash_order [AReq c (RDestroy b); AIpc (ILegacy (LSend n))] (s, th) = None.
Proof using Hord.
  intros Hb Hn. destruct (buffer_destroyed b s c k Hb) as (s' & E & Eo).
  pose proof (destroy_releasing hash_order b _ _ _ E) as Er. cbn beta in Er.
  erewrite run_cons; [|cbn; unfold owns; rewrite Hb; cbn; rewrite Z.eqb_refl; by apply on_server_run].
  cbn [run step ipc_section legacy_call]. unfold fbind, fget. rewrite Er Hn. unfold fmod, send, fbind, get_obj. cbn.
  by rewrite Eo lookup_delete_eq.
Qed.
Lemma attach_then_destroy s c r u b k :
  good s → sv_objs s !! r = Some (mkRes c (OSurface u)) → sv_objs s !! b = Some (mkRes c (OBuffer k)) →
  ∃ s1 s2 u', SurfaceAttach r (Some b) s = Some (tt, s1) ∧ wl_resource_destroy hash_order b s1 = Some (tt, s2) ∧
    sv_objs s1 !! b = Some (mkRes c (OBuffer k)) ∧ sv_objs s2 !! b = None ∧
    sv_objs s2 !! r = Some (mkRes c (OSurface u')) ∧
    ps_bufferChanged (su_pending u') = true ∧ ps_buffer (su_pending u') = Some b.
Proof.
  intros Hg Hr Hb. assert (b ≠ r) as Hne by congruence.
  assert (owns s c r is_surface = true ∧ owns s c b is_buffer = true) as [Or Ob].
  { unfold owns. rewrite Hr Hb. cbn. by rewrite Z.eqb_refl. }
  destruct (safe_run _ _ _ (good_SurfaceAttach s c r (Some b) Hg Or Ob)) as ([] & s1 & E1 & Hg1).
  assert (sv_objs s1 = <[r := mkRes c (OSurface (set_su_pending
    (mkPending (Some b) (ps_frameCallback (su_pending u)) true) u))]> (sv_objs s)) as Eo.
  { unfold SurfaceAttach in E1. erewrite upd_surface_run in E1; [|done]. by injection E1 as <-. }
  assert (sv_objs s1 !! b = Some (mkRes c (OBuffer k))) as Hb1 by (rewrite Eo lookup_insert_ne; done).
  destruct (buffer_destroyed b s1 c k Hb1) as (s2 & E2 & Eo2).
  exists s1, s2, (set_su_pending (mkPending (Some b) (ps_frameCallback (su_pending u)) true) u).
  split_and!; try done.
  - by rewrite Eo2 lookup_delete_eq.
  - rewrite Eo2 lookup_delete_ne; [|done]. by rewrite Eo lookup_insert_eq.
Qed.
(** C37: A client that attaches a buffer to a surface, destroys the buffer and commits
    makes the compositor use the freed buffer: attaching takes no listener on the
    buffer's destruction (the listener is only set when a frame is shown), so a client
    can crash the compositor, from any state. *)
Theorem attached_buffer_use_after_free s th c r u b k :
  good s → sv_objs s !! r = Some (mkRes c (OSurface u)) → sv_objs s !! b = Some (mkRes c (OBuffer k)) →
  run hash_order [AReq c (RAttach r (Some b)); AReq c (RDestroy b); AReq c (RCommit r)] (s, th) = None.
Proof.
  intros Hg Hr Hb. destruct (attach_then_destroy s c r u b k Hg Hr Hb) as
    (s1 & s2 & u' & E1 & E2 & Hb1 & Hb2 & Hr2 & Hch & Hbuf).
  assert (∀ s r o p, sv_objs s !! r = Some (mkRes c o) → owns s c r p = p o) as Hown.
  { intros s' r' o p Ho. unfold owns. rewrite Ho. cbn. by rewrite Z.eqb_refl. }
  erewrite run_cons; [|cbn; rewrite (Hown s r _ _ Hr) (Hown s b _ _ Hb); by apply on_server_run].
  erewrite run_cons; [|cbn; rewrite (Hown s1 b _ _ Hb1); by apply on_server_run].
  cbn [run step req_ok fst]. rewrite (Hown s2 r _ _ Hr2). unfold on_server. cbn [fst run_req].
  unfold SurfaceCommit, commit_pending, fbind at 1. rewrite (upd_surface_run r _ s2 c u' Hr2) Hch Hbuf.
  unfold fbind at 1, commit_shm, fbind at 1, get_surface, fbind, get_obj, fret. cbn -[lookup insert get_buffer].
  rewrite lookup_insert_eq. cbn -[lookup insert get_buffer]. unfold get_buffer, fbind, get_obj.
  cbn -[lookup insert]. rewrite lookup_insert_ne; [by rewrite Hb2|].
  intros ->. congruence.
Qed.

(** ** Telling toplevels that they are active *)

(** What a client was last told about a toplevel. *)
Definition tell (t : Z) (acc : option bool) (e : Event) : option bool :=
  match e with EvConfigure t' _ _ a => if t' =? t then Some a else acc | _ => acc end.
Definition told (t : Z) (evs : list Event) : option bool := foldl (tell t) None evs.
#[local] Arguments told : simpl never.
Lemma told_snoc t evs e : told t (evs ++ [e]) = tell t (told t evs) e.
Proof. unfold told. by rewrite foldl_app. Qed.
Lemma tell_other t acc e : (∀ w h a, e ≠ EvConfigure t w h a) → tell t acc e = acc.
Proof. intros H. destruct e; try done. cbn. case_match; bool_props; [|done]. by subst; destruct (H w h activated). Qed.

(** The toplevels by number: the object, what the server thinks it told, the role. *)
Definition face (rec : ToplevelRec) : Z * bool * Z := (tr_toplevel rec, tr_activated rec, tr_xdgSurface rec).
Definition faces (s : Server) : gmap Z (Z * bool * Z) := face <$> sv_toplevels s.
(** Nothing about activation changes. *)
Definition calm (s s' : Server) : Prop :=
  faces s' = faces s ∧ (∀ t, told t (sv_events s') = told t (sv_events s)).
#[local] Instance calm_pre : PreOrder calm.
Proof.
  split; [by split|]. intros s1 s2 s3 [H1 H2] [H3 H4]. split; [congruence|]. intros t. by rewrite H4.
Qed.
Lemma calm_same s s' : sv_toplevels s' = sv_toplevels s → sv_events s' = sv_events s → calm s s'.
Proof. intros H1 H2. unfold calm, faces. by rewrite H1 H2. Qed.
Lemma calm_mod f : (∀ s, sv_toplevels (f s) = sv_toplevels s) → (∀ s, sv_events (f s) = sv_events s) →
  fkeeps calm (fmod f).
Proof. intros H1 H2. apply fkeeps_mod. intros s. by apply calm_same. Qed.
Lemma calm_get_obj r : fkeeps calm (get_obj r).
Proof. intros s a s'. unfold get_obj. case_match; [|done]. by intros [= _ <-]. Qed.
Lemma calm_ask : fkeeps calm ask.
Proof. intros s a s' [= _ <-]. by apply calm_same. Qed.
Lemma calm_ask_kenv : fkeeps calm ask_kenv.
Proof. intros s a s' [= _ <-]. by apply calm_same. Qed.
Lemma calm_upd_toplevel id f :
  (∀ rec, face (f rec) = face rec) → fkeeps calm (upd_toplevel id f).
Proof.
  intros Hf. apply fkeeps_mod. intros s. split; [|done]. unfold faces. cbn. apply map_eq. intros k.
  rewrite !lookup_fmap. destruct (decide (k = id)) as [->|Hne].
  - rewrite lookup_alter_eq. destruct (sv_toplevels s !! id); cbn; [by rewrite Hf|done].
  - by rewrite lookup_alter_ne.
Qed.
Lemma calm_send e : (∀ t w h a, e ≠ EvConfigure t w h a) → fkeeps calm (send e).
Proof.
  intros He. unfold send. apply fkeeps_bind; [typeclasses eauto|apply calm_get_obj|intros _].
  apply fkeeps_bind; [typeclasses eauto| |intros _].
  - apply fkeeps_opt; [typeclasses eauto|]. intros r.
    apply fkeeps_bind; [typeclasses eauto|apply calm_get_obj|intros _]. apply fkeeps_ret; typeclasses eauto.
  - apply fkeeps_mod. intros s. split; [done|]. intros t. cbn [sv_events set_sv_events].
    rewrite told_snoc. by apply tell_other.
Qed.
#[local] Hint Resolve calm_get_obj calm_ask calm_ask_kenv : fkeeps.
#[local] Hint Extern 2 (fkeeps calm (fmod _)) => (apply calm_mod; reflexivity) : fkeeps.
#[local] Hint Extern 2 (fkeeps calm (upd_toplevel _ _)) => (apply calm_upd_toplevel; reflexivity) : fkeeps.
#[local] Hint Extern 2 (fkeeps calm (send _)) => (apply calm_send; discriminate) : fkeeps.
Ltac calm_go := fkeeps_tac.

(** *** One configure *)

Lemma filter_one {A} (m : gmap Z A) id v (P : Z * A → Prop) `{!∀ x, Decision (P x)} :
  m !! id = Some v → (∀ k w, m !! k = Some w → P (k, w) ↔ k = id) →
  filter P (hash_order A m) = [(id, v)].
Proof.
  intros Hv HP. apply Permutation_singleton_r. rewrite (Hord A m).
  assert (NoDup (filter P (map_to_list m))) as Hnd by (apply NoDup_filter, NoDup_map_to_list).
  assert (∀ x, x ∈ filter P (map_to_list m) ↔ x = (id, v)) as Hx.
  { intros [k w]. rewrite list_elem_of_filter elem_of_map_to_list. split.
    - intros [Hp Hk]. apply (HP _ _ Hk) in Hp. subst. congruence.
    - intros [= -> ->]. split; [by eapply HP|done]. }
  apply NoDup_Permutation; [done|apply NoDup_singleton|]. intros x. rewrite Hx. by rewrite list_elem_of_singleton.
Qed.

(** Distinct toplevels have distinct objects. *)
Definition apart (F : gmap Z (Z * bool * Z)) : Prop :=
  ∀ k k' f f', F !! k = Some f → F !! k' = Some f' → f.1.1 = f'.1.1 → k = k'.
Lemma apart_wf D s : wf D s → apart (faces s).
Proof.
  intros (H1 & _) k k' f f'. unfold faces. rewrite !lookup_fmap !fmap_Some.
  intros (rec & Hrec & ->) (rec' & Hrec' & ->). cbn. intros E.
  destruct (H1 _ _ Hrec) as (_ & (c & Hc & _) & _). destruct (H1 _ _ Hrec') as (_ & (c' & Hc' & _) & _).
  rewrite E Hc' in Hc. congruence.
Qed.
Definition set_act (b : bool) (f : Z * bool * Z) : Z * bool * Z := (f.1.1, b, f.2).
(** The toplevels of [p] are told [b], the others nothing. *)
Definition told_all (p : Z → bool) (b : bool) (s s' : Server) : Prop :=
  (∀ k, faces s' !! k = (if p k then set_act b else id) <$> faces s !! k) ∧
  (∀ k f, faces s !! k = Some f → told f.1.1 (sv_events s') = if p k then Some b else told f.1.1 (sv_events s)).
Lemma told_all_apart p b s s' : told_all p b s s' → apart (faces s) → apart (faces s').
Proof.
  intros [H _] Ha k k' f f'. rewrite !H !fmap_Some. intros (g & Hg & ->) (g' & Hg' & ->) E.
  eapply Ha; [done..|]. by destruct (p k), (p k').
Qed.
Lemma faces_alter s id f : (∀ rec, face (f rec) = set_act (tr_activated (f rec)) (face rec)) → ∀ b,
  (∀ rec, tr_activated (f rec) = b) →
  face <$> alter f id (sv_toplevels s) = alter (set_act b) id (faces s).
Proof.
  intros Hf b Hb. unfold faces. apply map_eq. intros k. rewrite lookup_fmap. destruct (decide (k = id)) as [->|Hne].
  - rewrite !lookup_alter_eq lookup_fmap. destruct (sv_toplevels s !! id); cbn; [by rewrite Hf Hb|done].
  - by rewrite !lookup_alter_ne // lookup_fmap.
Qed.
Lemma get_obj_runs r s : runs (get_obj r) (λ _ s', s' = s) s.
Proof. intros o s'. unfold get_obj. case_match; [|done]. by intros [= _ <-]. Qed.
Lemma send_runs e s : runs (send e) (λ _ s', s' = set_sv_events (sv_events s ++ [e]) s) s.
Proof.
  unfold send. eapply runs_seq; [apply get_obj_runs|]. intros ? s1 ->. eapply (runs_seq _ _ (λ _ s', s' = s)).
  - unfold fopt. destruct (ev_arg e) as [r|]; [|by apply runs_ret].
    eapply runs_seq; [apply get_obj_runs|]. intros ? s1 ->. by apply runs_ret.
  - intros ? s1 ->. by apply runs_mod.
Qed.

Definition configure_one (w h : Z) (b : bool) (kv : Z * ToplevelRec) : M unit :=
  let rec := kv.2 in
  do! upd_toplevel (ti_id (tr_info rec)) (set_tr_activated b) in
  do! send (EvConfigure (tr_toplevel rec) w h b) in
  send (EvXdgConfigure (tr_xdgSurface rec)).
Lemma configure_one_runs w h b k rec a s :
  apart (faces s) → ti_id (tr_info rec) = k → faces s !! k = Some (tr_toplevel rec, a, tr_xdgSurface rec) →
  runs (configure_one w h b (k, rec)) (λ _ s', told_all (λ j, j =? k) b s s') s.
Proof.
  intros Ha Hid Hk. unfold configure_one. cbn [snd]. rewrite Hid. apply runs_bind, runs_mod.
  eapply runs_seq; [apply send_runs|]. intros ? s1 ->. eapply runs_mono; [apply send_runs|]. intros ? s2 ->.
  split.
  - intros j. unfold faces at 1. cbn [sv_toplevels set_sv_toplevels set_sv_events].
    rewrite (faces_alter s k (set_tr_activated b) (λ _, eq_refl) b (λ _, eq_refl)). destruct (j =? k) eqn:E; bool_props.
    + subst j. by rewrite lookup_alter_eq.
    + rewrite lookup_alter_ne; [|done]. by destruct (faces s !! j).
  - intros j f Hj. cbn [sv_events set_sv_toplevels set_sv_events]. rewrite !told_snoc. cbn [tell].
    destruct (j =? k) eqn:E; bool_props.
    + subst j. rewrite Hk in Hj. injection Hj as <-. by rewrite Z.eqb_refl.
    + destruct (tr_toplevel rec =? f.1.1) eqn:E'; [|done]. bool_props. destruct E. by eapply (Ha j k f).
Qed.
Lemma told_all_step p q b s1 s2 s3 :
  told_all p b s1 s2 → told_all q b s2 s3 → told_all (λ k, p k || q k) b s1 s3.
Proof.
  intros [H1 H2] [H3 H4]. split.
  - intros k. rewrite H3 H1 -option_fmap_compose. destruct (faces s1 !! k); [|done]. cbn.
    by destruct (p k), (q k).
  - intros k f Hk. assert (∃ f', faces s2 !! k = Some f' ∧ f'.1.1 = f.1.1) as (f' & Hf' & E).
    { rewrite H1 Hk. eexists. split; [done|]. by destruct (p k). }
    rewrite -E (H4 _ _ Hf') E (H2 _ _ Hk). by destruct (p k), (q k).
Qed.
Lemma told_all_ext p q b s s' :
  (∀ k, is_Some (faces s !! k) → p k = q k) → told_all p b s s' → told_all q b s s'.
Proof.
  intros Hpq [H1 H2]. split.
  - intros k. rewrite H1. destruct (faces s !! k) eqn:E; [|done]. by rewrite (Hpq k ltac:(by eexists)).
  - intros k f Hk. rewrite (H2 _ _ Hk). by rewrite (Hpq k ltac:(by eexists)).
Qed.
Lemma configure_loop w h b l s :
  apart (faces s) → NoDup l.*1 →
  (∀ k rec, (k, rec) ∈ l → ti_id (tr_info rec) = k ∧ ∃ a, faces s !! k = Some (tr_toplevel rec, a, tr_xdgSurface rec)) →
  runs (ffor l (configure_one w h b)) (λ _ s', told_all (λ k, bool_decide (k ∈ l.*1)) b s s') s.
Proof.
  revert s. induction l as [|[k rec] l IH]; intros s Ha Hnd Hl; cbn [ffor].
  - apply runs_ret. split; [|by intros k f]. intros k. rewrite bool_decide_false; [|by intros ?%not_elem_of_nil].
    by destruct (faces s !! k).
  - cbn in Hnd. apply NoDup_cons in Hnd as [Hk Hnd].
    destruct (Hl k rec ltac:(by left)) as (Hid & a & Hf).
    eapply runs_seq; [by apply (configure_one_runs w h b k rec a s Ha Hid Hf)|]. intros ? s1 H1.
    eapply runs_mono; [apply IH; [exact (told_all_apart _ _ _ _ H1 Ha)|done|]|].
    + intros k' rec' Hin. destruct (Hl k' rec' ltac:(by right)) as (Hid' & a' & Hf'). split; [done|].
      destruct H1 as [H1 _]. rewrite H1 Hf'. destruct (k' =? k); [by exists b|by exists a'].
    + intros ? s2 H2. eapply told_all_ext; [|exact (told_all_step _ _ _ _ _ _ H1 H2)]. intros j _. cbn.
      destruct (j =? k) eqn:E; bool_props.
      * subst. symmetry. apply bool_decide_eq_true. by left.
      * cbn. apply bool_decide_ext. rewrite elem_of_cons. naive_solver.
Qed.
Lemma walk_NoDup {A} (m : gmap Z A) : NoDup (hash_order A m).*1.
Proof. rewrite (Hord A m). apply NoDup_fst_map_to_list. Qed.
Lemma NoDup_fst_filter {A} (P : Z * A → Prop) `{!∀ x, Decision (P x)} (l : list (Z * A)) :
  NoDup l.*1 → NoDup (filter P l).*1.
Proof.
  intros Hnd. eapply sublist_NoDup; [exact Hnd|]. apply fmap_sublist, sublist_filter.
Qed.
(** What [ConfigureToplevel] tells whom. *)
Lemma ConfigureToplevel_runs D id w h b s :
  wf D s → runs (ConfigureToplevel hash_order id w h b)
    (λ _ s', told_all (λ k, (id =? 0) || (k =? id)) b s s') s.
Proof.
  intros Hwf. unfold ConfigureToplevel. apply runs_bind, runs_get.
  eapply runs_mono; [apply (configure_loop w h b)|].
  - by eapply apart_wf.
  - apply NoDup_fst_filter, walk_NoDup.
  - intros k rec [_ Hin]%list_elem_of_filter. rewrite (elem_walk hash_order Hord) in Hin.
    destruct Hwf as (H1 & _). destruct (H1 _ _ Hin) as (E & _). split; [done|].
    exists (tr_activated rec). unfold faces. by rewrite lookup_fmap Hin.
  - intros ? s'. apply told_all_ext. intros k [f Hf]. unfold faces in Hf. rewrite lookup_fmap fmap_Some in Hf.
    destruct Hf as (rec & Hrec & ->). apply eq_true_iff_eq. rewrite bool_decide_eq_true list_elem_of_fmap. split.
    + intros ([k' rec'] & -> & [Hp Hin]%list_elem_of_filter). cbn in *. destruct Hp as [->|<-]; [done|].
      rewrite Z.eqb_refl. apply orb_true_r.
    + intros Hp. exists (k, rec). split; [done|]. apply list_elem_of_filter. cbn.
      rewrite (elem_walk hash_order Hord). split; [|done]. by apply orb_prop in Hp as [Hp|Hp]; bool_props; [left|right].
Qed.
#[local] Opaque send.

(** *** Activation *)

(** What the server thinks it told a toplevel is what it told it, but for those of [X]. *)
Definition agreed_but (X : Z → Prop) (s : Server) : Prop :=
  ∀ k f, faces s !! k = Some f → ¬ X k → told f.1.1 (sv_events s) = Some f.1.2.
Definition agreed : Server → Prop := agreed_but (λ _, False).
Lemma agreed_calm X s s' : calm s s' → agreed_but X s → agreed_but X s'.
Proof. intros [H1 H2] H k f. rewrite H1 H2. apply H. Qed.
Lemma agreed_weaken (X Y : Z → Prop) s : (∀ k, X k → Y k) → agreed_but X s → agreed_but Y s.
Proof. intros HXY H k f Hk HY. eapply H; [done|]. eauto. Qed.

Lemma calm_SendSurfaceOnOutput id b : fkeeps calm (SendSurfaceOnOutput id b).
Proof.
  unfold SendSurfaceOnOutput, wl_resource_get_client. calm_go. apply calm_send. by destruct b.
Qed.

(** A toplevel that is told what the server already thinks. *)
Lemma configure_settles D X id w h b s :
  wf D s → id ≠ 0 → agreed_but X s → (∀ f, faces s !! id = Some f → f.1.2 = b) →
  runs (ConfigureToplevel hash_order id w h b)
    (λ _ s', faces s' = faces s ∧ agreed_but (λ k, X k ∧ k ≠ id) s') s.
Proof.
  intros Hwf Hid HX Hb. eapply runs_mono; [by eapply ConfigureToplevel_runs|]. intros [] s' [H1 H2].
  assert (faces s' = faces s) as E.
  { apply map_eq. intros k. rewrite H1. destruct (faces s !! k) as [[[t act] x]|] eqn:Ek; [|done].
    destruct (id =? 0) eqn:E0; bool_props; [done|]. cbn. destruct (k =? id) eqn:Ek'; bool_props; [|done].
    subst k. cbn. unfold set_act. cbn. by rewrite -(Hb _ Ek). }
  split; [done|]. intros k f. rewrite E. intros Hk Hn. rewrite (H2 _ _ Hk).
  destruct (id =? 0) eqn:E0; bool_props; [done|]. cbn. destruct (k =? id) eqn:Ek'; bool_props.
  - subst k. by rewrite (Hb _ Hk).
  - apply (HX k f Hk). naive_solver.
Qed.

(** The changes a verdict asks for. *)
Definition changes_of (active : string) (edge : bool) (l : list (Z * ToplevelRec)) : list (Z * bool) :=
  omap (λ v : Z * Verdict, match v.2 with Change b => Some (v.1, b) | _ => None end)
    ((λ kv : Z * ToplevelRec, (kv.1, verdict active edge kv.2)) <$> l).
Definition pulses_of (active : string) (edge : bool) (l : list (Z * ToplevelRec)) : list Z :=
  omap (λ v : Z * Verdict, match v.2 with Pulse => Some v.1 | _ => None end)
    ((λ kv : Z * ToplevelRec, (kv.1, verdict active edge kv.2)) <$> l).
Lemma elem_changes active edge m k b :
  (k, b) ∈ changes_of active edge (hash_order _ m) ↔
  ∃ rec, m !! k = Some rec ∧ verdict active edge rec = Change b.
Proof.
  unfold changes_of. rewrite list_elem_of_omap. split.
  - intros ([k' v] & Hin & E). apply list_elem_of_fmap in Hin as ([k'' rec] & [= -> ->] & Hin).
    rewrite (elem_walk hash_order Hord) in Hin. cbn in E. case_match; try done. injection E as -> ->. eauto.
  - intros (rec & Hrec & E). exists (k, Change b). split; [|done]. apply list_elem_of_fmap.
    exists (k, rec). cbn. rewrite E (elem_walk hash_order Hord). done.
Qed.
Lemma elem_pulses active edge m k :
  k ∈ pulses_of active edge (hash_order _ m) ↔ ∃ rec, m !! k = Some rec ∧ verdict active edge rec = Pulse.
Proof.
  unfold pulses_of. rewrite list_elem_of_omap. split.
  - intros ([k' v] & Hin & E). apply list_elem_of_fmap in Hin as ([k'' rec] & [= -> ->] & Hin).
    rewrite (elem_walk hash_order Hord) in Hin. cbn in E. case_match; try done. injection E as ->. eauto.
  - intros (rec & Hrec & E). exists (k, Pulse). split; [|done]. apply list_elem_of_fmap.
    exists (k, rec). cbn. rewrite E (elem_walk hash_order Hord). done.
Qed.
(** Where a toplevel is after [ApplyActivation]. *)
Definition target (active : string) (rec : ToplevelRec) : bool := default (tr_activated rec) (wanted active rec).
Lemma verdict_target active edge rec :
  match verdict active edge rec with
  | Change b => target active rec = b
  | Pulse => target active rec = true ∧ tr_activated rec = true
  | Keep => target active rec = tr_activated rec
  end.
Proof.
  unfold verdict, target. destruct (wanted active rec) as [want|]; [|done]. cbn.
  destruct want, edge, (tr_activated rec); cbn; try done; by case_bool_decide.
Qed.

Lemma runs_I {A objs} (m : M A) Q s :
  ok ∅ objs m → I ∅ objs s → runs m Q s → runs m (λ a s', I ∅ objs s' ∧ Q a s') s.
Proof. intros Hm HI HQ. apply runs_conj; [|done]. by apply (safe_runs m (λ _ s', I ∅ objs s')), Hm. Qed.
Lemma faces_ne_0 D s k f : wf D s → faces s !! k = Some f → k ≠ 0.
Proof.
  intros (_&_&[_ H]&_) Hk. unfold faces in Hk. rewrite lookup_fmap fmap_Some in Hk.
  destruct Hk as (rec & Hrec & _). destruct (H _ _ Hrec). lia.
Qed.

Section apply_activation.
Context (objs : gmap Z Resource) (s : Server) (active : string) (edge : bool) (w h : Z).
Context (HI : I ∅ objs s) (Hag : agreed s).
Abbreviation changes := (changes_of active edge (hash_order _ (sv_toplevels s))).
Abbreviation pulses := (pulses_of active edge (hash_order _ (sv_toplevels s))).
(** What the toplevels come to. *)
Definition settled : gmap Z (Z * bool * Z) :=
  (λ rec, (tr_toplevel rec, target active rec, tr_xdgSurface rec)) <$> sv_toplevels s.
Lemma settled_change k b f : (k, b) ∈ changes → settled !! k = Some f → f.1.2 = b.
Proof using Hord.
  rewrite elem_changes. intros (rec & Hrec & E). unfold settled. rewrite lookup_fmap Hrec. intros [= <-]. cbn.
  pose proof (verdict_target active edge rec) as H. by rewrite E in H.
Qed.
Lemma changes_NoDup : NoDup changes.*1.
Proof using Hord.
  assert (changes.*1 = omap (λ kv : Z * ToplevelRec, match verdict active edge kv.2 with Change _ => Some kv.1 | _ => None end)
    (hash_order _ (sv_toplevels s))) as ->.
  { unfold changes_of. induction (hash_order _ _) as [|[k rec] l IH]; [done|]. cbn.
    destruct (verdict active edge rec); cbn; by rewrite IH. }
  pose proof (walk_NoDup (sv_toplevels s)) as Hnd. induction (hash_order _ _) as [|[k rec] l IH]; [constructor|].
  cbn in *. apply NoDup_cons in Hnd as [Hk Hnd].
  destruct (verdict active edge rec); [by apply IH..|].
  apply NoDup_cons. split; [|by apply IH]. rewrite list_elem_of_omap. intros ([k' rec'] & Hin & E). cbn in E.
  case_match; try done. injection E as ->. apply Hk, list_elem_of_fmap. by exists (k, rec').
Qed.

Lemma flags_set :
  runs (ffor changes (λ c, upd_toplevel c.1 (set_tr_activated c.2)))
    (λ _ s', I ∅ objs s' ∧ sv_events s' = sv_events s ∧ faces s' = settled) s.
Proof using HI Hord.
  apply (runs_for (λ l s', I ∅ objs s' ∧ sv_events s' = sv_events s ∧ NoDup l.*1 ∧ (∀ c, c ∈ l → c ∈ changes) ∧
    ∀ k, faces s' !! k = (λ rec, (tr_toplevel rec,
      if bool_decide (k ∈ l.*1) then tr_activated rec else target active rec, tr_xdgSurface rec)) <$> sv_toplevels s !! k)).
  - split_and!; [done|done|apply changes_NoDup|done|]. intros k. unfold faces. rewrite lookup_fmap.
    destruct (sv_toplevels s !! k) as [rec|] eqn:Ek; [|done]. cbn. unfold face. case_bool_decide as Hin; [done|].
    do 3 f_equal. pose proof (verdict_target active edge rec) as H. destruct (verdict active edge rec) eqn:Ev; [done|by destruct H as [-> ->]|].
    destruct Hin. apply list_elem_of_fmap. exists (k, want). split; [done|]. apply elem_changes. eauto.
  - intros [k b] l s' (HI' & He & Hnd & Hin & Hf). cbn [fst snd].
    cbn in Hnd. apply NoDup_cons in Hnd as [Hk Hnd].
    eapply runs_mono; [apply (runs_I (objs := objs) (upd_toplevel k (set_tr_activated b))
      (λ _ s'', s'' = set_sv_toplevels (alter (set_tr_activated b) k (sv_toplevels s')) s'));
      [by apply ok_upd_soft|done|by apply runs_mod]|].
    intros ? s'' [HI'' ->]. split_and!; [done|done|done|intros c Hc; apply Hin; by right|].
    intros j. unfold faces. cbn [sv_toplevels set_sv_toplevels].
    rewrite (faces_alter s' k (set_tr_activated b) (λ _, eq_refl) b (λ _, eq_refl)).
    destruct (decide (j = k)) as [->|Hne].
    + rewrite lookup_alter_eq Hf. destruct (proj1 (elem_changes _ _ _ _ _) (Hin (k, b) ltac:(by left))) as (rec & Hrec & Ev).
      rewrite Hrec. cbn. rewrite (bool_decide_false (k ∈ l.*1)); [|done]. unfold set_act. cbn.
      pose proof (verdict_target active edge rec) as H. rewrite Ev in H. by rewrite H.
    + rewrite lookup_alter_ne; [|done]. rewrite Hf. destruct (sv_toplevels s !! j); [|done]. cbn.
      erewrite bool_decide_ext; [done|]. rewrite elem_of_cons. naive_solver.
  - intros s' (HI' & He & _ & _ & Hf). split_and!; [done|done|]. apply map_eq. intros k. rewrite Hf.
    unfold settled. by rewrite lookup_fmap.
Qed.

(** The toplevels of [X] are still to be told. *)
Definition telling (X : Z → Prop) (s' : Server) : Prop :=
  I ∅ objs s' ∧ faces s' = settled ∧ agreed_but X s'.
Lemma telling_calm {A} X (m : M A) s' :
  ok ∅ objs m → fkeeps calm m → telling X s' → runs m (λ _ s'', telling X s'') s'.
Proof using Type.
  intros Hok Hc (HI' & Hf & Hx). eapply runs_mono; [apply (runs_I (objs := objs)); [done|done|by apply runs_keeps]|].
  intros ? s'' [HI'' Hcalm]. split_and!; [done| |by eapply agreed_calm]. destruct Hcalm as [-> _]. done.
Qed.
Lemma telling_send X id b s' :
  telling X s' → runs (SendSurfaceOnOutput id b) (λ _ s'', telling X s'') s'.
Proof using Type. apply telling_calm; [apply ok_SendSurfaceOnOutput|apply calm_SendSurfaceOnOutput]. Qed.
Lemma telling_configure X id b s' :
  (∀ f, settled !! id = Some f → f.1.2 = b) → is_Some (settled !! id) → telling X s' →
  runs (ConfigureToplevel hash_order id w h b) (λ _ s'', telling (λ k, X k ∧ k ≠ id) s'') s'.
Proof using Hord.
  intros Hb [f Hf0] (HI' & Hf & Hx).
  assert (id ≠ 0) as Hid by (eapply (faces_ne_0 ∅ s'); [apply HI'|by rewrite Hf]).
  eapply runs_mono; [apply (runs_I (objs := objs)); [by apply ok_ConfigureToplevel|done|]|].
  - eapply (configure_settles ∅ X id w h b s'); [apply HI'|done|done|]. by rewrite Hf.
  - intros ? s'' (HI'' & Hf' & Hx'). split_and!; [done|by rewrite Hf'|done].
Qed.
Lemma telling_weaken (X Y : Z → Prop) s' : (∀ k, X k → Y k) → telling X s' → telling Y s'.
Proof using Type. intros H (?&?&?). split_and!; [done..|by eapply agreed_weaken]. Qed.
Lemma change_settled k b : (k, b) ∈ changes → is_Some (settled !! k).
Proof using Hord. rewrite elem_changes. intros (rec & Hrec & _). unfold settled. rewrite lookup_fmap Hrec. by eexists. Qed.

Lemma flags_told s1 :
  I ∅ objs s1 → sv_events s1 = sv_events s → faces s1 = settled → telling (λ k, k ∈ changes.*1) s1.
Proof using Hag Hord.
  intros HI1 He Hf. split_and!; [done|done|]. intros k f. rewrite Hf He. unfold settled. rewrite lookup_fmap fmap_Some.
  intros (rec & Hrec & ->) Hn. cbn.
  assert (target active rec = tr_activated rec) as ->.
  { pose proof (verdict_target active edge rec) as H. destruct (verdict active edge rec) eqn:Ev; [done|by destruct H as [-> ->]|].
    destruct Hn. apply list_elem_of_fmap. exists (k, want). split; [done|]. apply elem_changes. eauto. }
  apply (Hag k (face rec)); [|by intros []]. unfold faces. by rewrite lookup_fmap Hrec.
Qed.
Lemma ons_told s1 :
  telling (λ k, k ∈ changes.*1) s1 →
  runs (ffor changes (λ c, if c.2 : bool
          then do! SendSurfaceOnOutput c.1 true in ConfigureToplevel hash_order c.1 w h true else fret tt))
    (λ _ s', telling (λ k, (k, false) ∈ changes) s') s1.
Proof using Hord.
  intros H1. apply (runs_for (λ l s', (∀ c, c ∈ l → c ∈ changes) ∧
    telling (λ k, (k, false) ∈ changes ∨ (k, true) ∈ l) s')).
  - split; [done|]. eapply telling_weaken, H1. intros k ([k' []] & -> & Hin)%list_elem_of_fmap; cbn; auto.
  - intros [k b] l s' [Hin Ht]. cbn [fst snd]. pose proof (Hin (k, b) ltac:(by left)) as Hkb. destruct b.
    + eapply runs_seq; [exact (telling_send _ k true s' Ht)|].
      intros ? s'' Ht'. eapply runs_mono; [eapply telling_configure; [|by eapply change_settled|exact Ht']|].
      { intros f. by apply settled_change. }
      intros ? s3 Ht3. split; [intros c Hc; apply Hin; by right|]. eapply telling_weaken, Ht3.
      intros j [[Hj|Hj] Hne]; [by left|]. right. apply elem_of_cons in Hj as [[= ->]|Hj]; [done|done].
    + apply runs_ret. split; [intros c Hc; apply Hin; by right|]. eapply telling_weaken, Ht.
      intros j [Hj|Hj]; [by left|]. right. by apply elem_of_cons in Hj as [[=]|Hj].
  - intros s' [_ Ht]. eapply telling_weaken, Ht. by intros k [?|?%not_elem_of_nil].
Qed.
Lemma offs_told s1 :
  telling (λ k, (k, false) ∈ changes) s1 →
  runs (ffor changes (λ c, if c.2 : bool then fret tt
          else do! ConfigureToplevel hash_order c.1 w h false in SendSurfaceOnOutput c.1 false))
    (λ _ s', telling (λ _, False) s') s1.
Proof using Hord.
  intros H1. apply (runs_for (λ l s', (∀ c, c ∈ l → c ∈ changes) ∧ telling (λ k, (k, false) ∈ l) s')).
  - by split.
  - intros [k b] l s' [Hin Ht]. cbn [fst snd]. pose proof (Hin (k, b) ltac:(by left)) as Hkb. destruct b.
    + apply runs_ret. split; [intros c Hc; apply Hin; by right|]. eapply telling_weaken, Ht.
      intros j Hj. by apply elem_of_cons in Hj as [[=]|Hj].
    + eapply runs_seq; [eapply telling_configure; [|by eapply change_settled|exact Ht]|].
      { intros f. by apply settled_change. }
      intros ? s'' Ht'.
      eapply runs_mono; [exact (telling_send _ k false s'' Ht')|].
      intros ? s3 Ht3. split; [intros c Hc; apply Hin; by right|]. eapply telling_weaken, Ht3.
      intros j [Hj Hne]. apply elem_of_cons in Hj as [[= ->]|Hj]; [done|done].
  - intros s' [_ Ht]. eapply telling_weaken, Ht. by intros k ?%not_elem_of_nil.
Qed.
(** Off and on again: nothing has changed. *)
Lemma pulse_told k s1 :
  k ∈ pulses → telling (λ _, False) s1 →
  runs (do! SendSurfaceOnOutput k true in
        do! ConfigureToplevel hash_order k w h false in ConfigureToplevel hash_order k w h true)
    (λ _ s', telling (λ _, False) s') s1.
Proof using Hord.
  intros (rec & Hrec & Ev)%elem_pulses Ht.
  pose proof (verdict_target active edge rec) as Htg. rewrite Ev in Htg.
  assert (settled !! k = Some (tr_toplevel rec, true, tr_xdgSurface rec)) as Hk.
  { unfold settled. rewrite lookup_fmap Hrec. cbn. by destruct Htg as [-> _]. }
  eapply runs_seq; [exact (telling_send _ k true s1 Ht)|].
  intros ? s2 (HI2 & Hf2 & Hx2). eapply runs_seq; [apply (runs_I (objs := objs)); [by apply ok_ConfigureToplevel|done|]|].
  { eapply ConfigureToplevel_runs, HI2. }
  intros ? s3 (HI3 & Hf3 & Hx3). eapply runs_mono; [apply (runs_I (objs := objs)); [by apply ok_ConfigureToplevel|done|]|].
  { eapply ConfigureToplevel_runs, HI3. }
  intros ? s4 (HI4 & Hf4 & Hx4).
  assert (k ≠ 0) as Hk0 by (eapply (faces_ne_0 ∅ s2); [apply HI2|by rewrite Hf2]).
  apply Z.eqb_neq in Hk0. rewrite Hk0 in Hf3, Hx3, Hf4, Hx4. cbn in Hf3, Hx3, Hf4, Hx4.
  assert (faces s4 = settled) as E.
  { apply map_eq. intros j. rewrite Hf4 Hf3 Hf2. destruct (j =? k) eqn:E; [|by destruct (settled !! j)].
    bool_props. subst j. by rewrite Hk. }
  split_and!; [done|done|]. intros j f. rewrite E. intros Hj _.
  assert (∃ f', faces s3 !! j = Some f' ∧ f'.1.1 = f.1.1) as (f' & Hf' & Ef).
  { rewrite Hf3 Hf2 Hj. eexists. split; [done|]. by destruct (j =? k). }
  rewrite -Ef (Hx4 _ _ Hf'). destruct (j =? k) eqn:Ej; bool_props.
  - subst j. rewrite Hk in Hj. by injection Hj as <-.
  - rewrite Ef (Hx3 j f); [|by rewrite Hf2]. rewrite (proj2 (Z.eqb_neq j k) Ej). apply (Hx2 j f); [by rewrite Hf2|by intros []].
Qed.
End apply_activation.

(** [ApplyActivation] puts every toplevel where it is wanted, and tells it so. *)
Definition shown_package (s : Server) : string :=
  if IsAttached (sv_output s) then "*" else sv_activePackage s.
Lemma ApplyActivation_runs objs edge s :
  I ∅ objs s → agreed s →
  runs (ApplyActivation hash_order edge)
    (λ _ s', I ∅ objs s' ∧ agreed s' ∧ faces s' = settled s (shown_package s)) s.
Proof.
  intros HI Hag. unfold ApplyActivation. do 4 apply runs_bind, runs_get. apply runs_bind, runs_get.
  set (active := if IsAttached _ then _ else _).
  eapply runs_seq; [by apply (flags_set objs s active edge)|]. intros ? s1 (HI1 & He1 & Hf1).
  pose proof (flags_told objs s active edge Hag s1 HI1 He1 Hf1) as Ht1.
  eapply runs_seq; [by apply (ons_told objs s active edge)|]. intros ? s2 Ht2.
  eapply runs_seq; [by apply (offs_told objs s active edge)|]. intros ? s3 Ht3.
  apply (runs_for (λ l s', (∀ k, k ∈ l → k ∈ pulses_of active edge (hash_order _ (sv_toplevels s))) ∧
    telling objs s active (λ _, False) s')).
  - by split.
  - intros k l s' [Hin Ht]. eapply runs_mono; [apply (pulse_told objs s active edge); [apply Hin; by left|done]|].
    intros ? s'' Ht'. split; [|done]. intros j Hj. apply Hin. by right.
  - intros s' [_ (HI' & Hf' & Hx')]. by split_and!.
Qed.

(** *** Every operation keeps the agreement *)

Definition keeps_agreed {A} (m : M A) : Prop := fkeeps (λ s s', agreed s → agreed s') m.
#[local] Instance agreed_pre : PreOrder (λ s s' : Server, agreed s → agreed s').
Proof. split; [by intros s|]. intros s1 s2 s3 H1 H2 H. auto. Qed.
Lemma calm_agreed {A} (m : M A) : fkeeps calm m → keeps_agreed m.
Proof. apply fkeeps_weaken. intros s s'. apply agreed_calm. Qed.

Lemma calm_put_obj r o : fkeeps calm (put_obj r o).
Proof. unfold put_obj. calm_go. Qed.
Lemma calm_get_surface r : fkeeps calm (get_surface r).
Proof. unfold get_surface. calm_go. Qed.
Lemma calm_get_xdg r : fkeeps calm (get_xdg r).
Proof. unfold get_xdg. calm_go. Qed.
Lemma calm_get_buffer r : fkeeps calm (get_buffer r).
Proof. unfold get_buffer. calm_go. Qed.
Lemma calm_client r : fkeeps calm (wl_resource_get_client r).
Proof. unfold wl_resource_get_client. calm_go. Qed.
#[local] Hint Resolve calm_put_obj calm_get_surface calm_get_xdg calm_get_buffer calm_client : fkeeps.
Lemma calm_upd_surface r f : fkeeps calm (upd_surface r f).
Proof. unfold upd_surface. calm_go. Qed.
Lemma calm_get_out r : fkeeps calm (get_out r).
Proof. destruct r; [apply fkeeps_get; typeclasses eauto|]. intros s a s'. cbn. case_match; [|done]. by intros [= _ <-]. Qed.
Lemma calm_put_out r o : fkeeps calm (put_out r o).
Proof. unfold put_out. calm_go. Qed.
Lemma calm_rs_log ops : fkeeps calm (rs_log ops).
Proof. unfold rs_log. calm_go. Qed.
Lemma calm_emit ev info : fkeeps calm (EmitToplevel ev info).
Proof. unfold EmitToplevel. calm_go. Qed.
Lemma calm_create c new o : fkeeps calm (wl_resource_create c new o).
Proof. unfold wl_resource_create. calm_go. Qed.
#[local] Hint Resolve calm_upd_surface calm_get_out calm_put_out calm_rs_log calm_emit calm_create : fkeeps.
Lemma calm_ResetQueue r : fkeeps calm (out_ResetQueue r).
Proof. unfold out_ResetQueue. calm_go. Qed.
Lemma calm_OnBufferReleased sb : fkeeps calm (OnBufferReleased sb).
Proof. unfold OnBufferReleased. calm_go. Qed.
#[local] Hint Resolve calm_ResetQueue calm_OnBufferReleased : fkeeps.
Lemma calm_take w : fkeeps calm (take_in_flight hash_order w).
Proof. unfold take_in_flight. calm_go. Qed.
#[local] Hint Resolve calm_take : fkeeps.
Lemma calm_legacy_call c : fkeeps calm (legacy_call hash_order c).
Proof.
  destruct c; cbn [legacy_call]; unfold legacy_AttachProducer, legacy_SetNodeVisible, with_legacy,
    RevertToSelfDrawing; calm_go.
Qed.
#[local] Hint Resolve calm_legacy_call : fkeeps.
Lemma calm_other_thread m : fkeeps calm (other_thread hash_order m).
Proof. destruct m; cbn [other_thread]; calm_go. Qed.
Lemma calm_meanwhile : fkeeps calm (meanwhile hash_order).
Proof.
  intros s a s' E. unfold meanwhile in E. etrans; [|eapply (fkeeps_for calm _ _ calm_other_thread), E].
  by apply calm_same.
Qed.
#[local] Hint Resolve calm_meanwhile : fkeeps.
Lemma calm_ForgetBuffer b : fkeeps calm (ForgetBuffer hash_order b).
Proof. unfold ForgetBuffer. calm_go. Qed.
Lemma calm_ReleaseInFlightOf w : fkeeps calm (ReleaseInFlightOf hash_order w).
Proof. unfold ReleaseInFlightOf. calm_go. Qed.
Lemma calm_Import b nh desc : fkeeps calm (Import b nh desc).
Proof. unfold Import. calm_go. Qed.
Lemma calm_Flush out b sb : fkeeps calm (out_Flush out b sb).
Proof. unfold out_Flush. calm_go. Qed.
Lemma calm_OutputFor t : fkeeps calm (OutputFor hash_order t).
Proof. unfold OutputFor. calm_go. Qed.
#[local] Hint Resolve calm_ForgetBuffer calm_ReleaseInFlightOf calm_Import calm_Flush calm_OutputFor : fkeeps.
Lemma calm_show_frame t b nh desc : fkeeps calm (show_frame hash_order t b nh desc).
Proof. unfold show_frame, WatchBufferDestroy, TrackInFlight, UntrackInFlight. calm_go. Qed.
Lemma calm_NoteToplevelFrame t : fkeeps calm (NoteToplevelFrame t).
Proof. unfold NoteToplevelFrame. calm_go. Qed.
Lemma calm_NoteToplevelInactive t : fkeeps calm (NoteToplevelInactive t).
Proof. unfold NoteToplevelInactive. calm_go. Qed.
Lemma calm_SetToplevelTitle t title : fkeeps calm (SetToplevelTitle t title).
Proof. unfold SetToplevelTitle. calm_go. Qed.
Lemma calm_CloseToplevel t : fkeeps calm (CloseToplevel t).
Proof. unfold CloseToplevel. calm_go. Qed.
#[local] Hint Resolve calm_show_frame calm_NoteToplevelFrame calm_NoteToplevelInactive calm_SetToplevelTitle
  calm_CloseToplevel : fkeeps.
Lemma calm_SurfaceCommit r : fkeeps calm (SurfaceCommit hash_order r).
Proof.
  unfold SurfaceCommit, commit_pending, commit_shm, commit_wlegl, commit_callback, NoteInputSurface,
    NoteToplevelSurface. calm_go.
Qed.
Lemma calm_DrainReleases : fkeeps calm DrainReleases.
Proof. unfold DrainReleases. calm_go. Qed.
Lemma calm_DrainTouchOps : fkeeps calm DrainTouchOps.
Proof.
  unfold DrainTouchOps. calm_go.
  all: apply calm_send; unfold touch_event; by destruct (to_kind _).
Qed.
Lemma calm_Inject a i x y : fkeeps calm (InjectTouchFromAction a i x y).
Proof. unfold InjectTouchFromAction, InjectTouchOps. calm_go. Qed.
Lemma calm_SendKeyboardFocus u : fkeeps calm (SendKeyboardFocus u).
Proof. unfold SendKeyboardFocus. calm_go. Qed.
#[local] Hint Resolve calm_SurfaceCommit calm_DrainReleases calm_DrainTouchOps calm_Inject calm_SendKeyboardFocus : fkeeps.
Lemma calm_run_touch w a i x y : fkeeps calm (run_touch w a i x y).
Proof. unfold run_touch, NoteInputSurface. calm_go. Qed.
Lemma calm_run_key w c d : fkeeps calm (run_key w c d).
Proof. unfold run_key. calm_go. Qed.
Lemma calm_ipc i : fkeeps calm (ipc_section hash_order i).
Proof.
  destruct i; cbn [ipc_section]; unfold attach_window, detach_window, set_window_active, InjectTouchOps.
  all: calm_go.
  all: try (apply calm_mod; intros s; repeat case_match; reflexivity).
Qed.
Lemma calm_DropInputSurface u : fkeeps calm (DropInputSurface u).
Proof.
  unfold DropInputSurface. fkeeps_step.
  - apply fkeeps_mod. intros s. by case_bool_decide.
  - fkeeps_step; [apply fkeeps_mod; intros s; by case_bool_decide|]. apply fkeeps_mod. intros s. split; [|done].
    unfold faces. cbn [sv_toplevels set_sv_toplevels]. rewrite -map_fmap_compose. apply map_fmap_ext. intros k rec _.
    cbn. by case_bool_decide.
Qed.
#[local] Hint Resolve calm_run_touch calm_run_key calm_ipc calm_DropInputSurface : fkeeps.

Lemma agreed_RemoveToplevel t : keeps_agreed (RemoveToplevel t).
Proof.
  intros s a s' E Hag. unfold RemoveToplevel, fbind, fget in E. destruct (sv_toplevels s !! t) as [rec|]; [|by injection E as _ <-].
  injection E as _ <-. destruct (sv_onTopId s =? t); intros k f Hk _; apply (Hag k f); try (by intros []); revert Hk;
    unfold faces; cbn [sv_toplevels set_sv_toplevels set_sv_onTopId set_sv_emitted];
    rewrite fmap_delete lookup_delete_Some; by intros [_ ?].
Qed.
Lemma agreed_destroy r : keeps_agreed (wl_resource_destroy hash_order r).
Proof.
  unfold wl_resource_destroy. apply fkeeps_bind; [typeclasses eauto|apply calm_agreed; calm_go|intros o].
  apply fkeeps_bind; [typeclasses eauto| |intros _; apply calm_agreed; calm_go].
  destruct (r_obj o); try (apply calm_agreed; unfold SurfaceResourceDestroy, xdg_destroy, RemoveTouchResource,
    RemoveKeyboardResource, RemoveOutputResource; by calm_go).
  apply agreed_RemoveToplevel.
Qed.

(** A configure keeps the agreement, whatever it tells. *)
Lemma told_all_agreed p b s s' : told_all p b s s' → agreed s → agreed s'.
Proof.
  intros [H1 H2] Hag k f. rewrite H1 fmap_Some. intros (g & Hg & ->) _.
  assert (((if p k then set_act b else id) g).1.1 = g.1.1) as -> by by destruct (p k).
  rewrite (H2 _ _ Hg). destruct (p k); [done|]. apply (Hag k g Hg). by intros [].
Qed.
Definition IA (objs : gmap Z Resource) (s : Server) : Prop := I ∅ objs s ∧ agreed s.
Lemma IA_agreed {A} objs (m : M A) s : ok ∅ objs m → keeps_agreed m → IA objs s → runs m (λ _ s', IA objs s') s.
Proof.
  intros Hok Hk [HI Hag]. apply (runs_I (objs := objs)); [done|done|]. intros a s' E. by eapply Hk.
Qed.
Lemma IA_calm {A} objs (m : M A) s : ok ∅ objs m → fkeeps calm m → IA objs s → runs m (λ _ s', IA objs s') s.
Proof. intros Hok Hc. apply IA_agreed; [done|by apply calm_agreed]. Qed.
Lemma IA_Configure objs id w h b s :
  IA objs s → runs (ConfigureToplevel hash_order id w h b) (λ _ s', IA objs s') s.
Proof.
  intros [HI Hag]. apply (runs_I (objs := objs)); [by apply ok_ConfigureToplevel|done|].
  eapply runs_mono; [by eapply ConfigureToplevel_runs, HI|]. intros ? s' H. exact (told_all_agreed _ _ _ _ H Hag).
Qed.
Lemma IA_Apply objs edge s : IA objs s → runs (ApplyActivation hash_order edge) (λ _ s', IA objs s') s.
Proof. intros [HI Hag]. eapply runs_mono; [by apply (ApplyActivation_runs objs)|]. by intros ? s' (? & ? & _). Qed.
Lemma IA_run_posted objs p s : IA objs s → runs (run_posted hash_order p) (λ _ s', IA objs s') s.
Proof.
  intros H. destruct p; cbn [run_posted].
  - destruct resized; [|by apply runs_ret]. apply runs_bind, runs_get.
    apply (runs_for (λ _ s', IA objs s')); [done| |done]. intros kv l s' H'. by apply IA_Configure.
  - eapply runs_seq; [apply IA_calm; [apply ok_rs_log|calm_go|exact H]|]. intros ? s1 H1.
    eapply runs_seq; [apply IA_calm; [by apply ok_ReleaseInFlightOf|calm_go|exact H1]|]. intros ? s2 H2.
    by apply IA_Apply.
  - apply IA_calm; [apply ok_run_touch|calm_go|done].
  - apply IA_calm; [apply ok_run_key|calm_go|done].
  - eapply runs_seq; [apply IA_calm; [by apply ok_core|calm_go|exact H]|]. intros ? s1 H1. by apply IA_Apply.
  - apply runs_bind, runs_get. apply (runs_for (λ _ s', IA objs s')); [done| |done]. intros kv l s' H'.
    apply IA_calm; [by eapply ok_CloseToplevel|calm_go|done].
  - apply IA_calm; [by eapply ok_CloseToplevel|calm_go|done].
  - by apply IA_Configure.
Qed.
Lemma IA_DrainPosted objs s : IA objs s → runs (DrainPosted hash_order) (λ _ s', IA objs s') s.
Proof.
  intros H. unfold DrainPosted. apply runs_bind, runs_get.
  eapply runs_seq; [apply IA_calm; [by apply ok_core|calm_go|exact H]|]. intros ? s1 H1.
  apply (runs_for (λ _ s', IA objs s')); [done| |done]. intros p l s' H'. by apply IA_run_posted.
Qed.
Lemma IA_SetToplevelAppId objs id a s : IA objs s → runs (SetToplevelAppId hash_order id a) (λ _ s', IA objs s') s.
Proof.
  intros H. unfold SetToplevelAppId. apply runs_bind, runs_get.
  destruct (sv_toplevels s !! id) as [rec|] eqn:E; [|by apply runs_ret]. destruct a as [a|]; [|by apply runs_ret].
  case_bool_decide; [by apply runs_ret|].
  eapply runs_seq; [apply IA_calm; [|apply calm_upd_toplevel; reflexivity|exact H]|].
  { apply ok_upd_info; try done. intros ? _. cbn. destruct H as [[Hwf _] _]. destruct Hwf as (H1 & _).
    by destruct (H1 _ _ E). }
  intros ? s1 H1. eapply runs_seq; [apply IA_calm; [apply ok_emit|calm_go|exact H1]|]. intros ? s2 H2. by apply IA_Apply.
Qed.

Lemma get_xdg_runs r s : runs (get_xdg r) (λ _ s', s' = s) s.
Proof.
  unfold get_xdg. eapply runs_seq; [apply get_obj_runs|]. intros o s' ->. case_match; by first [apply runs_ret|intros ? ?].
Qed.
Lemma get_client_runs r s : runs (wl_resource_get_client r) (λ _ s', s' = s) s.
Proof. unfold wl_resource_get_client. eapply runs_seq; [apply get_obj_runs|]. intros o s' ->. by apply runs_ret. Qed.
Lemma agreed_GetToplevel c x new s :
  wf ∅ s → fresh s new = true → agreed s →
  runs (XdgSurfaceGetToplevel c x new) (λ _ s', agreed s') s.
Proof.
  intros Hwf Hf Hag. unfold XdgSurfaceGetToplevel, fopt. destruct new as [r|]; [|by apply runs_ret].
  apply fresh_Some in Hf.
  assert (∀ k f, faces s !! k = Some f → f.1.1 ≠ r) as Hfr.
  { intros k f. unfold faces. rewrite lookup_fmap fmap_Some. intros (rec & Hrec & ->). cbn. intros <-.
    destruct Hwf as (H1 & _). destruct (H1 _ _ Hrec) as (_ & (c' & (o & Ho & _)%shape_at & _) & _). congruence. }
  set (n := sv_nextToplevelId s).
  set (P := λ s' : Server, faces s' = <[n := (r, false, x)]> (faces s) ∧ agreed_but (λ k, k = n) s').
  assert (∀ A (m : M A) s', fkeeps calm m → P s' → runs m (λ _ s'', P s'') s') as HP.
  { intros A m s' Hm [H1 H2] a s'' E. specialize (Hm _ _ _ E) as Hc. split; [|by eapply agreed_calm].
    destruct Hc as [-> _]. done. }
  apply runs_bind, runs_mod. eapply runs_seq; [apply get_xdg_runs|]. intros xs ? ->.
  unfold AddToplevel. apply runs_bind. eapply runs_seq; [apply get_client_runs|]. intros cl ? ->.
  apply runs_bind, runs_get, runs_bind, runs_mod, runs_bind, runs_mod, runs_ret.
  match goal with |- runs _ _ ?st => assert (P st) as H0; [|revert H0; generalize st] end.
  { split; [unfold faces; cbn [sv_toplevels set_sv_toplevels set_sv_objs set_sv_emitted set_sv_nextToplevelId];
            by rewrite fmap_insert|].
    intros k f. unfold faces. cbn [sv_toplevels set_sv_toplevels set_sv_objs set_sv_emitted set_sv_nextToplevelId sv_events].
    rewrite fmap_insert lookup_insert_Some. intros [[<- _]|[_ Hk]] Hne; [done|]. apply (Hag k f Hk). by intros []. }
  intros s1 H1. eapply runs_seq; [apply HP; [|exact H1]|]; [unfold NoteToplevelSurface; calm_go|]. intros ? s2 H2.
  eapply runs_seq; [apply HP; [calm_go|exact H2]|]. intros ? s3 H3.
  eapply runs_seq; [apply HP; [calm_go|exact H3]|]. intros ? s4 H4.
  eapply runs_seq; [apply HP; [calm_go|exact H4]|]. intros ? s5 H5.
  eapply runs_seq; [apply HP; [unfold OutputSize; calm_go|exact H5]|]. intros size s6 [Hf6 Hx6].
  eapply runs_seq; [apply send_runs|]. intros ? s7 ->. intros ? s8 E. eapply agreed_calm; [by eapply (calm_send (EvXdgConfigure x))|].
  intros k f. change (faces (set_sv_events ?e s6)) with (faces s6). cbn [sv_events set_sv_events].
  rewrite Hf6 lookup_insert_Some told_snoc. cbn [tell]. intros [[<- <-]|[Hne Hk]] _.
  - cbn. by rewrite Z.eqb_refl.
  - rewrite (proj2 (Z.eqb_neq r f.1.1)); [|by apply not_eq_sym, (Hfr k)].
    apply (Hx6 k f); [by rewrite Hf6 lookup_insert_ne|done].
Qed.

Lemma on_server_runs (m : M unit) (Q : Server → Prop) s th x' :
  runs m (λ _ s', Q s') s → on_server m (s, th) = Some x' → Q x'.1.
Proof. intros H. unfold on_server. cbn. destruct (m s) as [[[] s']|] eqn:E; [|done]. intros [= <-]. by eapply H. Qed.
Lemma keeps_agreed_runs {A} (m : M A) s : keeps_agreed m → agreed s → runs m (λ _ s', agreed s') s.
Proof. intros H Hag a s' E. by eapply H. Qed.
Lemma IA_runs {A} (m : M A) s :
  (IA (sv_objs s) s → runs m (λ _ s', IA (sv_objs s) s') s) → good s → agreed s → runs m (λ _ s', agreed s') s.
Proof. intros H [Hwf _] Hag. eapply runs_mono; [by apply H|]. by intros ? s' [_ ?]. Qed.
Lemma calm_runs {A} (m : M A) s : fkeeps calm m → agreed s → runs m (λ _ s', agreed s') s.
Proof. intros H. by apply keeps_agreed_runs, calm_agreed. Qed.
Lemma agreed_req c q s :
  good s → agreed s → req_ok s c q = true → runs (run_req hash_order c q) (λ _ s', agreed s') s.
Proof.
  intros Hg Hag Hok. destruct q; cbn [run_req];
    try (by apply calm_runs; [unfold CompositorCreateSurface, SurfaceAttach, SurfaceFrame, SubcompositorGetSubsurface,
      OutputBind, AddOutputResource, SeatGetKeyboard, AddKeyboardResource, SeatGetTouch, AddTouchResource, SeatBind,
      XdgWmBaseGetXdgSurface, XdgToplevelSetTitle; calm_go|]).
  - cbn in Hok. apply andb_prop in Hok as [_ Hok]. apply agreed_GetToplevel; [apply Hg|done|done].
  - unfold XdgToplevelSetAppId. eapply runs_seq; [apply get_obj_runs|]. intros o s' ->.
    case_match; try (by intros ? ?). apply IA_runs; [|done|done]. apply IA_SetToplevelAppId.
  - by apply keeps_agreed_runs; [apply agreed_destroy|].
Qed.
Lemma agreed_step a x x' : good x.1 → agreed x.1 → step hash_order a x = Some x' → agreed x'.1.
Proof.
  destruct x as [s th]. cbn [fst]. intros Hg Hag. destruct a; cbn [step].
  - case_match eqn:E; [|by intros [= <-]]. by apply on_server_runs, agreed_req.
  - case_bool_decide; [|by intros [= <-]]. apply on_server_runs, keeps_agreed_runs; [|done].
    apply fkeeps_for; [typeclasses eauto|]. apply agreed_destroy.
  - apply on_server_runs, calm_runs; [|done]. unfold NoteClientConnected. calm_go.
  - apply on_server_runs, calm_runs; [|done]. calm_go.
  - apply on_server_runs, calm_runs; [|done]. calm_go.
  - apply on_server_runs, IA_runs; [apply IA_DrainPosted|done|done].
  - case_match; [|by intros [= <-]]. destruct (ReclaimReleased _ _) as [b ops].
    apply on_server_runs, calm_runs; [|done]. calm_go.
  - destruct (ipc_section hash_order i s) as [[p s']|] eqn:E; [|done]. intros [= <-]. cbn. eapply agreed_calm; [|done].
    by eapply calm_ipc.
  - case_match; [|by intros [= <-]]. cbn. by intros [= <-].
Qed.
Lemma good_agreed_run l x x' :
  good x.1 → agreed x.1 → disciplined hash_order l x = true → run hash_order l x = Some x' → good x'.1 ∧ agreed x'.1.
Proof.
  revert x. induction l as [|a l IH]; intros x Hg Hag Hd; cbn; [by intros [= <-]|].
  cbn in Hd. apply andb_prop in Hd as [Hp Hd]. destruct (good_step hash_order Hord a x Hg Hp) as (x1 & E & Hg1).
  rewrite E in Hd |- *. apply IH; [done| |done]. exact (agreed_step a x x1 Hg Hag E).
Qed.
Lemma agreed_init cfg answers kenv others : agreed (Server_init cfg answers kenv others).
Proof. by intros k f. Qed.
Lemma reachable cfg answers kenv others l x :
  disciplined hash_order l (Server_init cfg answers kenv others, []) = true →
  run hash_order l (Server_init cfg answers kenv others, []) = Some x → good x.1 ∧ agreed x.1.
Proof.
  apply (good_agreed_run l (Server_init cfg answers kenv others, [])); [apply good_init|apply agreed_init].
Qed.

(** At any point of a run, what the server believes it told a toplevel is the last
    configure the client got for it: the flag [ApplyActivation] compares with is never
    out of date, so no toplevel is left active or inactive by mistake. *)
Theorem activation_belief_true cfg answers kenv others l x id rec :
  disciplined hash_order l (Server_init cfg answers kenv others, []) = true →
  run hash_order l (Server_init cfg answers kenv others, []) = Some x →
  sv_toplevels x.1 !! id = Some rec →
  told (tr_toplevel rec) (sv_events x.1) = Some (tr_activated rec).
Proof.
  intros Hd Hr Hrec. destruct (reachable _ _ _ _ _ _ Hd Hr) as [_ Hag].
  apply (Hag id (face rec)); [|by intros []]. unfold faces. by rewrite lookup_fmap Hrec.
Qed.
(** C15: The activation pass is exact.  Whenever it runs, every toplevel that has an
    app_id has last been told to be active exactly when its package is the one in front
    (or everything is shown, or it is not a container app), Android's HOME is never
    active, and toplevels without an app_id are left as they were. *)
Theorem activation_exact cfg answers kenv others l x edge s' id rec :
  disciplined hash_order l (Server_init cfg answers kenv others, []) = true →
  run hash_order l (Server_init cfg answers kenv others, []) = Some x →
  ApplyActivation hash_order edge x.1 = Some (tt, s') →
  sv_toplevels x.1 !! id = Some rec →
  told (tr_toplevel rec) (sv_events s') = Some
    (if bool_decide (ti_appId (tr_info rec) = "") then tr_activated rec
     else if bool_decide (PackageOfAppId (ti_appId (tr_info rec)) = "") then true
     else negb (tr_home rec) && (bool_decide (shown_package x.1 = "*")
            || bool_decide (PackageOfAppId (ti_appId (tr_info rec)) = shown_package x.1))).
Proof.
  intros Hd Hr HA Hrec. destruct (reachable _ _ _ _ _ _ Hd Hr) as [[Hwf _] Hag].
  destruct (ApplyActivation_runs (sv_objs x.1) edge x.1 (conj Hwf eq_refl) Hag tt s' HA) as (_ & Hag' & Hf).
  assert (faces s' !! id = Some (tr_toplevel rec, target (shown_package x.1) rec, tr_xdgSurface rec)) as Hk.
  { rewrite Hf. unfold settled. by rewrite lookup_fmap Hrec. }
  rewrite (Hag' _ _ Hk); [|by intros []]. cbn. unfold target, wanted.
  destruct (bool_decide (PackageOfAppId (ti_appId (tr_info rec)) = "")) eqn:E; cbn.
  - destruct (bool_decide (ti_appId (tr_info rec) = "")); done.
  - rewrite (bool_decide_false (ti_appId (tr_info rec) = "")); [done|]. intros E'. rewrite E' in E. by bool_props.
Qed.

(** *** The handover is dark only inside a pulse *)

(** Only configures that do not say [b] are sent. *)
Definition silent_on (b : bool) (e : Event) : bool :=
  match e with EvConfigure _ _ _ a => negb (Bool.eqb a b) | _ => true end.
Definition says_no (b : bool) (s s' : Server) : Prop :=
  ∃ evs, sv_events s' = sv_events s ++ evs ∧ forallb (silent_on b) evs = true.
#[local] Instance says_no_pre b : PreOrder (says_no b).
Proof.
  split.
  - intros s. exists []. by rewrite app_nil_r.
  - intros s1 s2 s3 (e1 & E1 & F1) (e2 & E2 & F2). exists (e1 ++ e2).
    rewrite E2 E1 app_assoc forallb_app F1 F2. done.
Qed.
Lemma says_no_same b s s' : sv_events s' = sv_events s → says_no b s s'.
Proof. intros E. exists []. by rewrite E app_nil_r. Qed.
Lemma says_no_send b e : silent_on b e = true → fkeeps (says_no b) (send e).
Proof.
  intros He s a s' E. apply send_runs in E as ->. exists [e]. split; [done|]. cbn. by rewrite He.
Qed.
Lemma says_no_mod b f : (∀ s, sv_events (f s) = sv_events s) → fkeeps (says_no b) (fmod f).
Proof. intros H. apply fkeeps_mod. intros s. by apply says_no_same. Qed.
Lemma says_no_client b r : fkeeps (says_no b) (wl_resource_get_client r).
Proof. intros s a s' E. apply get_client_runs in E as ->. reflexivity. Qed.
#[local] Hint Resolve says_no_client : fkeeps.
#[local] Hint Extern 2 (fkeeps (says_no _) (fmod _)) => (apply says_no_mod; reflexivity) : fkeeps.
#[local] Hint Extern 2 (fkeeps (says_no _) (upd_toplevel _ _)) => (apply says_no_mod; reflexivity) : fkeeps.
#[local] Hint Extern 2 (fkeeps (says_no _) (send _)) => (apply says_no_send; reflexivity) : fkeeps.
Lemma says_no_SendSurface b id shown : fkeeps (says_no b) (SendSurfaceOnOutput id shown).
Proof. unfold SendSurfaceOnOutput. fkeeps_tac. apply says_no_send. by destruct shown. Qed.
Lemma says_no_Configure b id w h : fkeeps (says_no b) (ConfigureToplevel hash_order id w h (negb b)).
Proof. unfold ConfigureToplevel. fkeeps_tac. apply says_no_send. by destruct b. Qed.
Lemma says_no_ons w h (l : list (Z * bool)) :
  fkeeps (says_no false) (ffor l (λ c, if c.2 : bool
    then do! SendSurfaceOnOutput c.1 true in ConfigureToplevel hash_order c.1 w h true else fret tt)).
Proof.
  apply fkeeps_for; [typeclasses eauto|]. intros [k []]; cbn [fst snd]; [|apply fkeeps_ret; typeclasses eauto].
  apply fkeeps_bind; [typeclasses eauto|apply says_no_SendSurface|intros _]. apply (says_no_Configure false).
Qed.
Lemma says_no_offs w h (l : list (Z * bool)) :
  fkeeps (says_no true) (ffor l (λ c, if c.2 : bool then fret tt
    else do! ConfigureToplevel hash_order c.1 w h false in SendSurfaceOnOutput c.1 false)).
Proof.
  apply fkeeps_for; [typeclasses eauto|]. intros [k []]; cbn [fst snd]; [apply fkeeps_ret; typeclasses eauto|].
  apply fkeeps_bind; [typeclasses eauto|apply (says_no_Configure true)|intros _]. apply says_no_SendSurface.
Qed.
Lemma told_stays t l p : forallb (silent_on false) p = true → told t l = Some true → told t (l ++ p) = Some true.
Proof.
  induction p as [|e p IH] using rev_ind; [by rewrite app_nil_r|]. rewrite forallb_app app_assoc told_snoc. cbn.
  rewrite andb_true_r. intros [Hp He]%andb_prop Hl. specialize (IH Hp Hl).
  destruct e; try done. cbn in *. case_match; [|done]. by destruct activated.
Qed.
Lemma told_was t l p : forallb (silent_on true) p = true → told t (l ++ p) = Some true → told t l = Some true.
Proof.
  induction p as [|e p IH] using rev_ind; [by rewrite app_nil_r|]. rewrite forallb_app app_assoc told_snoc. cbn.
  rewrite andb_true_r. intros [Hp He]%andb_prop Hl. apply IH; [done|].
  destruct e; try done. cbn in *. case_match; [|done]. by destruct activated.
Qed.
(** Some toplevel's client was last told that it is active. *)
Definition lit (tops : gmap Z ToplevelRec) (l : list Event) : Prop :=
  ∃ id rec, tops !! id = Some rec ∧ told (tr_toplevel rec) l = Some true.
(** What a pulse sends: off, and on again. *)
Definition pulse_events (w h : Z) (rec : ToplevelRec) : list Event :=
  [EvConfigure (tr_toplevel rec) w h false; EvXdgConfigure (tr_xdgSurface rec);
   EvConfigure (tr_toplevel rec) w h true; EvXdgConfigure (tr_xdgSurface rec)].
(** The messages [p], the first of [evs], end in the first half of a pulse: of a toplevel
    that was active and is wanted, and before which some toplevel was lit. *)
Definition blinks (active : string) (edge : bool) (w h : Z) (tops : gmap Z ToplevelRec) (l0 evs p : list Event) : Prop :=
  ∃ id rec q rest, tops !! id = Some rec ∧ verdict active edge rec = Pulse ∧ lit tops (l0 ++ q) ∧
    evs = q ++ pulse_events w h rec ++ rest ∧
    (p = q ++ take 1 (pulse_events w h rec) ∨ p = q ++ take 2 (pulse_events w h rec)).
Section trace.
Context (active : string) (edge : bool) (w h : Z) (tops : gmap Z ToplevelRec).
Definition trace_ok (l0 evs : list Event) : Prop :=
  ∀ p, p `prefix_of` evs → lit tops (l0 ++ p) ∨ blinks active edge w h tops l0 evs p.
Lemma trace_app l0 e1 e2 : trace_ok l0 e1 → trace_ok (l0 ++ e1) e2 → trace_ok l0 (e1 ++ e2).
Proof.
  intros H1 H2 p [q Hq]. symmetry in Hq. destruct (app_eq_app _ _ _ _ Hq) as (m & [[-> Ho]|[-> Ho]]).
  - destruct (H2 m) as [Hl|(id & rec & q' & rest & Hrec & Hv & Hl & -> & Hp)]; [by exists q|left; by rewrite app_assoc|].
    right. exists id, rec, (e1 ++ q'), rest. split_and!; [done|done|by rewrite app_assoc|by rewrite app_assoc|].
    rewrite -!app_assoc. by destruct Hp as [->| ->]; [left|right].
  - destruct (H1 p) as [Hl|(id & rec & q' & rest & Hrec & Hv & Hl & E & Hp)]; [by exists m|by left|].
    right. exists id, rec, q', (rest ++ e2). split_and!; [done..| |done]. by rewrite E -!app_assoc.
Qed.
Lemma trace_silent l0 evs : lit tops l0 → forallb (silent_on false) evs = true → trace_ok l0 evs.
Proof.
  intros (id & rec & Hrec & Ht) He p [q ->]. left. exists id, rec. split; [done|]. apply told_stays; [|done].
  rewrite forallb_app in He. by apply andb_prop in He as [? _].
Qed.
Lemma trace_pulse l0 id rec :
  lit tops l0 → tops !! id = Some rec → verdict active edge rec = Pulse → trace_ok l0 (pulse_events w h rec).
Proof.
  intros Hl Hrec Hv p [q Hq]. unfold pulse_events in Hq.
  assert (∀ e, tell (tr_toplevel rec) (Some true) (EvXdgConfigure e) = Some true) as He by done.
  assert (∀ l, told (tr_toplevel rec) (l ++ [EvConfigure (tr_toplevel rec) w h true]) = Some true) as Hon.
  { intros l. rewrite told_snoc. cbn. by rewrite Z.eqb_refl. }
  destruct p as [|e1 p]; [left; by rewrite app_nil_r|]. injection Hq as <- Hq.
  destruct p as [|e2 p].
  { right. exists id, rec, [], []. split_and!; [done|done|by rewrite app_nil_r|done|by left]. }
  injection Hq as <- Hq. destruct p as [|e3 p].
  { right. exists id, rec, [], []. split_and!; [done|done|by rewrite app_nil_r|done|by right]. }
  injection Hq as <- Hq. left. exists id, rec. split; [done|].
  destruct p as [|e4 p]; [rewrite (app_assoc l0 [_; _] [_]); apply Hon|].
  injection Hq as <- Hq. destruct p; [|done].
  rewrite (app_assoc l0 [_; _; _] [_]) told_snoc (app_assoc l0 [_; _] [_]) Hon. done.
Qed.
End trace.

(** What one configure sends. *)
Lemma Configure_events D id w h b s t a xd :
  wf D s → faces s !! id = Some (t, a, xd) →
  runs (ConfigureToplevel hash_order id w h b)
    (λ _ s', sv_events s' = sv_events s ++ [EvConfigure t w h b; EvXdgConfigure xd]) s.
Proof.
  intros Hwf Hf. pose proof (faces_ne_0 D s id _ Hwf Hf) as Hid. unfold faces in Hf. rewrite lookup_fmap fmap_Some in Hf.
  destruct Hf as (rec & Hrec & Ef). injection Ef as -> -> ->.
  unfold ConfigureToplevel. apply runs_bind, runs_get. unfold walk. rewrite (filter_one _ id rec); [|done|naive_solver].
  cbn [ffor]. apply runs_bind. cbn [snd]. apply runs_bind, runs_mod. eapply runs_seq; [apply send_runs|]. intros ? s1 ->.
  eapply runs_mono; [apply send_runs|]. intros ? s2 ->. apply runs_ret. cbn [sv_events set_sv_events set_sv_toplevels].
  by rewrite -app_assoc.
Qed.
Section apply_trace.
Context (objs : gmap Z Resource) (s : Server) (active : string) (edge : bool) (w h : Z).
Context (HI : I ∅ objs s) (Hag : agreed s).
Abbreviation traced := (λ s', ∃ evs, sv_events s' = sv_events s ++ evs ∧
  trace_ok active edge w h (sv_toplevels s) (sv_events s) evs).
Lemma settled_at k rec f :
  sv_toplevels s !! k = Some rec → settled s active !! k = Some f → f = (tr_toplevel rec, target active rec, tr_xdgSurface rec).
Proof using Type. intros Hrec. unfold settled. rewrite lookup_fmap Hrec. by intros [= <-]. Qed.
Lemma telling_lit id2 rec2 s' :
  sv_toplevels s !! id2 = Some rec2 → wanted active rec2 = Some true →
  telling objs s active (λ _, False) s' → told (tr_toplevel rec2) (sv_events s') = Some true.
Proof using Type.
  intros H2 A2 (_ & Hf & Hx). assert (target active rec2 = true) as <- by (unfold target; by rewrite A2).
  apply (Hx id2 (tr_toplevel rec2, target active rec2, tr_xdgSurface rec2)); [|by intros []].
  rewrite Hf. unfold settled. by rewrite lookup_fmap H2.
Qed.
(** One pulse after the other. *)
Lemma pulse_traced k id2 rec2 s1 :
  sv_toplevels s !! id2 = Some rec2 → wanted active rec2 = Some true →
  k ∈ pulses_of active edge (hash_order _ (sv_toplevels s)) →
  telling objs s active (λ _, False) s1 → traced s1 →
  runs (do! SendSurfaceOnOutput k true in
        do! ConfigureToplevel hash_order k w h false in ConfigureToplevel hash_order k w h true) (λ _ s', traced s') s1.
Proof using Hord.
  intros H2 A2 (rec & Hrec & Ev)%elem_pulses Ht (evs & E1 & Htr).
  pose proof (telling_lit id2 rec2 s1 H2 A2 Ht) as Hl1.
  eapply runs_seq; [apply runs_conj; [exact (telling_send _ _ _ _ k true s1 Ht)|apply (runs_keeps (says_no false)), says_no_SendSurface]|].
  intros ? s2 [(HI2 & Hf2 & _) (ent & E2 & Fe)].
  assert (∃ a, faces s2 !! k = Some (tr_toplevel rec, a, tr_xdgSurface rec)) as [ac Hk].
  { rewrite Hf2. unfold settled. rewrite lookup_fmap Hrec. by eexists. }
  eapply runs_seq.
  { apply runs_conj; [eapply (Configure_events ∅ k w h false); [apply HI2|exact Hk]|]. apply runs_conj.
    - apply safe_runs, (ok_ConfigureToplevel hash_order Hord (objs := objs)), HI2.
    - eapply ConfigureToplevel_runs, HI2. }
  intros ? s3 (E3 & HI3 & Hf3 & _).
  assert (∃ a, faces s3 !! k = Some (tr_toplevel rec, a, tr_xdgSurface rec)) as [ac' Hk'].
  { rewrite Hf3 Hk. cbn. destruct (_ || _); by eexists. }
  eapply runs_mono; [eapply (Configure_events ∅ k w h true); [apply HI3|exact Hk']|]. intros ? s4 E4.
  exists (evs ++ ent ++ pulse_events w h rec). split; [by rewrite E4 E3 E2 E1 /pulse_events -!app_assoc|].
  assert (lit (sv_toplevels s) (sv_events s ++ evs)) as Hl by (rewrite -E1; by exists id2, rec2).
  apply trace_app; [done|]. apply trace_app; [by apply trace_silent|].
  eapply (trace_pulse _ _ _ _ _ _ k rec); [|done|done]. destruct Hl as (i & r & Hi & Hr). exists i, r. split; [done|].
  by apply told_stays.
Qed.
End apply_trace.
Lemma ApplyActivation_traced objs edge s id1 rec1 id2 rec2 :
  I ∅ objs s → agreed s →
  sv_toplevels s !! id1 = Some rec1 → tr_activated rec1 = true →
  sv_toplevels s !! id2 = Some rec2 → wanted (shown_package s) rec2 = Some true →
  runs (ApplyActivation hash_order edge) (λ _ s', ∃ evs, sv_events s' = sv_events s ++ evs ∧
    trace_ok (shown_package s) edge (sv_outputWidth s) (sv_outputHeight s) (sv_toplevels s) (sv_events s) evs) s.
Proof.
  intros HI Hag H1 A1 H2 A2.
  assert (told (tr_toplevel rec1) (sv_events s) = Some true) as T1.
  { rewrite -A1. apply (Hag id1 (face rec1)); [|by intros []]. unfold faces. by rewrite lookup_fmap H1. }
  unfold ApplyActivation. do 4 apply runs_bind, runs_get. apply runs_bind, runs_get.
  change (if IsAttached (sv_output s) then "*" else sv_activePackage s) with (shown_package s).
  set (active := shown_package s) in *.
  eapply runs_seq; [by apply (flags_set objs s active edge)|]. intros ? s1 (HI1 & He1 & Hf1).
  pose proof (flags_told objs s active edge Hag s1 HI1 He1 Hf1) as Ht1.
  eapply runs_seq; [apply runs_conj; [by apply (ons_told objs s active edge)|apply (runs_keeps (says_no false)), says_no_ons]|].
  intros ? s2 [Ht2 (on & E2 & F2)].
  eapply runs_seq; [apply runs_conj; [by apply (offs_told objs s active edge)|apply (runs_keeps (says_no true)), says_no_offs]|].
  intros ? s3 [Ht3 (off & E3 & F3)].
  pose proof (telling_lit objs s active id2 rec2 s3 H2 A2 Ht3) as T3.
  assert (trace_ok active edge (sv_outputWidth s) (sv_outputHeight s) (sv_toplevels s) (sv_events s) (on ++ off)) as Htr.
  { apply trace_app; [apply trace_silent; [by exists id1, rec1|done]|]. intros p [q ->]. left. exists id2, rec2. split; [done|].
    apply (told_was _ _ q); [rewrite forallb_app in F3; by apply andb_prop in F3 as [_ ?]|].
    rewrite -app_assoc. by rewrite -He1 -E2 -E3. }
  apply (runs_for (λ l s', (∀ k, k ∈ l → k ∈ pulses_of active edge (hash_order _ (sv_toplevels s))) ∧
    telling objs s active (λ _, False) s' ∧ ∃ evs, sv_events s' = sv_events s ++ evs ∧
    trace_ok active edge (sv_outputWidth s) (sv_outputHeight s) (sv_toplevels s) (sv_events s) evs)).
  - split_and!; [done|done|]. exists (on ++ off). split; [|done]. by rewrite E3 E2 He1 app_assoc.
  - intros k l s' (Hin & Ht & Htr'). pose proof (Hin k ltac:(by left)) as Hk.
    eapply runs_mono; [apply runs_conj; [by apply (pulse_told objs s active edge)|by eapply (pulse_traced objs s active edge)]|].
    intros ? s'' [Ht' Htr'']. split_and!; [|done|done]. intros j Hj. apply Hin. by right.
  - by intros s' (_ & _ & ?).
Qed.
(** C11: The handover is dark only inside a pulse.  Whenever the activation pass runs
    while some toplevel is active and some toplevel is wanted, then after every single
    message of the pass some toplevel's client has last been told that it is active (the
    new ones in front are activated before the old ones are deactivated), or that message
    is in the first half of a pulse: the toplevel is wanted, was already active, has just
    been told that it is not, and the next configure, with nothing but its own
    xdg_surface.configure before it, tells it again that it is.  A pass without [edge]
    pulses nothing, so it is never dark. *)
Theorem handover_dark_only_in_pulse cfg answers kenv others l x edge s' id1 rec1 id2 rec2 :
  disciplined hash_order l (Server_init cfg answers kenv others, []) = true →
  run hash_order l (Server_init cfg answers kenv others, []) = Some x →
  ApplyActivation hash_order edge x.1 = Some (tt, s') →
  sv_toplevels x.1 !! id1 = Some rec1 → tr_activated rec1 = true →
  sv_toplevels x.1 !! id2 = Some rec2 → wanted (shown_package x.1) rec2 = Some true →
  ∃ evs, sv_events s' = sv_events x.1 ++ evs ∧
    ∀ p, p `prefix_of` evs →
      lit (sv_toplevels x.1) (sv_events x.1 ++ p) ∨
      edge = true ∧ blinks (shown_package x.1) edge (sv_outputWidth x.1) (sv_outputHeight x.1) (sv_toplevels x.1)
        (sv_events x.1) evs p.
Proof.
  intros Hd Hr HA H1 A1 H2 A2. destruct (reachable _ _ _ _ _ _ Hd Hr) as [[Hwf _] Hag].
  destruct (ApplyActivation_traced (sv_objs x.1) edge x.1 id1 rec1 id2 rec2 (conj Hwf eq_refl) Hag H1 A1 H2 A2 tt s' HA)
    as (evs & E & Htr).
  exists evs. split; [done|]. intros p Hp. destruct (Htr p Hp) as [Hl|Hb]; [by left|]. right. split; [|done].
  destruct Hb as (id & rec & q & rest & _ & Hv & _). destruct edge; [done|].
  unfold verdict in Hv. destruct (wanted _ rec) as [[]|]; cbn in Hv; by destruct (tr_activated rec).
Qed.

(** ** A role that goes before its toplevel *)

Lemma runs_never {A} (m : M A) s : runs m (λ _ _, False) s → m s = None.
Proof. intros H. destruct (m s) as [[a s']|] eqn:E; [|done]. by destruct (H a s' E). Qed.
Lemma send_gone e s (Q : unit → Server → Prop) : sv_objs s !! ev_target e = None → runs (send e) Q s.
Proof.
  Transparent send. intros He. unfold send. apply runs_bind. intros o s'. unfold get_obj. by rewrite He.
  Opaque send.
Qed.
Lemma xdg_destroy_runs s r c xs :
  sv_objs s !! r = Some (mkRes c (OXdgSurface xs)) →
  runs (wl_resource_destroy hash_order r) (λ _ s', sv_toplevels s' = sv_toplevels s ∧ sv_objs s' !! r = None) s.
Proof.
  intros Hr. unfold wl_resource_destroy. apply runs_bind. intros o s0. unfold get_obj. rewrite Hr. intros [= <- <-].
  cbn [r_obj]. eapply (runs_seq _ _ (λ _ s', sv_toplevels s' = sv_toplevels s)).
  - apply (runs_keeps (λ s s', sv_toplevels s' = sv_toplevels s)). unfold xdg_destroy, upd_surface, get_surface, put_obj.
    assert (PreOrder (λ s s' : Server, sv_toplevels s' = sv_toplevels s)) as Hpre.
    { split; [done|]. intros ? ? ? E1 E2. congruence. }
    assert (∀ r, fkeeps (λ s s', sv_toplevels s' = sv_toplevels s) (get_obj r)) as Ho.
    { intros r' s1 a s1' E. by apply get_obj_runs in E as ->. }
    repeat first [apply Ho | by apply fkeeps_mod | fkeeps_step].
  - intros ? s1 E1. apply runs_mod. split; [done|]. cbn [sv_objs set_sv_objs]. by rewrite lookup_delete_eq.
Qed.
(** An xdg_surface may be destroyed while its toplevel lives (the protocol calls it an
    error, and the server does not check): the request is carried out, and from then on
    every configure of that toplevel — a resize, a change of the app in front — makes the
    compositor use the freed xdg_surface. *)
Theorem role_destroyed_first s th id rec c xs :
  good s → sv_toplevels s !! id = Some rec →
  sv_objs s !! tr_xdgSurface rec = Some (mkRes c (OXdgSurface xs)) →
  ∃ s', step hash_order (AReq c (RDestroy (tr_xdgSurface rec))) (s, th) = Some (s', th) ∧
    ∀ w h b, ConfigureToplevel hash_order id w h b s' = None.
Proof.
  intros [Hwf Hi] Hrec Hx. set (x := tr_xdgSurface rec) in *. set (D := dom (sv_objs s)).
  assert (id ≠ 0 ∧ sv_objs s !! tr_toplevel rec ≠ None) as [Hid Ht].
  { pose proof Hwf as (H1&_&[_ H3]&_). destruct (H3 _ _ Hrec) as [? _]. split; [lia|].
    destruct (H1 _ _ Hrec) as (_ & (c' & (o & Ho & _)%shape_at & _) & _). congruence. }
  destruct (safe_run (wl_resource_destroy hash_order x) (λ _ s', gone D x s s') s) as ([] & s' & E & _).
  { eapply destroy_ok; [done|by apply wf_going|done|done|]. intros id' rec' Hrec' HD. destruct HD.
    pose proof Hwf as (H1&_). destruct (H1 _ _ Hrec') as (_ & (c' & (o & Ho & _)%shape_at & _) & _).
    unfold D. by eapply elem_of_dom_2. }
  exists s'. split.
  - cbn [step req_ok]. unfold owns. rewrite Hx. cbn [r_client r_obj is_callback negb]. rewrite Z.eqb_refl.
    by apply on_server_run.
  - intros w h b. destruct (xdg_destroy_runs s x c xs Hx tt s' E) as [Et Ex]. apply runs_never.
    unfold ConfigureToplevel. apply runs_bind, runs_get. unfold walk. rewrite Et.
    rewrite (filter_one (sv_toplevels s) id rec); [|done|].
    2: { intros k v Hk. cbn. split; [by intros [?|?]|by right]. }
    cbn [ffor snd]. apply runs_bind, runs_bind, runs_mod, runs_bind.
    eapply runs_mono; [apply send_runs|]. intros ? s1 ->. by apply send_gone.
Qed.

(** ** Android's HOME *)

Definition untouched (s s' : Server) : Prop :=
  sv_rs s' = sv_rs s ∧ sv_inFlight s' = sv_inFlight s ∧ sv_cache s' = sv_cache s.
#[local] Instance untouched_pre : PreOrder untouched.
Proof. split; [by intros s|]. intros ? ? ? (?&?&?) (?&?&?). split_and!; congruence. Qed.
Lemma untouched_get_obj r : fkeeps untouched (get_obj r).
Proof. intros s a s' E. apply get_obj_runs in E as ->. reflexivity. Qed.
Lemma untouched_send e : fkeeps untouched (send e).
Proof. intros s a s' E. apply send_runs in E as ->. by split_and!. Qed.
#[local] Hint Resolve untouched_get_obj untouched_send : fkeeps.
#[local] Hint Extern 2 (fkeeps untouched (fmod _)) => (apply fkeeps_mod; intros ?; by split_and!) : fkeeps.
#[local] Hint Extern 2 (fkeeps untouched (upd_toplevel _ _)) => (apply fkeeps_mod; intros ?; by split_and!) : fkeeps.
Lemma untouched_upd_surface r f : fkeeps untouched (upd_surface r f).
Proof. unfold upd_surface, get_surface, put_obj. fkeeps_tac. Qed.
#[local] Hint Resolve untouched_upd_surface : fkeeps.
Lemma untouched_callback r : fkeeps untouched (commit_callback r).
Proof. unfold commit_callback, get_surface. fkeeps_tac. Qed.
(** Events are only added. *)
Definition adds (s s' : Server) : Prop := sv_events s `prefix_of` sv_events s'.
#[local] Instance adds_pre : PreOrder adds.
Proof. split; [by intros s; unfold adds|]. intros ? ? ? ? ?. unfold adds in *. by etrans. Qed.
Lemma adds_same s s' : sv_events s' = sv_events s → adds s s'.
Proof. unfold adds. by intros ->. Qed.
Lemma adds_get_obj r : fkeeps adds (get_obj r).
Proof. intros s a s' E. apply get_obj_runs in E as ->. reflexivity. Qed.
Lemma adds_upd_surface r f : fkeeps adds (upd_surface r f).
Proof.
  unfold upd_surface, get_surface, put_obj.
  repeat first [apply adds_get_obj|by apply fkeeps_mod; intros; apply adds_same|fkeeps_step].
Qed.
Lemma adds_callback r : fkeeps adds (commit_callback r).
Proof.
  assert (∀ e, fkeeps adds (send e)) as H2.
  { intros e s a s' E. apply send_runs in E as ->. unfold adds. cbn. by eexists. }
  unfold commit_callback, get_surface.
  repeat first [apply adds_get_obj|apply adds_upd_surface|apply H2|by apply fkeeps_mod; intros; apply adds_same|fkeeps_step].
Qed.
(** The toplevels that are HOME stay HOME while a frame is noted. *)
Definition is_home (s : Server) (t : Z) : bool :=
  match sv_toplevels s !! t with Some rec => tr_home rec | None => false end.
Definition same_home (t : Z) (s s' : Server) : Prop :=
  is_home s' t = is_home s t ∧ untouched s s' ∧ sv_events s' = sv_events s.
#[local] Instance same_home_pre t : PreOrder (same_home t).
Proof. split; [by intros s|]. intros ? ? ? (E1 & U1 & V1) (E2 & U2 & V2). split_and!; [congruence|by etrans|congruence]. Qed.
Lemma same_home_upd t k f : (∀ rec, tr_home (f rec) = tr_home rec) → fkeeps (same_home t) (upd_toplevel k f).
Proof.
  intros Hf. apply fkeeps_mod. intros s. split; [|by split_and!]. unfold is_home. cbn [sv_toplevels set_sv_toplevels].
  destruct (decide (t = k)) as [->|Hne].
  - rewrite lookup_alter_eq. destruct (sv_toplevels s !! k); [apply Hf|done].
  - by rewrite lookup_alter_ne.
Qed.
#[local] Hint Extern 2 (fkeeps (same_home _) (fmod _)) => (apply fkeeps_mod; intros ?; by split_and!) : fkeeps.
#[local] Hint Extern 2 (fkeeps (same_home _) (upd_toplevel _ _)) => (apply same_home_upd; reflexivity) : fkeeps.
Lemma get_surface_runs r s c u (Q : Surface → Server → Prop) :
  sv_objs s !! r = Some (mkRes c (OSurface u)) → Q u s → runs (get_surface r) Q s.
Proof. intros Hr HQ. apply safe_runs. by eapply safe_get_surface. Qed.
Lemma home_frame t b nh desc s :
  is_home s t = true → runs (show_frame hash_order t b nh desc) (λ _ s', s' = set_sv_events (sv_events s ++ [EvRelease b]) s) s.
Proof.
  intros Hh. unfold show_frame. apply runs_bind. unfold OutputFor. apply runs_bind, runs_get. unfold is_home in Hh.
  rewrite Hh. apply runs_ret. apply runs_bind, runs_ret. apply send_runs.
Qed.
(** C28: Android's HOME is never shown: a frame committed on its toplevel asks nothing of
    the render service, is neither imported nor tracked, and its buffer is released to
    the client in the same request, whichever windows and outputs are attached. *)
Theorem home_never_shown s c r u b c' nh desc s' :
  sv_objs s !! r = Some (mkRes c (OSurface u)) →
  ps_bufferChanged (su_pending u) = true → ps_buffer (su_pending u) = Some b →
  sv_objs s !! b = Some (mkRes c' (OBuffer (BWlegl (Some (nh, desc))))) →
  is_home s (su_toplevelId u) = true →
  SurfaceCommit hash_order r s = Some (tt, s') →
  untouched s s' ∧ ∃ l, sv_events s' = sv_events s ++ EvRelease b :: l.
Proof.
  intros Hu Hch Hb Hob Hh. assert (b ≠ r) as Hbr by congruence. revert s'.
  enough (runs (SurfaceCommit hash_order r) (λ _ s', untouched s s' ∧
    ∃ l, sv_events s' = sv_events s ++ EvRelease b :: l) s) as H by (intros s'; apply H).
  unfold SurfaceCommit, commit_pending. apply runs_bind. intros [] s1. erewrite upd_surface_run; [|done]. intros [= <-].
  rewrite Hch Hb. set (u' := mkSurface _ _ _ _). set (s1 := set_sv_objs _ s).
  assert (sv_objs s1 !! r = Some (mkRes c (OSurface u'))) as Hu1.
  { unfold s1. cbn [sv_objs set_sv_objs]. by rewrite lookup_insert_eq. }
  assert (sv_objs s1 !! b = Some (mkRes c' (OBuffer (BWlegl (Some (nh, desc)))))) as Hb1.
  { unfold s1. cbn [sv_objs set_sv_objs]. by rewrite lookup_insert_ne. }
  apply runs_bind. unfold commit_shm. apply runs_bind. eapply get_surface_runs; [done|].
  change (su_current u') with (Some b). cbn iota beta. apply runs_bind, safe_runs. eapply safe_get_buffer; [done|]. apply runs_ret.
  apply runs_bind. unfold commit_wlegl. apply runs_bind. eapply get_surface_runs; [done|].
  change (su_current u') with (Some b). cbn iota beta. apply runs_bind, safe_runs. eapply safe_get_buffer; [done|]. cbn iota beta.
  change (su_toplevelId u') with (su_toplevelId u). set (t := su_toplevelId u) in *.
  set (Q := λ s2, untouched s s2 ∧ sv_events s2 = sv_events s ++ [EvRelease b]).
  eapply (runs_seq _ _ (λ _ s2, Q s2)); [|intros ? s2 [HQ1 HQ2]].
  - assert (is_home s1 t = true) as Hh1 by exact Hh.
    assert (untouched s s1 ∧ sv_events s1 = sv_events s) as [U1 V1] by (split; [by split_and!|done]). clearbody s1.
    assert (∀ m, fkeeps (same_home t) m → ∀ s2, is_home s2 t = true ∧ untouched s s2 ∧ sv_events s2 = sv_events s →
      runs m (λ (_ : unit) s3, is_home s3 t = true ∧ untouched s s3 ∧ sv_events s3 = sv_events s) s2) as Hk.
    { intros m Hm s2 (A1 & A2 & A3) a s3 E. destruct (Hm _ _ _ E) as (B1 & B2 & B3).
      split_and!; [congruence|by etrans|congruence]. }
    eapply runs_seq; [apply Hk; [unfold NoteInputSurface; fkeeps_tac|done]|]. intros ? s2 H2.
    eapply runs_seq; [apply Hk; [unfold NoteToplevelSurface; fkeeps_tac|exact H2]|]. intros ? s3 H3.
    eapply runs_seq; [apply Hk; [fkeeps_tac|exact H3]|]. intros ? s4 H4.
    eapply runs_seq; [apply Hk; [unfold NoteToplevelFrame, EmitToplevel; fkeeps_tac|exact H4]|]. intros ? s5 (A1 & A2 & A3).
    eapply runs_mono; [by apply home_frame|]. intros ? s6 ->. split; [by etrans; [exact A2|by split_and!]|]. cbn. by rewrite A3.
  - intros [] s3 E3 [] s4 E4. split.
    + etrans; [exact HQ1|]. etrans; [by eapply untouched_upd_surface|by eapply untouched_callback].
    + assert (adds s2 s4) as [l Hl] by (etrans; [by eapply adds_upd_surface|by eapply adds_callback]).
      exists l. rewrite Hl HQ2 -app_assoc. done.
Qed.

(** ** Touches and keys *)

(** What one operation makes for the touch objects of a client. *)
Definition touch_fan (objs : gmap Z Resource) (owner u : Z) (touches : list Z) (op : TouchOp) : list Event :=
  omap (λ tr, match objs !! tr with
              | Some o => if r_client o =? owner then Some (touch_event tr u op) else None
              | None => None
              end) touches.
#[local] Arguments touch_fan : simpl never.
Lemma client_runs tr s : runs (wl_resource_get_client tr) (λ c s', s' = s ∧ ∃ o, sv_objs s !! tr = Some o ∧ r_client o = c) s.
Proof.
  unfold wl_resource_get_client. apply runs_bind. intros o s'. unfold get_obj. case_match eqn:E; [|done].
  intros [= <- <-]. apply runs_ret. eauto.
Qed.
Lemma events_nil s : set_sv_events (sv_events s ++ []) s = s.
Proof. rewrite app_nil_r. by destruct s. Qed.
Lemma fan_runs (l : list Z) owner u op s :
  runs (ffor l (λ tr, let! c := wl_resource_get_client tr in
          if negb (c =? owner) then fret tt else send (touch_event tr u op)))
    (λ _ s', s' = set_sv_events (sv_events s ++ touch_fan (sv_objs s) owner u l op) s) s.
Proof.
  revert s. induction l as [|tr l IH]; intros s; cbn [ffor].
  - apply runs_ret. symmetry. apply events_nil.
  - apply runs_bind. eapply runs_seq; [apply client_runs|]. intros c s1 [-> (o & Hto & Hc)].
    assert (touch_fan (sv_objs s) owner u (tr :: l) op =
      (if c =? owner then [touch_event tr u op] else []) ++ touch_fan (sv_objs s) owner u l op) as Ef.
    { unfold touch_fan. cbn. rewrite Hto Hc. by destruct (c =? owner). }
    rewrite Ef. destruct (c =? owner); cbn [negb].
    + eapply runs_mono; [apply send_runs|]. intros ? s2 ->. eapply runs_mono; [apply IH|]. intros ? s3 ->.
      cbn [sv_events sv_objs set_sv_events]. by rewrite -app_assoc.
    + apply runs_ret. apply IH.
Qed.
Lemma fans_runs (ops : list TouchOp) (l : list Z) owner u s :
  runs (ffor ops (λ op, ffor l (λ tr, let! c := wl_resource_get_client tr in
          if negb (c =? owner) then fret tt else send (touch_event tr u op))))
    (λ _ s', s' = set_sv_events (sv_events s ++ mjoin (touch_fan (sv_objs s) owner u l <$> ops)) s) s.
Proof.
  revert s. induction ops as [|op ops IH]; intros s; cbn [ffor].
  - apply runs_ret. symmetry. apply events_nil.
  - eapply runs_seq; [apply fan_runs|]. intros ? s1 ->. eapply runs_mono; [apply IH|]. intros ? s2 ->.
    cbn [sv_events sv_objs set_sv_events]. rewrite fmap_cons. cbn [mjoin list_join]. by rewrite -app_assoc.
Qed.
(** Touches reach exactly the client that is shown.  When the queue of touch
    operations is drained, every operation, in the order it was queued, is sent once to
    every touch object of the client that owns the surface in front, and to no other; the
    queue is empty afterwards, and without such a surface or touch object the operations
    are dropped. *)
Theorem touches_delivered s s' :
  DrainTouchOps s = Some (tt, s') →
  sv_touchPending s' = [] ∧
  sv_events s' = sv_events s ++
    match sv_inputSurface s ≫= (λ u, (λ o, (u, r_client o)) <$> sv_objs s !! u) with
    | Some (u, owner) => mjoin (touch_fan (sv_objs s) owner u (sv_touchResources s) <$> sv_touchPending s)
    | None => []
    end.
Proof.
  revert s'. set (evs := match sv_inputSurface s ≫= _ with Some _ => _ | None => _ end).
  enough (runs DrainTouchOps (λ _ s', s' = set_sv_events (sv_events s ++ evs) (set_sv_touchPending [] s)) s) as H.
  { intros s' E. by apply H in E as ->. }
  unfold DrainTouchOps. apply runs_bind, runs_get, runs_bind, runs_mod. set (s1 := set_sv_touchPending [] s).
  assert (∀ l, l = [] → runs (fret tt) (λ _ s', s' = set_sv_events (sv_events s ++ l) s1) s1) as Hnil.
  { intros l ->. apply runs_ret. symmetry. apply (events_nil s1). }
  destruct (sv_touchPending s) as [|op ops] eqn:Eops.
  { apply Hnil. unfold evs. destruct (_ ≫= _) as [[u owner]|]; done. }
  apply runs_bind, runs_get, runs_bind, runs_get. cbn [sv_inputSurface sv_touchResources set_sv_touchPending s1].
  destruct (sv_inputSurface s) as [u|] eqn:Eu; [|by apply Hnil].
  destruct (sv_touchResources s) as [|tr trs] eqn:Etr.
  { apply Hnil. unfold evs. cbn. destruct (sv_objs s !! u); cbn; [|done]. clear. unfold touch_fan. cbn.
    by induction ops. }
  eapply runs_seq; [apply client_runs|]. intros owner s2 [-> (o & Ho & Hc)]. change (sv_objs s1) with (sv_objs s) in Ho.
  eapply runs_mono; [apply fans_runs|]. intros ? s3 ->. unfold evs. cbn [mbind option_bind]. rewrite Ho. cbn [fmap option_fmap option_map].
  by rewrite Hc.
Qed.

(** The keyboard's leave goes astray.  When the focus moves from a surface of one
    client to a surface of another, the leave for the old surface is sent on the
    keyboards of the new surface's client (wl_keyboard objects of the old one are
    skipped): an event that names another client's object, for which libwayland
    disconnects the client that gets it. *)
Theorem keyboard_leave_foreign s u cu ou f cf of_ kb s' :
  sv_keyboardFocus s = Some f → sv_objs s !! f = Some (mkRes cf of_) →
  sv_objs s !! u = Some (mkRes cu ou) → cf ≠ cu →
  kb ∈ sv_keyboardResources s → (r_client <$> sv_objs s !! kb) = Some cu →
  SendKeyboardFocus u s = Some (tt, s') → EvKbdLeave kb f ∈ sv_events s'.
Proof.
  clear Hord. intros Hf Hof Hu Hne Hkb Hck. revert s'.
  enough (runs (SendKeyboardFocus u) (λ _ s', EvKbdLeave kb f ∈ sv_events s') s) as H by (intros s'; apply H).
  unfold SendKeyboardFocus. apply runs_bind, runs_get. rewrite Hf.
  rewrite bool_decide_false; [|congruence]. eapply runs_seq; [apply client_runs|]. intros owner ? [-> (o & Ho & Hc)].
  assert (owner = cu) as -> by (rewrite Hu in Ho; injection Ho as <-; done). apply runs_bind, runs_get.
  eapply (runs_seq _ _ (λ _ s', EvKbdLeave kb f ∈ sv_events s')); [|intros ? s1 H1; by apply runs_mod].
  apply (runs_for (λ l s', sv_objs s' = sv_objs s ∧ (kb ∈ l ∨ EvKbdLeave kb f ∈ sv_events s'))).
  - by split; [|left].
  - intros k l s1 [Eo Hin]. eapply runs_seq; [apply client_runs|]. intros c ? [-> (ok & Hok & Hc')].
    destruct (c =? cu) eqn:Ec; cbn [negb].
    + unfold fopt. eapply runs_seq; [apply send_runs|]. intros ? s2 ->. eapply runs_seq; [apply send_runs|]. intros ? s3 ->.
      eapply runs_mono; [apply send_runs|]. intros ? s4 ->. split; [done|]. cbn [sv_events set_sv_events].
      destruct Hin as [Hin|Hin]; [|right; set_solver]. apply elem_of_cons in Hin as [->|Hin]; [right; set_solver|by left].
    + apply runs_ret. split; [done|]. destruct Hin as [Hin|Hin]; [|by right]. apply elem_of_cons in Hin as [->|Hin]; [|by left].
      rewrite Eo in Hok. rewrite Hok in Hck. injection Hck as Hck. bool_props. congruence.
  - intros s1 [_ [H%not_elem_of_nil|H]]; done.
Qed.
End props.

(** ** Examples *)

Definition demo_order (A : Type) (m : gmap Z A) : list (Z * A) := map_to_list m.
Lemma demo_order_ok A (m : gmap Z A) : demo_order A m ≡ₚ map_to_list m.
Proof. done. Qed.
Definition demo_boot : MState :=
  (Server_init ServerConfig_default (λ _, 1) (λ _, demo_kenv 21) (λ _, []), []).
(** Two apps with a toplevel each, and a window for each; the first one is in front. *)
Definition demo_apps : list Act :=
  [AConnect;
   AReq 1 (RBindOutput 2 (Some 9));
   AReq 1 (RCreateSurface (Some 10)); AReq 1 (RGetXdgSurface (Some 11) 10); AReq 1 (RGetToplevel 11 (Some 12));
   AReq 1 (RSetAppId 12 (Some "waydroid.app.a"));
   AReq 1 (RCreateSurface (Some 20)); AReq 1 (RGetXdgSurface (Some 21) 20); AReq 1 (RGetToplevel 21 (Some 22));
   AReq 1 (RSetAppId 22 (Some "waydroid.app.b"));
   AIpc (IAttach "app.a" (Some 5) 720 1280); AThread 0; APosted;
   AIpc (IAttach "app.b" (Some 6) 720 1280); AThread 0; APosted;
   AIpc (ISetActive 1 true); AThread 0; APosted].
(** The second one comes to the front. *)
Definition demo_switch : list Act := demo_apps ++ [AIpc (ISetActive 2 true)].
Definition demo_end (l : list Act) : MState :=
  match run demo_order l demo_boot with Some x => x | None => demo_boot end.
Lemma demo_switch_run : run demo_order demo_switch demo_boot = Some (demo_end demo_switch).
Proof. vm_compute. reflexivity. Qed.

(** An app without a window of its own is shown on the legacy output, which a caller
    clears. *)
Definition demo_boot_legacy : MState :=
  (Server_init ServerConfig_default (λ n, if Nat.leb 6 n then 0 else 1) (λ _, demo_kenv 21) (λ _, []), []).
Definition demo_clear : list Act :=
  [AConnect; AIpc (ILegacy LProducer);
   AReq 1 (RCreateSurface (Some 10)); AReq 1 (RGetXdgSurface (Some 11) 10); AReq 1 (RGetToplevel 11 (Some 12));
   AReq 1 (RSetAppId 12 (Some "waydroid.app.a"));
   AReq 1 (RCreateBuffer 30 (BWlegl (Some (demo_native, demo_desc HAL_RGB_565))));
   AReq 1 (RAttach 10 (Some 30)); AReq 1 (RCommit 10);
   AIpc (ILegacy LDetach); AIpc (ILegacy LTake)].
Definition demo_cleared : MState :=
  match run demo_order demo_clear demo_boot_legacy with Some x => x | None => demo_boot_legacy end.
Lemma compositor_no_fault_witness :
  sv_releasing demo_cleared.1 = [30] ∧
  ∃ x, run demo_order (demo_clear ++ [AIpc (ILegacy (LSend 0)); ADisconnect 1 [30; 10; 12; 11]]) demo_boot_legacy = Some x.
Proof.
  split; [vm_compute; reflexivity|].
  apply (compositor_no_fault demo_order demo_order_ok). vm_compute. reflexivity.
Defined.
Lemma caller_release_use_after_free_witness :
  run demo_order (demo_clear ++ [AReq 1 (RDestroy 30); AIpc (ILegacy (LSend 0))]) demo_boot_legacy = None.
Proof.
  transitivity (run demo_order [AReq 1 (RDestroy 30); AIpc (ILegacy (LSend 0))] (demo_cleared.1, demo_cleared.2)).
  - vm_compute. reflexivity.
  - apply (caller_release_use_after_free demo_order demo_order_ok demo_cleared.1 demo_cleared.2 1 30
      (BWlegl (Some (demo_native, demo_desc HAL_RGB_565))) 0); vm_compute; reflexivity.
Defined.

Lemma demo_good l :
  disciplined demo_order l demo_boot = true → run demo_order l demo_boot = Some (demo_end l) → good (demo_end l).1.
Proof. intros Hd Hr. by apply (reachable demo_order demo_order_ok _ _ _ _ l _ Hd Hr). Qed.
Definition demo_buffer : list Act := demo_apps ++ [AReq 1 (RCreateBuffer 30 BShm)].
Lemma attached_buffer_use_after_free_witness :
  run demo_order [AReq 1 (RAttach 10 (Some 30)); AReq 1 (RDestroy 30); AReq 1 (RCommit 10)]
    ((demo_end demo_buffer).1, []) = None.
Proof.
  eapply (attached_buffer_use_after_free demo_order demo_order_ok (demo_end demo_buffer).1 [] 1 10 _ 30 BShm).
  - apply demo_good; vm_compute; reflexivity.
  - vm_compute. reflexivity.
  - vm_compute. reflexivity.
Defined.
Lemma role_destroyed_first_witness :
  ∃ s', step demo_order (AReq 1 (RDestroy 11)) ((demo_end demo_switch).1, []) = Some (s', []) ∧
    ∀ w h b, ConfigureToplevel demo_order 1 w h b s' = None.
Proof.
  eapply (role_destroyed_first demo_order demo_order_ok (demo_end demo_switch).1 [] 1
    (mkRec (mkInfo 1 1 "waydroid.app.a" "" false 0) 12 11 (Some 10) true true false) 1).
  - apply demo_good; vm_compute; reflexivity.
  - vm_compute. reflexivity.
  - vm_compute. reflexivity.
Defined.

Definition demo_rec (id : Z) : ToplevelRec :=
  match sv_toplevels (demo_end demo_switch).1 !! id with
  | Some rec => rec | None => mkRec ToplevelInfo_new 0 0 None false false false end.
Lemma activation_belief_true_witness : told 12 (sv_events (demo_end demo_switch).1) = Some true.
Proof.
  apply (activation_belief_true demo_order demo_order_ok ServerConfig_default (λ _, 1) (λ _, demo_kenv 21) (λ _, [])
    demo_switch (demo_end demo_switch) 1 (demo_rec 1)).
  - vm_compute. reflexivity.
  - exact demo_switch_run.
  - vm_compute. reflexivity.
Defined.
Definition demo_applied : Server :=
  match ApplyActivation demo_order false (demo_end demo_switch).1 with Some (_, s) => s | None => (demo_end demo_switch).1 end.
Lemma activation_exact_witness : told 22 (sv_events demo_applied) = Some true.
Proof.
  apply (activation_exact demo_order demo_order_ok ServerConfig_default (λ _, 1) (λ _, demo_kenv 21) (λ _, [])
    demo_switch (demo_end demo_switch) false demo_applied 2 (demo_rec 2)).
  - vm_compute. reflexivity.
  - exact demo_switch_run.
  - vm_compute. reflexivity.
  - vm_compute. reflexivity.
Defined.
(** One app, shown with everything else, then alone: the pass is a pulse. *)
Definition demo_alone : list Act :=
  [AConnect;
   AReq 1 (RCreateSurface (Some 20)); AReq 1 (RGetXdgSurface (Some 21) 20); AReq 1 (RGetToplevel 21 (Some 22));
   AReq 1 (RSetAppId 22 (Some "waydroid.app.b"));
   AIpc (IAttach "" (Some 5) 720 1280); AThread 0; APosted; AIpc (ISetActive 1 true); AThread 0; APosted;
   AIpc (IAttach "app.b" (Some 6) 720 1280); AThread 0; APosted; AIpc (ISetActive 2 true)].
Definition demo_pulsed : Server :=
  match ApplyActivation demo_order true (demo_end demo_alone).1 with Some (_, s) => s | None => (demo_end demo_alone).1 end.
Definition demo_only : ToplevelRec :=
  match sv_toplevels (demo_end demo_alone).1 !! 1 with
  | Some rec => rec | None => mkRec ToplevelInfo_new 0 0 None false false false end.
Lemma handover_dark_only_in_pulse_witness :
  ∃ evs, sv_events demo_pulsed = sv_events (demo_end demo_alone).1 ++ evs ∧
    ∀ p, p `prefix_of` evs →
      lit (sv_toplevels (demo_end demo_alone).1) (sv_events (demo_end demo_alone).1 ++ p) ∨
      true = true ∧ blinks (shown_package (demo_end demo_alone).1) true (sv_outputWidth (demo_end demo_alone).1)
        (sv_outputHeight (demo_end demo_alone).1) (sv_toplevels (demo_end demo_alone).1)
        (sv_events (demo_end demo_alone).1) evs p.
Proof.
  apply (handover_dark_only_in_pulse demo_order demo_order_ok ServerConfig_default (λ _, 1) (λ _, demo_kenv 21) (λ _, [])
    demo_alone (demo_end demo_alone) true demo_pulsed 1 demo_only 1 demo_only).
  - vm_compute. reflexivity.
  - vm_compute. reflexivity.
  - vm_compute. reflexivity.
  - vm_compute. reflexivity.
  - vm_compute. reflexivity.
  - vm_compute. reflexivity.
  - vm_compute. reflexivity.
Defined.
(** There is such a moment: the only toplevel is told that it is not active, although it
    was and will be. *)
Theorem pulse_goes_dark :
  sv_events demo_pulsed = sv_events (demo_end demo_alone).1 ++ pulse_events 720 1280 demo_only ∧
  ¬ lit (sv_toplevels (demo_end demo_alone).1)
      (sv_events (demo_end demo_alone).1 ++ take 1 (pulse_events 720 1280 demo_only)).
Proof.
  split; [vm_compute; reflexivity|]. intros (id & rec & Hrec & Ht).
  assert (sv_toplevels (demo_end demo_alone).1 = {[1 := demo_only]}) as E by (vm_compute; reflexivity).
  rewrite E in Hrec. apply lookup_singleton_Some in Hrec as [_ <-]. revert Ht. vm_compute. discriminate.
Qed.
Definition demo_home : list Act :=
  demo_apps ++ [AReq 1 (RSetAppId 12 (Some "waydroid.com.android.launcher3"));
    AReq 1 (RCreateBuffer 30 (BWlegl (Some (demo_native, demo_desc HAL_RGB_565)))); AReq 1 (RAttach 10 (Some 30))].
Definition demo_committed : Server :=
  match SurfaceCommit demo_order 10 (demo_end demo_home).1 with Some (_, s) => s | None => (demo_end demo_home).1 end.
Lemma home_never_shown_witness :
  untouched (demo_end demo_home).1 demo_committed ∧
  ∃ l, sv_events demo_committed = sv_events (demo_end demo_home).1 ++ EvRelease 30 :: l.
Proof.
  eapply (home_never_shown demo_order (demo_end demo_home).1 1 10 _ 30 1 demo_native (demo_desc HAL_RGB_565)).
  - vm_compute. reflexivity.
  - vm_compute. reflexivity.
  - vm_compute. reflexivity.
  - vm_compute. reflexivity.
  - vm_compute. reflexivity.
  - vm_compute. reflexivity.
Defined.

(** A second client, with touch objects on both sides. *)
Definition demo_touch : list Act :=
  demo_apps ++ [AReq 1 (RGetTouch (Some 13)); AReq 2 (RGetTouch (Some 40)); AReq 1 (RGetKeyboard (Some 14));
    AReq 2 (RCreateSurface (Some 41)); AReq 2 (RGetKeyboard (Some 42));
    AReq 1 (RCreateBuffer 30 (BWlegl (Some (demo_native, demo_desc HAL_RGB_565))));
    AReq 1 (RAttach 10 (Some 30)); AReq 1 (RCommit 10); AIpc (IInject 2 0 5 6)].
Definition demo_drained : Server :=
  match DrainTouchOps (demo_end demo_touch).1 with Some (_, s) => s | None => (demo_end demo_touch).1 end.
Lemma touches_delivered_witness :
  sv_events demo_drained = sv_events (demo_end demo_touch).1 ++ [EvTouchDown 13 10 0 1280 1536; EvTouchFrame 13].
Proof.
  destruct (touches_delivered (demo_end demo_touch).1 demo_drained) as [_ E]; [vm_compute; reflexivity|].
  refine (eq_trans E _). vm_compute. reflexivity.
Defined.
Definition demo_focus : Server :=
  match SendKeyboardFocus 10 (demo_end demo_touch).1 with Some (_, s) => s | None => (demo_end demo_touch).1 end.
Definition demo_refocus : Server :=
  match SendKeyboardFocus 41 demo_focus with Some (_, s) => s | None => demo_focus end.
Lemma keyboard_leave_foreign_witness : EvKbdLeave 42 10 ∈ sv_events demo_refocus.
Proof.
  eapply (keyboard_leave_foreign demo_focus 41 2 _ 10 1 _ 42).
  - vm_compute. reflexivity.
  - vm_compute. reflexivity.
  - vm_compute. reflexivity.
  - done.
  - vm_compute. by right; left.
  - vm_compute. reflexivity.
  - vm_compute. reflexivity.
Defined.
