(* ===== verification/CompositorBuffers.v ===== *)
(** * Every buffer comes back once

    A buffer a client commits is the compositor's until it is released.  The compositor
    keeps it in flight while the render service shows it, then in the list of releases
    to be sent.  The theorems of this file count: what the compositor owes and what it
    has released add up to what was committed. *)

From S2P Require Import Prelude FaultMonad OutSurface WdSession Compositor CompositorFacts.
Set Warnings "-rewrite-rw,-clear-no-such-hyp".

Section buffers.
Context (hash_order : ∀ A, gmap Z A → list (Z * A)).
Context (Hord : ∀ A (m : gmap Z A), hash_order A m ≡ₚ map_to_list m).
Abbreviation M := (F Server).

(** ** Counting *)

Definition fly (b : Z) (m : gmap Z InFlight) : nat :=
  length (filter (λ kv : Z * InFlight, if_wlBuffer kv.2 = b) (map_to_list m)).
Definition pend (b : Z) (l : list Z) : nat := length (filter (λ x, x = b) l).
(** The buffers [b] the compositor still has to give back. *)
Definition owed (b : Z) (s : Server) : nat :=
  (fly b (sv_inFlight s) + pend b (sv_releasedPending s) + pend b (sv_releasing s))%nat.
Definition is_release (b : Z) (e : Event) : bool := match e with EvRelease b' => b' =? b | _ => false end.
Definition released (b : Z) (evs : list Event) : nat := length (List.filter (is_release b) evs).
Definition bal (b : Z) (s : Server) : nat := (owed b s + released b (sv_events s))%nat.

Lemma released_app b l l' : released b (l ++ l') = (released b l + released b l')%nat.
Proof. unfold released. by rewrite List.filter_app length_app. Qed.
Lemma released_map b l : released b (EvRelease <$> l) = pend b l.
Proof.
  unfold released, pend. induction l as [|x l IH]; [done|]. rewrite filter_cons.
  rewrite fmap_cons. cbn [List.filter is_release].
  destruct (x =? b) eqn:E; bool_props; case_decide; try done. cbn [length]. by rewrite IH.
Qed.
Lemma pend_one b x : pend b [x] = if x =? b then 1%nat else 0%nat.
Proof. unfold pend. rewrite filter_cons filter_nil. destruct (x =? b) eqn:E; bool_props; by case_decide. Qed.
Lemma pend_app b l l' : pend b (l ++ l') = (pend b l + pend b l')%nat.
Proof. unfold pend. by rewrite filter_app length_app. Qed.
Lemma fly_perm b (m m' : gmap Z InFlight) l :
  map_to_list m ≡ₚ l ++ map_to_list m' → fly b m = (length (filter (λ kv : Z * InFlight, if_wlBuffer kv.2 = b) l) + fly b m')%nat.
Proof. intros H. unfold fly. rewrite H filter_app. by rewrite length_app. Qed.
Lemma fly_one b sb f :
  length (filter (λ kv : Z * InFlight, if_wlBuffer kv.2 = b) [(sb, f)]) = if if_wlBuffer f =? b then 1%nat else 0%nat.
Proof.
  rewrite filter_cons. cbn [snd]. destruct (if_wlBuffer f =? b) eqn:E; bool_props; by case_decide.
Qed.
Lemma fly_delete b m sb f :
  m !! sb = Some f → fly b m = ((if (if_wlBuffer f =? b)%Z then 1 else 0) + fly b (delete sb m))%nat.
Proof. intros H. rewrite -(fly_one b sb f). apply fly_perm. symmetry. by apply (map_to_list_delete m). Qed.
Lemma fly_insert b m sb f :
  m !! sb = None → fly b (<[sb := f]> m) = ((if (if_wlBuffer f =? b)%Z then 1 else 0) + fly b m)%nat.
Proof. intros H. rewrite -(fly_one b sb f). apply fly_perm. by apply map_to_list_insert. Qed.
Lemma fly_elem b m : fly b m = 0%nat ↔ ∀ sb f, m !! sb = Some f → if_wlBuffer f ≠ b.
Proof.
  unfold fly. rewrite length_zero_iff_nil. split.
  - intros H sb f Hf E. assert ((sb, f) ∈ filter (λ kv : Z * InFlight, if_wlBuffer kv.2 = b) (map_to_list m)) as Hin.
    { apply list_elem_of_filter. split; [done|]. by apply elem_of_map_to_list. }
    rewrite H in Hin. by apply not_elem_of_nil in Hin.
  - intros H. destruct (filter _ _) as [|[sb f] l] eqn:E; [done|].
    assert ((sb, f) ∈ filter (λ kv : Z * InFlight, if_wlBuffer kv.2 = b) (map_to_list m)) as Hin
      by (rewrite E; by left).
    apply list_elem_of_filter in Hin as [Hb Hin%elem_of_map_to_list]. by destruct (H _ _ Hin).
Qed.
Lemma pend_elem b l : pend b l = 0%nat ↔ b ∉ l.
Proof.
  unfold pend. rewrite length_zero_iff_nil. split.
  - intros H Hb. assert (b ∈ filter (λ x, x = b) l) as Hin by by apply list_elem_of_filter.
    rewrite H in Hin. by apply not_elem_of_nil in Hin.
  - intros H. destruct (filter _ _) as [|x l'] eqn:E; [done|].
    assert (x ∈ filter (λ x, x = b) l) as [-> Hin]%list_elem_of_filter by (rewrite E; by left). done.
Qed.

(** ** Operations that keep the balance *)

(** The balance stays, and what is not owed is not owed afterwards. *)
Definition even (b : Z) (s s' : Server) : Prop := bal b s' = bal b s ∧ (owed b s' <= owed b s)%nat.
#[local] Instance even_pre b : PreOrder (even b).
Proof. split; [by split|]. unfold even. intros ? ? ? [E1 L1] [E2 L2]. split; [congruence|lia]. Qed.
Lemma even_same b s s' :
  sv_inFlight s' = sv_inFlight s → sv_releasedPending s' = sv_releasedPending s →
  sv_releasing s' = sv_releasing s → sv_events s' = sv_events s → even b s s'.
Proof. intros E1 E2 E3 E4. unfold even, bal, owed. rewrite E1 E2 E3 E4. by split. Qed.
Lemma even_mod b f :
  (∀ s, sv_inFlight (f s) = sv_inFlight s) → (∀ s, sv_releasedPending (f s) = sv_releasedPending s) →
  (∀ s, sv_releasing (f s) = sv_releasing s) → (∀ s, sv_events (f s) = sv_events s) → fkeeps (even b) (fmod f).
Proof. intros H1 H2 H3 H4. apply fkeeps_mod. intros s. by apply even_same. Qed.
Lemma even_get_obj b r : fkeeps (even b) (get_obj r).
Proof. intros s a s'. unfold get_obj. case_match; [|done]. by intros [= _ <-]. Qed.
Lemma even_ask b : fkeeps (even b) ask.
Proof. intros s a s' [= _ <-]. by apply even_same. Qed.
Lemma even_ask_kenv b : fkeeps (even b) ask_kenv.
Proof. intros s a s' [= _ <-]. by apply even_same. Qed.
Lemma even_send b e : is_release b e = false → fkeeps (even b) (send e).
Proof.
  intros He. unfold send. apply fkeeps_bind; [typeclasses eauto|apply even_get_obj|intros _].
  apply fkeeps_bind; [typeclasses eauto| |intros _].
  - apply fkeeps_opt; [typeclasses eauto|]. intros r.
    apply fkeeps_bind; [typeclasses eauto|apply even_get_obj|intros _]. apply fkeeps_ret; typeclasses eauto.
  - apply fkeeps_mod. intros s. unfold even, bal, owed. cbn [sv_inFlight sv_releasedPending sv_releasing sv_events set_sv_events].
    rewrite released_app. unfold released at 2. cbn. rewrite He. cbn. split; lia.
Qed.
Lemma get_obj_same r s : runs (get_obj r) (λ _ s', s' = s) s.
Proof. intros o s'. unfold get_obj. case_match; [|done]. by intros [= _ <-]. Qed.
Lemma send_adds e s : runs (send e) (λ _ s', s' = set_sv_events (sv_events s ++ [e]) s) s.
Proof.
  unfold send. eapply runs_seq; [apply get_obj_same|]. intros ? s1 ->. eapply (runs_seq _ _ (λ _ s', s' = s)).
  - unfold fopt. destruct (ev_arg e) as [r|]; [|by apply runs_ret].
    eapply runs_seq; [apply get_obj_same|]. intros ? s1 ->. by apply runs_ret.
  - intros ? s1 ->. by apply runs_mod.
Qed.
Lemma send_all (l : list Z) s :
  runs (ffor l (λ a, send (EvRelease a))) (λ _ s', s' = set_sv_events (sv_events s ++ (EvRelease <$> l)) s) s.
Proof.
  revert s. induction l as [|a l IH]; intros s; cbn [ffor].
  - apply runs_ret. cbn. rewrite app_nil_r. by destruct s.
  - eapply runs_seq; [apply send_adds|]. intros ? s1 ->. eapply runs_mono; [apply IH|]. intros ? s2 ->.
    cbn. by rewrite -app_assoc.
Qed.

Lemma even_OnBufferReleased b sb : fkeeps (even b) (OnBufferReleased sb).
Proof.
  intros s a s' E. unfold OnBufferReleased, fbind, fget in E.
  destruct (sv_inFlight s !! sb) as [f|] eqn:Ef; [|by injection E as _ <-]. injection E as _ <-.
  unfold even, bal, owed. cbn [sv_inFlight sv_releasedPending sv_releasing sv_events set_sv_inFlight set_sv_releasedPending].
  rewrite (fly_delete b _ _ _ Ef) pend_app pend_one. split; lia.
Qed.
Lemma even_DrainReleases b : fkeeps (even b) DrainReleases.
Proof.
  intros s a s' E. revert a s' E. change (runs DrainReleases (λ _ s', even b s s') s). unfold DrainReleases.
  apply runs_bind, runs_get, runs_bind, runs_mod.
  eapply runs_mono; [apply send_all|]. intros ? s' ->.
  unfold even, bal, owed. cbn [sv_inFlight sv_releasedPending sv_releasing sv_events set_sv_events set_sv_releasedPending].
  rewrite released_app released_map. change (pend b []) with 0%nat. split; lia.
Qed.
(** What is left of a filtered map, and what is not. *)
Lemma fly_split b (m : gmap Z InFlight) w :
  fly b m = (fly b (filter (λ kv : Z * InFlight, if_window kv.2 ≠ w) m) +
    pend b ((λ kv : Z * InFlight, if_wlBuffer kv.2) <$> filter (λ kv : Z * InFlight, if_window kv.2 = w) (hash_order _ m)))%nat.
Proof.
  assert (∀ l : list (Z * InFlight), pend b ((λ kv : Z * InFlight, if_wlBuffer kv.2) <$> l) =
    length (filter (λ kv : Z * InFlight, if_wlBuffer kv.2 = b) l)) as Hp.
  { intros l. unfold pend. induction l as [|kv l IH]; [done|]. rewrite fmap_cons !filter_cons. case_decide; cbn [length]; by rewrite ?IH. }
  rewrite Hp. rewrite Nat.add_comm. apply fly_perm. rewrite (Hord _ m).
  apply NoDup_Permutation.
  - apply NoDup_map_to_list.
  - apply NoDup_app. split_and!; [apply NoDup_filter, NoDup_map_to_list| |apply NoDup_map_to_list].
    intros [k f] [Hw _]%list_elem_of_filter Hin. apply elem_of_map_to_list, map_lookup_filter_Some in Hin as [_ Hn].
    by apply Hn.
  - intros [k f]. rewrite elem_of_app list_elem_of_filter !elem_of_map_to_list map_lookup_filter_Some. cbn.
    destruct (decide (if_window f = w)); naive_solver.
Qed.
(** What is taken out of the buffers in flight. *)
Lemma take_moves b w s :
  runs (take_in_flight hash_order w) (λ l s',
    (fly b (sv_inFlight s) = fly b (sv_inFlight s') + pend b l)%nat ∧
    s' = set_sv_inFlight (sv_inFlight s') s) s.
Proof.
  unfold take_in_flight. apply runs_bind, runs_get, runs_bind, runs_mod, runs_ret. split; [apply fly_split|done].
Qed.
Lemma even_ReleaseInFlightOf b w : fkeeps (even b) (ReleaseInFlightOf hash_order w).
Proof.
  intros s a s' E. revert a s' E. change (runs (ReleaseInFlightOf hash_order w) (λ _ s', even b s s') s).
  unfold ReleaseInFlightOf. eapply runs_seq; [apply (take_moves b)|]. intros l s1 [El Es1].
  eapply runs_mono; [apply send_all|]. intros ? s' ->. rewrite Es1.
  unfold even, bal, owed. cbn [sv_inFlight sv_releasedPending sv_releasing sv_events set_sv_events set_sv_inFlight].
  rewrite released_app released_map. split; lia.
Qed.
(** A caller takes what is on the legacy output, and gives one of them back. *)
Lemma even_LTake b : fkeeps (even b) (legacy_call hash_order LTake).
Proof.
  intros s a s' E. revert a s' E. change (runs (legacy_call hash_order LTake) (λ _ s', even b s s') s).
  cbn [legacy_call]. eapply runs_seq; [apply (take_moves b)|]. intros l s1 [El Es1]. apply runs_mod. rewrite Es1.
  unfold even, bal, owed. cbn [sv_inFlight sv_releasedPending sv_releasing sv_events set_sv_releasing set_sv_inFlight].
  rewrite pend_app. split; lia.
Qed.
Lemma pend_delete b l n x :
  l !! n = Some x → pend b l = (pend b (delete n l) + if (x =? b)%Z then 1 else 0)%nat.
Proof.
  intros H. unfold pend at 1. rewrite {1}(delete_Permutation _ _ _ H) filter_cons.
  destruct (x =? b) eqn:E; bool_props; case_decide; try done; cbn [length]; unfold pend; lia.
Qed.
Lemma even_LSend b n : fkeeps (even b) (legacy_call hash_order (LSend n)).
Proof.
  intros s a s' E. revert a s' E. change (runs (legacy_call hash_order (LSend n)) (λ _ s', even b s s') s).
  cbn [legacy_call]. apply runs_bind, runs_get. destruct (sv_releasing s !! n) as [x|] eqn:E; [|by apply runs_ret].
  apply runs_bind, runs_mod. intros ? s' Es%send_adds. subst s'.
  unfold even, bal, owed. cbn [sv_inFlight sv_releasedPending sv_releasing sv_events set_sv_releasing set_sv_events].
  rewrite (pend_delete b _ _ _ E) released_app. unfold released at 2. cbn. destruct (x =? b); cbn; split; lia.
Qed.
#[local] Hint Resolve even_get_obj even_ask even_ask_kenv even_OnBufferReleased even_DrainReleases
  even_ReleaseInFlightOf even_LTake even_LSend : fkeeps.
#[local] Hint Extern 2 (fkeeps (even _) (fmod _)) => (apply even_mod; reflexivity) : fkeeps.
#[local] Hint Extern 2 (fkeeps (even _) (upd_toplevel _ _)) => (apply even_mod; reflexivity) : fkeeps.
#[local] Hint Extern 2 (fkeeps (even _) (send _)) => (apply even_send; reflexivity) : fkeeps.
#[local] Opaque send.
Lemma even_get_out b r : fkeeps (even b) (get_out r).
Proof. destruct r; [apply fkeeps_get; typeclasses eauto|]. intros s a s'. cbn. case_match; [|done]. by intros [= _ <-]. Qed.
Lemma even_put_out b r o : fkeeps (even b) (put_out r o).
Proof. unfold put_out. fkeeps_tac. Qed.
#[local] Hint Resolve even_get_out even_put_out : fkeeps.
Lemma even_ResetQueue b r : fkeeps (even b) (out_ResetQueue r).
Proof. unfold out_ResetQueue, rs_log. fkeeps_tac. Qed.
#[local] Hint Resolve even_ResetQueue : fkeeps.
Lemma fly_others b b' m : b' ≠ b → fly b (filter (λ kv : Z * InFlight, if_wlBuffer kv.2 ≠ b') m) = fly b m.
Proof.
  intros Hne. unfold fly. apply Permutation_length, NoDup_Permutation; [apply NoDup_filter, NoDup_map_to_list..|].
  intros [k f]. rewrite !list_elem_of_filter !elem_of_map_to_list map_lookup_filter_Some. cbn. naive_solver.
Qed.
Lemma pend_others b b' l : b' ≠ b → pend b (filter (λ x, x ≠ b') l) = pend b l.
Proof.
  intros Hne. unfold pend. rewrite list_filter_filter. f_equal. apply list_filter_iff. naive_solver.
Qed.
Lemma even_ForgetBuffer b b' : b' ≠ b → fkeeps (even b) (ForgetBuffer hash_order b').
Proof.
  intros Hne. unfold ForgetBuffer. do 2 (apply fkeeps_bind; [typeclasses eauto|fkeeps_tac|intros _]).
  apply fkeeps_bind; [typeclasses eauto| |intros _; fkeeps_tac].
  apply fkeeps_mod. intros s. unfold even, bal, owed.
  cbn [sv_inFlight sv_releasedPending sv_releasing sv_events set_sv_inFlight set_sv_releasedPending].
  rewrite fly_others // pend_others //.
Qed.

Lemma even_put_obj b r o : fkeeps (even b) (put_obj r o).
Proof. unfold put_obj. fkeeps_tac. Qed.
Lemma even_get_surface b r : fkeeps (even b) (get_surface r).
Proof. unfold get_surface. fkeeps_tac. Qed.
Lemma even_get_xdg b r : fkeeps (even b) (get_xdg r).
Proof. unfold get_xdg. fkeeps_tac. Qed.
Lemma even_client b r : fkeeps (even b) (wl_resource_get_client r).
Proof. unfold wl_resource_get_client. fkeeps_tac. Qed.
#[local] Hint Resolve even_put_obj even_get_surface even_get_xdg even_client : fkeeps.
Lemma even_upd_surface b r f : fkeeps (even b) (upd_surface r f).
Proof. unfold upd_surface. fkeeps_tac. Qed.
Lemma even_rs_log b ops : fkeeps (even b) (rs_log ops).
Proof. unfold rs_log. fkeeps_tac. Qed.
Lemma even_emit b ev info : fkeeps (even b) (EmitToplevel ev info).
Proof. unfold EmitToplevel. fkeeps_tac. Qed.
Lemma even_create b c new o : fkeeps (even b) (wl_resource_create c new o).
Proof. unfold wl_resource_create. fkeeps_tac. Qed.
#[local] Hint Resolve even_upd_surface even_rs_log even_emit even_create : fkeeps.
Lemma even_Import b b' nh desc : fkeeps (even b) (Import b' nh desc).
Proof. unfold Import. fkeeps_tac. Qed.
Lemma even_Flush b out b' sb : fkeeps (even b) (out_Flush out b' sb).
Proof. unfold out_Flush. fkeeps_tac. Qed.
Lemma even_OutputFor b t : fkeeps (even b) (OutputFor hash_order t).
Proof. unfold OutputFor. fkeeps_tac. Qed.
Lemma even_NoteToplevelFrame b t : fkeeps (even b) (NoteToplevelFrame t).
Proof. unfold NoteToplevelFrame. fkeeps_tac. Qed.
Lemma even_NoteToplevelInactive b t : fkeeps (even b) (NoteToplevelInactive t).
Proof. unfold NoteToplevelInactive. fkeeps_tac. Qed.
Lemma even_Configure b id w h a : fkeeps (even b) (ConfigureToplevel hash_order id w h a).
Proof. unfold ConfigureToplevel. fkeeps_tac. Qed.
Lemma even_SendSurface b id shown : fkeeps (even b) (SendSurfaceOnOutput id shown).
Proof. unfold SendSurfaceOnOutput. fkeeps_tac. apply even_send. by destruct shown. Qed.
Lemma even_DrainTouchOps b : fkeeps (even b) DrainTouchOps.
Proof.
  unfold DrainTouchOps. fkeeps_tac.
  all: apply even_send; unfold touch_event; by destruct (to_kind _).
Qed.
#[local] Hint Resolve even_Import even_Flush even_OutputFor even_NoteToplevelFrame even_NoteToplevelInactive
  even_Configure even_SendSurface even_DrainTouchOps : fkeeps.
Lemma even_ApplyActivation b edge : fkeeps (even b) (ApplyActivation hash_order edge).
Proof. unfold ApplyActivation. fkeeps_tac. Qed.
Lemma even_Inject b a i x y : fkeeps (even b) (InjectTouchFromAction a i x y).
Proof. unfold InjectTouchFromAction, InjectTouchOps. fkeeps_tac. Qed.
Lemma even_SendKeyboardFocus b u : fkeeps (even b) (SendKeyboardFocus u).
Proof. unfold SendKeyboardFocus. fkeeps_tac. Qed.
Lemma even_CloseToplevel b id : fkeeps (even b) (CloseToplevel id).
Proof. unfold CloseToplevel. fkeeps_tac. Qed.
#[local] Hint Resolve even_ApplyActivation even_Inject even_SendKeyboardFocus even_CloseToplevel : fkeeps.
Lemma even_run_posted b p : fkeeps (even b) (run_posted hash_order p).
Proof. destruct p; cbn [run_posted]; unfold run_touch, run_key, NoteInputSurface; fkeeps_tac. Qed.
Lemma even_DrainPosted b : fkeeps (even b) (DrainPosted hash_order).
Proof. pose proof (even_run_posted b). unfold DrainPosted. fkeeps_tac. Qed.
Lemma even_legacy_call b c : fkeeps (even b) (legacy_call hash_order c).
Proof.
  destruct c; [| | | | |fkeeps_tac..]; cbn [legacy_call]; unfold legacy_AttachProducer, legacy_SetNodeVisible, with_legacy,
    RevertToSelfDrawing; fkeeps_tac.
Qed.
#[local] Hint Resolve even_legacy_call : fkeeps.
Lemma even_other_thread b m : fkeeps (even b) (other_thread hash_order m).
Proof. destruct m; cbn [other_thread]; fkeeps_tac. Qed.
Lemma even_meanwhile b : fkeeps (even b) (meanwhile hash_order).
Proof.
  intros s a s' E. unfold meanwhile in E. etrans; [|eapply (fkeeps_for (even b) _ _ (even_other_thread b)), E].
  by apply even_same.
Qed.
Lemma even_ipc b i : fkeeps (even b) (ipc_section hash_order i).
Proof.
  destruct i; cbn [ipc_section]; unfold attach_window, detach_window, set_window_active, InjectTouchOps.
  all: fkeeps_tac.
  all: try (apply even_mod; intros s; repeat case_match; reflexivity).
Qed.
Lemma even_destroy b r : r ≠ b → fkeeps (even b) (wl_resource_destroy hash_order r).
Proof.
  intros Hne. unfold wl_resource_destroy, SurfaceResourceDestroy, xdg_destroy, RemoveToplevel, RemoveTouchResource,
    RemoveKeyboardResource, RemoveOutputResource, DropInputSurface.
  pose proof (even_ForgetBuffer b r Hne). fkeeps_tac.
  all: apply even_mod; intros ?; repeat case_match; reflexivity.
Qed.
(** Requests other than commits and destructions. *)
Definition small (q : Req) : bool := match q with RCommit _ | RDestroy _ => false | _ => true end.
Lemma even_req b c q : small q = true → fkeeps (even b) (run_req hash_order c q).
Proof.
  intros Hq. destruct q; try done; cbn [run_req]; unfold CompositorCreateSurface, SurfaceAttach, SurfaceFrame,
    SubcompositorGetSubsurface, OutputBind, AddOutputResource, SeatGetKeyboard, AddKeyboardResource, SeatGetTouch,
    AddTouchResource, SeatBind, XdgWmBaseGetXdgSurface, XdgToplevelSetTitle, XdgToplevelSetAppId, SetToplevelTitle,
    SetToplevelAppId, XdgSurfaceGetToplevel, AddToplevel, NoteToplevelSurface, OutputSize; fkeeps_tac.
Qed.

(** ** A frame *)

(** Time: answers are used up, and what other threads do is fixed. *)
Definition later (s s' : Server) : Prop := (sv_asked s <= sv_asked s')%nat ∧ sv_meanwhile s' = sv_meanwhile s.
#[local] Instance later_pre : PreOrder later.
Proof. split; [by split|]. intros ? ? ? [L1 E1] [L2 E2]. split; [lia|congruence]. Qed.
Lemma later_mod f : (∀ s, sv_asked (f s) = sv_asked s) → (∀ s, sv_meanwhile (f s) = sv_meanwhile s) → fkeeps later (fmod f).
Proof. intros H1 H2. apply fkeeps_mod. intros s. split; [by rewrite H1|by rewrite H2]. Qed.
Lemma later_get_obj r : fkeeps later (get_obj r).
Proof. intros s a s' E. by apply get_obj_same in E as ->. Qed.
Lemma later_ask : fkeeps later ask.
Proof. intros s a s' [= _ <-]. split; cbn; [lia|done]. Qed.
Lemma later_ask_kenv : fkeeps later ask_kenv.
Proof. intros s a s' [= _ <-]. split; cbn; [lia|done]. Qed.
Lemma later_send e : fkeeps later (send e).
Proof. intros s a s' E. apply send_adds in E as ->. done. Qed.
Lemma later_get_out r : fkeeps later (get_out r).
Proof. destruct r; [apply fkeeps_get; typeclasses eauto|]. intros s a s'. cbn. case_match; [|done]. by intros [= _ <-]. Qed.
Lemma later_put_out r o : fkeeps later (put_out r o).
Proof. unfold put_out. destruct r; by apply later_mod. Qed.
#[local] Hint Resolve later_get_obj later_ask later_ask_kenv later_send later_get_out later_put_out : fkeeps.
#[local] Hint Extern 2 (fkeeps later (fmod _)) => (apply later_mod; reflexivity) : fkeeps.
Lemma later_OnBufferReleased sb : fkeeps later (OnBufferReleased sb).
Proof. unfold OnBufferReleased. fkeeps_tac. Qed.
Lemma later_take w : fkeeps later (take_in_flight hash_order w).
Proof. unfold take_in_flight. fkeeps_tac. Qed.
#[local] Hint Resolve later_OnBufferReleased later_take : fkeeps.
Lemma later_other_thread m : fkeeps later (other_thread hash_order m).
Proof.
  destruct m as [sb|[]]; cbn [other_thread legacy_call]; unfold legacy_AttachProducer, legacy_SetNodeVisible,
    with_legacy, RevertToSelfDrawing, rs_log; fkeeps_tac.
Qed.
Lemma meanwhile_ticks s a s' :
  meanwhile hash_order s = Some (a, s') → (S (sv_asked s) <= sv_asked s')%nat ∧ sv_meanwhile s' = sv_meanwhile s.
Proof.
  unfold meanwhile. intros E. by apply (fkeeps_for later _ _ later_other_thread) in E as [L E'].
Qed.
Lemma later_meanwhile : fkeeps later (meanwhile hash_order).
Proof. intros s a s' [L E]%meanwhile_ticks. split; [lia|done]. Qed.
#[local] Hint Resolve later_meanwhile : fkeeps.
Lemma later_Flush out b sb : fkeeps later (out_Flush out b sb).
Proof. unfold out_Flush, rs_log. fkeeps_tac. Qed.
Lemma later_Reset out : fkeeps later (out_ResetQueue out).
Proof. unfold out_ResetQueue, rs_log. fkeeps_tac. Qed.
Lemma later_Release w : fkeeps later (ReleaseInFlightOf hash_order w).
Proof. unfold ReleaseInFlightOf. fkeeps_tac. Qed.
Lemma later_Import b nh desc : fkeeps later (Import b nh desc).
Proof. unfold Import. fkeeps_tac. Qed.
Lemma later_OutputFor t : fkeeps later (OutputFor hash_order t).
Proof. unfold OutputFor. fkeeps_tac. Qed.

(** A buffer is in flight under its own surface buffer only. *)
Lemma flight_own objs t b sb cfg sb' f :
  I ∅ objs t → sv_cache t !! b = Some (sb, cfg) → sv_inFlight t !! sb' = Some f → if_wlBuffer f = b ↔ sb' = sb.
Proof.
  intros [(_&_&_&_&_&_&H7&[_ H8]&_) _] Hc Hf. destruct (H7 _ _ Hf) as [cfg' Hc']. split.
  - intros E. rewrite E in Hc'. congruence.
  - intros ->. by eapply H8.
Qed.
Lemma fly_set b m sb f :
  fly b (<[sb := f]> m) = ((if (if_wlBuffer f =? b)%Z then 1 else 0) + fly b (delete sb m))%nat.
Proof. rewrite -insert_delete_eq. by rewrite fly_insert; [|by rewrite lookup_delete_eq]. Qed.

Section frame.
Context (objs : gmap Z Resource) (out : OutRef) (b b' sb : Z) (N : nat) (endt : nat) (rs : nat → list Meanwhile).
(** The buffer is with its client, or on its way; [b] is the one that is counted. *)
Definition untracked (t : Server) : Prop :=
  ready objs out b' sb t ∧ bal b t = N ∧ (b' = b → owed b t = 0%nat).
Definition tracked (t : Server) : Prop :=
  ready objs out b' sb t ∧ bal b t = (N + if (b' =? b)%Z then 1 else 0)%nat ∧
  (b' = b → (pend b (sv_releasedPending t) + pend b (sv_releasing t) = 0)%nat ∧
            ∃ w, sv_inFlight t !! sb = Some (mkInFlight b w)).
(** As long as the commit lasts. *)
Definition until (P : Server → Prop) (t : Server) : Prop := (sv_asked t <= endt)%nat → sv_meanwhile t = rs ∧ P t.
Lemma until_run {A} (m : M A) (P P' : Server → Prop) t :
  fkeeps later m → (P t → runs m (λ _ t', P' t') t) → until P t → runs m (λ _ t', until P' t') t.
Proof.
  intros Hl Hm HP a t' E Hend. destruct (Hl _ _ _ E) as [L E']. destruct HP as [Hrs HP]; [lia|].
  split; [congruence|]. by eapply Hm.
Qed.

Lemma track_runs w t : untracked t → runs (TrackInFlight sb b' w) (λ _ t', tracked t') t.
Proof.
  intros (Hr & HN & H0) a t' E. pose proof (safe_eq _ _ _ _ _ (ready_Track (b := b') (sb := sb) w t Hr) E) as Hr'. injection E as _ <-.
  pose proof Hr as (HI & _ & cfg & Hc). split; [done|].
  assert (fly b (<[sb := mkInFlight b' w]> (sv_inFlight t)) =
    ((if (b' =? b)%Z then 1 else 0) + fly b (sv_inFlight t))%nat) as Ef.
  { rewrite fly_set. cbn [if_wlBuffer]. f_equal. destruct (sv_inFlight t !! sb) as [f|] eqn:Ef; [|by rewrite delete_id].
    rewrite (fly_delete b _ _ _ Ef). pose proof (proj2 (flight_own objs t b' sb cfg sb f HI Hc Ef) eq_refl) as Eb.
    destruct (if_wlBuffer f =? b) eqn:E'; [|done]. bool_props. exfalso.
    assert (b' = b) as Hbb by congruence. specialize (H0 Hbb). unfold owed in H0.
    assert (fly b (sv_inFlight t) = 0%nat) as Hz by lia. apply (proj1 (fly_elem _ _) Hz _ _ Ef). congruence. }
  split.
  - unfold bal, owed in *. cbn [sv_inFlight sv_releasedPending sv_releasing sv_events set_sv_inFlight]. rewrite Ef. lia.
  - intros Hbb. specialize (H0 Hbb). unfold owed in H0. cbn [sv_inFlight sv_releasedPending sv_releasing set_sv_inFlight].
    split; [lia|]. exists w. rewrite lookup_insert_eq. by rewrite Hbb.
Qed.
Lemma untrack_runs t : tracked t → runs (UntrackInFlight sb) (λ _ t', untracked t') t.
Proof.
  intros (Hr & HN & H0) a t' E.
  pose proof (safe_eq _ _ _ _ _ (ready_quiet (UntrackInFlight sb) t (ok_UntrackInFlight sb) ltac:(by apply fkeeps_mod) Hr) E) as Hr'.
  injection E as _ <-. pose proof Hr as (HI & _ & cfg & Hc). split; [done|].
  assert ((if (b' =? b)%Z then 1 else 0) + fly b (delete sb (sv_inFlight t)) = fly b (sv_inFlight t))%nat as Ef.
  { destruct (b' =? b) eqn:E; bool_props.
    - subst b'. destruct (H0 eq_refl) as (_ & w & Hw). rewrite (fly_delete b _ _ _ Hw). cbn. by rewrite Z.eqb_refl.
    - destruct (sv_inFlight t !! sb) as [f|] eqn:Ef; [|by rewrite delete_id].
      rewrite (fly_delete b (sv_inFlight t) _ _ Ef). pose proof (proj2 (flight_own objs t b' sb cfg sb f HI Hc Ef) eq_refl).
      destruct (if_wlBuffer f =? b) eqn:E'; bool_props; [congruence|done]. }
  split.
  - unfold bal, owed in *. cbn [sv_inFlight sv_releasedPending sv_releasing sv_events set_sv_inFlight]. lia.
  - intros Hbb. subst b'. destruct (H0 eq_refl) as (Hp & w & Hw). unfold owed.
    cbn [sv_inFlight sv_releasedPending sv_releasing set_sv_inFlight]. rewrite -Nat.add_assoc Hp Nat.add_0_r. apply fly_elem.
    intros sb' f. rewrite lookup_delete_Some. intros [Hne Hf] Eb.
    by apply Hne, eq_sym, (flight_own objs t b sb cfg sb' f HI Hc Hf).
Qed.
Lemma even_untracked {A} (m : M A) t :
  (∀ t, ready objs out b' sb t → safe m (λ _ t', ready objs out b' sb t') t) → fkeeps (even b) m →
  untracked t → runs m (λ _ t', untracked t') t.
Proof.
  intros Hr He (Hrd & HN & H0) a t' E. destruct (He _ _ _ E) as [Eb Lo]. split_and!.
  - exact (safe_eq _ _ _ _ _ (Hr t Hrd) E).
  - congruence.
  - intros Hbb. specialize (H0 Hbb). lia.
Qed.

(** The queue of the output does not touch what is tracked, and a caller only gives back
    what it has. *)
Definition still (s s' : Server) : Prop :=
  sv_inFlight s' = sv_inFlight s ∧ sv_releasedPending s' = sv_releasedPending s ∧
  (pend b (sv_releasing s') <= pend b (sv_releasing s))%nat.
#[local] Instance still_pre : PreOrder still.
Proof. split; [by intros s; split_and!|]. intros ? ? ? (? & ? & ?) (? & ? & ?). split_and!; [congruence..|lia]. Qed.
Lemma queue_still_same s s' :
  sv_inFlight s' = sv_inFlight s → sv_releasedPending s' = sv_releasedPending s → sv_releasing s' = sv_releasing s →
  still s s'.
Proof. intros E1 E2 E3. split_and!; [done..|by rewrite E3]. Qed.
Lemma still_mod f :
  (∀ s, sv_inFlight (f s) = sv_inFlight s) → (∀ s, sv_releasedPending (f s) = sv_releasedPending s) →
  (∀ s, sv_releasing (f s) = sv_releasing s) → fkeeps still (fmod f).
Proof. intros H1 H2 H3. apply fkeeps_mod. intros s. by apply queue_still_same. Qed.
Lemma still_ask : fkeeps still ask.
Proof. intros s a s' [= _ <-]. by apply queue_still_same. Qed.
Lemma still_get_out r : fkeeps still (get_out r).
Proof. destruct r; [apply fkeeps_get; typeclasses eauto|]. intros s a s'. cbn. case_match; [|done]. by intros [= _ <-]. Qed.
Lemma still_put_out r o : fkeeps still (put_out r o).
Proof. destruct r; by apply still_mod. Qed.
#[local] Hint Resolve still_ask still_get_out still_put_out : fkeeps.
#[local] Hint Extern 2 (fkeeps still (fmod _)) => (apply still_mod; reflexivity) : fkeeps.
Lemma still_Flush : fkeeps still (out_Flush out b' sb).
Proof. unfold out_Flush, rs_log. fkeeps_tac. Qed.
Lemma still_legacy_call c : c ≠ LTake → fkeeps still (legacy_call hash_order c).
Proof.
  intros Hc. destruct c as [| | | | | |n]; try done; cbn [legacy_call];
    [unfold legacy_AttachProducer, legacy_SetNodeVisible, with_legacy, RevertToSelfDrawing, rs_log; fkeeps_tac..|].
  intros s a s' E. revert a s' E.
  match goal with |- ∀ v s', ?m s = _ → _ => change (runs m (λ _ s', still s s') s) end.
  apply runs_bind, runs_get. destruct (sv_releasing s !! n) as [x|] eqn:E; [|by apply runs_ret].
  apply runs_bind, runs_mod. intros ? s' Es%send_adds. subst s'. split_and!; [done..|].
  cbn [sv_releasing set_sv_releasing set_sv_events]. rewrite (pend_delete b _ _ _ E). lia.
Qed.
Lemma still_tracked {A} (m : M A) t :
  (∀ t, ready objs out b' sb t → safe m (λ _ t', ready objs out b' sb t') t) → fkeeps (even b) m → (b' = b → fkeeps still m) →
  tracked t → runs m (λ _ t', tracked t') t.
Proof.
  intros Hm He Hs (Hr & HN & H0) a t' E. destruct (He _ _ _ E) as [Eb _]. split_and!.
  - exact (safe_eq _ _ _ _ _ (Hm t Hr) E).
  - congruence.
  - intros Hbb. destruct (Hs Hbb _ _ _ E) as (E1 & E2 & L3). destruct (H0 Hbb) as [Hp Hw]. rewrite E1 E2. split; [lia|done].
Qed.
Lemma flush_tracked t : tracked t → runs (out_Flush out b' sb) (λ _ t', tracked t') t.
Proof. apply still_tracked; [apply ready_Flush|apply even_Flush|intros _; apply still_Flush]. Qed.
(** The thread hands back other buffers. *)
Lemma released_tracked sb' t :
  (b' = b → sb' ≠ sb) → tracked t → runs (OnBufferReleased sb') (λ _ t', tracked t') t.
Proof.
  intros Hne (Hr & HN & H0) a t' E. destruct (even_OnBufferReleased b sb' _ _ _ E) as [Eb _]. split_and!.
  - exact (safe_eq _ _ _ _ _ (ready_quiet _ t (ok_OnBufferReleased sb') (quiet_OnBufferReleased sb') Hr) E).
  - congruence.
  - intros Hbb. destruct (H0 Hbb) as (Hp & w & Hw). unfold OnBufferReleased, fbind, fget in E.
    destruct (sv_inFlight t !! sb') as [f|] eqn:Ef; [|injection E as _ <-; eauto]. injection E as _ <-.
    cbn [sv_inFlight sv_releasedPending sv_releasing set_sv_inFlight set_sv_releasedPending].
    split; [|exists w; rewrite lookup_delete_ne; [done|by apply Hne]].
    rewrite pend_app pend_one. destruct (if_wlBuffer f =? b) eqn:E; [|lia]. bool_props.
    destruct Hr as (HI & _ & cfg & Hc). rewrite Hbb in Hc. destruct (Hne Hbb).
    by apply (flight_own objs t b sb cfg sb' f HI Hc Ef).
Qed.
(** Other threads leave the frame that is being queued alone. *)
Definition hands_off (m : Meanwhile) : Prop := m ≠ MwHandBack sb ∧ m ≠ MwCall LTake.
Lemma other_tracked m t :
  (b' = b → hands_off m) → tracked t → runs (other_thread hash_order m) (λ _ t', tracked t') t.
Proof using Hord.
  intros Hm. destruct m as [sb'|c]; cbn [other_thread].
  - apply released_tracked. intros Hbb ->. by destruct (Hm Hbb) as [? _].
  - apply still_tracked.
    + intros s Hs. apply ready_quiet; [by apply (ok_other_thread hash_order Hord (MwCall c))|
        apply (quiet_other_thread hash_order (MwCall c))|done].
    + apply even_legacy_call.
    + intros Hbb. apply still_legacy_call. intros ->. by destruct (Hm Hbb) as [_ ?].
Qed.
Lemma tracked_same t t' :
  sv_inFlight t' = sv_inFlight t → sv_releasedPending t' = sv_releasedPending t → sv_releasing t' = sv_releasing t →
  sv_events t' = sv_events t → ready objs out b' sb t' → tracked t → tracked t'.
Proof.
  intros E1 E2 E3 E4 Hr (_ & HN & H0). split_and!; [done| |by rewrite E1 E2 E3].
  unfold bal, owed. rewrite E1 E2 E3 E4. exact HN.
Qed.
Lemma meanwhile_tracked t :
  (b' = b → ∀ n, (sv_asked t <= n < endt)%nat → Forall hands_off (rs n)) →
  until tracked t → runs (meanwhile hash_order) (λ _ t', until tracked t') t.
Proof using Hord.
  intros Hrs Ht a t' E Hend. destruct (meanwhile_ticks _ _ _ E) as [L Et].
  destruct Ht as [Hr Ht]; [lia|]. split; [congruence|]. unfold meanwhile in E. rewrite Hr in E. revert a t' E L Hend Et.
  set (t1 := set_sv_asked _ t). intros a t' E L Hend Et.
  assert (tracked t1) as Ht1.
  { apply (tracked_same t); try done. destruct Ht as ((HI & Hl & Hc) & _). split_and!; [by eapply I_core, HI|done..]. }
  revert a t' E L Hend Et.
  assert (runs (ffor (rs (sv_asked t)) (other_thread hash_order))
    (λ _ t', (S (sv_asked t) <= sv_asked t')%nat → (sv_asked t' <= endt)%nat → tracked t') t1) as H.
  { apply (runs_for (λ l t', (∀ x, x ∈ l → x ∈ rs (sv_asked t)) ∧ ((sv_asked t < endt)%nat → tracked t'))).
    - by split.
    - intros x l s' [Hin Hs']. intros a s'' E. split; [intros y Hy; apply Hin; by right|]. intros Hlt.
      eapply other_tracked; [|by apply Hs'|done]. intros Hbb.
      assert (sv_asked t <= sv_asked t < endt)%nat as Hn by lia.
      eapply Forall_forall; [exact (Hrs Hbb _ Hn)|]. apply Hin. by left.
    - intros s' [_ Hs'] L Hend. apply Hs'. lia. }
  intros a t' E L Hend _. by eapply H.
Qed.
End frame.

(** The surface buffer a frame of [b] goes by. *)
Definition sb_of (b : Z) (s : Server) : Z :=
  match sv_cache s !! b with Some (sb, _) => sb | None => sv_nextSb s end.
Lemma OutputFor_cache t : fkeeps (λ s s', sv_cache s' = sv_cache s ∧ sv_nextSb s' = sv_nextSb s) (OutputFor hash_order t).
Proof.
  assert (PreOrder (λ s s' : Server, sv_cache s' = sv_cache s ∧ sv_nextSb s' = sv_nextSb s)).
  { split; [done|]. intros ? ? ? [? ?] [? ?]. split; congruence. }
  unfold OutputFor. repeat first [by apply fkeeps_mod|fkeeps_step].
Qed.
Lemma Import_sb b nh desc s : runs (Import b nh desc) (λ r _, ∀ sb, r = Some sb → sb = sb_of b s) s.
Proof.
  unfold Import, sb_of. apply runs_bind, runs_get. destruct (sv_cache s !! b) as [[sb cfg]|]; [by apply runs_ret; intros ? [= <-]|].
  apply runs_bind. intros e s1 [= _ <-]. apply runs_bind. unfold fsome. destruct (BuildBufferHandle _ _ _) as [r|]; [|by intros ? ?].
  apply runs_ret. destruct r.1.1; [|by apply runs_ret]. apply runs_bind. intros c s2 [= _ <-].
  case_match; [by apply runs_ret|]. apply runs_bind, runs_get, runs_bind, runs_mod, runs_ret. by intros sb [= <-].
Qed.
Lemma until_weaken endt rs (P Q : Server → Prop) t : (P t → Q t) → until endt rs P t → until endt rs Q t.
Proof. intros H HP Hend. destruct (HP Hend). auto. Qed.

Section frame_steps.
Context (objs : gmap Z Resource) (out : OutRef) (b b' sb : Z) (N : nat) (endt : nat) (rs : nat → list Meanwhile).
Abbreviation U := (until endt rs (untracked objs out b b' sb N)).
Abbreviation T := (until endt rs (tracked objs out b b' sb N)).
Lemma U_even {A} (m : M A) t :
  (∀ t, ready objs out b' sb t → safe m (λ _ t', ready objs out b' sb t') t) → fkeeps (even b) m → fkeeps later m →
  U t → runs m (λ _ t', U t') t.
Proof. intros Hr He Hl. apply until_run; [done|]. by apply even_untracked. Qed.
Lemma T_track w t : U t → runs (TrackInFlight sb b' w) (λ _ t', T t') t.
Proof. apply until_run; [by apply later_mod|]. apply track_runs. Qed.
Lemma U_untrack t : T t → runs (UntrackInFlight sb) (λ _ t', U t') t.
Proof. apply until_run; [by apply later_mod|]. apply untrack_runs. Qed.
Lemma T_flush t : T t → runs (out_Flush out b' sb) (λ _ t', T t') t.
Proof. apply until_run; [apply later_Flush|]. apply flush_tracked. Qed.
Lemma U_release t :
  U t → runs (send (EvRelease b')) (λ _ t', (sv_asked t' <= endt)%nat → bal b t' = (N + if (b' =? b)%Z then 1 else 0)%nat) t.
Proof.
  intros Ht a t' E. apply send_adds in E as ->. intros Hend. destruct Ht as [_ (_ & HN & _)]; [exact Hend|].
  unfold bal, owed in *. cbn [sv_inFlight sv_releasedPending sv_releasing sv_events set_sv_events]. rewrite released_app.
  unfold released at 2. cbn. destruct (b' =? b); cbn; lia.
Qed.
Lemma T_balance t : T t → (sv_asked t <= endt)%nat → bal b t = (N + if (b' =? b)%Z then 1 else 0)%nat.
Proof. intros Ht Hend. by destruct (Ht Hend) as [_ (_ & HN & _)]. Qed.

(** From the first attempt to show the frame to the last. *)
Lemma attempts_runs window t0 t :
  (b' = b → ∀ n, (t0 <= n < endt)%nat → Forall (hands_off sb) (rs n)) → (t0 <= sv_asked t)%nat → U t →
  runs (do! meanwhile hash_order in
        do! TrackInFlight sb b' window in
        do! meanwhile hash_order in
        let! ok := out_Flush out b' sb in
        if ok : bool then fret tt
        else
          do! UntrackInFlight sb in
          do! meanwhile hash_order in
          do! out_ResetQueue out in
          do! ReleaseInFlightOf hash_order window in
          do! meanwhile hash_order in
          do! TrackInFlight sb b' window in
          do! meanwhile hash_order in
          let! ok := out_Flush out b' sb in
          if ok : bool then fret tt
          else do! UntrackInFlight sb in send (EvRelease b'))
    (λ _ t', (sv_asked t' <= endt)%nat → bal b t' = (N + if (b' =? b)%Z then 1 else 0)%nat) t.
Proof using Hord.
  intros Hrs H0 Ht.
  assert (∀ A (m : M A) (P Q : Server → Prop) s, fkeeps later m → (P s → runs m (λ _ s', Q s') s) →
    P s ∧ (t0 <= sv_asked s)%nat → runs m (λ _ s', Q s' ∧ (t0 <= sv_asked s')%nat) s) as Hstep.
  { intros A m P Q s Hl Hm [HP H] a s' E. split; [by eapply Hm|]. destruct (Hl _ _ _ E). lia. }
  assert (∀ s, T s ∧ (t0 <= sv_asked s)%nat → runs (meanwhile hash_order) (λ _ s', T s' ∧ (t0 <= sv_asked s')%nat) s) as Hrst.
  { intros s Hs. eapply Hstep; [apply later_meanwhile| |exact Hs]. apply meanwhile_tracked.
    intros Hbb n Hn. apply Hrs; [done|]. destruct Hs. lia. }
  assert (∀ s, U s ∧ (t0 <= sv_asked s)%nat → runs (meanwhile hash_order) (λ _ s', U s' ∧ (t0 <= sv_asked s')%nat) s) as Hrsu.
  { intros s. apply Hstep; [apply later_meanwhile|]. apply U_even; [|apply even_meanwhile|apply later_meanwhile].
    intros s' Hs'. apply ready_quiet; [by apply ok_meanwhile|apply quiet_meanwhile|done]. }
  assert (∀ s, U s ∧ (t0 <= sv_asked s)%nat → runs (TrackInFlight sb b' window) (λ _ s', T s' ∧ (t0 <= sv_asked s')%nat) s) as Htr.
  { intros s. apply Hstep; [by apply later_mod|apply T_track]. }
  assert (∀ s, T s ∧ (t0 <= sv_asked s)%nat → runs (UntrackInFlight sb) (λ _ s', U s' ∧ (t0 <= sv_asked s')%nat) s) as Hun.
  { intros s. apply Hstep; [by apply later_mod|apply U_untrack]. }
  assert (∀ s, T s ∧ (t0 <= sv_asked s)%nat → runs (out_Flush out b' sb) (λ _ s', T s' ∧ (t0 <= sv_asked s')%nat) s) as Hfl.
  { intros s. apply Hstep; [apply later_Flush|apply T_flush]. }
  eapply runs_seq; [by apply Hrsu|]. intros ? s0 Hs0. eapply runs_seq; [exact (Htr s0 Hs0)|]. intros ? s1 H1. eapply runs_seq; [exact (Hrst s1 H1)|]. intros ? s2 H2.
  eapply runs_seq; [exact (Hfl s2 H2)|]. intros [] s3 H3; [apply runs_ret; by apply T_balance, H3|].
  eapply runs_seq; [exact (Hun s3 H3)|]. intros ? s4 H4. eapply runs_seq; [exact (Hrsu s4 H4)|]. intros ? s5 H5.
  eapply (runs_seq _ _ (λ _ s', U s' ∧ (t0 <= sv_asked s')%nat)).
  { eapply Hstep; [apply later_Reset| |exact H5]. apply U_even; [|apply even_ResetQueue|apply later_Reset].
    intros s'. apply ready_Reset. }
  intros ? s6 H6. eapply (runs_seq _ _ (λ _ s', U s' ∧ (t0 <= sv_asked s')%nat)).
  { eapply Hstep; [apply later_Release| |exact H6]. apply U_even; [|apply even_ReleaseInFlightOf|apply later_Release].
    intros s' Hs'. apply ready_quiet; [by apply ok_ReleaseInFlightOf|apply quiet_ReleaseInFlightOf|done]. }
  intros ? s7 H7. eapply runs_seq; [exact (Hrsu s7 H7)|]. intros ? s8 H8.
  eapply runs_seq; [exact (Htr s8 H8)|]. intros ? s9 H9. eapply runs_seq; [exact (Hrst s9 H9)|]. intros ? s10 H10.
  eapply runs_seq; [exact (Hfl s10 H10)|]. intros [] s11 H11; [apply runs_ret; by apply T_balance, H11|].
  eapply runs_seq; [exact (Hun s11 H11)|]. intros ? s12 H12. by apply U_release, H12.
Qed.
End frame_steps.

Lemma show_frame_balance objs tid b b' nh desc s endt :
  I ∅ objs s → live (shape objs) (KBuffer (BWlegl (Some (nh, desc)))) b' →
  (b' = b → owed b s = 0%nat) →
  (b' = b → ∀ n, (sv_asked s <= n < endt)%nat → Forall (hands_off (sb_of b s)) (sv_meanwhile s n)) →
  runs (show_frame hash_order tid b' nh desc)
    (λ _ t, (sv_asked t <= endt)%nat → bal b t = (bal b s + if (b' =? b)%Z then 1 else 0)%nat) s.
Proof.
  intros HI Hb H0 Hrs.
  assert (importable (BWlegl (Some (nh, desc))) = true) as Hh.
  { destruct HI as [(_&_&_&_&_&_&_&_&_&_&_&_&_&_&_&H&_) <-]. by eapply H. }
  assert (∀ t, bal b t = bal b s → runs (send (EvRelease b')) (λ _ t', (sv_asked t' <= endt)%nat →
    bal b t' = (bal b s + if (b' =? b)%Z then 1 else 0)%nat) t) as Hrel.
  { intros t Ht a t' E _. apply send_adds in E as ->. unfold bal, owed in *.
    cbn [sv_inFlight sv_releasedPending sv_releasing sv_events set_sv_events]. rewrite released_app.
    unfold released at 2. cbn. destruct (b' =? b); cbn; lia. }
  unfold show_frame. eapply runs_seq.
  { apply runs_conj; [apply runs_conj|].
    - apply safe_runs, safe_conj; [by apply (ok_OutputFor hash_order (D := ∅) (objs := objs) tid)|by apply OutputFor_live].
    - apply runs_keeps, (even_OutputFor b).
    - apply runs_conj; [apply runs_keeps, later_OutputFor|apply runs_keeps, OutputFor_cache]. }
  intros [out window] s1 [[[HI1 Hl1] [Eb1 Lo1]] [[La1 Er1] [Ec1 En1]]]. cbn [fst] in Hl1.
  destruct out as [out|]; [|apply runs_bind, runs_ret; by apply Hrel].
  apply runs_bind. eapply runs_seq.
  { apply runs_conj; [apply safe_runs; eapply safe_Watch; [exact Hord|exact HI1|by eexists]|].
    apply (runs_keeps (λ s s', s' = set_sv_watchedBuffers ({[b']} ∪ sv_watchedBuffers s) s)). by apply fkeeps_mod. }
  intros ? s2 [(HI2 & Hw2 & E2) Es2]. eapply runs_mono.
  { apply runs_conj; [apply runs_conj|].
    - apply safe_runs. by eapply (safe_Import b' nh desc).
    - apply Import_sb.
    - apply runs_conj; [apply runs_keeps, (even_Import b)|apply runs_keeps, later_Import]. }
  intros sb s3 [[(HI3 & E3 & Hsb) Hsb'] [[Eb3 Lo3] [La3 Er3]]]. cbn beta.
  assert (bal b s3 = bal b s) as Eb by (rewrite Eb3 Es2; exact Eb1).
  destruct sb as [sb|]; [|by apply Hrel].
  assert (sb = sb_of b' s) as ->.
  { rewrite (Hsb' sb eq_refl) Es2. unfold sb_of. cbn [sv_cache sv_nextSb set_sv_watchedBuffers]. by rewrite Ec1 En1. }
  eapply (attempts_runs objs out b b' (sb_of b' s) (bal b s) endt (sv_meanwhile s) window (sv_asked s)).
  - intros -> n Hn. by apply Hrs.
  - etrans; [exact La1|]. rewrite Es2 in La3. exact La3.
  - intros _. split; [rewrite Er3 Es2; exact Er1|]. split_and!.
    + split; [done|]. split; [|by apply Hsb]. intros id Hid. rewrite E3 E2. by apply Hl1.
    + done.
    + intros Hbb. specialize (H0 Hbb). rewrite Es2 in Lo3. change (owed b s3 <= owed b s1)%nat in Lo3. lia.
Qed.

(** ** A commit *)

Lemma fbind_inv {A B} (m : M A) (k : A → M B) s b s' :
  fbind m k s = Some (b, s') → ∃ a s1, m s = Some (a, s1) ∧ k a s1 = Some (b, s').
Proof. unfold fbind. destruct (m s) as [[a s1]|]; [|done]. eauto. Qed.
Lemma get_surface_at r s c u (Q : Surface → Server → Prop) :
  sv_objs s !! r = Some (mkRes c (OSurface u)) → Q u s → runs (get_surface r) Q s.
Proof. intros Hr HQ. apply safe_runs. by eapply safe_get_surface. Qed.
Lemma get_buffer_at r s c k (Q : BufferObj → Server → Prop) :
  sv_objs s !! r = Some (mkRes c (OBuffer k)) → Q k s → runs (get_buffer r) Q s.
Proof. intros Hr HQ. apply safe_runs. by eapply safe_get_buffer. Qed.
Lemma release_counts b b' s : runs (send (EvRelease b'))
  (λ _ t, bal b t = (bal b s + if (b' =? b)%Z then 1 else 0)%nat ∧ sv_objs t = sv_objs s) s.
Proof.
  intros a t E. apply send_adds in E as ->. split; [|done]. unfold bal, owed.
  cbn [sv_inFlight sv_releasedPending sv_releasing sv_events set_sv_events]. rewrite released_app.
  unfold released at 2. cbn. destruct (b' =? b); cbn; lia.
Qed.
(** What leaves the buffers, their imports and the time alone. *)
Definition plain (b : Z) (s s' : Server) : Prop :=
  even b s s' ∧ sv_cache s' = sv_cache s ∧ sv_nextSb s' = sv_nextSb s ∧ sv_asked s' = sv_asked s ∧
  sv_meanwhile s' = sv_meanwhile s.
#[local] Instance plain_pre b : PreOrder (plain b).
Proof.
  split; [by intros s; split_and!|]. intros s1 s2 s3 (E1&?&?&?&?) (E2&?&?&?&?).
  split; [by etrans|]. split_and!; congruence.
Qed.
Lemma plain_mod b f :
  (∀ s, sv_inFlight (f s) = sv_inFlight s) → (∀ s, sv_releasedPending (f s) = sv_releasedPending s) →
  (∀ s, sv_releasing (f s) = sv_releasing s) →
  (∀ s, sv_events (f s) = sv_events s) → (∀ s, sv_cache (f s) = sv_cache s) → (∀ s, sv_nextSb (f s) = sv_nextSb s) →
  (∀ s, sv_asked (f s) = sv_asked s) → (∀ s, sv_meanwhile (f s) = sv_meanwhile s) → fkeeps (plain b) (fmod f).
Proof. intros H1 H2 H3 H4 H5 H6 H7 H8. apply fkeeps_mod. intros s. split; [by apply even_same|]. by split_and!. Qed.
Lemma plain_get_obj b r : fkeeps (plain b) (get_obj r).
Proof. intros s a s' E. apply get_obj_same in E as ->. reflexivity. Qed.
#[local] Hint Resolve plain_get_obj : fkeeps.
#[local] Hint Extern 2 (fkeeps (plain _) (fmod _)) => (apply plain_mod; reflexivity) : fkeeps.
#[local] Hint Extern 2 (fkeeps (plain _) (upd_toplevel _ _)) => (apply plain_mod; reflexivity) : fkeeps.
Lemma plain_upd_surface b r f : fkeeps (plain b) (upd_surface r f).
Proof. unfold upd_surface, get_surface, put_obj. fkeeps_tac. Qed.
Lemma plain_NoteToplevelFrame b t : fkeeps (plain b) (NoteToplevelFrame t).
Proof. unfold NoteToplevelFrame, EmitToplevel. fkeeps_tac. Qed.
#[local] Hint Resolve plain_upd_surface plain_NoteToplevelFrame : fkeeps.

Definition has_current (r c : Z) (o : option Z) (s : Server) : Prop :=
  ∃ u, sv_objs s !! r = Some (mkRes c (OSurface u)) ∧ su_current u = o.
Lemma shm_none r c s : has_current r c None s → runs (commit_shm r) (λ _ t, t = s) s.
Proof.
  intros (u & Hu & E). unfold commit_shm. apply runs_bind. eapply get_surface_at; [done|]. rewrite E. by apply runs_ret.
Qed.
Lemma wlegl_none r c s : has_current r c None s → runs (commit_wlegl hash_order r) (λ _ t, t = s) s.
Proof.
  intros (u & Hu & E). unfold commit_wlegl. apply runs_bind. eapply get_surface_at; [done|]. rewrite E. by apply runs_ret.
Qed.
Lemma shm_shm b r c b' c' s :
  has_current r c (Some b') s → sv_objs s !! b' = Some (mkRes c' (OBuffer BShm)) →
  runs (commit_shm r) (λ _ t, bal b t = (bal b s + if (b' =? b)%Z then 1 else 0)%nat ∧ has_current r c None t) s.
Proof.
  intros (u & Hu & E) Hb. unfold commit_shm. apply runs_bind. eapply get_surface_at; [done|]. rewrite E.
  apply runs_bind. eapply get_buffer_at; [done|].
  eapply runs_seq.
  { apply runs_conj; [apply runs_keeps, (even_NoteToplevelInactive b)|].
    apply (runs_keeps (λ s s', sv_objs s' = sv_objs s)).
    assert (PreOrder (λ s s' : Server, sv_objs s' = sv_objs s)) by (split; [done|]; intros ? ? ? ? ?; congruence).
    unfold NoteToplevelInactive, EmitToplevel. repeat first [by apply fkeeps_mod|fkeeps_step]. }
  intros ? s1 [[E1 _] Eo1]. eapply runs_seq; [apply (release_counts b)|]. intros ? s2 [E2 Eo2].
  apply safe_runs. eapply safe_upd_surface; [by rewrite Eo2 Eo1|]. split.
  - rewrite -E1 -E2. done.
  - eexists. cbn [sv_objs set_sv_objs]. by rewrite lookup_insert_eq.
Qed.
Lemma shm_wlegl r c b' c' k s :
  has_current r c (Some b') s → sv_objs s !! b' = Some (mkRes c' (OBuffer (BWlegl k))) →
  runs (commit_shm r) (λ _ t, t = s) s.
Proof.
  intros (u & Hu & E) Hb. unfold commit_shm. apply runs_bind. eapply get_surface_at; [done|]. rewrite E.
  apply runs_bind. eapply get_buffer_at; [done|]. by apply runs_ret.
Qed.
Lemma wlegl_null b r c b' c' s :
  has_current r c (Some b') s → sv_objs s !! b' = Some (mkRes c' (OBuffer (BWlegl None))) →
  runs (commit_wlegl hash_order r) (λ _ t, plain b s t) s.
Proof.
  intros (u & Hu & E) Hb. unfold commit_wlegl. apply runs_bind. eapply get_surface_at; [done|]. rewrite E.
  apply runs_bind. eapply get_buffer_at; [done|]. apply runs_bind, runs_ret. apply runs_keeps, plain_upd_surface.
Qed.
Lemma wlegl_shown b r c b' c' nh desc s endt :
  wf ∅ s → has_current r c (Some b') s → sv_objs s !! b' = Some (mkRes c' (OBuffer (BWlegl (Some (nh, desc))))) →
  (b' = b → owed b s = 0%nat) →
  (b' = b → ∀ n, (sv_asked s <= n < endt)%nat → Forall (hands_off (sb_of b s)) (sv_meanwhile s n)) →
  runs (commit_wlegl hash_order r)
    (λ _ t, (sv_asked t <= endt)%nat → bal b t = (bal b s + if (b' =? b)%Z then 1 else 0)%nat) s.
Proof.
  intros Hwf (u & Hu & E) Hb H0 Hrs. unfold commit_wlegl. apply runs_bind. eapply get_surface_at; [done|]. rewrite E.
  apply runs_bind. eapply get_buffer_at; [done|].
  assert (live (shape (sv_objs s)) KSurface r) as Hl by (exists c; apply shape_surface; eauto).
  set (tid := su_toplevelId u).
  assert (ok ∅ (sv_objs s) (do! NoteInputSurface r in do! NoteToplevelSurface tid r in
    do! fmod (set_sv_firstFrame true) in NoteToplevelFrame tid)) as Hok.
  { apply ok_bind; [by apply ok_NoteInputSurface|intros _]. apply ok_bind; [by apply ok_NoteToplevelSurface|intros _].
    apply ok_bind; [by apply ok_core|intros _]. apply ok_NoteToplevelFrame. }
  assert (fkeeps (plain b) (do! NoteInputSurface r in do! NoteToplevelSurface tid r in
    do! fmod (set_sv_firstFrame true) in NoteToplevelFrame tid)) as Hp.
  { unfold NoteInputSurface, NoteToplevelSurface. fkeeps_tac. }
  intros [] t Ht Hend. apply fbind_inv in Ht as ([] & s2 & Hs2 & Ht). apply fbind_inv in Hs2 as ([] & sa & Ha & Hs2).
  apply fbind_inv in Hs2 as ([] & sb & Hsb & Hs2). apply fbind_inv in Hs2 as ([] & sc & Hsc & Hs2).
  apply fbind_inv in Hs2 as ([] & s1 & Hs1 & Hs2).
  assert ((do! NoteInputSurface r in do! NoteToplevelSurface tid r in
    do! fmod (set_sv_firstFrame true) in NoteToplevelFrame tid) s = Some (tt, s1)) as E1.
  { unfold fbind. by rewrite Ha Hsb Hsc Hs1. }
  destruct (safe_eq _ _ _ _ _ (Hok s (conj Hwf eq_refl)) E1) as [Hwf1 Ho1].
  destruct (Hp _ _ _ E1) as ([Eb1 Lo1] & Ec1 & En1 & Ea1 & Er1).
  assert (bal b s2 = (bal b s1 + if (b' =? b)%Z then 1 else 0)%nat) as Eb2.
  { eapply (show_frame_balance (sv_objs s) tid b b' nh desc s1 endt); [by split| | | |exact Hs2|].
    - exists c'. by apply shape_buffer.
    - intros Hbb. specialize (H0 Hbb). lia.
    - intros Hbb n Hn. rewrite Er1. unfold sb_of. rewrite Ec1 En1. apply Hrs; [done|]. lia.
    - destruct (plain_upd_surface b _ _ _ _ _ Ht) as (_ & _ & _ & Ea & _). lia. }
  destruct (plain_upd_surface b _ _ _ _ _ Ht) as ([Eb3 _] & _). lia.
Qed.

(** The buffer a commit takes from its client. *)
Definition committed (s : Server) (r : Z) : option Z :=
  match sv_objs s !! r with
  | Some (mkRes _ (OSurface u)) =>
      if ps_bufferChanged (su_pending u)
      then match ps_buffer (su_pending u) with
           | Some b => match sv_objs s !! b with
                       | Some (mkRes _ (OBuffer (BWlegl None))) => None
                       | _ => Some b
                       end
           | None => None
           end
      else None
  | _ => None
  end.
Definition takes (b : Z) (s : Server) (r : Z) : nat := if bool_decide (committed s r = Some b) then 1%nat else 0%nat.

Lemma commit_pending_runs b r c u s :
  sv_objs s !! r = Some (mkRes c (OSurface u)) →
  runs (commit_pending r) (λ _ t, plain b s t ∧
    has_current r c (if ps_bufferChanged (su_pending u) then ps_buffer (su_pending u) else su_current u) t ∧
    (∀ x, x ≠ r → sv_objs t !! x = sv_objs s !! x)) s.
Proof.
  intros Hu. apply runs_conj; [apply runs_keeps, plain_upd_surface|]. apply safe_runs.
  eapply safe_upd_surface; [done|]. split.
  - eexists. cbn [sv_objs set_sv_objs]. rewrite lookup_insert_eq. split; [done|]. by case_match.
  - intros x Hx. cbn [sv_objs set_sv_objs]. by rewrite lookup_insert_ne.
Qed.
Lemma even_callback b r : fkeeps (even b) (commit_callback r).
Proof. unfold commit_callback. fkeeps_tac. Qed.
Lemma later_callback r : fkeeps later (commit_callback r).
Proof.
  assert (fkeeps later (get_surface r)) as H1 by (unfold get_surface; fkeeps_tac).
  assert (∀ f, fkeeps later (upd_surface r f)) as H2 by (intros f; unfold upd_surface, put_obj; fkeeps_tac).
  unfold commit_callback. fkeeps_tac.
Qed.
Lemma commit_balance b c r s s' :
  good s → owns s c r is_surface = true →
  (committed s r = Some b → owed b s = 0%nat) →
  (committed s r = Some b → ∀ n, (sv_asked s <= n < sv_asked s')%nat → Forall (hands_off (sb_of b s)) (sv_meanwhile s n)) →
  SurfaceCommit hash_order r s = Some (tt, s') →
  bal b s' = (bal b s + takes b s r)%nat.
Proof.
  intros Hg Hown H0 Hrs HC. pose proof Hown as (u & Hu)%owns_surface. unfold SurfaceCommit in HC.
  apply fbind_inv in HC as ([] & s1 & E1 & HC). apply fbind_inv in HC as ([] & s2 & E2 & HC).
  apply fbind_inv in HC as ([] & s3 & E3 & E4).
  destruct (commit_pending_runs b r c u s Hu tt s1 E1) as (([Eb1 Lo1] & Ec1 & En1 & Ea1 & Er1) & Hcur & Hobj).
  pose proof (safe_eq _ _ _ _ _ (committing_pending s c r Hg Hown) E1) as Hc1.
  destruct (even_callback b r _ _ _ E4) as [Eb4 _]. destruct (later_callback r _ _ _ E4) as [L4 _].
  rewrite Eb4. clear Eb4 E4.
  assert (∀ o, (if ps_bufferChanged (su_pending u) then ps_buffer (su_pending u) else su_current u) = o →
    committed s r = match o with
      | Some b => match sv_objs s !! b with Some (mkRes _ (OBuffer (BWlegl None))) => None | _ => Some b end
      | None => None end) as Hcom.
  { intros o <-. unfold committed. rewrite Hu. case_match; [done|]. destruct Hg as [_ Hi]. by rewrite (Hi _ _ _ Hu). }
  destruct (if ps_bufferChanged (su_pending u) then _ else _) as [b'|]; specialize (Hcom _ eq_refl); cbn in Hcom.
  2: { apply (shm_none _ _ _ Hcur) in E2 as ->. apply (wlegl_none _ _ _ Hcur) in E3 as ->.
       unfold takes. rewrite Hcom. cbn. rewrite bool_decide_false; [|done]. lia. }
  pose proof Hcur as (u1 & Hu1 & Eu1). destruct (committing_current hash_order Hord s1 c r u1 b' Hc1 Hu1 Eu1) as [k Hk].
  assert (b' ≠ r) as Hbr by congruence. pose proof Hk as Hk0. rewrite (Hobj b' Hbr) in Hk0. rewrite Hk0 in Hcom.
  destruct k as [|[[nh desc]|]].
  - destruct (shm_shm b r c b' c s1 Hcur Hk tt s2 E2) as [Eb2 Hcur2]. apply (wlegl_none _ _ _ Hcur2) in E3 as ->.
    unfold takes. rewrite Hcom Eb2 Eb1. destruct (b' =? b) eqn:Ebb; bool_props.
    + subst. by rewrite bool_decide_true.
    + rewrite bool_decide_false; [done|]. congruence.
  - apply (shm_wlegl _ _ _ _ _ _ Hcur Hk) in E2 as ->.
    assert (bal b s3 = (bal b s1 + if (b' =? b)%Z then 1 else 0)%nat) as Eb3.
    { eapply (wlegl_shown b r c b' c nh desc s1 (sv_asked s')); [apply Hc1|done|done| | |exact E3|exact L4].
      - intros ->. specialize (H0 Hcom). lia.
      - intros -> n Hn. rewrite Er1. unfold sb_of. rewrite Ec1 En1. apply Hrs; [done|]. lia. }
    unfold takes. rewrite Hcom Eb3 Eb1. destruct (b' =? b) eqn:Ebb; bool_props.
    + subst. by rewrite bool_decide_true.
    + rewrite bool_decide_false; [done|]. congruence.
  - apply (shm_wlegl _ _ _ _ _ _ Hcur Hk) in E2 as ->.
    destruct (wlegl_null b r c b' c s1 Hcur Hk tt s3 E3) as ([Eb3 _] & _).
    unfold takes. rewrite Hcom Eb3 Eb1. rewrite bool_decide_false; [lia|done].
Qed.

(** ** Runs *)

Definition ends (b : Z) (a : Act) : bool :=
  match a with
  | AReq _ (RDestroy r) => r =? b
  | ADisconnect _ order => bool_decide (b ∈ order)
  | _ => false
  end.
(** The client commits [b] only when it owns it, and during the commit the render service
    does not hand back the very buffer that is being queued and no caller takes what is on
    the legacy output. *)
Definition hands_offb (sb : Z) (m : Meanwhile) : bool :=
  match m with MwHandBack sb' => negb (sb' =? sb) | MwCall LTake => false | MwCall _ => true end.
Lemma hands_offb_spec sb l : forallb (hands_offb sb) l = true → Forall (hands_off sb) l.
Proof.
  intros H. apply Forall_forall. intros m Hm. rewrite forallb_forall in H. specialize (H m (proj1 (list_elem_of_In _ _) Hm)).
  split; intros ->; cbn in H; [by rewrite Z.eqb_refl in H|done].
Qed.
Definition fair (b : Z) (a : Act) (s s' : Server) : bool :=
  match a with
  | AReq c (RCommit r) =>
      if req_ok s c (RCommit r) && bool_decide (committed s r = Some b)
      then Nat.eqb (owed b s) 0 &&
        forallb (λ n, forallb (hands_offb (sb_of b s)) (sv_meanwhile s n))
          (seq (sv_asked s) (sv_asked s' - sv_asked s))
      else true
  | _ => true
  end.
Fixpoint fair_run (b : Z) (l : list Act) (x : MState) : bool :=
  match l with
  | [] => true
  | a :: l => polite a x.1 && negb (ends b a) &&
      match step hash_order a x with
      | Some x' => fair b a x.1 x'.1 && fair_run b l x'
      | None => true
      end
  end.
(** How often [b] was committed. *)
Fixpoint commits (b : Z) (l : list Act) (x : MState) : nat :=
  match l with
  | [] => 0%nat
  | a :: l => (match a with
               | AReq c (RCommit r) => if req_ok x.1 c (RCommit r) then takes b x.1 r else 0
               | _ => 0
               end + match step hash_order a x with Some x' => commits b l x' | None => 0 end)%nat
  end.

Lemma on_server_even b (m : M unit) s th x' :
  fkeeps (even b) m → on_server m (s, th) = Some x' → bal b x'.1 = bal b s.
Proof.
  intros H. unfold on_server. cbn. destruct (m s) as [[[] s']|] eqn:E; [|done]. intros [= <-]. by destruct (H _ _ _ E).
Qed.
Lemma step_balance b a x x' :
  good x.1 → ends b a = false → fair b a x.1 x'.1 = true → step hash_order a x = Some x' →
  bal b x'.1 = (bal b x.1 + match a with
    | AReq c (RCommit r) => if req_ok x.1 c (RCommit r) then takes b x.1 r else 0 | _ => 0 end)%nat.
Proof.
  destruct x as [s th]. cbn [fst]. intros Hg He Hf. destruct a as [c q|c order| | | | |out rc|i|n]; cbn [step].
  - destruct (req_ok s c q) eqn:Eok.
    2: { intros [= <-]. cbn [fst]. destruct q; try lia. rewrite Eok. lia. }
    destruct q as [| | |r| | | | | | | | | | | |r]; try (intros E; eapply (on_server_even b) in E; [rewrite E; cbn [fst]; lia|by apply even_req]).
    + intros E. unfold on_server in E. cbn [fst run_req] in E.
      destruct (SurfaceCommit hash_order r s) as [[[] s']|] eqn:EC; [|done]. injection E as <-. cbn [fst] in Hf |- *.
      rewrite Eok. cbn in Eok.
      assert (committed s r = Some b → owed b s = 0%nat ∧
        ∀ n, (sv_asked s <= n < sv_asked s')%nat → Forall (hands_off (sb_of b s)) (sv_meanwhile s n)) as H.
      { intros Hc. unfold fair in Hf. cbn [req_ok] in Hf. rewrite Eok Hc bool_decide_true in Hf; [|done]. cbn [andb] in Hf.
        apply andb_prop in Hf as [H0%Nat.eqb_eq H1]. split; [done|]. intros n Hn.
        rewrite forallb_forall in H1. specialize (H1 n). rewrite in_seq in H1.
        apply hands_offb_spec, H1. lia. }
      eapply (commit_balance b c r s s'); [done|done|intros Hc; by apply H|intros Hc; by apply H|done].
    + intros E. eapply (on_server_even b) in E; [rewrite E; cbn [fst]; lia|]. cbn [run_req]. apply even_destroy. cbn in He. by bool_props.
  - case_bool_decide as E; [|intros [= <-]; cbn [fst]; lia]. intros E'. eapply (on_server_even b) in E'; [rewrite E'; cbn [fst]; lia|].
    cbn in He. apply bool_decide_eq_false in He. clear -He Hord. induction order as [|r l IH]; cbn [ffor].
    + apply fkeeps_ret; typeclasses eauto.
    + apply fkeeps_bind; [typeclasses eauto| |intros _].
      * apply even_destroy. intros Hrb. apply He. subst. by left.
      * apply IH. intros H. apply He. by right.
  - intros E. eapply (on_server_even b) in E; [rewrite E; cbn [fst]; lia|]. unfold NoteClientConnected. fkeeps_tac.
  - intros E. eapply (on_server_even b) in E; [rewrite E; cbn [fst]; lia|]. fkeeps_tac.
  - intros E. eapply (on_server_even b) in E; [rewrite E; cbn [fst]; lia|]. fkeeps_tac.
  - intros E. eapply (on_server_even b) in E; [rewrite E; cbn [fst]; lia|]. apply even_DrainPosted.
  - case_match; [|intros [= <-]; cbn [fst]; lia]. destruct (ReclaimReleased _ _) as [rb ops].
    intros E. eapply (on_server_even b) in E; [rewrite E; cbn [fst]; lia|]. fkeeps_tac.
  - destruct (ipc_section hash_order i s) as [[p s']|] eqn:E; [|done]. intros [= <-]. cbn. destruct (even_ipc b i _ _ _ E) as [E' _]. lia.
  - case_match; [|intros [= <-]; cbn [fst]; lia]. cbn. intros [= <-]. cbn. change (bal b (set_sv_posted ?q s)) with (bal b s). lia.
Qed.
Lemma run_balance b l x x' :
  good x.1 → fair_run b l x = true → run hash_order l x = Some x' → bal b x'.1 = (bal b x.1 + commits b l x)%nat.
Proof.
  revert x. induction l as [|a l IH]; intros x Hg Hf; cbn [run commits]; [intros [= <-]; lia|].
  cbn [fair_run] in Hf. apply andb_prop in Hf as [[Hp He%negb_true_iff]%andb_prop Hf].
  destruct (good_step hash_order Hord a x Hg Hp) as (x1 & E & Hg1). rewrite E in Hf |- *.
  apply andb_prop in Hf as [Hfa Hfl]. intros Hr. rewrite (IH x1 Hg1 Hfl Hr) (step_balance b a x x1 Hg He Hfa E). lia.
Qed.

(** C6: A buffer comes back exactly once.  Take a run in which a buffer is not destroyed,
    its client commits it only while it owns it, and during such a commit the render
    service does not hand back that very buffer and no caller takes what is on the legacy
    output ([ClearOutputSurface]).  Then the number of times it was committed is the number
    of releases sent for it plus the number the compositor still owes (in flight at the
    render service, waiting to be sent by the Wayland thread, or by a caller's thread): it
    is not lost, whatever flushes fail, windows and outputs come and go and the render
    service and callers do otherwise, and it is not released twice. *)
Theorem buffers_conserved cfg answers kenv others b l x :
  fair_run b l (Server_init cfg answers kenv others, []) = true →
  run hash_order l (Server_init cfg answers kenv others, []) = Some x →
  (released b (sv_events x.1) + owed b x.1 = commits b l (Server_init cfg answers kenv others, []))%nat.
Proof.
  intros Hf Hr. pose proof (run_balance b l (Server_init cfg answers kenv others, []) x (good_init _ _ _ _) Hf Hr) as H.
  cbn [fst] in H. unfold bal in H. change (owed b (Server_init cfg answers kenv others)) with 0%nat in H.
  change (released b (sv_events (Server_init cfg answers kenv others))) with 0%nat in H. lia.
Qed.
End buffers.

(** ** An example

    A frame is committed and its first flush fails; the queue is reset and the frame is
    queued again, shown, handed back and released; then it is committed once more. *)
Definition demo_walk (A : Type) (m : gmap Z A) : list (Z * A) := map_to_list m.
Lemma demo_walk_ok A (m : gmap Z A) : demo_walk A m ≡ₚ map_to_list m.
Proof. done. Qed.
(** Meanwhile callers detach the legacy output, and the render service hands back what it
    does not have. *)
Definition demo_others (n : nat) : list Meanwhile := [MwCall LDetach; MwHandBack 77].
Definition demo_answers (n : nat) : Z := if Nat.leb 9 n then 0 else 1.
Definition demo_start : MState :=
  (Server_init ServerConfig_default demo_answers (λ _, demo_kenv 21) demo_others, []).
Definition demo_frames : list Act :=
  [AReq 1 (RCreateSurface (Some 10)); AReq 1 (RGetXdgSurface (Some 11) 10); AReq 1 (RGetToplevel 11 (Some 12));
   AReq 1 (RSetAppId 12 (Some "waydroid.app.a"));
   AReq 1 (RCreateBuffer 30 (BWlegl (Some (demo_native, demo_desc HAL_RGB_565))));
   AIpc (IAttach "app.a" (Some 5) 720 1280); AThread 0; APosted;
   AReq 1 (RAttach 10 (Some 30)); AReq 1 (RCommit 10)].
Definition demo_shown : list Act :=
  demo_frames ++ [AReclaim (OutWindow 1) (Some 1); AReleases; AReq 1 (RAttach 10 (Some 30)); AReq 1 (RCommit 10);
    AIpc (ILegacy LTake); AIpc (ILegacy (LSend 0))].
Definition demo_at (l : list Act) : MState :=
  match run demo_walk l demo_start with Some x => x | None => demo_start end.
Lemma buffers_conserved_witness :
  (released 30 (sv_events (demo_at demo_shown).1) + owed 30 (demo_at demo_shown).1 = 2)%nat ∧
  released 30 (sv_events (demo_at demo_shown).1) = 1%nat.
Proof.
  split; [|vm_compute; reflexivity].
  apply (buffers_conserved demo_walk demo_walk_ok ServerConfig_default demo_answers (λ _, demo_kenv 21) demo_others 30
    demo_shown (demo_at demo_shown)); vm_compute; reflexivity.
Defined.

(** Why callers must keep off during the commit: the legacy output is cleared between
    [TrackInFlight] and [Flush].  The caller releases the buffer it finds in flight, the
    flushes to the output that is gone fail, and the commit releases it a second time. *)
Definition clear_now (n : nat) : list Meanwhile :=
  if Nat.eqb n 4 then [MwCall LDetach; MwCall LTake; MwCall (LSend 0)] else [].
Definition demo_legacy : list Act :=
  [AIpc (ILegacy LProducer);
   AReq 1 (RCreateSurface (Some 10)); AReq 1 (RGetXdgSurface (Some 11) 10); AReq 1 (RGetToplevel 11 (Some 12));
   AReq 1 (RSetAppId 12 (Some "waydroid.app.a"));
   AReq 1 (RCreateBuffer 30 (BWlegl (Some (demo_native, demo_desc HAL_RGB_565))));
   AReq 1 (RAttach 10 (Some 30)); AReq 1 (RCommit 10)].
Theorem cleared_commit_releases_twice :
  let x0 := (Server_init ServerConfig_default (λ n, if Nat.leb 6 n then 0 else 1) (λ _, demo_kenv 21) clear_now, []) in
  ∃ x, run demo_walk demo_legacy x0 = Some x ∧ commits demo_walk 30 demo_legacy x0 = 1%nat ∧
    released 30 (sv_events x.1) = 2%nat.
Proof.
  intros x0. exists (match run demo_walk demo_legacy x0 with Some x => x | None => x0 end).
  split_and!; vm_compute; reflexivity.
Qed.
